(* ===== verification/_CoqProject ===== *)
-Q . S2P
Prelude.v
Hoare.v
Queue.v
Pool.v
PoolRefines.v
Machine.v
Exception.v
ExceptionFacts.v
InterruptProps.v
Alu.v
AluProps.v
Tlb.v
TlbProps.v
Controller.v
DeviceState.v
Core.v
Dma.v
PifLut.v
Pif.v
SaveFormat.v
SummerCart.v
Bus.v
BusProps.v
LoadStore.v
LoadStoreProps.v
StoreProps.v
Cop.v
Registers.v
Interp.v
Boot.v
InterpProps.v
IdleProps.v
FetchProps.v
SlotProps.v
WfProps.v
DeviceWf.v
BootProps.v
DmaProps.v
PifProps.v
PakProps.v
RegisterProps.v
Rom.v
RomProps.v
Path.v
Cheats.v
CheatsProps.v
Movie.v
MovieProps.v
VcrState.v
Vcr.v
VcrFacts.v
VcrProps.v
VcrRewind.v
VcrSeek.v
VcrStart.v
VcrSafety.v
Savestate.v
SaveTasks.v
SavestateProps.v
SaveRoundtrip.v
SaveFaults.v
SaveExamples.v
Emulator.v
EmulatorProps.v
GamePlay.v
Life.v
LifeProps.v
Translate.v
CodeCache.v
Cached.v
CachedOps.v
CodeProps.v
BlockProps.v
CachedProps.v
CoresProps.v
CoherenceProps.v
