(* ===== verification/Prelude.v ===== *)
(** * mupen64-rr-lua: a verification development

    mupen64-rr-lua is a Nintendo 64 emulator for tool-assisted speedruns: a run is
    a movie, the sequence of controller samples the game reads, and everything
    depends on the movie being recorded, stored, rewound and played back exactly,
    and on the emulated console doing the same thing each time.  The program's core
    (src/src/Core) consists of

    - the R4300 processor (r4300/): interpreters and recompiler, coprocessor 0 with
      the TLB, the floating-point unit, the queue of interrupt events ordered by the
      processor's Count register (interrupt.cpp) and the exceptions (exception.cpp);
    - the memory map and the devices behind it (memory/): registers, transfers (DMA),
      the PIF with controllers, controller paks and EEPROM, flash RAM, the SD card
      cartridge; and savestates (memory/savestates.cpp);
    - the movie engine (r4300/vcr.cpp), which the PIF asks for every controller poll
      and which savestates freeze and unfreeze;
    - the cheats (cheats.cpp), executed once per frame, kept in layers so that a
      movie brings its own;
    - loading of ROM images (r4300/rom.cpp);

    with the Windows front end (src/src/Views.Win32) around it.

    ** Files

    Foundations.
    - [Prelude]: machine integers ([u8] to [s64]), C conditions, the monad of
      stateful code that can run into undefined behaviour, record updates,
      little-endian bytes, bit lemmas.
    - [Hoare]: triples and invariants for that monad, with the tactic [keeps_auto], and
      computations that do not meet a given fault ([spares], [ends]).

    Interrupts.
    - [Queue]: the specification of the interrupt event queue, a sorted list.
    - [Pool]: the queue as interrupt.cpp has it, nodes of a fixed pool linked by
      index; [PoolRefines]: each operation refines [Queue], through the class
      [EventQueue] both implement (laws: [EventQueueLaws]).
    - [Machine], [Exception]: the registers interrupts and exceptions use, and
      [gen_interrupt], [check_interrupt], [exception_general],
      [TLB_refill_exception] and what they call, over any [EventQueue];
      [ExceptionFacts], [InterruptProps]: what they do.

    Processor.
    - [Alu], [AluProps]: the integer instructions (special.cpp, regimm.cpp and the
      immediates), as the pure interpreter dispatches them and as recomp.cpp compiles
      them for the cached interpreter; signed arithmetic wraps, as the project's
      compiler has it.
    - [Tlb], [TlbProps]: tlb.cpp, memory/tlb.cpp: entries, look-up tables, address
      translation, the TLB instructions and ERET.
    - [LoadStore], [LoadStoreProps], [StoreProps]: the memory instructions.
    - [Cop]: the moves to and from coprocessors 0 and 1, floating-point loads, stores,
      branches; floating-point arithmetic is the class [Fpu].
    - [Interp]: pure_interp.cpp: fetching ([prefetch]), delay slots, branches, idle
      loops, dispatch, the main loop.  [InterpProps], [IdleProps], [FetchProps],
      [SlotProps]: branches, idle loops, fetching, exceptions in delay slots.
    - [Translate]: recomp.cpp without its code generation: what each instruction word
      becomes as an entry of a block.  [CodeCache]: the blocks, which pages of them are
      valid, and their translation (recomp.cpp, r4300.cpp).  [Cached], [CachedOps]: the
      cached interpreter on these (r4300.cpp, special.cpp, regimm.cpp, bc.cpp, cop0.cpp,
      cop1.cpp, memory/tlb.cpp).  What the rest of the console asks of the code cache
      (jumps, transfers into RDRAM, loading a savestate) is logged in [host_calls] and
      carried out behind it.  [CodeProps], [BlockProps], [CoherenceProps]: the code cache
      and translation; [CachedProps]: branches; [CoresProps]: the two interpreters agree.
    - [Boot], [BootProps]: [core_start] of r4300.cpp with the pure interpreter.
    - [WfProps], [DeviceWf]: the type invariant [core_ok] of the whole console and
      that instructions ([WfProps]) and devices ([DeviceWf]) keep it.

    Memory and devices.
    - [Controller], [DeviceState], [Core]: the state of the devices and of the whole
      console ([core]).
    - [Bus], [BusProps]: the dispatch of memory accesses, RDRAM and its byte order.
      What lies behind the device addresses is the class [Devices].
    - [Dma], [DmaProps]: dma.cpp and flashram.cpp.
    - [PifLut], [Pif], [PifProps], [PakProps]: pif.cpp and pif_lut.cpp.  The input
      plugin and the front end are the class [PifHost].
    - [SummerCart]: summercart.cpp.
    - [Registers], [RegisterProps]: the register handlers of memory.cpp, which make an
      instance of [Devices].  The other plugins are the class [Plugins].
    - [Rom], [RomProps]: rom.cpp.

    Movies and cheats.
    - [Path]: [str_nth_occurence], [get_path_for_new_movie] and
      [find_accompanying_file_for_movie] of vcr.cpp, with the MSVC path functions
      they rely on.
    - [Cheats], [CheatsProps]: cheats.cpp and the RDRAM accessors of core_api.h.
    - [Movie], [MovieProps]: the movie file: header layout (core_types.h), reading
      and writing (vcr.cpp).
    - [VcrState], [Vcr]: the movie engine, its globals as the record [vcr] and
      every function of vcr.cpp that changes them.  [VcrFacts]: lemmas on single
      steps and on sequences of polls.  [VcrProps], [VcrRewind], [VcrSeek],
      [VcrStart], [VcrSafety]: the theorems.

    Savestates.
    - [SaveFormat]: the memory images of structures and arrays (class [Struct], one
      instance per structure of core_types.h, tlb.h and flashram.cpp).
    - [Savestate]: savestates.cpp on the console and the movie engine together
      ([session]): saving, loading, the queue of tasks, the undo point; the copies of
      the SD card of summercart.cpp.  The queue's image is the class [SavedQueue].
    - [SavestateProps], [SaveRoundtrip]: a savestate restores the session;
      [SaveTasks]: the task queue; [SaveFaults]: where it does not restore it;
      [SaveExamples]: all of these on a concrete console.

    The whole.
    - [Emulator]: the console with the movie engine, the cheats and the savestate
      engine as the host of the PIF; their state travels beside the event queue.
      [EmulatorProps]: a transfer from the PIF delivers the engine's answer to RDRAM;
      [GamePlay]: what a running game sees of its movie, and its movie of it.
    - [Life], [LifeProps]: starting, closing and resetting the emulator with its two
      threads (r4300.cpp).

    ** How code corresponds to definitions

    Definitions have the names of the functions they model; a function that is
    split names its parts after what they do.  Globals are record fields, a
    function is a computation [M S A] on the record.  [Undef] is behaviour C++
    leaves undefined or that ends the process: indexing outside an array, a failed
    assertion, the invalid parameter handler, an uncaught exception, a loop that
    does not end.  Integers are kept at their width by [u8] ... [s64], [size_t] is
    64 bits wide.  Files are a map from paths to bytes.

    The emulated memories are finite maps from byte offsets to bytes, 0 where nothing
    was written.  RDRAM is kept as the host keeps it, words in little-endian order;
    accesses narrower than a word find their bytes by the exclusive or the code uses.
    Pointers to registers (the tables the memory map reads and writes through, the
    tables of floating-point registers) are values that name the cell.

    The engine's functions run under one recursive mutex, so each is one step.
    What they hand to other threads (resets, saving and loading savestates) is data
    in [pending], executed by [run_async] at any later time; calls of the host's
    callbacks and of the input plugin are logged in [calls].  What the engine asks
    of code outside the repository or of the user (dialogs, whether a file can be
    opened, plugin names, the movie section of a savestate file) is the parameter
    [host], and what a poll delivers the parameter [poll].

    ** What is shown

    - Movies: what is recorded of the first controller is what is played back, from
      the file; the file round-trips; parsing is safe on any bytes; a savestate rewinds
      the movie to where it was taken; seeking plays the samples up to its target and
      stops there; starting from reset yields a well-formed recording.  In every state
      reached between calls the movie in memory is consistent, so freezing it and the
      backup the user asks for stay inside the input vector.
    - The whole: a game that reads its one controller finds the samples of the movie in
      RDRAM during playback, and what it finds during recording is what the movie gets.
      The threads of the emulator are created and joined in pairs whatever the front end
      calls, as long as the processor does not stop by itself; a reset restarts the
      console and keeps the movie.
    - Savestates: what was saved loads into another session of the same ROM (pure
      interpreter, no SD card, events in order for the Count found there) and restores
      the movie and every saved register and memory; a load can be undone, because the
      undo point is taken before any task of the batch.
    - Interrupts: the pool-allocated queue refines the sorted list on every sequence
      of calls that never holds more than 128 events; [gen_interrupt] on every branch,
      with the interrupt taken when the raised lines ask for it, the timer alone apart.
    - Instructions: multiplication and division are exact; both interpreters compute
      the same as long as register 0 is not written, integer instructions one by one
      ([steps_agree]) and then with branches, jumps and Count as a simulation; loads and
      stores, aligned or not, access RDRAM as big-endian memory; branches and jumps (the
      linking ones of REGIMM and those on coprocessor 1 apart) go where the architecture
      says, with their delay slots; an exception in a delay slot restarts at the branch;
      skipping an idle loop (of five kinds) is the same as running it; ERET returns.
    - The code cache, for direct-mapped pages whose translation does not overrun the
      array: nothing done to it faults and valid pages have their entries, from the start
      on; translating a block ends and gives the instructions of memory; a store through
      the segment code runs in keeps translations and memory the same.
    - Memory accesses end after at most one address translation, whatever the TLB holds.
    - TLB: translation by the look-up tables is translation by the entries.
    - The type invariant: from start-up on, whatever the program does, every register
      holds a value of its width and memory holds bytes, as long as the plugins keep to
      their types and no savestate is loaded.
    - Devices: a cartridge transfer moves the bytes asked for, up to the end of the
      cartridge and one byte short of the end of RDRAM;
      saves to SRAM and controller paks are read back; the pak checksum is a CRC; PIF
      commands end; device registers are memory; interrupt masks act at once.
    - ROM images load alike in their three byte orders.
    - Cheats: the file round-trips, conditional codes guard the next write.
    - Faults of the code, each with the theorem that exhibits it: flash saves are
      lost, a restart leaves write mappings, a cached ROM keeps the header of the
      image loaded before, backups are cut before they are written, loading a savestate
      can reorder events and leaves stale translations, a processor that stops by itself
      makes the next start end the process, translating a block can overrun its array,
      stores through the other segment leave stale code, and others.  Stopping an
      interpreter while an interrupt is due is [Undef] in [dyna_stop]: a [longjmp]
      through a buffer that only the recompiler fills.

    Loops are structural where the code walks a list.  The walks along the pool's
    links have fuel 129: there are 128 nodes, so an acyclic list needs at most 129
    tests, and [PoolRefines] proves that the fuel is never used up.  The search for
    companion files has one round per character of the name and one more, which
    [Path] proves enough.  A memory access retries once after a translation, and so
    does a fetch: fuel 2, proved enough in [BusProps] and [FetchProps].  The loops over
    PIF commands have fuel 64, one round per byte of PIF RAM, proved enough in
    [PifProps].  A delay slot may hold another branch: the nesting [exec] follows is
    its argument.  The main loop of the interpreter does not end by itself: the number
    of its rounds is an argument, and what is shown holds for any.  [init_block] calls
    itself for the physical page and for that page's mirror: depth 3, proved enough in
    [CodeProps]; the loop of [recompile_block] has a round per entry of the array, proved
    enough in [BlockProps]; entries of a block call one another (a branch its delay slot),
    and the nesting is again an argument of [exec].

    ** What is not modelled

    Log messages and message texts; the front end; the recompiler, which emits x86
    code; floating-point arithmetic, which is host assembly; the trace log, which wraps
    the entries of blocks; the hash of a page (xxHash, a parameter); the handlers of the frame-buffer extension of video
    plugins; plugins. *)

From stdpp Require Export base numbers list option strings gmap.
From Stdlib Require Export ZArith Lia.

Declare Scope mach_scope.
Delimit Scope mach_scope with mach.
#[global] Open Scope Z_scope.

(** ** Machine integers

    A [w]-bit C integer is a [Z]; [uN] is the conversion to [uintN_t] (reduction
    modulo 2^N) and [sN] the conversion to [intN_t] (two's complement). *)

Definition u8 (z : Z) : Z := z mod 256.
Definition u16 (z : Z) : Z := z mod 65536.
Definition u32 (z : Z) : Z := z mod 4294967296.
Definition u64 (z : Z) : Z := z mod 18446744073709551616.

Definition s8 (z : Z) : Z := (z + 128) mod 256 - 128.
Definition s16 (z : Z) : Z := (z + 32768) mod 65536 - 32768.
Definition s32 (z : Z) : Z := (z + 2147483648) mod 4294967296 - 2147483648.
Definition s64 (z : Z) : Z :=
  (z + 9223372036854775808) mod 18446744073709551616 - 9223372036854775808.

Definition is_u8 (z : Z) : Prop := 0 <= z < 256.
Definition is_u32 (z : Z) : Prop := 0 <= z < 4294967296.
Definition is_u64 (z : Z) : Prop := 0 <= z < 18446744073709551616.
Definition is_s32 (z : Z) : Prop := -2147483648 <= z < 2147483648.
Definition is_s64 (z : Z) : Prop :=
  -9223372036854775808 <= z < 9223372036854775808.

(** C's [if (x)] on an integer. *)
Definition c_true (z : Z) : bool := negb (z =? 0).

(** [a & b] tested as a condition. *)
Definition has_bits (a b : Z) : bool := c_true (Z.land a b).

Notation "a '+32' b" := (u32 (a + b)) (at level 50, left associativity) : mach_scope.
Notation "a '-32' b" := (u32 (a - b)) (at level 50, left associativity) : mach_scope.

(** [width_lia]: linear arithmetic over the fixed-width wrappers. *)
Ltac unfold_widths :=
  unfold u8, u16, u32, u64, s8, s16, s32, s64, is_u8, is_u32, is_u64, is_s32, is_s64 in *.
Ltac width_lia := unfold_widths; Z.div_mod_to_equations; lia.

(** Case analysis on the boolean comparisons of the code. *)
Ltac case_cmp :=
  match goal with
  | |- context [ (?a <? ?b)%Z ] => destruct (Z.ltb_spec a b)
  | |- context [ (?a <=? ?b)%Z ] => destruct (Z.leb_spec a b)
  | |- context [ (?a =? ?b)%Z ] => destruct (Z.eqb_spec a b)
  | |- context [ (?a <? ?b)%nat ] => destruct (Nat.ltb_spec a b)
  | |- context [ (?a <=? ?b)%nat ] => destruct (Nat.leb_spec a b)
  | |- context [ (?a =? ?b)%nat ] => destruct (Nat.eqb_spec a b)
  end.

Create HintDb mach discriminated.
Create Rewrite HintDb mach.

Section Widths.
Implicit Types z a b : Z.

Lemma u32_range z : is_u32 (u32 z).
Proof. width_lia. Qed.
Lemma u64_range z : is_u64 (u64 z).
Proof. width_lia. Qed.
Lemma s32_range z : is_s32 (s32 z).
Proof. width_lia. Qed.
Lemma s64_range z : is_s64 (s64 z).
Proof. width_lia. Qed.
Lemma u8_range z : is_u8 (u8 z).
Proof. width_lia. Qed.

Lemma u32_id z : is_u32 z -> u32 z = z.
Proof. width_lia. Qed.
Lemma u64_id z : is_u64 z -> u64 z = z.
Proof. width_lia. Qed.
Lemma s32_id z : is_s32 z -> s32 z = z.
Proof. width_lia. Qed.
Lemma s64_id z : is_s64 z -> s64 z = z.
Proof. width_lia. Qed.
Lemma u8_id z : is_u8 z -> u8 z = z.
Proof. width_lia. Qed.

Lemma s32_u32 z : s32 (u32 z) = s32 z.
Proof. width_lia. Qed.
Lemma u32_s32 z : u32 (s32 z) = u32 z.
Proof. width_lia. Qed.
Lemma s64_u64 z : s64 (u64 z) = s64 z.
Proof. width_lia. Qed.
Lemma u64_s64 z : u64 (s64 z) = u64 z.
Proof. width_lia. Qed.
Lemma s32_s64 z : s32 (s64 z) = s32 z.
Proof. width_lia. Qed.

Lemma u32_sub_add a b : is_u32 b -> u32 (a + u32 (b - a)) = b.
Proof. width_lia. Qed.
End Widths.

#[export] Hint Resolve u32_range u64_range s32_range s64_range u8_range : mach.
#[export] Hint Rewrite s32_u32 u32_s32 s64_u64 u64_s64 s32_s64 : mach.
#[export] Hint Rewrite u32_id u64_id s32_id s64_id using (assumption || width_lia) : mach.

(** ** Bits *)

Lemma lor_bound n a b : 0 <= n -> 0 <= a < 2 ^ n -> 0 <= b < 2 ^ n -> 0 <= Z.lor a b < 2 ^ n.
Proof.
  intros Hn Ha Hb. replace (Z.lor a b) with (Z.lor a b mod 2 ^ n) by
    (rewrite <- Z.land_ones, Z.land_lor_distr_l, !Z.land_ones, !Z.mod_small by lia; done).
  apply Z.mod_pos_bound. lia.
Qed.

Lemma has_bits_shiftl a k : 0 <= k -> has_bits a (Z.shiftl 1 k) = Z.testbit a k.
Proof.
  intros Hk. unfold has_bits, c_true. rewrite Z.shiftl_1_l.
  destruct (Z.testbit a k) eqn:E.
  - apply negb_true_iff, Z.eqb_neq. intros H.
    assert (Z.testbit (Z.land a (2 ^ k)) k = true) as T
      by (rewrite Z.land_spec, E, Z.pow2_bits_true by done; done).
    by rewrite H, Z.bits_0 in T.
  - apply negb_false_iff, Z.eqb_eq, Z.bits_inj'. intros j Hj.
    rewrite Z.land_spec, Z.bits_0. destruct (Z.eq_dec j k) as [->|Hne]; [by rewrite E|].
    rewrite Z.pow2_bits_false by done. apply andb_false_r.
Qed.

Lemma testbit_if_lor (b : bool) f m k :
  Z.testbit (if b then Z.lor f m else f) k = Z.testbit f k || (b && Z.testbit m k).
Proof. destruct b; [apply Z.lor_spec|by rewrite orb_false_r]. Qed.

(** Disjoint bits add up. *)
Lemma land_shift_disjoint k q x : 0 <= k -> 0 <= x < 2 ^ k -> Z.land (q * 2 ^ k) x = 0.
Proof.
  intros Hk Hx. apply Z.bits_inj'. intros n Hn.
  rewrite Z.land_spec, Z.bits_0. destruct (Z.ltb_spec n k).
  - by rewrite Z.mul_pow2_bits_low.
  - rewrite <- (Z.mod_small x (2 ^ k)), Z.mod_pow2_bits_high by lia. apply andb_false_r.
Qed.

Lemma lor_add_shift k q x : 0 <= k -> 0 <= x < 2 ^ k -> Z.lor (q * 2 ^ k) x = q * 2 ^ k + x.
Proof. intros Hk Hx. symmetry. by apply Z.add_nocarry_lor, land_shift_disjoint. Qed.

(** Exclusive or with a small number changes the low bits only. *)
Lemma lxor_low k q x m :
  0 <= k -> 0 <= x < 2 ^ k -> 0 <= Z.lxor x m < 2 ^ k -> Z.lxor (q * 2 ^ k + x) m = q * 2 ^ k + Z.lxor x m.
Proof.
  intros Hk Hx Hm. rewrite (Z.add_nocarry_lxor _ x), (Z.add_nocarry_lxor _ (Z.lxor x m));
    [apply Z.lxor_assoc|by apply land_shift_disjoint..].
Qed.

(** The byte and halfword positions within a 32-bit word. *)
Lemma lxor_3 y : Z.lxor y 3 = 4 * (y / 4) + (3 - y mod 4).
Proof.
  rewrite (Z.div_mod y 4) at 1 by done. rewrite (Z.mul_comm 4).
  assert (y mod 4 = 0 \/ y mod 4 = 1 \/ y mod 4 = 2 \/ y mod 4 = 3) as Hc
    by (pose proof (Z.mod_pos_bound y 4); lia).
  destruct Hc as [-> | [-> | [-> | ->]]]; rewrite (lxor_low 2) by (vm_compute; intuition congruence); change (2 ^ 2) with 4;
    match goal with |- context [Z.lxor ?a ?b] => let v := eval vm_compute in (Z.lxor a b) in
                      change (Z.lxor a b) with v end; Z.div_mod_to_equations; lia.
Qed.

Lemma lxor_2 y : Z.lxor y 2 = 4 * (y / 4) + (y mod 4 + 2) mod 4.
Proof.
  rewrite (Z.div_mod y 4) at 1 by done. rewrite (Z.mul_comm 4).
  assert (y mod 4 = 0 \/ y mod 4 = 1 \/ y mod 4 = 2 \/ y mod 4 = 3) as Hc
    by (pose proof (Z.mod_pos_bound y 4); lia).
  destruct Hc as [-> | [-> | [-> | ->]]]; rewrite (lxor_low 2) by (vm_compute; intuition congruence); change (2 ^ 2) with 4;
    match goal with |- context [Z.lxor ?a ?b] => let v := eval vm_compute in (Z.lxor a b) in
                      change (Z.lxor a b) with v end; Z.div_mod_to_equations; lia.
Qed.

Lemma land_split x m n : Z.land m n = 0 -> Z.land x m + Z.land x n = Z.land x (Z.lor m n).
Proof.
  intros Hmn. rewrite Z.land_lor_distr_r. apply Z.add_nocarry_lor, Z.bits_inj'. intros i _.
  assert (Z.testbit (Z.land m n) i = false) as Hi by (rewrite Hmn; apply Z.bits_0).
  rewrite Z.bits_0, !Z.land_spec in *. destruct (Z.testbit x i), (Z.testbit m i), (Z.testbit n i); done.
Qed.

Lemma land_le_mask x m : 0 <= m -> 0 <= Z.land x m <= m.
Proof.
  intros Hm. pose proof (land_split m x (Z.lnot x) (Z.land_lnot_diag x)) as E.
  rewrite Z.lor_lnot_diag, Z.land_m1_r, (Z.land_comm m x) in E.
  assert (0 <= Z.land m (Z.lnot x)) by (apply Z.land_nonneg; by left).
  assert (0 <= Z.land x m) by (apply Z.land_nonneg; by right). lia.
Qed.

(** ** Record update

    [r <| f := v |>] is the record [r] with field [f] set to [v].  A record type
    registers its eta-expansion as an [Eta] instance; the updater of a field is
    derived from it by abstracting the projection. *)

Class Eta (R : Type) := eta : R -> R.
Class FieldOf {R T : Type} (proj : R -> T) := upd_field : (T -> T) -> R -> R.

Ltac derive_field :=
  lazymatch goal with
  | |- @FieldOf ?R ?T ?proj =>
      let inst := constr:(_ : Eta R) in
      let body := eval red in inst in
      let pat := eval pattern proj in body in
      lazymatch pat with
      | ?build _ => exact (fun (f : T -> T) (r : R) => build (fun x => f (proj x)) r)
      end
  end.
#[export] Hint Extern 0 (FieldOf _) => derive_field : typeclass_instances.

Notation "r <| f := v |>" := (upd_field (proj := f) (fun _ => v) r)
  (at level 1, f at next level, left associativity,
   format "r  <|  f  :=  v  |>").

(** Reduce projections of updated records. *)
Ltac simpl_upd := unfold upd_field in *; cbn in *.

(** ** Outcomes and the state monad

    Code that reads past an array, dereferences a null pointer, pops an empty
    stack or reads an empty [std::optional] has no defined result in C++, and code
    that fails an assertion, calls the C runtime's invalid-parameter handler, lets
    an exception escape or loops has no result at all: such a run is [Undef] with
    its reason. *)

Inductive fault : Set :=
| OutOfBounds
| NullDeref
| DanglingPointer
| Uninitialized
| EmptyContainer
| AssertFailed
| InvalidParameter
| UncaughtException
| DivideOverflow
| DivideByZero
| Terminates
| Diverges.

Inductive outcome (A : Type) : Type :=
| Ret (a : A)
| Undef (f : fault).
Arguments Ret {A} _.
Arguments Undef {A} _.

Definition is_ret {A} (o : outcome A) : bool :=
  match o with Ret _ => true | Undef _ => false end.

Definition obind {A B} (o : outcome A) (k : A -> outcome B) : outcome B :=
  match o with Ret a => k a | Undef f => Undef f end.

(** State-passing code: [M S A] reads and updates the globals [S]. *)
Definition M (S A : Type) : Type := S -> outcome (A * S).
Definition ret {S A} (a : A) : M S A := fun s => Ret (a, s).
Definition bind {S A B} (m : M S A) (k : A -> M S B) : M S B :=
  fun s => obind (m s) (fun '(a, s') => k a s').
Definition get {S} : M S S := fun s => Ret (s, s).
Definition modify {S} (f : S -> S) : M S unit := fun s => Ret (tt, f s).
Definition undef {S A} (f : fault) : M S A := fun _ => Undef f.
Definition when {S} (b : bool) (m : M S unit) : M S unit :=
  if b then m else ret tt.

Declare Scope prog_scope.
Delimit Scope prog_scope with prog.
Notation "x <-- m ;;; k" := (bind m (fun x => k))
  (at level 100, m at next level, right associativity) : prog_scope.
Notation "m ;;; k" := (bind m (fun _ => k))
  (at level 100, right associativity) : prog_scope.

(** Run a command on a state. *)
Definition exec {S A} (m : M S A) (s : S) : outcome S :=
  obind (m s) (fun '(_, s') => Ret s').

Section MonadLaws.
Context {S : Type}.

Lemma bind_ret_l {A B} (a : A) (k : A -> M S B) s : bind (ret a) k s = k a s.
Proof. reflexivity. Qed.

Lemma bind_get_l {B} (k : S -> M S B) s : bind get k s = k s s.
Proof. reflexivity. Qed.

Lemma bind_modify_l {B} f (k : unit -> M S B) s :
  bind (modify f) k s = k tt (f s).
Proof. reflexivity. Qed.

Lemma bind_Ret {A B} (m : M S A) (k : A -> M S B) s a s' :
  m s = Ret (a, s') -> bind m k s = k a s'.
Proof. unfold bind. by intros ->. Qed.

Lemma bind_inv {A B} (m : M S A) (k : A -> M S B) s r :
  bind m k s = Ret r -> exists a s', m s = Ret (a, s') /\ k a s' = Ret r.
Proof. unfold bind, obind. destruct (m s) as [[a s']|]; naive_solver. Qed.

Lemma bind_ext {A B} (m : M S A) (k1 k2 : A -> M S B) s :
  (forall a s', m s = Ret (a, s') -> k1 a s' = k2 a s') -> bind m k1 s = bind m k2 s.
Proof. intros H. unfold bind, obind. destruct (m s) as [[a s']|]; [by apply H|done]. Qed.

Lemma bind_cong {A B} (m1 m2 : M S A) (k : A -> M S B) s :
  (forall s, m1 s = m2 s) -> bind m1 k s = bind m2 k s.
Proof. intros H. unfold bind. by rewrite H. Qed.

Lemma bind_assoc {A B C} (m : M S A) (k : A -> M S B) (h : B -> M S C) s :
  bind (bind m k) h s = bind m (fun a => bind (k a) h) s.
Proof. unfold bind, obind. by destruct (m s) as [[??]|]. Qed.
End MonadLaws.

Create Rewrite HintDb monad.
#[export] Hint Rewrite @bind_ret_l @bind_get_l @bind_modify_l @bind_assoc : monad.

(** [run_step]: advance a monadic run whose head is a pure step. *)
Ltac run_step := repeat (autorewrite with monad; cbn [fst snd]).

(** ** Weakest preconditions: total correctness of monadic code

    [wp c P s]: run from [s], [c] is defined and its result and final state
    satisfy [P]. *)

Definition wp {S A} (c : M S A) (P : A -> S -> Prop) (s : S) : Prop :=
  match c s with Ret (a, s') => P a s' | Undef _ => False end.

Section Wp.
Context {S : Type}.

Lemma wp_exists {A} (c : M S A) P s :
  wp c P s <-> exists a s', c s = Ret (a, s') /\ P a s'.
Proof. unfold wp. destruct (c s) as [[a s']|]; naive_solver. Qed.

Lemma wp_ret {A} (a : A) (P : A -> S -> Prop) s : P a s -> wp (ret a) P s.
Proof. done. Qed.

Lemma wp_get (P : S -> S -> Prop) s : P s s -> wp get P s.
Proof. done. Qed.

Lemma wp_modify f (P : unit -> S -> Prop) s : P tt (f s) -> wp (modify f) P s.
Proof. done. Qed.

Lemma wp_bind {A B} (c : M S A) (k : A -> M S B) P s :
  wp c (fun a s' => wp (k a) P s') s -> wp (bind c k) P s.
Proof. unfold wp, bind, obind. by destruct (c s) as [[a s']|]. Qed.

Lemma wp_when b (c : M S unit) P s :
  (b = true -> wp c P s) -> (b = false -> P tt s) -> wp (when b c) P s.
Proof. destruct b; intros H1 H2; [by apply H1|by apply H2]. Qed.

Lemma wp_mono {A} (c : M S A) (P R : A -> S -> Prop) s :
  wp c P s -> (forall a s', P a s' -> R a s') -> wp c R s.
Proof. unfold wp. destruct (c s) as [[a s']|]; eauto. Qed.

Lemma wp_Ret {A} (c : M S A) P s a s' : c s = Ret (a, s') -> P a s' -> wp c P s.
Proof. unfold wp. by intros ->. Qed.

Lemma wp_inv {A} (c : M S A) P s a s' : wp c P s -> c s = Ret (a, s') -> P a s'.
Proof. unfold wp. intros H E. by rewrite E in H. Qed.
End Wp.

(** [wp_go]: symbolic execution of the pure steps; the intermediate states are
    named. *)
Ltac wp_step :=
  lazymatch goal with
  | |- wp (bind _ _) _ _ => apply wp_bind
  | |- wp (ret _) _ _ => apply wp_ret
  | |- wp get _ _ => apply wp_get
  | |- wp (modify ?f) ?P ?s =>
      apply wp_modify;
      let s' := fresh "s" in
      pose (s' := f s); change (P tt s'); cbv beta in s'
  end; cbv beta.
Ltac wp_go := repeat wp_step.

(** Decide the condition of the branch the execution is at: it is evaluated on
    the symbolic state, and split on when it is not a constant. *)
Ltac eval_cond b :=
  eval lazy -[Z.eqb Z.ltb Z.leb Nat.eqb Nat.ltb c_true has_bits Z.land Z.lor u32] in b.
Ltac wp_branch :=
  let split_on b k :=
    let b' := eval_cond b in
    change b with b';
    lazymatch b' with
    | true => k
    | false => k
    | _ => let E := fresh "E" in destruct b' eqn:E; k
    end in
  lazymatch goal with
  | |- wp (if ?b then _ else _) _ _ => split_on b ltac:(cbv iota)
  | |- wp (when ?b _) _ _ => split_on b ltac:(cbv beta iota delta [when])
  end.
Ltac wp_exec := repeat first [wp_step | wp_branch].

(** Replace the projection [p] of an updated state by that of the original
    state [m], where the updates do not touch it. *)
Ltac keep p m :=
  repeat match goal with
  | |- context [p ?x] => lazymatch x with m => fail | _ => change (p x) with (p m) end
  end.

(** ** Bytes and little-endian words *)

Fixpoint le_split (n : nat) (z : Z) : list Z :=
  match n with
  | O => []
  | S n => u8 z :: le_split n (Z.shiftr z 8)
  end.

Fixpoint le_combine (l : list Z) : Z :=
  match l with
  | [] => 0
  | b :: t => b + 256 * le_combine t
  end.

Section LittleEndian.
Lemma length_le_split n z : length (le_split n z) = n.
Proof. revert z. induction n; intros; simpl; auto. Qed.

Lemma pow_256 n : 256 ^ n = 2 ^ (8 * n).
Proof. destruct (Z.neg_nonneg_cases n); [rewrite !Z.pow_neg_r by lia; done|]. by rewrite Z.pow_mul_r by lia. Qed.

Lemma le_combine_split n z :
  le_combine (le_split n z) = z mod 256 ^ (Z.of_nat n).
Proof.
  revert z. induction n as [|n IH]; intros z; [by rewrite Z.mod_1_r|].
  cbn [le_split le_combine]. rewrite IH, Z.shiftr_div_pow2 by lia.
  rewrite Nat2Z.inj_succ, Z.pow_succ_r by lia. change (2 ^ 8) with 256.
  rewrite Z.rem_mul_r by lia. reflexivity.
Qed.

Lemma le_split_bytes n z : Forall is_u8 (le_split n z).
Proof. revert z. induction n; intros; simpl; constructor; auto with mach. Qed.

Lemma le_combine_bound l :
  Forall is_u8 l -> 0 <= le_combine l < 256 ^ Z.of_nat (length l).
Proof.
  induction 1 as [|b t Hb Ht IH]; [done|]. cbn [le_combine length]. unfold is_u8 in Hb.
  rewrite Nat2Z.inj_succ, Z.pow_succ_r by lia. lia.
Qed.

Lemma le_split_combine l :
  Forall is_u8 l -> le_split (length l) (le_combine l) = l.
Proof.
  induction 1 as [|b t Hb Ht IH]; [done|]. cbn [length le_split le_combine].
  rewrite Z.shiftr_div_pow2 by lia. change (2 ^ 8) with 256.
  f_equal; [unfold u8, is_u8 in *; Z.div_mod_to_equations; lia|].
  replace ((b + 256 * le_combine t) / 256) with (le_combine t); [done|].
  unfold is_u8 in Hb. Z.div_mod_to_equations; lia.
Qed.
End LittleEndian.

Lemma le_split_lookup n v k : (k < n)%nat -> le_split n v !!! k = u8 (Z.shiftr v (8 * Z.of_nat k)).
Proof.
  revert v k. induction n as [|n IH]; intros v k Hk; [lia|]. destruct k as [|k]; [done|].
  change (le_split n (Z.shiftr v 8) !!! k = u8 (Z.shiftr v (8 * Z.of_nat (S k)))).
  rewrite IH by lia. rewrite Z.shiftr_shiftr by lia. do 2 f_equal. lia.
Qed.

(** ** Byte memories: absent bytes read zero *)

Definition byte_at (m : gmap Z Z) (off : Z) : Z := default 0 (m !! off).

Fixpoint load_bytes (n : nat) (off : Z) (m : gmap Z Z) : list Z :=
  match n with
  | O => []
  | S n => byte_at m off :: load_bytes n (off + 1) m
  end.

Fixpoint store_bytes (off : Z) (bytes : list Z) (m : gmap Z Z) : gmap Z Z :=
  match bytes with
  | [] => m
  | b :: rest => store_bytes (off + 1) rest (<[off := b]> m)
  end.

Lemma store_bytes_lookup off bytes m x :
  byte_at (store_bytes off bytes m) x =
    if (off <=? x) && (x <? off + Z.of_nat (length bytes))
    then bytes !!! Z.to_nat (x - off) else byte_at m x.
Proof.
  revert off m. induction bytes as [|b rest IH]; intros off m; cbn [store_bytes length].
  { destruct (Z.leb_spec off x), (Z.ltb_spec x (off + Z.of_nat 0)); try lia; done. }
  rewrite IH. unfold byte_at at 1. destruct (Z.eq_dec x off) as [->|Hne].
  - rewrite lookup_insert_eq. replace (off + 1 <=? off) with false by (symmetry; apply Z.leb_gt; lia).
    replace (off <=? off) with true by (symmetry; apply Z.leb_le; lia).
    replace (off <? off + Z.of_nat (S (length rest))) with true by (symmetry; apply Z.ltb_lt; lia).
    cbn [andb default]. by rewrite Z.sub_diag.
  - rewrite lookup_insert_ne by done.
    destruct (Z.leb_spec (off + 1) x), (Z.leb_spec off x); try lia; cbn [andb]; [|done].
    replace (off + 1 + Z.of_nat (length rest)) with (off + Z.of_nat (S (length rest))) by lia.
    destruct (_ <? _); [|done]. replace (Z.to_nat (x - off)) with (S (Z.to_nat (x - (off + 1)))) by lia. done.
Qed.

(** ** Character strings *)

Lemma str_app_assoc (a b c : string) :
  String.append (String.append a b) c = String.append a (String.append b c).
Proof. induction a as [|x a IH]; [done|]. exact (f_equal (String.String x) IH). Qed.

Lemma str_app_nil (a : string) : String.append a String.EmptyString = a.
Proof. induction a as [|x a IH]; [done|]. exact (f_equal (String.String x) IH). Qed.
