(* ===== verification/Hoare.v ===== *)
(** * A program logic for the state monad

    Triples for computations of [Prelude.M]: whatever is undefined satisfies every
    postcondition, so a triple says what holds if the code gets that far.  [keeps]
    is the special case of an invariant; the hint database [keeps] collects what
    is known of the operations, and [keeps_auto] proves invariance by following the
    structure of the code. *)

From S2P Require Import Prelude.

Open Scope prog_scope.

Section Triples.
Context {S : Type}.

Definition triple {A} (P : S -> Prop) (m : M S A) (Q : A -> S -> Prop) : Prop :=
  forall s, P s -> match m s with Ret (a, s') => Q a s' | Undef _ => True end.

Definition keeps {A} (P : S -> Prop) (m : M S A) : Prop := triple P m (fun _ => P).

Lemma triple_bind {A B} P (m : M S A) R (k : A -> M S B) Q :
  triple P m R -> (forall a, triple (R a) (k a) Q) -> triple P (bind m k) Q.
Proof.
  intros Hm Hk s Hs. specialize (Hm s Hs). unfold bind. destruct (m s) as [[a s']|]; [|done].
  exact (Hk a s' Hm).
Qed.

Lemma triple_conseq {A} P P' (m : M S A) (Q Q' : A -> S -> Prop) :
  triple P m Q -> (forall s, P' s -> P s) -> (forall a s, Q a s -> Q' a s) -> triple P' m Q'.
Proof.
  intros Hm HP HQ s Hs. specialize (Hm s (HP s Hs)). destruct (m s) as [[a s']|]; [by apply HQ|done].
Qed.

Lemma triple_modify P f (Q : unit -> S -> Prop) :
  (forall s, P s -> Q tt (f s)) -> triple P (modify f) Q.
Proof. intros Hf s Hs. by apply Hf. Qed.

Lemma triple_ret {A} P (a : A) (Q : A -> S -> Prop) : (forall s, P s -> Q a s) -> triple P (ret a) Q.
Proof. intros Hf s Hs. by apply Hf. Qed.

(** The state read is one that satisfies the precondition, and it is the current one. *)
Lemma triple_get {A} P (k : S -> M S A) Q :
  (forall s0, P s0 -> triple (fun s => s = s0) (k s0) Q) -> triple P (bind get k) Q.
Proof. intros Hk s Hs. exact (Hk s Hs s eq_refl). Qed.

Lemma keeps_get {A} P (k : S -> M S A) : (forall s0, P s0 -> keeps P (k s0)) -> keeps P (bind get k).
Proof. intros Hk s Hs. exact (Hk s Hs s Hs). Qed.

Lemma keeps_bind {A B} P (m : M S A) (k : A -> M S B) :
  keeps P m -> (forall a, keeps P (k a)) -> keeps P (bind m k).
Proof. exact (triple_bind P m (fun _ => P) k (fun _ => P)). Qed.

Lemma keeps_modify P f : (forall s, P s -> P (f s)) -> keeps P (modify f).
Proof. exact (triple_modify P f (fun _ => P)). Qed.

Lemma keeps_ret {A} P (a : A) : keeps P (ret a).
Proof. by apply triple_ret. Qed.

Lemma keeps_undef {A} P f : keeps P (undef f : M S A).
Proof. done. Qed.

Lemma keeps_when P b (m : M S unit) : keeps P m -> keeps P (when b m).
Proof. destruct b; [done|]. intros _. apply keeps_ret. Qed.

(** What an invariant says of a run. *)
Lemma keeps_run {A} P (m : M S A) s a s' : keeps P m -> P s -> m s = Ret (a, s') -> P s'.
Proof. intros Hm Hs E. specialize (Hm s Hs). by rewrite E in Hm. Qed.
End Triples.

(** From a state with [P] the computation does not meet the fault [bad]; without a fault
    it ends in a state and with a result satisfying [R]. *)
Definition spares {S A} (bad : fault) (P : S -> Prop) (m : M S A) (R : A -> S -> Prop) : Prop :=
  forall s, P s -> match m s with Ret (a, s') => R a s' | Undef f => f <> bad end.

Section Spares.
Context {S : Type} (bad : fault).
Implicit Types P : S -> Prop.

Lemma spares_bind {A B} P (m : M S A) R (k : A -> M S B) T :
  spares bad P m R -> (forall a, spares bad (R a) (k a) T) -> spares bad P (bind m k) T.
Proof.
  intros Hm Hk s Hs. specialize (Hm s Hs). unfold bind. destruct (m s) as [[a s']|f]; [|exact Hm]. exact (Hk a s' Hm).
Qed.
Lemma spares_seq {A B} P (m : M S A) (k : A -> M S B) T :
  spares bad P m (fun _ => P) -> (forall a, spares bad P (k a) T) -> spares bad P (bind m k) T.
Proof. apply spares_bind. Qed.
Lemma spares_get {A} P (k : S -> M S A) T : (forall s0, P s0 -> spares bad P (k s0) T) -> spares bad P (bind get k) T.
Proof. intros Hk s Hs. exact (Hk s Hs s Hs). Qed.
Lemma spares_modify P f : (forall s, P s -> P (f s)) -> spares bad P (modify f) (fun _ => P).
Proof. intros Hf s Hs. by apply Hf. Qed.
Lemma spares_ret {A} P (a : A) : spares bad P (ret a) (fun _ => P).
Proof. intros s Hs. exact Hs. Qed.
Lemma spares_undef {A} P f T : f <> bad -> spares bad P (undef f : M S A) T.
Proof. intros Hf s _. exact Hf. Qed.
Lemma spares_when P b (m : M S unit) : spares bad P m (fun _ => P) -> spares bad P (when b m) (fun _ => P).
Proof. destruct b; [done|intros _; apply spares_ret]. Qed.
End Spares.

(** The computation ends. *)
Abbreviation ends := (spares Diverges).

Create HintDb ends.
#[export] Hint Resolve spares_ret spares_when : ends.

(** One step through a computation that is to end; [leaf] is tried on the operations
    the caller knows. *)
Ltac ends_step leaf :=
  match goal with
  | |- ends _ (bind get _) _ => apply spares_get; intros ? ?
  | |- ends _ (bind _ _) _ => apply spares_seq; [|intros ?]
  | |- ends _ (match ?x with _ => _ end) _ => destruct x
  | |- ends _ (when _ _) _ => apply spares_when
  | |- ends _ (undef _) _ => apply spares_undef; discriminate
  | _ => leaf ()
  end.
Ltac ends_by leaf := repeat first [solve [eauto 4 with ends] | ends_step leaf | progress cbv zeta].

Create HintDb keeps.
#[export] Hint Resolve keeps_ret keeps_undef : keeps.

(** One step along the structure of the code; a state update keeps an invariant on
    other components by conversion. *)
Ltac keep_step :=
  match goal with
  | |- keeps _ (bind get _) => apply keeps_get; intros ? ?
  | |- keeps _ (bind _ _) => apply keeps_bind; [|intros ?]
  | |- keeps _ (when _ _) => apply keeps_when
  | |- keeps _ (if ?b then _ else _) => destruct b eqn:?
  | |- keeps _ (match ?x with _ => _ end) => destruct x eqn:?
  | |- keeps _ (modify _) => apply keeps_modify; intros ? ?; assumption
  end.
Ltac keeps_auto := repeat first [solve [eauto 3 with keeps] | keep_step].
