(* ===== verification/Queue.v ===== *)
(** * The interrupt event queue, abstractly

    [interrupt.cpp] keeps the pending interrupts of the emulated machine in a
    linked list ordered by the value of the COP0 Count register at which they
    fire.  This file fixes the event types and the comparison [before_event] of
    the source, and gives the list-level specification of every queue operation
    (insertion, removal, search, translation, save and load), with the ordering
    facts that hold of it.  [Pool] models the pool-allocated linked list of the
    source and proves that it implements this specification. *)

From S2P Require Import Prelude.
From Stdlib Require Import Sorting.Sorted Sorting.Permutation.

(** ** Interrupt types (interrupt.h) *)

Definition VI_INT : Z := 0x001.
Definition COMPARE_INT : Z := 0x002.
Definition CHECK_INT : Z := 0x004.
Definition SI_INT : Z := 0x008.
Definition PI_INT : Z := 0x010.
Definition SPECIAL_INT : Z := 0x020.
Definition AI_INT : Z := 0x040.
Definition SP_INT : Z := 0x080.
Definition DP_INT : Z := 0x100.

Record event : Set := Event { ev_type : Z; ev_count : Z }.

#[export] Instance event_eq_dec : EqDecision event.
Proof. solve_decision. Defined.

(** [before_event]: does [evt1] fire before the queued event [evt2] of type
    [type2], seen from the current value of Count? *)
Definition before_event (core_Count : Z) (SPECIAL_done : bool)
    (evt1 evt2 type2 : Z) : bool :=
  if u32 (evt1 - core_Count) <? 0x80000000 then
    if u32 (evt2 - core_Count) <? 0x80000000 then
      u32 (evt1 - core_Count) <? u32 (evt2 - core_Count)
    else if u32 (core_Count - evt2) <? 0x10000000 then
      if type2 =? SPECIAL_INT then SPECIAL_done else false
    else true
  else false.

(** ** List-level specification *)

Module Spec.
Section WithClock.
(** The clock the comparison reads. *)
Context (core_Count : Z) (SPECIAL_done : bool).

Definition before (c : Z) (e : event) : bool :=
before_event core_Count SPECIAL_done c (ev_count e) (ev_type e).

(** Insert behind every event that is not strictly later. *)
Fixpoint insert (new : event) (evs : list event) : list event :=
match evs with
| [] => [new]
| e :: rest =>
    if before (ev_count new) e && negb (ev_type new =? SPECIAL_INT)
    then new :: evs else e :: insert new rest
end.

(** Does the new event become the head of the queue? *)
Definition becomes_head (new : event) (evs : list event) : bool :=
match evs with
| [] => true
| e :: _ => before (ev_count new) e && negb (ev_type new =? SPECIAL_INT)
end.
End WithClock.

(** Count of the first event of a type, 0 when there is none. *)
Fixpoint get_event (type : Z) (evs : list event) : Z :=
  match evs with
  | [] => 0
  | e :: rest => if ev_type e =? type then ev_count e else get_event type rest
  end.

(** Remove the first event of a type. *)
Fixpoint remove_event (type : Z) (evs : list event) : list event :=
  match evs with
  | [] => []
  | e :: rest => if ev_type e =? type then rest else e :: remove_event type rest
  end.

(** The value [next_interrupt] takes when the head changes. *)
Definition next_of (core_Count : Z) (evs : list event) : Z :=
  match evs with
  | e :: _ =>
      if (core_Count <? ev_count e) || (u32 (core_Count - ev_count e) <? 0x80000000)
      then ev_count e else 0
  | [] => 0
  end.

(** Shift every deadline from the clock [core_Count] to the clock [base]. *)
Definition translate (core_Count base : Z) (e : event) : event :=
  Event (ev_type e) (u32 (u32 (ev_count e - core_Count) + base)).

(** The byte image of a queue in a savestate: (type, count) pairs of 32-bit
    words, closed by 0xFFFFFFFF. *)
Fixpoint image (evs : list event) : list Z :=
  match evs with
  | [] => le_split 4 0xFFFFFFFF
  | e :: rest => le_split 4 (ev_type e) ++ le_split 4 (ev_count e) ++ image rest
  end.

Definition load core_Count (SPECIAL_done : bool) (evs : list event) : list event :=
  fold_left (fun acc e => insert core_Count SPECIAL_done e acc) evs [].
End Spec.

(** ** Ordering facts *)

Section Ordering.
Context (core_Count : Z) (SPECIAL_done : bool).

(** Cycles until an event fires. *)
Definition distance (e : event) : Z := u32 (ev_count e - core_Count).

Definition is_special (e : event) : bool := ev_type e =? SPECIAL_INT.

(** Due in the future half of the 32-bit cycle counter. *)
Definition upcoming (e : event) : Prop := distance e < 0x80000000.

Definition sooner (a b : event) : Prop := distance a <= distance b.

#[local] Abbreviation insert := (Spec.insert core_Count SPECIAL_done).
#[local] Abbreviation before := (Spec.before core_Count SPECIAL_done).

Lemma before_upcoming new e :
  upcoming new -> upcoming e ->
  before (ev_count new) e = (distance new <? distance e).
Proof.
  unfold upcoming, Spec.before, before_event, distance. intros H1 H2.
  by rewrite (proj2 (Z.ltb_lt _ _) H1), (proj2 (Z.ltb_lt _ _) H2).
Qed.

(** An event is never before another one with the same count, so insertion
    is stable. *)
Lemma before_irrefl c e : ev_count e = c -> before c e = false.
Proof.
  unfold Spec.before, before_event. intros ->.
  destruct (_ <? _) eqn:E; rewrite ?E; [|done]. apply Z.ltb_irrefl.
Qed.

Lemma insert_perm new evs : Permutation (insert new evs) (new :: evs).
Proof.
  induction evs as [|e rest IH]; [done|]. cbn [Spec.insert].
  destruct (_ && _); [done|].
  etransitivity; [apply perm_skip, IH|apply perm_swap].
Qed.

Lemma length_insert_event new evs : length (insert new evs) = S (length evs).
Proof. by rewrite (Permutation_length (insert_perm new evs)). Qed.

Lemma insert_special new evs :
  is_special new = true -> insert new evs = evs ++ [new].
Proof.
  unfold is_special. intros Hs. induction evs as [|e rest IH]; [done|].
  cbn [Spec.insert]. rewrite Hs, andb_false_r. simpl. by rewrite IH.
Qed.

(** Where a non-special event lands: after a prefix of events it is not
    before, in front of one it is before. *)
Lemma insert_split new evs :
  is_special new = false ->
  exists pre post, evs = pre ++ post /\ insert new evs = pre ++ new :: post /\
    Forall (fun e => before (ev_count new) e = false) pre /\
    match post with [] => True | e :: _ => before (ev_count new) e = true end.
Proof.
  unfold is_special. intros Hs. induction evs as [|e rest IH].
  { exists [], []. auto. }
  cbn [Spec.insert]. rewrite Hs, andb_true_r.
  destruct (before (ev_count new) e) eqn:E; simpl.
  - exists [], (e :: rest). auto.
  - destruct IH as (pre & post & -> & -> & Hpre & Hpost).
    exists (e :: pre), post. repeat split; auto.
Qed.

(** Inserting at the end when nothing queued is later. *)
Lemma insert_last new evs :
  Forall (fun e => before (ev_count new) e = false) evs ->
  insert new evs = evs ++ [new].
Proof.
  induction 1 as [|e rest He _ IH]; [done|].
  cbn [Spec.insert]. rewrite He. simpl. by rewrite IH.
Qed.

(** A queue is ordered when its regular events are upcoming and sorted by
    distance, with the special (counter wrap-around) events behind them. *)
Definition ordered (evs : list event) : Prop :=
  exists regular special, evs = regular ++ special /\
    Forall (fun e => is_special e = false /\ upcoming e) regular /\
    StronglySorted sooner regular /\
    Forall (fun e => is_special e = true) special.

Lemma sorted_app_inv (l1 l2 : list event) :
  StronglySorted sooner (l1 ++ l2) ->
  StronglySorted sooner l1 /\ StronglySorted sooner l2 /\
  forall a b, a ∈ l1 -> b ∈ l2 -> sooner a b.
Proof.
  induction l1 as [|x l1 IH]; simpl; intros H.
  { repeat split; auto; [constructor|]. intros a b Ha. by apply elem_of_nil in Ha. }
  apply StronglySorted_inv in H as [H Hx]. destruct (IH H) as (H1 & H2 & H3).
  rewrite List.Forall_forall in Hx. repeat split; auto.
  - constructor; auto. apply List.Forall_forall. intros y Hy. apply Hx, in_app_iff. auto.
  - intros a b [->|Ha]%elem_of_cons Hb; [|auto].
    apply Hx, in_app_iff. right. by apply list_elem_of_In.
Qed.

Lemma sorted_app (l1 l2 : list event) :
  StronglySorted sooner l1 -> StronglySorted sooner l2 ->
  (forall a b, a ∈ l1 -> b ∈ l2 -> sooner a b) ->
  StronglySorted sooner (l1 ++ l2).
Proof.
  intros H1 H2 H3. induction H1 as [|x l1 H1 IH Hx]; simpl; [done|].
  constructor.
  - apply IH. intros a b Ha Hb. apply H3; [|done]. by constructor.
  - apply List.Forall_app. split; [done|]. apply List.Forall_forall. intros y Hy.
    apply H3; [constructor|]. by apply list_elem_of_In.
Qed.

(** Inserting a regular upcoming event into sorted regular events. *)
Lemma insert_sorted_regular new regular :
  is_special new = false -> upcoming new ->
  Forall (fun e => is_special e = false /\ upcoming e) regular ->
  StronglySorted sooner regular ->
  StronglySorted sooner (insert new regular).
Proof.
  intros Hs Hu Hr Hsort.
  destruct (insert_split new regular Hs) as (pre & post & -> & -> & Hpre & Hpost).
  apply Forall_app in Hr as [Hr1 Hr2].
  apply sorted_app_inv in Hsort as (S1 & S2 & S3).
  assert (forall e, e ∈ pre -> sooner e new) as Hle.
  { intros e He. rewrite Forall_forall in Hpre, Hr1.
    destruct (Hr1 e He) as [_ Hue]. specialize (Hpre e He).
    rewrite before_upcoming in Hpre by auto. apply Z.ltb_ge in Hpre. done. }
  assert (forall e, e ∈ post -> sooner new e) as Hge.
  { destruct post as [|p post]; [intros e He; by apply elem_of_nil in He|].
    apply Forall_cons in Hr2 as [[_ Hup] _].
    rewrite before_upcoming in Hpost by auto. apply Z.ltb_lt in Hpost.
    apply StronglySorted_inv in S2 as [_ Hall]. rewrite List.Forall_forall in Hall.
    intros e [->|He]%elem_of_cons; unfold sooner in *; [lia|].
    specialize (Hall e (proj1 (list_elem_of_In _ _) He)). lia. }
  apply sorted_app; [done| |].
  - constructor; [done|]. apply List.Forall_forall. intros e He.
    apply Hge. by apply list_elem_of_In.
  - intros a b Ha [->|Hb]%elem_of_cons; auto.
Qed.

Lemma insert_app_stop new regular special :
  match special with [] => True | e :: _ => before (ev_count new) e = true end ->
  is_special new = false ->
  insert new (regular ++ special) =
    if bool_decide (special = []) then insert new regular
    else insert new regular ++ special.
Proof.
  intros Hst Hs. case_bool_decide as E; [by rewrite E, app_nil_r|].
  destruct special as [|s special]; [done|].
  unfold is_special in Hs.
  induction regular as [|r regular IH]; cbn [app Spec.insert].
  - by rewrite Hst, Hs.
  - destruct (_ && _); [done|]. simpl. by rewrite IH.
Qed.

(** A regular upcoming event keeps the queue ordered whenever it is before
    the special event. *)
Lemma insert_ordered_regular new evs :
  is_special new = false -> upcoming new ->
  (forall e, is_special e = true -> e ∈ evs -> before (ev_count new) e = true) ->
  ordered evs -> ordered (insert new evs).
Proof.
  intros Hs Hu Hb (regular & special & -> & Hr & Hsort & Hsp).
  exists (insert new regular), special. repeat split; auto.
  - rewrite insert_app_stop; auto.
    + case_bool_decide as E; [by rewrite E, app_nil_r|done].
    + destruct special as [|s special]; [done|]. apply Forall_cons in Hsp as [Hs1 _].
      apply Hb; [done|]. set_solver.
  - rewrite (insert_perm new regular). by constructor.
  - by apply insert_sorted_regular.
Qed.

(** Where it lands: behind everything due no later, in front of everything
    due later and of the special events. *)
Lemma insert_position new evs :
  is_special new = false -> upcoming new ->
  (forall e, is_special e = true -> e ∈ evs -> before (ev_count new) e = true) ->
  ordered evs ->
  exists pre post, evs = pre ++ post /\ insert new evs = pre ++ new :: post /\
    (forall e, e ∈ pre -> is_special e = false /\ sooner e new) /\
    (forall e, e ∈ post -> is_special e = true \/ distance new < distance e).
Proof.
  intros Hs Hu Hb (regular & special & -> & Hr & Hsort & Hsp).
  destruct (insert_split new (regular ++ special) Hs) as (pre & post & Heq & Hi & Hpre & Hpost).
  exists pre, post. split; [done|]. split; [done|].
  rewrite Forall_forall in Hpre, Hr, Hsp.
  assert (forall e, e ∈ pre ++ post -> is_special e = true \/ upcoming e) as Hall.
  { intros e. rewrite <- Heq. intros [He|He]%elem_of_app; [right; by apply Hr|left; auto]. }
  split.
  - intros e He. specialize (Hpre e He). destruct (is_special e) eqn:Es.
    { rewrite Hb in Hpre; [done|done|]. rewrite Heq. set_solver. }
    split; [done|]. destruct (Hall e) as [|Hue]; [set_solver|congruence|].
    rewrite before_upcoming in Hpre by done. by apply Z.ltb_ge in Hpre.
  - destruct post as [|p post]; [set_solver|].
    assert (is_special p = true \/ distance new < distance p) as Hp.
    { destruct (Hall p) as [|Hup]; [set_solver|by left|].
      rewrite before_upcoming in Hpost by done. right. by apply Z.ltb_lt in Hpost. }
    intros e [->|He]%elem_of_cons; [done|].
    destruct (is_special e) eqn:Es; [by left|right].
    (* a regular event behind [p]: [p] is regular and sooner *)
    destruct (app_eq_inv _ _ _ _ Heq) as [(k & -> & Hk)|(k & -> & Hk)].
    + symmetry in Hk. destruct k as [|p' k]; simplify_eq/=.
      * rewrite Hsp in Es; [done|set_solver].
      * apply sorted_app_inv in Hsort as (_ & Hs2 & _).
        apply StronglySorted_inv in Hs2 as [_ Hall2]. rewrite List.Forall_forall in Hall2.
        destruct Hp as [Hp|Hp].
        { destruct (Hr p) as [Hr' _]; [set_solver|congruence]. }
        apply elem_of_app in He as [He|He].
        -- specialize (Hall2 e (proj1 (list_elem_of_In _ _) He)). unfold sooner in *. lia.
        -- rewrite Hsp in Es by done. done.
    + rewrite Hsp in Es; [done|]. rewrite Hk. set_solver.
Qed.

Lemma insert_ordered_special new evs :
  is_special new = true -> ordered evs -> ordered (insert new evs).
Proof.
  intros Hs (regular & special & -> & Hr & Hsort & Hsp).
  rewrite insert_special by done.
  exists regular, (special ++ [new]). rewrite app_assoc. repeat split; auto.
  apply Forall_app. split; [done|by constructor].
Qed.

(** The head of an ordered queue is the earliest of the regular events. *)
Lemma ordered_head e evs :
  ordered (e :: evs) -> is_special e = false ->
  forall e', e' ∈ evs -> is_special e' = false -> sooner e e'.
Proof.
  intros (regular & special & Heq & Hr & Hsort & Hsp) Hs e' He' Hs'.
  rewrite Forall_forall in Hsp.
  destruct regular as [|r regular]; simplify_eq/=.
  { specialize (Hsp e). rewrite Hsp in Hs by constructor. done. }
  apply elem_of_app in He' as [He'|He'].
  - apply StronglySorted_inv in Hsort as [_ Hall]. rewrite List.Forall_forall in Hall.
    apply Hall. by apply list_elem_of_In.
  - specialize (Hsp _ He'). congruence.
Qed.


Lemma load_sorted_regular acc regular :
  Forall (fun e => is_special e = false /\ upcoming e) (acc ++ regular) ->
  StronglySorted sooner (acc ++ regular) ->
  fold_left (fun acc e => insert e acc) regular acc = acc ++ regular.
Proof.
  revert acc. induction regular as [|r regular IH]; intros acc Hr Hsort; simpl.
  { by rewrite app_nil_r. }
  assert (insert r acc = acc ++ [r]) as Heq.
  { apply insert_last. apply Forall_forall. intros e He.
    apply Forall_app in Hr as [Hr1 Hr2]. rewrite Forall_forall in Hr1.
    apply Forall_cons in Hr2 as [[_ Hur] _]. destruct (Hr1 e He) as [_ Hue].
    rewrite before_upcoming by auto. apply Z.ltb_ge.
    apply sorted_app_inv in Hsort as (_ & _ & H3). apply H3; set_solver. }
  rewrite Heq, IH; rewrite <- ?app_assoc; done.
Qed.

Lemma load_specials acc special :
  Forall (fun e => is_special e = true) special ->
  fold_left (fun acc e => insert e acc) special acc = acc ++ special.
Proof.
  revert acc. induction special as [|e special IH]; intros acc Hs; simpl.
  { by rewrite app_nil_r. }
  apply Forall_cons in Hs as [He Hs]. rewrite insert_special by done.
  rewrite IH by done. by rewrite <- app_assoc.
Qed.

Lemma load_ordered evs :
  ordered evs -> Spec.load core_Count SPECIAL_done evs = evs.
Proof.
  intros (regular & special & -> & Hr & Hsort & Hsp). unfold Spec.load.
  rewrite fold_left_app, (load_sorted_regular []), load_specials by done. done.
Qed.
End Ordering.
