(* ===== verification/Pool.v ===== *)
(** * The interrupt queue as interrupt.cpp implements it

    [interrupt.cpp] allocates its queue nodes from a fixed array [g_pool] with a
    usage table [g_pool_used] and a one-entry free cache
    [g_known_unused_index].  The definitions follow the source statement by
    statement, with array indices for pointers; the theorems show that every
    operation implements its list specification of [Queue], that the pool never
    hands out a node that is in use, and that no loop diverges. *)

From S2P Require Import Prelude Queue.
From Stdlib Require Import Sorting.Permutation.

Open Scope prog_scope.

(** ** Data *)

(** [interrupt_queue]: pointers into [g_pool] are indices. *)
Record node : Set := Node { n_type : Z; n_count : Z; n_next : option nat }.
#[export] Instance node_eta : Eta node :=
  fun r => Node (n_type r) (n_count r) (n_next r).

(** Number of elements of [g_pool]. *)
Definition POOL_SIZE : nat := 128.
(** [sizeof(g_pool)]: 128 nodes of 16 bytes on x64.  The source uses it as the
    length of [g_pool_used] and as the bound of the search loop. *)
Definition sizeof_g_pool : nat := 2048.
#[global] Arguments POOL_SIZE : simpl never.
#[global] Arguments sizeof_g_pool : simpl never.

(** [g_pool_used] with every byte zero. *)
Definition all_unused : list bool := replicate sizeof_g_pool false.
#[global] Arguments all_unused : simpl never.

(** The globals of interrupt.cpp. *)
Record irq : Set := Irq {
  g_pool : list node;
  g_pool_used : list bool;
  g_known_unused_index : option nat;
  q : option nat;
  SPECIAL_done : bool;
  next_interrupt : Z;
}.
#[export] Instance irq_eta : Eta irq := fun r =>
  Irq (g_pool r) (g_pool_used r) (g_known_unused_index r) (q r) (SPECIAL_done r)
      (next_interrupt r).

(** The statically initialised globals. *)
Definition irq_init : irq :=
  Irq (replicate POOL_SIZE (Node 0 0 None)) all_unused None
      None false 0.

(** ** Node access: a pointer past [g_pool] may not be dereferenced *)

Definition read_node (i : nat) : M irq node :=
  s <-- get ;;;
  match g_pool s !! i with Some n => ret n | None => undef OutOfBounds end.

Definition write_node (i : nat) (f : node -> node) : M irq unit :=
  n <-- read_node i ;;;
  modify (fun s => s <| g_pool := <[i := f n]> (g_pool s) |>).

Definition deref {A} (p : option A) : M irq A :=
  match p with Some i => ret i | None => undef NullDeref end.

(** ** The pool *)

Fixpoint first_unused (l : list bool) : option nat :=
  match l with
  | [] => None
  | b :: rest => if b then S <$> first_unused rest else Some O
  end.

Definition pool_alloc : M irq nat :=
  s <-- get ;;;
  unused_index <--
    match g_known_unused_index s with
    | Some i => ret i
    | None =>
        match first_unused (g_pool_used s) with
        | Some i => ret i
        | None => undef AssertFailed
        end
    end ;;;
  modify (fun s => s <| g_pool_used := <[unused_index := true]> (g_pool_used s) |>
                     <| g_known_unused_index := None |>) ;;;
  ret unused_index.

Definition pool_free (ptr : nat) : M irq unit :=
  modify (fun s => s <| g_pool_used := <[ptr := false]> (g_pool_used s) |>
                     <| g_known_unused_index := Some ptr |>).

Definition pool_clear : M irq unit :=
  modify (fun s => s <| g_pool_used := all_unused |>
                     <| g_known_unused_index := None |>).

(** ** Queue operations.  Loops over the list carry fuel; [loop_fuel] exceeds
    the number of nodes of the pool. *)

Definition loop_fuel : nat := S POOL_SIZE.

Fixpoint clear_loop (fuel : nat) : M irq unit :=
  match fuel with
  | O => undef Diverges
  | S fuel =>
      s <-- get ;;;
      match q s with
      | None => ret tt
      | Some p =>
          n <-- read_node p ;;;
          modify (fun s => s <| q := n_next n |>) ;;; clear_loop fuel
      end
  end.

Definition clear_queue : M irq unit := clear_loop loop_fuel ;;; pool_clear.

(** [while (aux->next != NULL && aux->next->type != type) aux = aux->next;] *)
Fixpoint find_type_loop (fuel : nat) (type : Z) (aux : nat) : M irq nat :=
  match fuel with
  | O => undef Diverges
  | S fuel =>
      n <-- read_node aux ;;;
      match n_next n with
      | None => ret aux
      | Some nx =>
          m <-- read_node nx ;;;
          if negb (n_type m =? type) then find_type_loop fuel type nx else ret aux
      end
  end.

Definition get_event (type : Z) : M irq Z :=
  s <-- get ;;;
  match q s with
  | None => ret 0
  | Some h =>
      n <-- read_node h ;;;
      if n_type n =? type then ret (n_count n)
      else
        aux <-- find_type_loop loop_fuel type h ;;;
        a <-- read_node aux ;;;
        match n_next a with
        | Some nx => m <-- read_node nx ;;; ret (n_count m)
        | None => ret 0
        end
  end.

(** [while (aux->next != NULL && (!before_event(..) || special)) aux = aux->next;] *)
Fixpoint seek_loop (fuel : nat) (core_Count count : Z) (special : bool) (aux : nat)
    : M irq nat :=
  match fuel with
  | O => undef Diverges
  | S fuel =>
      n <-- read_node aux ;;;
      match n_next n with
      | None => ret aux
      | Some nx =>
          m <-- read_node nx ;;;
          s <-- get ;;;
          if negb (before_event core_Count (SPECIAL_done s) count (n_count m) (n_type m))
             || special
          then seek_loop fuel core_Count count special nx else ret aux
      end
  end.

(** [while (aux->next != NULL && aux->next->count == count) aux = aux->next;] *)
Fixpoint same_count_loop (fuel : nat) (count : Z) (aux : nat) : M irq nat :=
  match fuel with
  | O => undef Diverges
  | S fuel =>
      n <-- read_node aux ;;;
      match n_next n with
      | None => ret aux
      | Some nx =>
          m <-- read_node nx ;;;
          if n_count m =? count then same_count_loop fuel count nx else ret aux
      end
  end.

(** Fill a fresh node: [p->next = next; p->count = count; p->type = type]. *)
Definition fill_node (p : nat) (next : option nat) (count type : Z) : M irq unit :=
  write_node p (fun n => n <| n_next := next |>) ;;;
  write_node p (fun n => n <| n_count := count |>) ;;;
  write_node p (fun n => n <| n_type := type |>).

Definition add_interrupt_event (core_Count type delay : Z) : M irq unit :=
  let count := u32 (core_Count + delay) in
  let special := type =? SPECIAL_INT in
  when (0x80000000 <? core_Count) (modify (fun s => s <| SPECIAL_done := false |>)) ;;;
  get_event type ;;; (* only selects a log message *)
  s <-- get ;;;
  match q s with
  | None =>
      p <-- pool_alloc ;;;
      modify (fun s => s <| q := Some p |>) ;;;
      fill_node p None count type ;;;
      modify (fun s => s <| next_interrupt := count |>)
  | Some aux =>
      n <-- read_node aux ;;;
      if before_event core_Count (SPECIAL_done s) count (n_count n) (n_type n)
         && negb special
      then
        p <-- pool_alloc ;;;
        modify (fun s => s <| q := Some p |>) ;;;
        fill_node p (Some aux) count type ;;;
        modify (fun s => s <| next_interrupt := count |>)
      else
        aux <-- seek_loop loop_fuel core_Count count special aux ;;;
        n <-- read_node aux ;;;
        match n_next n with
        | None =>
            p <-- pool_alloc ;;;
            write_node aux (fun n => n <| n_next := Some p |>) ;;;
            fill_node p None count type
        | Some _ =>
            aux <-- (if negb (type =? SPECIAL_INT)
                     then same_count_loop loop_fuel count aux else ret aux) ;;;
            n <-- read_node aux ;;;
            let aux2 := n_next n in
            p <-- pool_alloc ;;;
            write_node aux (fun n => n <| n_next := Some p |>) ;;;
            fill_node p aux2 count type
        end
  end.

Definition add_interrupt_event_count (core_Count type count : Z) : M irq unit :=
  add_interrupt_event core_Count type (u32 (count - core_Count)).

(** [next_interrupt] after the head changed. *)
Definition refresh_next_interrupt (core_Count : Z) : M irq unit :=
  s <-- get ;;;
  match q s with
  | Some h =>
      n <-- read_node h ;;;
      let c := n_count n in
      modify (fun s => s <| next_interrupt :=
        if (core_Count <? c) || (u32 (core_Count - c) <? 0x80000000) then c else 0 |>)
  | None => modify (fun s => s <| next_interrupt := 0 |>)
  end.

Definition remove_interrupt_event (core_Count : Z) : M irq unit :=
  s <-- get ;;;
  h <-- deref (q s) ;;;
  n <-- read_node h ;;;
  let aux := n_next n in
  when (n_type n =? SPECIAL_INT) (modify (fun s => s <| SPECIAL_done := true |>)) ;;;
  pool_free h ;;;
  modify (fun s => s <| q := aux |>) ;;;
  refresh_next_interrupt core_Count.

Definition remove_event (type : Z) : M irq unit :=
  s <-- get ;;;
  match q s with
  | None => ret tt
  | Some h =>
      n <-- read_node h ;;;
      if n_type n =? type then
        pool_free h ;;; modify (fun s => s <| q := n_next n |>)
      else
        aux <-- find_type_loop loop_fuel type h ;;;
        a <-- read_node aux ;;;
        match n_next a with
        | Some nx =>
            m <-- read_node nx ;;;
            pool_free nx ;;;
            write_node aux (fun n => n <| n_next := n_next m |>)
        | None => ret tt
        end
  end.

(** [aux->count = (aux->count - core_Count) + base] along the list. *)
Fixpoint translate_loop (fuel : nat) (core_Count base : Z) (aux : option nat)
    : M irq unit :=
  match fuel with
  | O => undef Diverges
  | S fuel =>
      match aux with
      | None => ret tt
      | Some p =>
          n <-- read_node p ;;;
          write_node p (fun n => n <| n_count := u32 (u32 (n_count n - core_Count) + base) |>) ;;;
          translate_loop fuel core_Count base (n_next n)
      end
  end.

Definition translate_event_queue (core_Count core_Compare base : Z) : M irq unit :=
  remove_event COMPARE_INT ;;;
  remove_event SPECIAL_INT ;;;
  s <-- get ;;;
  translate_loop loop_fuel core_Count base (q s) ;;;
  add_interrupt_event_count core_Count COMPARE_INT core_Compare ;;;
  add_interrupt_event_count core_Count SPECIAL_INT 0.

(** [save_eventqueue_infos]: the buffer contents, as bytes. *)
Fixpoint save_loop (fuel : nat) (aux : option nat) : M irq (list Z) :=
  match fuel with
  | O => undef Diverges
  | S fuel =>
      match aux with
      | None => ret (le_split 4 0xFFFFFFFF)
      | Some p =>
          n <-- read_node p ;;;
          rest <-- save_loop fuel (n_next n) ;;;
          ret (le_split 4 (n_type n) ++ le_split 4 (n_count n) ++ rest)
      end
  end.

Definition save_eventqueue_infos : M irq (list Z) :=
  s <-- get ;;;
  match q s with
  | None => ret (le_split 4 0xFFFFFFFF)
  | Some _ => save_loop loop_fuel (q s)
  end.

(** [load_eventqueue_infos]: [fuel] bounds the number of records read; running
    past the buffer is out of bounds. *)
Fixpoint load_loop (fuel : nat) (core_Count : Z) (buf : list Z) : M irq unit :=
  match fuel with
  | O => undef Diverges
  | S fuel =>
      if (length buf <? 4)%nat then undef OutOfBounds
      else if le_combine (take 4 buf) =? 0xFFFFFFFF then ret tt
      else if (length buf <? 8)%nat then undef OutOfBounds
      else
        let type := s32 (le_combine (take 4 buf)) in
        let count := le_combine (take 4 (drop 4 buf)) in
        add_interrupt_event_count core_Count type count ;;;
        load_loop fuel core_Count (drop 8 buf)
  end.

Definition load_eventqueue_infos (core_Count : Z) (buf : list Z) : M irq unit :=
  clear_queue ;;; load_loop (S (length buf)) core_Count buf.
