(* ===== verification/PoolRefines.v ===== *)
(** * The pool-allocated queue implements the list specification

    [represents s evs] relates the globals of interrupt.cpp to the list of
    pending events; one lemma per operation shows that running the source's
    code on a represented queue terminates without undefined behaviour and
    yields a queue that represents the specified list. *)

From S2P Require Import Prelude Queue Pool.
From Stdlib Require Import Sorting.Permutation.

Open Scope prog_scope.

(** ** The representation predicate *)

(** Following [next] from [p] visits the nodes [idxs] holding [evs] and ends at [r]. *)
Fixpoint seg (pool : list node) (p : option nat) (idxs : list nat) (evs : list event)
    (r : option nat) : Prop :=
  match idxs, evs with
  | [], [] => p = r
  | i :: is', e :: es =>
      p = Some i /\ exists nx, pool !! i = Some (Node (ev_type e) (ev_count e) nx) /\
        seg pool nx is' es r
  | _, _ => False
  end.

(** The pool's bookkeeping: exactly the nodes of the list are marked used. *)
Record pool_wf (s : irq) (idxs : list nat) : Prop := {
  wf_pool : length (g_pool s) = POOL_SIZE;
  wf_table : length (g_pool_used s) = sizeof_g_pool;
  wf_nodup : NoDup idxs;
  wf_used : forall i, g_pool_used s !! i = Some true <-> i ∈ idxs;
  wf_bound : forall i, i ∈ idxs -> (i < POOL_SIZE)%nat;
  wf_known : forall k, g_known_unused_index s = Some k ->
               (k < POOL_SIZE)%nat /\ k ∉ idxs;
}.

Definition represents (s : irq) (evs : list event) : Prop :=
  exists idxs, seg (g_pool s) (q s) idxs evs None /\ pool_wf s idxs.

(** ** Segments *)

Section Segments.
Implicit Types pool : list node.

Lemma seg_length pool p idxs evs r : seg pool p idxs evs r -> length idxs = length evs.
Proof.
  revert p evs. induction idxs as [|i is' IH]; intros p [|e es]; simpl; try done.
  intros (_ & nx & _ & H). f_equal. eauto.
Qed.

Lemma seg_app pool p i1 e1 i2 e2 r :
  length i1 = length e1 ->
  seg pool p (i1 ++ i2) (e1 ++ e2) r <->
  exists m, seg pool p i1 e1 m /\ seg pool m i2 e2 r.
Proof.
  revert p e1. induction i1 as [|i i1 IH]; intros p [|e e1] Hl; simplify_eq/=.
  - split; [intros; exists p; auto|by intros (m & -> & ?)].
  - split.
    + intros (-> & nx & Hn & H). apply IH in H as (m & H1 & H2); [|done].
      exists m. eauto 6.
    + intros (m & (-> & nx & Hn & H1) & H2). split; [done|]. exists nx.
      split; [done|]. apply IH; eauto.
Qed.

Lemma seg_frame pool i n p idxs evs r :
  i ∉ idxs -> seg pool p idxs evs r -> seg (<[i := n]> pool) p idxs evs r.
Proof.
  revert p evs. induction idxs as [|j js IH]; intros p [|e es] Hni; simpl; try done.
  intros (-> & nx & Hn & H). apply not_elem_of_cons in Hni as [Hne Hni].
  split; [done|]. exists nx. rewrite list_lookup_insert_ne by done. auto.
Qed.

Lemma seg_cons pool i e nx idxs evs r :
  pool !! i = Some (Node (ev_type e) (ev_count e) nx) ->
  seg pool nx idxs evs r -> seg pool (Some i) (i :: idxs) (e :: evs) r.
Proof. simpl. eauto. Qed.

(** Splitting a visited segment at a position of its events. *)
Lemma seg_split pool p idxs epre epost r :
  seg pool p idxs (epre ++ epost) r ->
  exists ipre ipost m, idxs = ipre ++ ipost /\ length ipre = length epre /\
    seg pool p ipre epre m /\ seg pool m ipost epost r.
Proof.
  intros H. pose proof (seg_length _ _ _ _ _ H) as Hl. rewrite length_app in Hl.
  rewrite <- (take_drop (length epre) idxs) in H.
  apply seg_app in H as (m & H1 & H2); [|rewrite length_take; lia].
  exists (take (length epre) idxs), (drop (length epre) idxs), m.
  rewrite take_drop, length_take. repeat split; auto. lia.
Qed.
End Segments.

(** ** Running the primitive steps *)

Section Steps.
Implicit Types s : irq.

Lemma read_node_ok i n s : g_pool s !! i = Some n -> read_node i s = Ret (n, s).
Proof. unfold read_node. rewrite bind_get_l. by intros ->. Qed.

Lemma write_node_ok i n f s :
  g_pool s !! i = Some n ->
  write_node i f s = Ret (tt, s <| g_pool := <[i := f n]> (g_pool s) |>).
Proof.
  intros H. unfold write_node. by rewrite (bind_Ret _ _ _ _ _ (read_node_ok _ _ _ H)).
Qed.

Lemma fill_node_ok p next count type s :
  (p < length (g_pool s))%nat ->
  fill_node p next count type s =
    Ret (tt, s <| g_pool := <[p := Node type count next]> (g_pool s) |>).
Proof.
  intros Hp. destruct (lookup_lt_is_Some_2 _ _ Hp) as [n Hn].
  unfold fill_node.
  rewrite (bind_Ret _ _ _ _ _ (write_node_ok _ _ _ _ Hn)).
  erewrite bind_Ret; [|eapply write_node_ok; simpl_upd;
    rewrite list_lookup_insert_eq by done; reflexivity].
  erewrite write_node_ok; [|simpl_upd; rewrite list_lookup_insert_eq;
    [reflexivity|by rewrite length_insert]].
  simpl_upd. by rewrite !list_insert_insert_eq.
Qed.

Lemma first_unused_spec l :
  (exists i, l !! i = Some false) ->
  exists k, first_unused l = Some k /\ l !! k = Some false /\
            forall i, l !! i = Some false -> (k <= i)%nat.
Proof.
  induction l as [|b l IH]; intros [i Hi]; [done|].
  destruct b; simpl.
  - destruct i as [|i]; [done|]. destruct IH as (k & -> & Hk & Hmin); [eauto|].
    exists (S k). repeat split; auto. intros [|j] Hj; [done|].
    specialize (Hmin j Hj). lia.
  - exists O. repeat split; auto. lia.
Qed.

(** A list of fewer than [n] distinct indices misses one below [n]. *)
Lemma exists_fresh (idxs : list nat) n :
  NoDup idxs -> (length idxs < n)%nat -> exists k, (k < n)%nat /\ k ∉ idxs.
Proof.
  intros Hnd Hl.
  destruct (decide (Forall (fun k => k ∈ idxs) (seq 0 n))) as [Hall|Hnot].
  - exfalso. assert (seq 0 n ⊆+ idxs) as Hsub.
    { apply NoDup_submseteq; [apply NoDup_ListNoDup, seq_NoDup|].
      intros x Hx. rewrite Forall_forall in Hall. auto. }
    apply submseteq_length in Hsub. rewrite length_seq in Hsub. lia.
  - apply not_Forall_Exists in Hnot; [|apply _]. apply Exists_exists in Hnot as (k & Hk & Hn).
    exists k. apply elem_of_seq in Hk. split; [lia|done].
Qed.

(** ** Allocation hands out a node that is not in use, inside the pool. *)
Lemma pool_alloc_ok s idxs :
  pool_wf s idxs -> (length idxs < POOL_SIZE)%nat ->
  exists k s', pool_alloc s = Ret (k, s') /\
    (k < POOL_SIZE)%nat /\ k ∉ idxs /\ pool_wf s' (k :: idxs) /\
    g_pool s' = g_pool s /\ q s' = q s /\
    SPECIAL_done s' = SPECIAL_done s /\ next_interrupt s' = next_interrupt s.
Proof.
  intros W Hl. destruct W as [W1 W2 W3 W4 W5 W6].
  assert (exists k, (k < POOL_SIZE)%nat /\ k ∉ idxs /\
    match g_known_unused_index s with Some i => i = k
    | None => first_unused (g_pool_used s) = Some k end) as (k & Hk & Hni & Heq).
  { destruct (g_known_unused_index s) as [i|] eqn:E; [naive_solver|].
    destruct (exists_fresh idxs POOL_SIZE) as (f & Hf & Hfni); auto.
    assert (g_pool_used s !! f = Some false) as Hff.
    { destruct (lookup_lt_is_Some_2 (g_pool_used s) f) as [[] Hb]; auto.
      - rewrite W2. unfold POOL_SIZE, sizeof_g_pool in *. lia.
      - exfalso. by apply Hfni, W4. }
    destruct (first_unused_spec (g_pool_used s)) as (k & Hk1 & Hk2 & Hk3); [eauto|].
    exists k. specialize (Hk3 f Hff). repeat split; auto; [lia|].
    intros Hin. apply W4 in Hin. congruence. }
  assert (k < length (g_pool_used s))%nat as Hkt.
  { rewrite W2. unfold POOL_SIZE, sizeof_g_pool in *. lia. }
  exists k. eexists. split.
  { unfold pool_alloc. rewrite bind_get_l.
    destruct (g_known_unused_index s) as [i|]; [rewrite Heq|rewrite Heq];
      run_step; reflexivity. }
  simpl_upd. repeat split; auto; simpl.
  - by rewrite length_insert.
  - by constructor.
  - rewrite list_lookup_insert. case_decide; [set_solver|].
    intros Hi. apply W4 in Hi. set_solver.
  - intros [->|Hi]%elem_of_cons; [by rewrite list_lookup_insert_eq|].
    rewrite list_lookup_insert. case_decide; [done|]. by apply W4.
  - intros i [->|Hi]%elem_of_cons; auto.
  - done.
  - done.
Qed.

(** Freeing the node [h] of the list. *)
Lemma pool_free_wf s pre h post :
  pool_wf s (pre ++ h :: post) ->
  pool_wf (s <| g_pool_used := <[h := false]> (g_pool_used s) |>
             <| g_known_unused_index := Some h |>) (pre ++ post).
Proof.
  intros [W1 W2 W3 W4 W5 W6].
  assert (h < length (g_pool_used s))%nat as Hh.
  { rewrite W2. assert (h < POOL_SIZE)%nat by (apply W5; set_solver).
    unfold POOL_SIZE, sizeof_g_pool in *. lia. }
  apply NoDup_app in W3 as (N1 & N2 & N3). apply NoDup_cons in N3 as [N3 N4].
  assert (h ∉ pre ++ post) as Hni by set_solver.
  split; simpl_upd; auto.
  - by rewrite length_insert.
  - apply NoDup_app. repeat split; auto. set_solver.
  - intros i. destruct (decide (i = h)) as [->|Hne].
    + rewrite list_lookup_insert_eq by done. split; [done|]. intros; by exfalso.
    + rewrite list_lookup_insert_ne by done. rewrite W4. set_solver.
  - intros i Hi. apply W5. set_solver.
  - intros k [= <-]. split; [|done]. apply W5. set_solver.
Qed.

Lemma pool_wf_ext s s' idxs :
  pool_wf s idxs -> length (g_pool s') = length (g_pool s) ->
  g_pool_used s' = g_pool_used s ->
  g_known_unused_index s' = g_known_unused_index s -> pool_wf s' idxs.
Proof.
  intros [W1 W2 W3 W4 W5 W6] Hl Hu Hk. split; rewrite ?Hl, ?Hu, ?Hk; auto.
Qed.
End Steps.

Lemma all_unused_spec i : all_unused !! i = Some true <-> i ∈ @nil nat.
Proof. unfold all_unused. rewrite lookup_replicate. set_solver. Qed.

Lemma irq_init_represents : represents irq_init [].
Proof.
  exists []. split; [done|]. split; try done.
  - apply NoDup_nil_2.
  - apply all_unused_spec.
  - set_solver.
Qed.

(** ** Linking and unlinking nodes *)

Section Linking.
Lemma pool_wf_perm s l1 l2 : Permutation l1 l2 -> pool_wf s l1 -> pool_wf s l2.
Proof.
  intros HP [W1 W2 W3 W4 W5 W6]. split; auto.
  - by rewrite <- HP.
  - intros i. rewrite <- HP. auto.
  - intros i. rewrite <- HP. auto.
  - intros k Hk. rewrite <- HP. auto.
Qed.

(** Put the fresh node [f] holding [new] behind node [k]. *)
Lemma link_after pool p ipre k ipost epre ek epost f new nx :
  seg pool p ipre epre (Some k) ->
  pool !! k = Some (Node (ev_type ek) (ev_count ek) nx) ->
  seg pool nx ipost epost None ->
  NoDup (ipre ++ k :: ipost) -> f ∉ ipre ++ k :: ipost -> (f < length pool)%nat ->
  seg (<[f := Node (ev_type new) (ev_count new) nx]>
        (<[k := Node (ev_type ek) (ev_count ek) (Some f)]> pool))
      p (ipre ++ k :: f :: ipost) (epre ++ ek :: new :: epost) None.
Proof.
  intros H1 Hk H2 Hnd Hf Hlen.
  apply NoDup_app in Hnd as (_ & Hpre & Hpost). apply NoDup_cons in Hpost as [Hpost _].
  assert (k < length pool)%nat as Hkl by eauto using lookup_lt_Some.
  apply seg_app; [by eapply seg_length|]. exists (Some k). split.
  - apply seg_frame; [set_solver|]. apply seg_frame; [|done]. intros Hin.
    apply (Hpre _ Hin). set_solver.
  - eapply seg_cons.
    + rewrite list_lookup_insert_ne by set_solver. by rewrite list_lookup_insert_eq.
    + eapply seg_cons.
      * rewrite list_lookup_insert_eq; [done|by rewrite length_insert].
      * apply seg_frame; [set_solver|]. apply seg_frame; [set_solver|done].
Qed.

(** Unlink the node behind [k]. *)
Lemma unlink_after pool p ipre k d ipost epre ek ed epost nx :
  seg pool p ipre epre (Some k) ->
  pool !! k = Some (Node (ev_type ek) (ev_count ek) (Some d)) ->
  pool !! d = Some (Node (ev_type ed) (ev_count ed) nx) ->
  seg pool nx ipost epost None ->
  NoDup (ipre ++ k :: d :: ipost) ->
  seg (<[k := Node (ev_type ek) (ev_count ek) nx]> pool)
      p (ipre ++ k :: ipost) (epre ++ ek :: epost) None.
Proof.
  intros H1 Hk Hd H2 Hnd.
  apply NoDup_app in Hnd as (_ & Hpre & Hpost). apply NoDup_cons in Hpost as [Hpost _].
  assert (k < length pool)%nat as Hkl by eauto using lookup_lt_Some.
  apply seg_app; [by eapply seg_length|]. exists (Some k). split.
  - apply seg_frame; [|done]. intros Hin. apply (Hpre _ Hin). set_solver.
  - eapply seg_cons; [by rewrite list_lookup_insert_eq|].
    apply seg_frame; [set_solver|done].
Qed.
End Linking.

(** A cut of a visited queue behind one of its nodes. *)
Record cut (s : irq) (p : option nat) (idxs : list nat) (evs : list event)
    (ipre : list nat) (k : nat) (ipost : list nat)
    (epre : list event) (ek : event) (epost : list event) (nx : option nat) : Prop := {
  cut_idxs : idxs = ipre ++ k :: ipost;
  cut_evs : evs = epre ++ ek :: epost;
  cut_pre : seg (g_pool s) p ipre epre (Some k);
  cut_node : g_pool s !! k = Some (Node (ev_type ek) (ev_count ek) nx);
  cut_post : seg (g_pool s) nx ipost epost None;
}.

Lemma cut_skip s i e nxt is' es ipre k ipost epre ek epost nx :
  g_pool s !! i = Some (Node (ev_type e) (ev_count e) nxt) ->
  cut s nxt is' es ipre k ipost epre ek epost nx ->
  cut s (Some i) (i :: is') (e :: es) (i :: ipre) k ipost (e :: epre) ek epost nx.
Proof.
  intros Hn [-> -> H1 H2 H3]. split; auto. simpl. eauto.
Qed.

Section SeekLoop.
Context (s : irq) (core_Count : Z) (new : event).
#[local] Abbreviation special := (ev_type new =? SPECIAL_INT).
#[local] Abbreviation insert := (Spec.insert core_Count (SPECIAL_done s)).

Lemma seek_loop_ok fuel aux is' e es :
  seg (g_pool s) (Some aux) (aux :: is') (e :: es) None -> (length es < fuel)%nat ->
  exists ipre k ipost epre ek epost nx,
    seek_loop fuel core_Count (ev_count new) special aux s = Ret (k, s) /\
    cut s (Some aux) (aux :: is') (e :: es) ipre k ipost epre ek epost nx /\
    e :: insert new es = epre ++ ek :: new :: epost /\
    match epost with
    | [] => True
    | e' :: _ => special = false /\
        Spec.before core_Count (SPECIAL_done s) (ev_count new) e' = true
    end.
Proof.
  revert aux is' e es. induction fuel as [|fuel IH]; intros aux is' e es Hseg Hf; [lia|].
  destruct Hseg as (_ & nx & Hn & Hseg). cbn [seek_loop].
  rewrite (bind_Ret _ _ _ _ _ (read_node_ok _ _ _ Hn)). cbn [n_next].
  destruct is' as [|nxt is'], es as [|e' es]; simpl in Hseg; try done.
  - subst nx. exists [], aux, [], [], e, [], None.
    split; [done|]. split; [by split|]. split; done.
  - destruct Hseg as (-> & nx' & Hn' & Hseg').
    rewrite (bind_Ret _ _ _ _ _ (read_node_ok _ _ _ Hn')), bind_get_l.
    cbn [n_count n_type Spec.insert]. unfold Spec.before.
    destruct (before_event _ _ _ _ _ && negb special) eqn:E.
    + apply andb_true_iff in E as [Eb Es%negb_true_iff]. rewrite Eb, Es. cbn.
      exists [], aux, (nxt :: is'), [], e, (e' :: es), (Some nxt).
      split; [done|]. split; [split; simpl; eauto|]. done.
    + assert (negb (before_event core_Count (SPECIAL_done s) (ev_count new)
                (ev_count e') (ev_type e')) || special = true) as ->.
      { rewrite <- (negb_involutive special), <- negb_andb, E. done. }
      destruct (IH nxt is' e' es) as
        (ipre & k & ipost & epre & ek & epost & nx & Hrun & Hcut & Hins & Hpost).
      { simpl. eauto. } { simpl in Hf. lia. }
      exists (aux :: ipre), k, ipost, (e :: epre), ek, epost, nx.
      split; [done|]. split; [by eapply cut_skip|]. split; [|done].
      simpl. by rewrite Hins.
Qed.

(** The same-count loop never advances: an event is not before one that has
    its count. *)
Lemma same_count_loop_stop fuel aux ek nx ipost epost :
  g_pool s !! aux = Some (Node (ev_type ek) (ev_count ek) nx) ->
  seg (g_pool s) nx ipost epost None ->
  match epost with
  | [] => True
  | e' :: _ => Spec.before core_Count (SPECIAL_done s) (ev_count new) e' = true
  end -> (0 < fuel)%nat ->
  same_count_loop fuel (ev_count new) aux s = Ret (aux, s).
Proof.
  intros Hn Hseg Hb Hf. destruct fuel as [|fuel]; [lia|]. cbn [same_count_loop].
  rewrite (bind_Ret _ _ _ _ _ (read_node_ok _ _ _ Hn)). cbn [n_next].
  destruct ipost as [|j ipost], epost as [|e' epost]; simpl in Hseg; try done.
  { by subst nx. }
  destruct Hseg as (-> & nx' & Hn' & _).
  rewrite (bind_Ret _ _ _ _ _ (read_node_ok _ _ _ Hn')). cbn [n_count].
  destruct (Z.eqb_spec (ev_count e') (ev_count new)) as [Heq|]; [|done].
  by rewrite before_irrefl in Hb.
Qed.
End SeekLoop.

Section FindLoop.
Context (s : irq) (type : Z).

Lemma find_type_loop_ok fuel aux is' e es :
  seg (g_pool s) (Some aux) (aux :: is') (e :: es) None -> (length es < fuel)%nat ->
  exists ipre k ipost epre ek epost nx,
    find_type_loop fuel type aux s = Ret (k, s) /\
    cut s (Some aux) (aux :: is') (e :: es) ipre k ipost epre ek epost nx /\
    Spec.get_event type es = Spec.get_event type epost /\
    e :: Spec.remove_event type es = epre ++ ek :: Spec.remove_event type epost /\
    match epost with [] => True | e' :: _ => ev_type e' = type end.
Proof.
  revert aux is' e es. induction fuel as [|fuel IH]; intros aux is' e es Hseg Hf; [lia|].
  destruct Hseg as (_ & nx & Hn & Hseg). cbn [find_type_loop].
  rewrite (bind_Ret _ _ _ _ _ (read_node_ok _ _ _ Hn)). cbn [n_next].
  destruct is' as [|nxt is'], es as [|e' es]; simpl in Hseg; try done.
  - subst nx. exists [], aux, [], [], e, [], None.
    split; [done|]. split; [by split|]. done.
  - destruct Hseg as (-> & nx' & Hn' & Hseg').
    rewrite (bind_Ret _ _ _ _ _ (read_node_ok _ _ _ Hn')). cbn [n_type].
    destruct (Z.eqb_spec (ev_type e') type) as [Ht|Ht]; cbn.
    + exists [], aux, (nxt :: is'), [], e, (e' :: es), (Some nxt).
      split; [done|]. split; [split; simpl; eauto|]. done.
    + destruct (IH nxt is' e' es) as
        (ipre & k & ipost & epre & ek & epost & nx & Hrun & Hcut & Hget & Hrem & Hpost).
      { simpl. eauto. } { simpl in Hf. lia. }
      exists (aux :: ipre), k, ipost, (e :: epre), ek, epost, nx.
      split; [done|]. split; [by eapply cut_skip|].
      rewrite (proj2 (Z.eqb_neq _ _) Ht). rewrite Hrem. auto.
Qed.
End FindLoop.

(** ** The operations *)

Lemma pool_wf_length s idxs : pool_wf s idxs -> (length idxs <= POOL_SIZE)%nat.
Proof.
  intros [_ _ N _ B _].
  assert (idxs ⊆+ seq 0 POOL_SIZE) as H.
  { apply NoDup_submseteq; [done|]. intros i Hi. apply elem_of_seq. specialize (B i Hi). lia. }
  apply submseteq_length in H. by rewrite length_seq in H.
Qed.

Lemma represents_length s evs : represents s evs -> (length evs <= POOL_SIZE)%nat.
Proof.
  intros (idxs & H & W). rewrite <- (seg_length _ _ _ _ _ H). by eapply pool_wf_length.
Qed.

Lemma represents_ext s s' evs :
  represents s evs -> g_pool s' = g_pool s -> q s' = q s ->
  g_pool_used s' = g_pool_used s ->
  g_known_unused_index s' = g_known_unused_index s -> represents s' evs.
Proof.
  intros (idxs & H & W) Hp Hq Hu Hk. exists idxs. rewrite Hp, Hq.
  split; [done|]. eapply pool_wf_ext; eauto. by rewrite Hp.
Qed.

(** The two shapes of a represented queue. *)
Lemma represents_inv s evs :
  represents s evs ->
  match evs with
  | [] => q s = None
  | e :: es => exists h is' nx, q s = Some h /\
      g_pool s !! h = Some (Node (ev_type e) (ev_count e) nx) /\
      seg (g_pool s) nx is' es None /\ pool_wf s (h :: is')
  end.
Proof.
  intros (idxs & H & W). destruct idxs as [|h is'], evs as [|e es]; simpl in H; try done.
  destruct H as (-> & nx & Hn & H). eauto 10.
Qed.

Lemma get_event_ok s evs type :
  represents s evs -> get_event type s = Ret (Spec.get_event type evs, s).
Proof.
  intros R. pose proof (represents_length _ _ R) as Hl.
  apply represents_inv in R. unfold get_event. rewrite bind_get_l.
  destruct evs as [|e es]; [by rewrite R|].
  destruct R as (h & is' & nx & -> & Hn & Hseg & W).
  rewrite (bind_Ret _ _ _ _ _ (read_node_ok _ _ _ Hn)). cbn [n_type n_count Spec.get_event].
  destruct (ev_type e =? type); [done|].
  destruct (find_type_loop_ok s type loop_fuel h is' e es) as
    (ipre & k & ipost & epre & ek & epost & nx' & Hrun & [_ _ _ Hk Hpost] & Hget & _ & Ht).
  { simpl. eauto. } { simpl in Hl. unfold loop_fuel. lia. }
  rewrite (bind_Ret _ _ _ _ _ Hrun), (bind_Ret _ _ _ _ _ (read_node_ok _ _ _ Hk)), Hget.
  cbn [n_next]. destruct ipost as [|j ipost], epost as [|e' epost]; simpl in Hpost; try done.
  { by subst nx'. }
  destruct Hpost as (-> & nx2 & Hn2 & _).
  rewrite (bind_Ret _ _ _ _ _ (read_node_ok _ _ _ Hn2)). cbn. by rewrite Ht, Z.eqb_refl.
Qed.

(** Allocate a node and make it the head in front of [old]. *)
Lemma push_front_ok s evs new :
  represents s evs -> (length evs < POOL_SIZE)%nat ->
  exists s', (p <-- pool_alloc ;;;
     modify (fun s => s <| q := Some p |>) ;;;
     fill_node p (q s) (ev_count new) (ev_type new) ;;;
     modify (fun s => s <| next_interrupt := ev_count new |>)) s = Ret (tt, s') /\
    represents s' (new :: evs) /\ SPECIAL_done s' = SPECIAL_done s /\
    next_interrupt s' = ev_count new.
Proof.
  intros (idxs & Hseg & W) Hl. rewrite <- (seg_length _ _ _ _ _ Hseg) in Hl.
  destruct (pool_alloc_ok _ _ W Hl) as (k & s1 & Hrun & Hk & Hni & W1 & E1 & E2 & E3 & E4).
  assert (k < length (g_pool s1))%nat as Hkl by (by rewrite (wf_pool _ _ W1)).
  rewrite (bind_Ret _ _ _ _ _ Hrun), bind_modify_l.
  erewrite bind_Ret; [|by apply fill_node_ok]. unfold modify.
  eexists. split; [reflexivity|]. simpl_upd. split; [|done].
  exists (k :: idxs). split; simpl.
  - split; [done|]. exists (q s). rewrite list_lookup_insert_eq by done. split; [done|].
    rewrite E1. by apply seg_frame.
  - eapply pool_wf_ext; [exact W1|..]; try done. simpl. by rewrite length_insert.
Qed.

(** Allocate a node and link it behind node [k] of a cut queue. *)
Lemma link_fresh_ok s idxs evs ipre k ipost epre ek epost nx new :
  cut s (q s) idxs evs ipre k ipost epre ek epost nx -> pool_wf s idxs ->
  (length evs < POOL_SIZE)%nat ->
  exists s', (p <-- pool_alloc ;;;
     write_node k (fun n => n <| n_next := Some p |>) ;;;
     fill_node p nx (ev_count new) (ev_type new)) s = Ret (tt, s') /\
    represents s' (epre ++ ek :: new :: epost) /\
    SPECIAL_done s' = SPECIAL_done s /\ next_interrupt s' = next_interrupt s.
Proof.
  intros [-> -> C1 C2 C3] W Hl.
  assert (length (ipre ++ k :: ipost) = length (epre ++ ek :: epost)) as Hlen.
  { rewrite !length_app. simpl. by rewrite (seg_length _ _ _ _ _ C1), (seg_length _ _ _ _ _ C3). }
  rewrite <- Hlen in Hl.
  destruct (pool_alloc_ok _ _ W Hl) as (f & s1 & Hrun & Hf & Hni & W1 & E1 & E2 & E3 & E4).
  assert (f < length (g_pool s1))%nat as Hfl by (by rewrite (wf_pool _ _ W1)).
  rewrite (bind_Ret _ _ _ _ _ Hrun).
  erewrite bind_Ret; [|apply write_node_ok; rewrite E1; exact C2].
  rewrite fill_node_ok; [|simpl_upd; by rewrite length_insert].
  eexists. split; [reflexivity|]. simpl_upd. split; [|done].
  exists (ipre ++ k :: f :: ipost). split.
  - simpl. rewrite E1, E2. apply link_after; auto.
    + apply (wf_nodup _ _ W). + by rewrite <- E1.
  - eapply pool_wf_ext; [|..].
    + eapply pool_wf_perm; [|exact W1].
      pose proof (Permutation_middle (ipre ++ [k]) ipost f) as HP.
      rewrite <- !app_assoc in HP. exact HP.
    + simpl. by rewrite !length_insert. + done. + done.
Qed.

(** [SPECIAL_done] after the reset at the head of [add_interrupt_event]. *)
Definition special_after (core_Count : Z) (sd : bool) : bool :=
  if 0x80000000 <? core_Count then false else sd.

(** Insertion implements [Spec.insert]; [next_interrupt] follows a new head. *)
Lemma add_interrupt_event_ok s evs core_Count type delay :
  represents s evs -> (length evs < POOL_SIZE)%nat ->
  let new := Event type (u32 (core_Count + delay)) in
  let sd := special_after core_Count (SPECIAL_done s) in
  exists s', add_interrupt_event core_Count type delay s = Ret (tt, s') /\
    represents s' (Spec.insert core_Count sd new evs) /\ SPECIAL_done s' = sd /\
    next_interrupt s' =
      (if Spec.becomes_head core_Count sd new evs then ev_count new else next_interrupt s).
Proof.
  intros R Hl new sd. unfold add_interrupt_event.
  assert (exists s0, when (0x80000000 <? core_Count)
            (modify (fun s => s <| SPECIAL_done := false |>)) s = Ret (tt, s0) /\
            represents s0 evs /\ SPECIAL_done s0 = sd /\
            next_interrupt s0 = next_interrupt s) as (s0 & Hw & R0 & <- & <-).
  { exists (s <| SPECIAL_done := sd |>). split; [|split; [by eapply represents_ext|done]].
    unfold when, sd, special_after. destruct (_ <? _); [done|]. by destruct s. }
  rewrite (bind_Ret _ _ _ _ _ Hw). clear Hw R s. rename s0 into s, R0 into R.
  rewrite (bind_Ret _ _ _ _ _ (get_event_ok _ _ type R)), bind_get_l.
  pose proof (represents_inv _ _ R) as Rinv. destruct evs as [|e es].
  { rewrite Rinv. destruct (push_front_ok s [] new R Hl) as (s' & Hrun & R' & E1 & E2).
    rewrite Rinv in Hrun. exists s'. split; [exact Hrun|]. auto. }
  destruct Rinv as (h & is' & nx & Hq & Hn & Hseg & W). rewrite Hq.
  rewrite (bind_Ret _ _ _ _ _ (read_node_ok _ _ _ Hn)). cbn [n_count n_type].
  cbn [Spec.insert Spec.becomes_head]. unfold Spec.before. cbn [ev_count ev_type].
  destruct (before_event _ _ _ _ _ && negb _) eqn:E.
  { destruct (push_front_ok s _ new R Hl) as (s' & Hrun & R' & E1 & E2).
    rewrite Hq in Hrun. exists s'. split; [exact Hrun|]. auto. }
  destruct (seek_loop_ok s core_Count new loop_fuel h is' e es) as
    (ipre & k & ipost & epre & ek & epost & nx' & Hrun & C & Hins & Hpost).
  { simpl. eauto. } { unfold loop_fuel. simpl in Hl. lia. }
  rewrite (bind_Ret _ _ _ _ _ Hrun).
  rewrite (bind_Ret _ _ _ _ _ (read_node_ok _ _ _ (cut_node _ _ _ _ _ _ _ _ _ _ _ C))).
  rewrite <- Hq in C. cbn [n_next].
  destruct (link_fresh_ok _ _ _ _ _ _ _ _ _ _ new C W Hl) as (s' & Hrun' & R' & E1 & E2).
  rewrite Hins. exists s'.
  split; [|done].
  pose proof (cut_post _ _ _ _ _ _ _ _ _ _ _ C) as Cp.
  destruct nx' as [nx'|]; [|exact Hrun'].
    destruct epost as [|e' epost]; [by destruct ipost; simpl in Cp|].
    destruct Hpost as [Hs Hb].
    change (type =? SPECIAL_INT) with (ev_type new =? SPECIAL_INT). rewrite Hs. cbn [negb].
    erewrite bind_Ret; [|eapply (same_count_loop_stop s core_Count new)];
      [|exact (cut_node _ _ _ _ _ _ _ _ _ _ _ C)|exact Cp|done|unfold loop_fuel; lia].
    rewrite (bind_Ret _ _ _ _ _ (read_node_ok _ _ _ (cut_node _ _ _ _ _ _ _ _ _ _ _ C))).
    exact Hrun'.
Qed.

Lemma add_interrupt_event_count_ok s evs core_Count type count :
  represents s evs -> (length evs < POOL_SIZE)%nat -> is_u32 count ->
  let sd := special_after core_Count (SPECIAL_done s) in
  exists s', add_interrupt_event_count core_Count type count s = Ret (tt, s') /\
    represents s' (Spec.insert core_Count sd (Event type count) evs) /\
    SPECIAL_done s' = sd /\
    next_interrupt s' =
      (if Spec.becomes_head core_Count sd (Event type count) evs
       then count else next_interrupt s).
Proof.
  intros R Hl Hc. unfold add_interrupt_event_count.
  destruct (add_interrupt_event_ok s evs core_Count type (u32 (count - core_Count)) R Hl)
    as (s' & H). rewrite u32_sub_add in H by done. eauto.
Qed.

(** Freeing the head and moving on. *)
Lemma pop_head_represents s evs e h is' nx :
  g_pool s !! h = Some (Node (ev_type e) (ev_count e) nx) ->
  seg (g_pool s) nx is' evs None -> pool_wf s (h :: is') ->
  represents (s <| g_pool_used := <[h := false]> (g_pool_used s) |>
                <| g_known_unused_index := Some h |> <| q := nx |>) evs.
Proof.
  intros Hn Hseg W. exists is'. split; [done|].
  eapply pool_wf_ext; [exact (pool_free_wf s [] h is' W)|done..].
Qed.

Lemma refresh_next_interrupt_ok s evs core_Count :
  represents s evs ->
  refresh_next_interrupt core_Count s =
    Ret (tt, s <| next_interrupt := Spec.next_of core_Count evs |>).
Proof.
  intros R. pose proof (represents_inv _ _ R) as Ri.
  unfold refresh_next_interrupt. rewrite bind_get_l. destruct evs as [|e es].
  - by rewrite Ri.
  - destruct Ri as (h & is' & nx & -> & Hn & _).
    by rewrite (bind_Ret _ _ _ _ _ (read_node_ok _ _ _ Hn)).
Qed.

(** Removing the head. *)
Lemma remove_interrupt_event_ok s e evs core_Count :
  represents s (e :: evs) ->
  exists s', remove_interrupt_event core_Count s = Ret (tt, s') /\
    represents s' evs /\
    SPECIAL_done s' = (if ev_type e =? SPECIAL_INT then true else SPECIAL_done s) /\
    next_interrupt s' = Spec.next_of core_Count evs.
Proof.
  intros R. destruct (represents_inv _ _ R) as (h & is' & nx & Hq & Hn & Hseg & W).
  unfold remove_interrupt_event. rewrite bind_get_l, Hq. unfold deref.
  rewrite bind_ret_l, (bind_Ret _ _ _ _ _ (read_node_ok _ _ _ Hn)). cbn [n_next n_type].
  assert (exists s0, when (ev_type e =? SPECIAL_INT)
       (modify (fun s => s <| SPECIAL_done := true |>)) s = Ret (tt, s0) /\
       g_pool s0 = g_pool s /\ pool_wf s0 (h :: is') /\
       SPECIAL_done s0 = (if ev_type e =? SPECIAL_INT then true else SPECIAL_done s))
    as (s0 & Hw & Hp & W0 & Hsd).
  { unfold when. destruct (_ =? _); eexists; split_and!; try reflexivity; [|done].
    by eapply pool_wf_ext. }
  rewrite (bind_Ret _ _ _ _ _ Hw). unfold pool_free. rewrite !bind_modify_l.
  rewrite <- Hp in Hn, Hseg.
  pose proof (pop_head_represents s0 evs e h is' nx Hn Hseg W0) as R'.
  rewrite (refresh_next_interrupt_ok _ _ _ R'). eexists. split; [reflexivity|].
  split; [by eapply represents_ext|]. by simpl_upd.
Qed.

(** Removing the first event of a type. *)
Lemma remove_event_ok s evs type :
  represents s evs ->
  exists s', remove_event type s = Ret (tt, s') /\
    represents s' (Spec.remove_event type evs) /\
    SPECIAL_done s' = SPECIAL_done s /\ next_interrupt s' = next_interrupt s.
Proof.
  intros R. pose proof (represents_length _ _ R) as Hl.
  pose proof (represents_inv _ _ R) as Ri. unfold remove_event. rewrite bind_get_l.
  destruct evs as [|e es]; [rewrite Ri; eauto|].
  destruct Ri as (h & is' & nx & Hq & Hn & Hseg & W). rewrite Hq.
  rewrite (bind_Ret _ _ _ _ _ (read_node_ok _ _ _ Hn)). cbn [n_type n_next Spec.remove_event].
  destruct (ev_type e =? type) eqn:E.
  { unfold pool_free. rewrite bind_modify_l. unfold modify. eexists. split; [reflexivity|].
    split; [|done]. by eapply pop_head_represents. }
  destruct (find_type_loop_ok s type loop_fuel h is' e es) as
    (ipre & k & ipost & epre & ek & epost & nx' & Hrun & C & _ & Hrem & Ht).
  { simpl. eauto. } { simpl in Hl. unfold loop_fuel. lia. }
  destruct C as [C0 C1 C2 Hk Hpost].
  rewrite (bind_Ret _ _ _ _ _ Hrun), (bind_Ret _ _ _ _ _ (read_node_ok _ _ _ Hk)), Hrem.
  cbn [n_next]. destruct ipost as [|d ipost], epost as [|e' epost]; simpl in Hpost; try done.
  { subst nx'. eexists. split; [reflexivity|]. simpl. rewrite <- C1. auto. }
  destruct Hpost as (-> & nx2 & Hd & Hpost).
  rewrite (bind_Ret _ _ _ _ _ (read_node_ok _ _ _ Hd)). unfold pool_free.
  rewrite bind_modify_l. erewrite write_node_ok by exact Hk.
  eexists. split; [reflexivity|]. simpl_upd. split; [|done].
  rewrite Ht, Z.eqb_refl. rewrite C0 in W.
  exists (ipre ++ k :: ipost). split; cbn.
  - rewrite Hq. eapply unlink_after; eauto. apply (wf_nodup _ _ W).
  - change (k :: d :: ipost) with ([k] ++ d :: ipost) in W. rewrite app_assoc in W.
    apply pool_free_wf in W. rewrite <- app_assoc in W.
    eapply pool_wf_ext; [exact W|..]; try done. simpl. by rewrite length_insert.
Qed.

Lemma clear_loop_ok fuel s idxs evs :
  seg (g_pool s) (q s) idxs evs None -> (length evs < fuel)%nat ->
  exists s', clear_loop fuel s = Ret (tt, s') /\ q s' = None /\ g_pool s' = g_pool s /\
    SPECIAL_done s' = SPECIAL_done s /\ next_interrupt s' = next_interrupt s.
Proof.
  revert s idxs evs. induction fuel as [|fuel IH]; intros s idxs evs Hseg Hf; [lia|].
  cbn [clear_loop]. rewrite bind_get_l.
  destruct idxs as [|i is'], evs as [|e es]; simpl in Hseg; try done.
  - rewrite Hseg. eauto 10.
  - destruct Hseg as (-> & nx & Hn & Hseg).
    rewrite (bind_Ret _ _ _ _ _ (read_node_ok _ _ _ Hn)), bind_modify_l. cbn [n_next].
    destruct (IH (s <| q := nx |>) is' es) as (s' & Hrun & H1 & H2 & H3); [done| |].
    { simpl in Hf. lia. }
    exists s'. rewrite Hrun. auto.
Qed.

(** [clear_queue] leaves an empty queue and a free pool. *)
Lemma clear_queue_ok s evs :
  represents s evs ->
  exists s', clear_queue s = Ret (tt, s') /\ represents s' [] /\
    SPECIAL_done s' = SPECIAL_done s /\ next_interrupt s' = next_interrupt s.
Proof.
  intros R. pose proof (represents_length _ _ R) as Hl. destruct R as (idxs & Hseg & W).
  destruct (clear_loop_ok loop_fuel s idxs evs Hseg) as (s' & Hrun & H1 & H2 & H3 & H4).
  { unfold loop_fuel. lia. }
  unfold clear_queue. rewrite (bind_Ret _ _ _ _ _ Hrun). unfold pool_clear, modify.
  eexists. split; [reflexivity|]. simpl_upd. split; [|done].
  exists []. split; [done|]. split; simpl; try done.
  - by rewrite H2, (wf_pool _ _ W).
  - apply NoDup_nil_2.
  - apply all_unused_spec.
  - set_solver.
Qed.

(** ** Translation, saving and loading *)

Lemma translate_loop_ok fuel core_Count base s p idxs evs :
  seg (g_pool s) p idxs evs None -> NoDup idxs -> (length evs < fuel)%nat ->
  exists pool', translate_loop fuel core_Count base p s = Ret (tt, s <| g_pool := pool' |>) /\
    seg pool' p idxs (Spec.translate core_Count base <$> evs) None /\
    length pool' = length (g_pool s) /\
    forall j, j ∉ idxs -> pool' !! j = g_pool s !! j.
Proof.
  revert s p idxs evs. induction fuel as [|fuel IH]; intros s p idxs evs Hseg Hnd Hf; [lia|].
  cbn [translate_loop].
  destruct idxs as [|i is'], evs as [|e es]; simpl in Hseg; try done.
  { subst p. exists (g_pool s). split; [by destruct s|]. done. }
  destruct Hseg as (-> & nx & Hn & Hseg). apply NoDup_cons in Hnd as [Hni Hnd].
  rewrite (bind_Ret _ _ _ _ _ (read_node_ok _ _ _ Hn)).
  rewrite (bind_Ret _ _ _ _ _ (write_node_ok _ _ _ _ Hn)). cbn [n_next].
  assert (i < length (g_pool s))%nat as Hi by eauto using lookup_lt_Some.
  match goal with |- context [translate_loop _ _ _ _ ?s1] => set (s' := s1) end.
  destruct (IH s' nx is' es) as (pool' & Hrun & H1 & H2 & H3); [|done|simpl in Hf; lia|].
  { by apply seg_frame. }
  exists pool'. split; [exact Hrun|]. split_and!.
  - simpl. split; [done|]. exists nx. split; [|done].
    rewrite H3 by done. cbn. by rewrite list_lookup_insert_eq.
  - rewrite H2. cbn. by rewrite length_insert.
  - intros j Hj. rewrite H3 by set_solver. cbn. by rewrite list_lookup_insert_ne by set_solver.
Qed.

Lemma length_remove_event type evs :
  (length (Spec.remove_event type evs) <= length evs)%nat.
Proof. induction evs as [|e es IH]; simpl; [lia|]. destruct (_ =? _); simpl; lia. Qed.

(** Removing an event that is present makes room. *)
Lemma length_remove_event_lt type evs :
  Exists (fun e => ev_type e = type) evs ->
  (length (Spec.remove_event type evs) < length evs)%nat.
Proof.
  induction 1 as [e es He|e es _ IH]; simpl.
  - rewrite He, Z.eqb_refl. lia.
  - destruct (_ =? _); simpl; lia.
Qed.

Lemma translate_represents s evs core_Count base :
  represents s evs ->
  exists s', translate_loop loop_fuel core_Count base (q s) s = Ret (tt, s') /\
    represents s' (Spec.translate core_Count base <$> evs) /\
    SPECIAL_done s' = SPECIAL_done s /\ next_interrupt s' = next_interrupt s.
Proof.
  intros R. pose proof (represents_length _ _ R) as Hl. destruct R as (idxs & Hseg & W).
  destruct (translate_loop_ok loop_fuel core_Count base s (q s) idxs evs) as
    (pool' & Hrun & H1 & H2 & _); auto.
  { apply (wf_nodup _ _ W). } { unfold loop_fuel. lia. }
  eexists. split; [exact Hrun|]. split; [|done]. exists idxs. split; [done|].
  by eapply pool_wf_ext.
Qed.

Lemma save_loop_ok fuel s p idxs evs :
  seg (g_pool s) p idxs evs None -> (length evs < fuel)%nat ->
  save_loop fuel p s = Ret (Spec.image evs, s).
Proof.
  revert p idxs evs. induction fuel as [|fuel IH]; intros p idxs evs Hseg Hf; [lia|].
  cbn [save_loop].
  destruct idxs as [|i is'], evs as [|e es]; simpl in Hseg; try done.
  { by subst p. }
  destruct Hseg as (-> & nx & Hn & Hseg).
  rewrite (bind_Ret _ _ _ _ _ (read_node_ok _ _ _ Hn)). cbn [n_next].
  erewrite bind_Ret; [|eapply IH; [exact Hseg|simpl in Hf; lia]]. done.
Qed.

Lemma save_eventqueue_infos_ok s evs :
  represents s evs -> save_eventqueue_infos s = Ret (Spec.image evs, s).
Proof.
  intros R. pose proof (represents_length _ _ R) as Hl.
  pose proof (represents_inv _ _ R) as Ri.
  unfold save_eventqueue_infos. rewrite bind_get_l. destruct evs as [|e es].
  { by rewrite Ri. }
  destruct Ri as (h & is' & nx & Hq & Hn & Hseg & W). rewrite Hq.
  apply (save_loop_ok _ _ _ (h :: is')); [simpl; eauto|]. unfold loop_fuel. lia.
Qed.

(** The fields of a queued event fit their 32-bit slots, and the type is not
    the end marker. *)
Definition event_ok (e : event) : Prop :=
  0 <= ev_type e < 0x80000000 /\ is_u32 (ev_count e).

Lemma image_cons_read e rest tl :
  event_ok e ->
  let buf := Spec.image (e :: rest) ++ tl in
  (8 <= length buf)%nat /\ le_combine (take 4 buf) = ev_type e /\
  le_combine (take 4 (drop 4 buf)) = ev_count e /\ drop 8 buf = Spec.image rest ++ tl.
Proof.
  intros [Ht Hc]. cbn [Spec.image]. rewrite <- !app_assoc.
  pose proof (length_le_split 4 (ev_type e)) as L1.
  pose proof (length_le_split 4 (ev_count e)) as L2.
  rewrite take_app_length' by done. rewrite (drop_app_length' _ _ 4) by done.
  rewrite take_app_length' by done.
  rewrite app_assoc. rewrite (drop_app_length' _ _ 8) by (by rewrite length_app, L1, L2).
  rewrite !le_combine_split. change (256 ^ Z.of_nat 4) with 4294967296.
  rewrite !Z.mod_small by (unfold is_u32 in *; lia).
  rewrite !length_app, L1, L2. split_and!; auto. lia.
Qed.

Lemma special_after_idem core_Count sd :
  special_after core_Count (special_after core_Count sd) = special_after core_Count sd.
Proof. unfold special_after. by destruct (_ <? _). Qed.

Lemma load_loop_ok fuel core_Count s acc evs tl :
  represents s acc -> Forall event_ok evs ->
  (length acc + length evs <= POOL_SIZE)%nat -> (length evs < fuel)%nat ->
  exists s', load_loop fuel core_Count (Spec.image evs ++ tl) s = Ret (tt, s') /\
    represents s' (fold_left
      (fun acc e => Spec.insert core_Count (special_after core_Count (SPECIAL_done s)) e acc)
      evs acc).
Proof.
  revert s acc evs. induction fuel as [|fuel IH]; intros s acc evs R Hok Hcap Hf; [lia|].
  cbn [load_loop]. destruct evs as [|e es].
  { exists s. done. }
  apply Forall_cons in Hok as [He Hok].
  destruct (image_cons_read e es tl He) as (L & -> & -> & ->). destruct He as [Ht Hc].
  rewrite (proj2 (Nat.ltb_ge _ 4)), (proj2 (Nat.ltb_ge _ 8)) by lia.
  rewrite (proj2 (Z.eqb_neq (ev_type e) _)) by lia.
  rewrite s32_id by (unfold is_s32; lia).
  destruct (add_interrupt_event_count_ok s acc core_Count (ev_type e) (ev_count e)) as
    (s1 & Hrun & R1 & Hsd & _); auto. { simpl in Hcap. lia. }
  rewrite (bind_Ret _ _ _ _ _ Hrun).
  destruct (IH s1 _ es R1) as (s' & Hrun' & R'); auto.
  { rewrite length_insert_event. simpl in *. lia. } { simpl in Hf. lia. }
  exists s'. split; [done|]. rewrite Hsd, special_after_idem in R'. by destruct e.
Qed.

Lemma length_image evs : (length evs < length (Spec.image evs))%nat.
Proof.
  induction evs as [|e es IH]; [simpl; lia|].
  cbn [Spec.image]. rewrite !length_app, !length_le_split. simpl. lia.
Qed.

(** Loading a buffer that begins with the image of [evs]. *)
Lemma load_eventqueue_infos_ok core_Count s0 old evs tl :
  represents s0 old -> Forall event_ok evs -> (length evs <= POOL_SIZE)%nat ->
  exists s', load_eventqueue_infos core_Count (Spec.image evs ++ tl) s0 = Ret (tt, s') /\
    represents s'
      (Spec.load core_Count (special_after core_Count (SPECIAL_done s0)) evs).
Proof.
  intros R Hok Hl. unfold load_eventqueue_infos.
  destruct (clear_queue_ok s0 old R) as (s1 & Hrun & R1 & Hsd & _).
  rewrite (bind_Ret _ _ _ _ _ Hrun). rewrite <- Hsd.
  apply load_loop_ok; auto. pose proof (length_image evs). rewrite length_app. lia.
Qed.

(** ** A full pool

    The free-slot search runs over [sizeof(g_pool)] entries of the usage table,
    which is longer than the pool: with all 128 nodes in use it answers 128. *)

Lemma pool_alloc_full s idxs :
  pool_wf s idxs -> length idxs = POOL_SIZE ->
  exists s', pool_alloc s = Ret (POOL_SIZE, s') /\ g_pool s' = g_pool s.
Proof.
  intros [W1 W2 W3 W4 W5 W6] Hl.
  assert (seq 0 POOL_SIZE ≡ₚ idxs) as HP.
  { symmetry. apply submseteq_length_Permutation; [|by rewrite length_seq, Hl].
    apply NoDup_submseteq; [done|]. intros i Hi. apply elem_of_seq. specialize (W5 i Hi). lia. }
  assert (forall i, (i < POOL_SIZE)%nat -> i ∈ idxs) as Hall.
  { intros i Hi. rewrite <- HP. apply elem_of_seq. lia. }
  assert (g_known_unused_index s = None) as Hk.
  { destruct (g_known_unused_index s) as [k|] eqn:E; [|done].
    destruct (W6 k) as [? []]; auto. }
  assert (g_pool_used s !! POOL_SIZE = Some false) as Hu.
  { destruct (lookup_lt_is_Some_2 (g_pool_used s) POOL_SIZE) as [[] Hb]; [|exfalso|done].
    - rewrite W2. unfold POOL_SIZE, sizeof_g_pool. lia.
    - apply W4, W5 in Hb. lia. }
  destruct (first_unused_spec (g_pool_used s)) as (k & Hk1 & Hk2 & Hk3); [eauto|].
  assert (k = POOL_SIZE) as ->.
  { specialize (Hk3 _ Hu). destruct (decide (k = POOL_SIZE)); [done|].
    assert (k ∈ idxs) as Hin by (apply Hall; lia). apply W4 in Hin. congruence. }
  unfold pool_alloc. rewrite bind_get_l, Hk, Hk1. run_step. eauto.
Qed.

Lemma fill_node_oob p next count type s :
  (length (g_pool s) <= p)%nat -> fill_node p next count type s = Undef OutOfBounds.
Proof.
  intros Hp. unfold fill_node, write_node, read_node. unfold bind at 1 2.
  rewrite bind_get_l. by rewrite (lookup_ge_None_2 _ _ Hp).
Qed.

Lemma bind_undef {S A B} (m : M S A) (k : A -> M S B) s f :
  m s = Undef f -> bind m k s = Undef f.
Proof. unfold bind, obind. by intros ->. Qed.

Lemma add_interrupt_event_full s evs core_Count type delay :
  represents s evs -> length evs = POOL_SIZE ->
  add_interrupt_event core_Count type delay s = Undef OutOfBounds.
Proof.
  intros R Hl. unfold add_interrupt_event.
  assert (exists s0, when (0x80000000 <? core_Count)
     (modify (fun s => s <| SPECIAL_done := false |>)) s = Ret (tt, s0) /\
     represents s0 evs) as (s0 & Hw & R0).
  { unfold when. destruct (_ <? _); eexists; split; try reflexivity; [|done].
    by eapply represents_ext. }
  rewrite (bind_Ret _ _ _ _ _ Hw). clear Hw R s. rename s0 into s, R0 into R.
  rewrite (bind_Ret _ _ _ _ _ (get_event_ok _ _ type R)), bind_get_l.
  pose proof (represents_inv _ _ R) as Ri. destruct evs as [|e es]; [done|].
  destruct Ri as (h & is' & nx & -> & Hn & Hseg & W).
  assert (length (h :: is') = POOL_SIZE) as Hli.
  { simpl in *. by rewrite (seg_length _ _ _ _ _ Hseg). }
  destruct (pool_alloc_full s _ W Hli) as (s1 & Ha & Hp1).
  assert (length (g_pool s1) = POOL_SIZE) as Hlen1 by (by rewrite Hp1, (wf_pool _ _ W)).
  rewrite (bind_Ret _ _ _ _ _ (read_node_ok _ _ _ Hn)). cbn [n_count n_type].
  destruct (before_event _ _ _ _ _ && negb _).
  { rewrite (bind_Ret _ _ _ _ _ Ha), bind_modify_l.
    apply bind_undef, fill_node_oob. simpl_upd. lia. }
  destruct (seek_loop_ok s core_Count (Event type (u32 (core_Count + delay))) loop_fuel
              h is' e es) as (ipre & k & ipost & epre & ek & epost & nx' & Hrun & C & _ & Hpost).
  { simpl. eauto. } { unfold loop_fuel. simpl in Hl. lia. }
  rewrite (bind_Ret _ _ _ _ _ Hrun).
  pose proof (cut_node _ _ _ _ _ _ _ _ _ _ _ C) as Hk.
  pose proof (cut_post _ _ _ _ _ _ _ _ _ _ _ C) as Cp.
  rewrite (bind_Ret _ _ _ _ _ (read_node_ok _ _ _ Hk)). cbn [n_next].
  assert (forall aux2, (p <-- pool_alloc ;;;
     write_node k (fun n => n <| n_next := Some p |>) ;;;
     fill_node p aux2 (u32 (core_Count + delay)) type) s = Undef OutOfBounds) as Hlink.
  { intros aux2. rewrite (bind_Ret _ _ _ _ _ Ha).
    erewrite bind_Ret; [|apply write_node_ok; rewrite Hp1; exact Hk].
    apply fill_node_oob. simpl_upd. rewrite length_insert. lia. }
  destruct nx' as [nx'|]; [|apply Hlink].
  destruct epost as [|e' epost]; [by destruct ipost; simpl in Cp|].
  destruct Hpost as [Hs Hb]. cbn [ev_type] in Hs. rewrite Hs. cbn [negb].
  erewrite bind_Ret; [|eapply (same_count_loop_stop s core_Count
    (Event type (u32 (core_Count + delay))))]; [|exact Hk|exact Cp|done|unfold loop_fuel; lia].
  rewrite (bind_Ret _ _ _ _ _ (read_node_ok _ _ _ Hk)). apply Hlink.
Qed.
