(* ===== verification/Machine.v ===== *)
(** * The emulated machine's control state

    The memory-mapped interface registers ([core_types.h]), the COP0 registers
    ([macros.h]), the TLB entry type ([tlb.h]) and the control globals of
    [r4300.cpp] that the interrupt, exception and TLB code shares.  The machine is
    parameterised by the type [Q] of the interrupt queue, whose operations and
    laws are the classes [EventQueue] and [EventQueueLaws]; [Pool] provides the
    instance. *)

From S2P Require Import Prelude Queue Pool PoolRefines.

Open Scope prog_scope.

(** ** Interface registers *)

(** MIPS interface: interrupt status and mask. *)
Record core_mips_reg : Set := mk_core_mips_reg {
  w_mi_init_mode_reg : Z; mi_init_mode_reg : Z; init_length : Z; init_mode : Z;
  ebus_test_mode : Z; RDRAM_reg_mode : Z; mi_version_reg : Z; mi_intr_reg : Z;
  mi_intr_mask_reg : Z; w_mi_intr_mask_reg : Z; SP_intr_mask : Z; SI_intr_mask : Z;
  AI_intr_mask : Z; VI_intr_mask : Z; PI_intr_mask : Z; DP_intr_mask : Z;
}.
#[export] Instance core_mips_reg_eta : Eta core_mips_reg := fun r =>
  mk_core_mips_reg (w_mi_init_mode_reg r) (mi_init_mode_reg r) (init_length r)
    (init_mode r) (ebus_test_mode r) (RDRAM_reg_mode r) (mi_version_reg r)
    (mi_intr_reg r) (mi_intr_mask_reg r) (w_mi_intr_mask_reg r) (SP_intr_mask r)
    (SI_intr_mask r) (AI_intr_mask r) (VI_intr_mask r) (PI_intr_mask r) (DP_intr_mask r).
Definition core_mips_reg_zero : core_mips_reg :=
  mk_core_mips_reg 0 0 0 0 0 0 0 0 0 0 0 0 0 0 0 0.

(** Video interface. *)
Record core_vi_reg : Set := mk_core_vi_reg {
  vi_status : Z; vi_origin : Z; vi_width : Z; vi_v_intr : Z; vi_current : Z;
  vi_burst : Z; vi_v_sync : Z; vi_h_sync : Z; vi_leap : Z; vi_h_start : Z;
  vi_v_start : Z; vi_v_burst : Z; vi_x_scale : Z; vi_y_scale : Z; vi_delay : Z;
}.
#[export] Instance core_vi_reg_eta : Eta core_vi_reg := fun r =>
  mk_core_vi_reg (vi_status r) (vi_origin r) (vi_width r) (vi_v_intr r) (vi_current r)
    (vi_burst r) (vi_v_sync r) (vi_h_sync r) (vi_leap r) (vi_h_start r) (vi_v_start r)
    (vi_v_burst r) (vi_x_scale r) (vi_y_scale r) (vi_delay r).
Definition core_vi_reg_zero : core_vi_reg :=
  mk_core_vi_reg 0 0 0 0 0 0 0 0 0 0 0 0 0 0 0.

(** Audio interface. *)
Record core_ai_reg : Set := mk_core_ai_reg {
  ai_dram_addr : Z; ai_len : Z; ai_control : Z; ai_status : Z; ai_dacrate : Z;
  ai_bitrate : Z; next_delay : Z; next_len : Z; current_delay : Z; current_len : Z;
}.
#[export] Instance core_ai_reg_eta : Eta core_ai_reg := fun r =>
  mk_core_ai_reg (ai_dram_addr r) (ai_len r) (ai_control r) (ai_status r) (ai_dacrate r)
    (ai_bitrate r) (next_delay r) (next_len r) (current_delay r) (current_len r).
Definition core_ai_reg_zero : core_ai_reg :=
  mk_core_ai_reg 0 0 0 0 0 0 0 0 0 0.

(** Peripheral (cartridge) interface. *)
Record core_pi_reg : Set := mk_core_pi_reg {
  pi_dram_addr_reg : Z; pi_cart_addr_reg : Z; pi_rd_len_reg : Z; pi_wr_len_reg : Z;
  read_pi_status_reg : Z; pi_bsd_dom1_lat_reg : Z; pi_bsd_dom1_pwd_reg : Z;
  pi_bsd_dom1_pgs_reg : Z; pi_bsd_dom1_rls_reg : Z; pi_bsd_dom2_lat_reg : Z;
  pi_bsd_dom2_pwd_reg : Z; pi_bsd_dom2_pgs_reg : Z; pi_bsd_dom2_rls_reg : Z;
}.
#[export] Instance core_pi_reg_eta : Eta core_pi_reg := fun r =>
  mk_core_pi_reg (pi_dram_addr_reg r) (pi_cart_addr_reg r) (pi_rd_len_reg r)
    (pi_wr_len_reg r) (read_pi_status_reg r) (pi_bsd_dom1_lat_reg r)
    (pi_bsd_dom1_pwd_reg r) (pi_bsd_dom1_pgs_reg r) (pi_bsd_dom1_rls_reg r)
    (pi_bsd_dom2_lat_reg r) (pi_bsd_dom2_pwd_reg r) (pi_bsd_dom2_pgs_reg r)
    (pi_bsd_dom2_rls_reg r).
Definition core_pi_reg_zero : core_pi_reg :=
  mk_core_pi_reg 0 0 0 0 0 0 0 0 0 0 0 0 0.

(** Serial (controller) interface. *)
Record core_si_reg : Set := mk_core_si_reg {
  si_dram_addr : Z; si_pif_addr_rd64b : Z; si_pif_addr_wr64b : Z; si_status : Z;
}.
#[export] Instance core_si_reg_eta : Eta core_si_reg := fun r =>
  mk_core_si_reg (si_dram_addr r) (si_pif_addr_rd64b r) (si_pif_addr_wr64b r)
    (si_status r).
Definition core_si_reg_zero : core_si_reg :=
  mk_core_si_reg 0 0 0 0.

(** Signal processor. *)
Record core_sp_reg : Set := mk_core_sp_reg {
  sp_mem_addr_reg : Z; sp_dram_addr_reg : Z; sp_rd_len_reg : Z; sp_wr_len_reg : Z;
  w_sp_status_reg : Z; sp_status_reg : Z; halt : Z; broke : Z; sp_dma_busy : Z;
  dma_full : Z; io_full : Z; single_step : Z; intr_break : Z; signal0 : Z; signal1 : Z;
  signal2 : Z; signal3 : Z; signal4 : Z; signal5 : Z; signal6 : Z; signal7 : Z;
  sp_dma_full_reg : Z; sp_dma_busy_reg : Z; sp_semaphore_reg : Z;
}.
#[export] Instance core_sp_reg_eta : Eta core_sp_reg := fun r =>
  mk_core_sp_reg (sp_mem_addr_reg r) (sp_dram_addr_reg r) (sp_rd_len_reg r)
    (sp_wr_len_reg r) (w_sp_status_reg r) (sp_status_reg r) (halt r) (broke r)
    (sp_dma_busy r) (dma_full r) (io_full r) (single_step r) (intr_break r) (signal0 r)
    (signal1 r) (signal2 r) (signal3 r) (signal4 r) (signal5 r) (signal6 r) (signal7 r)
    (sp_dma_full_reg r) (sp_dma_busy_reg r) (sp_semaphore_reg r).
Definition core_sp_reg_zero : core_sp_reg :=
  mk_core_sp_reg 0 0 0 0 0 0 0 0 0 0 0 0 0 0 0 0 0 0 0 0 0 0 0 0.

(** Display processor commands. *)
Record core_dpc_reg : Set := mk_core_dpc_reg {
  dpc_start : Z; dpc_end : Z; dpc_current : Z; w_dpc_status : Z; dpc_status : Z;
  xbus_dmem_dma : Z; dpc_freeze : Z; dpc_flush : Z; start_glck : Z; tmem_busy : Z;
  pipe_busy : Z; cmd_busy : Z; cbuf_busy : Z; dpc_dma_busy : Z; end_valid : Z;
  start_valid : Z; dpc_clock : Z; dpc_bufbusy : Z; dpc_pipebusy : Z; dpc_tmem : Z;
}.
#[export] Instance core_dpc_reg_eta : Eta core_dpc_reg := fun r =>
  mk_core_dpc_reg (dpc_start r) (dpc_end r) (dpc_current r) (w_dpc_status r)
    (dpc_status r) (xbus_dmem_dma r) (dpc_freeze r) (dpc_flush r) (start_glck r)
    (tmem_busy r) (pipe_busy r) (cmd_busy r) (cbuf_busy r) (dpc_dma_busy r)
    (end_valid r) (start_valid r) (dpc_clock r) (dpc_bufbusy r) (dpc_pipebusy r)
    (dpc_tmem r).
Definition core_dpc_reg_zero : core_dpc_reg :=
  mk_core_dpc_reg 0 0 0 0 0 0 0 0 0 0 0 0 0 0 0 0 0 0 0 0.

(** The COP0 registers the source names ([reg_cop0] and the macros of macros.h). *)
Record cop0 : Set := mk_cop0 {
  core_Index : Z; core_Random : Z; core_EntryLo0 : Z; core_EntryLo1 : Z;
  core_Context : Z; core_PageMask : Z; core_Wired : Z; core_BadVAddr : Z;
  core_Count : Z; core_EntryHi : Z; core_Compare : Z; core_Status : Z; core_Cause : Z;
  core_EPC : Z; core_PRevID : Z; core_Config_cop0 : Z; core_LLAddr : Z;
  core_WatchLo : Z; core_WatchHi : Z; core_XContext : Z; core_PErr : Z;
  core_CacheErr : Z; core_TagLo : Z; core_TagHi : Z; core_ErrorEPC : Z;
}.
#[export] Instance cop0_eta : Eta cop0 := fun r =>
  mk_cop0 (core_Index r) (core_Random r) (core_EntryLo0 r) (core_EntryLo1 r)
    (core_Context r) (core_PageMask r) (core_Wired r) (core_BadVAddr r) (core_Count r)
    (core_EntryHi r) (core_Compare r) (core_Status r) (core_Cause r) (core_EPC r)
    (core_PRevID r) (core_Config_cop0 r) (core_LLAddr r) (core_WatchLo r)
    (core_WatchHi r) (core_XContext r) (core_PErr r) (core_CacheErr r) (core_TagLo r)
    (core_TagHi r) (core_ErrorEPC r).
Definition cop0_zero : cop0 :=
  mk_cop0 0 0 0 0 0 0 0 0 0 0 0 0 0 0 0 0 0 0 0 0 0 0 0 0 0.

(** TLB entry. *)
Record tlb : Set := mk_tlb {
  mask : Z; vpn2 : Z; g : Z; asid : Z; pfn_even : Z; c_even : Z; d_even : Z; v_even : Z;
  pfn_odd : Z; c_odd : Z; d_odd : Z; v_odd : Z; r : Z; start_even : Z; end_even : Z;
  phys_even : Z; start_odd : Z; end_odd : Z; phys_odd : Z;
}.
#[export] Instance tlb_eta : Eta tlb := fun t =>
  mk_tlb (mask t) (vpn2 t) (g t) (asid t) (pfn_even t) (c_even t) (d_even t) (v_even t)
    (pfn_odd t) (c_odd t) (d_odd t) (v_odd t) (r t) (start_even t) (end_even t)
    (phys_even t) (start_odd t) (end_odd t) (phys_odd t).
Definition tlb_zero : tlb := mk_tlb 0 0 0 0 0 0 0 0 0 0 0 0 0 0 0 0 0 0 0.

(** ** The machine *)

(** Calls into the front end, plugins and other components, in call order.  The
    last three go to the code cache of the cached interpreter ([CodeCache]): enter
    the block of an address, given with its physical address; [n] bytes of code
    memory from an address on have been overwritten; forget everything. *)
Inductive host_call : Set :=
| HUpdateScreen | HViCallback | HVcrOnVi | HTimerNewVi | HTimerNewFrame | HDynaStop | HLogError
| HViStatusChanged | HViWidthChanged | HAiLenChanged | HAiDacrateChanged | HShowDialog
| HJumpTo (a paddr : Z) | HCodeWritten (a n : Z) | HInvalidateCode.

Record machine (Q : Type) : Type := mk_machine {
  m_cop0 : cop0;
  MI_register : core_mips_reg;
  vi_register : core_vi_reg;
  ai_register : core_ai_reg;
  pi_register : core_pi_reg;
  si_register : core_si_reg;
  sp_register : core_sp_reg;
  dpc_register : core_dpc_reg;
  PIF_RAMb : list Z;
  tlb_e : list tlb;
  tlb_LUT_r : gmap Z Z;
  tlb_LUT_w : gmap Z Z;
  rom_CRC1 : Z;
  irq_queue : Q;
  interpcore : bool;
  dynacore : bool;
  dyna_interp : bool;
  interp_addr : Z;
  PC_addr : Z;
  last_addr : Z;
  delay_slot : Z;
  skip_jump : Z;
  stop : bool;
  llbit : Z;
  debug_count : Z;
  next_vi : Z;
  vi_field : Z;
  lag_count : Z;
  screen_invalidated : bool;
  g_vr_frame_skipped : bool;
  frame_advance_outstanding : Z;
  cfg_skip_rendering_lag : bool;
  cfg_render_throttling : bool;
  cfg_counter_factor : Z;
  host_calls : list host_call;
}.
Arguments m_cop0 {Q} _.
Arguments MI_register {Q} _.
Arguments vi_register {Q} _.
Arguments ai_register {Q} _.
Arguments pi_register {Q} _.
Arguments si_register {Q} _.
Arguments sp_register {Q} _.
Arguments dpc_register {Q} _.
Arguments PIF_RAMb {Q} _.
Arguments tlb_e {Q} _.
Arguments tlb_LUT_r {Q} _.
Arguments tlb_LUT_w {Q} _.
Arguments rom_CRC1 {Q} _.
Arguments irq_queue {Q} _.
Arguments interpcore {Q} _.
Arguments dynacore {Q} _.
Arguments dyna_interp {Q} _.
Arguments interp_addr {Q} _.
Arguments PC_addr {Q} _.
Arguments last_addr {Q} _.
Arguments delay_slot {Q} _.
Arguments skip_jump {Q} _.
Arguments stop {Q} _.
Arguments llbit {Q} _.
Arguments debug_count {Q} _.
Arguments next_vi {Q} _.
Arguments vi_field {Q} _.
Arguments lag_count {Q} _.
Arguments screen_invalidated {Q} _.
Arguments g_vr_frame_skipped {Q} _.
Arguments frame_advance_outstanding {Q} _.
Arguments cfg_skip_rendering_lag {Q} _.
Arguments cfg_render_throttling {Q} _.
Arguments cfg_counter_factor {Q} _.
Arguments host_calls {Q} _.
Arguments mk_machine {Q}.
#[export] Instance machine_eta Q : Eta (machine Q) := fun m =>
  mk_machine (m_cop0 m) (MI_register m) (vi_register m) (ai_register m) (pi_register m)
    (si_register m) (sp_register m) (dpc_register m) (PIF_RAMb m) (tlb_e m) (tlb_LUT_r
    m) (tlb_LUT_w m) (rom_CRC1 m) (irq_queue m) (interpcore m) (dynacore m) (dyna_interp
    m) (interp_addr m) (PC_addr m) (last_addr m) (delay_slot m) (skip_jump m) (stop m)
    (llbit m) (debug_count m) (next_vi m) (vi_field m) (lag_count m) (screen_invalidated
    m) (g_vr_frame_skipped m) (frame_advance_outstanding m) (cfg_skip_rendering_lag m)
    (cfg_render_throttling m) (cfg_counter_factor m) (host_calls m).

(** Shorthand for the nested registers. *)
Definition on_cop0 {Q} (f : cop0 -> cop0) (m : machine Q) : machine Q :=
  m <| m_cop0 := f (m_cop0 m) |>.
Definition on_MI {Q} (f : core_mips_reg -> core_mips_reg) (m : machine Q) : machine Q :=
  m <| MI_register := f (MI_register m) |>.
Definition Count {Q} (m : machine Q) : Z := core_Count (m_cop0 m).
Definition Status {Q} (m : machine Q) : Z := core_Status (m_cop0 m).
Definition Cause {Q} (m : machine Q) : Z := core_Cause (m_cop0 m).
Definition EPC {Q} (m : machine Q) : Z := core_EPC (m_cop0 m).
Definition set_Count {Q} (v : Z) : machine Q -> machine Q :=
  on_cop0 (fun c => c <| core_Count := v |>).
Definition set_Status {Q} (v : Z) : machine Q -> machine Q :=
  on_cop0 (fun c => c <| core_Status := v |>).
Definition set_Cause {Q} (v : Z) : machine Q -> machine Q :=
  on_cop0 (fun c => c <| core_Cause := v |>).
Definition set_EPC {Q} (v : Z) : machine Q -> machine Q :=
  on_cop0 (fun c => c <| core_EPC := v |>).
Definition or_intr {Q} (bits : Z) : machine Q -> machine Q :=
  on_MI (fun r => r <| mi_intr_reg := Z.lor (mi_intr_reg r) bits |>).
Definition host {Q} (h : host_call) (m : machine Q) : machine Q :=
  m <| host_calls := host_calls m ++ [h] |>.

(** Tell the code cache, which the pure interpreter does not have. *)
Definition notified {Q} (h : host_call) (m : machine Q) : machine Q := if interpcore m then m else host h m.
Definition notify_code {Q} (h : host_call) : M (machine Q) unit := modify (notified h).

(** ** The queue as its clients see it *)

Class EventQueue (Q : Type) := {
  (** [q->type], [q->count]; [q] must not be NULL *)
  q_front : M Q event;
  q_add : Z -> Z -> Z -> M Q unit;        (* core_Count, type, delay *)
  q_add_count : Z -> Z -> Z -> M Q unit;  (* core_Count, type, count *)
  q_pop : Z -> M Q unit;
  q_remove : Z -> M Q unit;
  q_get : Z -> M Q Z;
  q_push_check : Z -> M Q unit;
  q_clear : M Q unit;
  q_translate : Z -> Z -> Z -> M Q unit;
  q_next_interrupt : Q -> Z;
  q_set_next_interrupt : Z -> Q -> Q;
  q_set_SPECIAL_done : bool -> Q -> Q;
}.

(** Run queue code on the machine's queue. *)
Definition on_queue {Q A} (c : M Q A) : M (machine Q) A := fun m =>
  match c (irq_queue m) with
  | Ret (a, q') => Ret (a, m <| irq_queue := q' |>)
  | Undef f => Undef f
  end.

Definition next_interrupt_of {Q} `{EventQueue Q} (m : machine Q) : Z :=
  q_next_interrupt (irq_queue m).
Definition set_next_interrupt {Q} `{EventQueue Q} (v : Z) (m : machine Q) : machine Q :=
  m <| irq_queue := q_set_next_interrupt v (irq_queue m) |>.

(** What the queue promises: it stands for a list of events, and its operations
    act on that list as [Queue.Spec] says. *)
Class EventQueueLaws (Q : Type) `{EventQueue Q} := {
  q_rep : Q -> list event -> Prop;
  q_sd : Q -> bool;
  q_capacity s evs : q_rep s evs -> (length evs <= POOL_SIZE)%nat;
  q_front_law s e evs : q_rep s (e :: evs) -> q_front s = Ret (e, s);
  q_add_count_law s evs cnt ty c :
    q_rep s evs -> (length evs < POOL_SIZE)%nat -> is_u32 c ->
    exists s', q_add_count cnt ty c s = Ret (tt, s') /\
      q_rep s' (Spec.insert cnt (special_after cnt (q_sd s)) (Event ty c) evs) /\
      q_sd s' = special_after cnt (q_sd s) /\
      q_next_interrupt s' =
        (if Spec.becomes_head cnt (special_after cnt (q_sd s)) (Event ty c) evs
         then c else q_next_interrupt s);
  q_pop_law s e evs cnt :
    q_rep s (e :: evs) ->
    exists s', q_pop cnt s = Ret (tt, s') /\ q_rep s' evs /\
      q_sd s' = (if ev_type e =? SPECIAL_INT then true else q_sd s) /\
      q_next_interrupt s' = Spec.next_of cnt evs;
  q_get_law s evs ty : q_rep s evs -> q_get ty s = Ret (Spec.get_event ty evs, s);
  q_push_check_law s evs cnt :
    q_rep s evs -> (length evs < POOL_SIZE)%nat ->
    exists s', q_push_check cnt s = Ret (tt, s') /\
      q_rep s' (Event CHECK_INT cnt :: evs) /\ q_next_interrupt s' = cnt /\
      q_sd s' = q_sd s;
  q_set_next_law s evs v :
    q_rep s evs -> q_rep (q_set_next_interrupt v s) evs /\
      q_next_interrupt (q_set_next_interrupt v s) = v /\
      q_sd (q_set_next_interrupt v s) = q_sd s;
}.

(** ** The pool implementation of the interface *)

(** The head of [check_interrupt]'s insertion: a CHECK_INT node in front. *)
Definition push_check (core_Count : Z) : M irq unit :=
  s <-- get ;;;
  match q s with
  | None =>
      p <-- pool_alloc ;;;
      modify (fun s => s <| q := Some p |>) ;;;
      fill_node p None core_Count CHECK_INT ;;;
      modify (fun s => s <| next_interrupt := core_Count |>)
  | Some h =>
      aux <-- pool_alloc ;;;
      fill_node aux (Some h) core_Count CHECK_INT ;;;
      modify (fun s => s <| q := Some aux |>) ;;;
      modify (fun s => s <| next_interrupt := core_Count |>)
  end.

Definition front : M irq event :=
  s <-- get ;;; h <-- deref (q s) ;;; n <-- read_node h ;;;
  ret (Event (n_type n) (n_count n)).

#[export] Instance pool_queue : EventQueue irq := {
  q_front := front;
  q_add := add_interrupt_event;
  q_add_count := add_interrupt_event_count;
  q_pop := remove_interrupt_event;
  q_remove := remove_event;
  q_get := get_event;
  q_push_check := push_check;
  q_clear := clear_queue;
  q_translate := translate_event_queue;
  q_next_interrupt := next_interrupt;
  q_set_next_interrupt v s := s <| next_interrupt := v |>;
  q_set_SPECIAL_done b s := s <| SPECIAL_done := b |>;
}.

Lemma front_ok s e evs : represents s (e :: evs) -> front s = Ret (e, s).
Proof.
  intros R. destruct (represents_inv _ _ R) as (h & is' & nx & Hq & Hn & _).
  unfold front. rewrite bind_get_l, Hq. unfold deref.
  rewrite bind_ret_l, (bind_Ret _ _ _ _ _ (read_node_ok _ _ _ Hn)). by destruct e.
Qed.

Lemma push_check_ok s evs core_Count :
  represents s evs -> (length evs < POOL_SIZE)%nat ->
  exists s', push_check core_Count s = Ret (tt, s') /\
    represents s' (Event CHECK_INT core_Count :: evs) /\
    next_interrupt s' = core_Count /\ SPECIAL_done s' = SPECIAL_done s.
Proof.
  intros R Hl. pose proof (represents_inv _ _ R) as Ri.
  unfold push_check. rewrite bind_get_l.
  destruct (push_front_ok s evs (Event CHECK_INT core_Count) R Hl)
    as (s' & Hrun & R' & E1 & E2). exists s'. split; [|auto].
  destruct evs as [|e es].
  - rewrite Ri in *. exact Hrun.
  - destruct Ri as (h & is' & nx & Hq & _). rewrite Hq in *. rewrite <- Hrun.
    destruct R as (idxs & Hseg & W). rewrite <- (seg_length _ _ _ _ _ Hseg) in Hl.
    destruct (pool_alloc_ok _ _ W Hl) as (k & s1 & Ha & Hk & _ & W1 & _).
    assert (k < length (g_pool s1))%nat as Hkl by (by rewrite (wf_pool _ _ W1)).
    rewrite !(bind_Ret _ _ _ _ _ Ha), bind_modify_l.
    rewrite (bind_Ret _ _ _ _ _ (fill_node_ok _ _ _ _ _ Hkl)).
    symmetry. erewrite bind_Ret; [reflexivity|]. by apply fill_node_ok.
Qed.

#[export, refine] Instance pool_queue_laws : EventQueueLaws irq := {
  q_rep := represents; q_sd := SPECIAL_done }.
Proof.
  - intros s evs. apply represents_length.
  - intros s e evs. apply front_ok.
  - intros s evs cnt ty c R Hl Hc.
    destruct (add_interrupt_event_count_ok s evs cnt ty c R Hl Hc) as (s' & H). eauto.
  - intros s e evs cnt. apply remove_interrupt_event_ok.
  - intros s evs ty. apply get_event_ok.
  - intros s evs cnt. apply push_check_ok.
  - intros s evs v R. split; [by eapply represents_ext|done].
Defined.

(** A machine running the pure interpreter at 0x80001000, with an empty TLB. *)
Definition machine_with (s : irq) (c : cop0) (mi : core_mips_reg) : machine irq :=
  mk_machine c mi (core_vi_reg_zero <| vi_v_sync := 524 |>) core_ai_reg_zero
    core_pi_reg_zero core_si_reg_zero core_sp_reg_zero core_dpc_reg_zero
    (replicate 64 0) (replicate 32 tlb_zero) ∅ ∅ 0 s true false false 0x80001000 0
    0x80001000 0 0 false 0 0 5000 0 0 false false 0 false false 1 [].
