(* ===== verification/Exception.v ===== *)
(** * Exceptions, address translation and interrupt dispatch

    [exception.cpp] (TLB refill and general exceptions), the translation part of
    [tlb.cpp], [update_count] and [jump_to] of [r4300.cpp], and the machine-level
    half of [interrupt.cpp]: [init_interrupt], [check_interrupt] and
    [gen_interrupt].  The program counter of the cached interpreter is
    represented by the address of the instruction it points to; the code blocks
    behind it are [CodeCache]'s, which a successful [jump_to] notifies through
    [host_calls].  [dyna_jump], which only patches the recompiled code's return
    address, is left out. *)

From S2P Require Import Prelude Queue Pool PoolRefines Machine.

Open Scope prog_scope.

Section Ops.
Context {Q : Type} `{EventQueue Q}.
#[local] Abbreviation mach := (machine Q).

(** ** r4300.cpp *)

Definition update_count : M mach unit :=
  modify (fun m =>
    if interpcore m then
      set_Count (u32 (Count m + u32 (interp_addr m - last_addr m) / 2)) m
        <| last_addr := interp_addr m |>
    else
      set_Count (u32 (Count m + u32 (PC_addr m - last_addr m) / 2)) m
        <| last_addr := PC_addr m |>).

(** [jump_to] for the direct-mapped segments, where [update_invalid_addr]
    returns the address itself. *)
Definition jump_to_mapped (a : Z) : M mach unit :=
  m <-- get ;;; when (skip_jump m =? 0) (modify (fun m => host (HJumpTo a a) (m <| PC_addr := a |>))).

(** ** exception.cpp *)

Definition in_delay_slot (m : mach) : bool :=
  (delay_slot m =? 1) || (delay_slot m =? 3).

Definition usual_handler (address : Z) (tlbs : list tlb) : bool :=
  ((0x80000000 <=? address) && (address <? 0xc0000000)) ||
  existsb (fun t =>
    ((start_even t <=? address) && (address <=? end_even t)) ||
    ((start_odd t <=? address) && (address <=? end_odd t))) tlbs.

(** Continue at the exception vector [a] in either interpreter. *)
Definition goto_vector (a : Z) : M mach unit :=
  m <-- get ;;;
  if interpcore m then modify (fun m => m <| interp_addr := a |>) else jump_to_mapped a.

Definition set_BD : M mach unit :=
  modify (fun m => set_Cause (Z.lor (Cause m) 0x80000000) m).
Definition clear_BD : M mach unit :=
  modify (fun m => set_Cause (Z.land (Cause m) 0x7FFFFFFF) m).

(** Leaving the exception inside a branch: the pending jump is replaced. *)
Definition leave_exception (resume : mach -> Z) : M mach unit :=
  m <-- get ;;;
  when (dynacore m && negb (dyna_interp m)) (modify (fun m => m <| delay_slot := 0 |>)) ;;;
  when (negb (dynacore m) || dyna_interp m)
    (modify (fun m => m <| dyna_interp := false |>) ;;;
     m <-- get ;;;
     when (c_true (delay_slot m))
       (modify (fun m => m <| skip_jump := resume m |>) ;;;
        modify (set_next_interrupt 0))).

Definition TLB_refill_exception (address w : Z) : M mach unit :=
  m <-- get ;;;
  when (negb (dynacore m) && negb (w =? 2)) update_count ;;;
  modify (set_Cause (if w =? 1 then Z.shiftl 3 2 else Z.shiftl 2 2)) ;;;
  modify (on_cop0 (fun c =>
    c <| core_BadVAddr := address |>
      <| core_Context := Z.lor (Z.land (core_Context c) 0xFF80000F)
                               (Z.land (Z.shiftr address 9) 0x007FFFF0) |>
      <| core_EntryHi := Z.land address 0xFFFFE000 |>)) ;;;
  m <-- get ;;;
  (if has_bits (Status m) 0x2 then
     goto_vector 0x80000180 ;;;
     m <-- get ;;;
     (if in_delay_slot m then set_BD else clear_BD)
   else
     modify (set_EPC (if interpcore m then interp_addr m
                      else if w =? 2 then address else PC_addr m)) ;;;
     clear_BD ;;;
     modify (fun m => set_Status (Z.lor (Status m) 0x2) m) ;;;
     goto_vector (if usual_handler address (tlb_e m) then 0x80000180 else 0x80000000)) ;;;
  m <-- get ;;;
  (if in_delay_slot m then
     set_BD ;;; modify (fun m => set_EPC (u32 (EPC m - 4)) m)
   else clear_BD) ;;;
  when (negb (w =? 2)) (modify (fun m => set_EPC (u32 (EPC m - 4)) m)) ;;;
  modify (fun m => m <| last_addr := if interpcore m then interp_addr m else PC_addr m |>) ;;;
  leave_exception (fun m => if c_true (interp_addr m) then interp_addr m else PC_addr m).

Definition exception_general : M mach unit :=
  update_count ;;;
  modify (fun m => set_Status (Z.lor (Status m) 2) m) ;;;
  modify (fun m => set_EPC (if interpcore m then interp_addr m else PC_addr m) m) ;;;
  m <-- get ;;;
  (if in_delay_slot m then
     set_BD ;;; modify (fun m => set_EPC (u32 (EPC m - 4)) m)
   else clear_BD) ;;;
  goto_vector 0x80000180 ;;;
  modify (fun m => m <| last_addr := if interpcore m then interp_addr m else PC_addr m |>) ;;;
  leave_exception (fun m => if interpcore m then interp_addr m else PC_addr m).

(** ** tlb.cpp: address translation *)

(** [sl]: byte swap of a 32-bit word. *)
Definition sl (mot : Z) : Z :=
  Z.lor (Z.lor (Z.shiftl (Z.land mot 0x000000FF) 24) (Z.shiftl (Z.land mot 0x0000FF00) 8))
        (Z.lor (Z.shiftr (Z.land mot 0x00FF0000) 8) (Z.shiftr (Z.land mot 0xFF000000) 24)).

(** The GoldenEye special case: the three releases it applies to. *)
Definition goldeneye_base (crc : Z) : option Z :=
  if crc =? sl 0xDCBC50D1 then Some 0xb0034b30
  else if crc =? sl 0x0414CA61 then Some 0xb00329f0
  else if crc =? sl 0xA24F4CF1 then Some 0xb0034b70
  else None.

Definition lut_lookup (lut : gmap Z Z) (addresse : Z) : Z :=
  default 0 (lut !! Z.shiftr addresse 12).

Definition page_address (entry addresse : Z) : Z :=
  Z.lor (Z.land entry 0xFFFFF000) (Z.land addresse 0xFFF).

Definition virtual_to_physical_address (addresse w : Z) : M mach Z :=
  m <-- get ;;;
  let hack := if (0x7f000000 <=? addresse) && (addresse <? 0x80000000)
              then goldeneye_base (rom_CRC1 m) else None in
  match hack with
  | Some base => ret (u32 (base + Z.land addresse 0xFFFFFF))
  | None =>
      let entry := lut_lookup (if w =? 1 then tlb_LUT_w m else tlb_LUT_r m) addresse in
      if c_true entry then ret (page_address entry addresse)
      else TLB_refill_exception addresse w ;;; ret 0
  end.

(** [jump_to]: mapped addresses go through the TLB; a miss raises the refill
    exception, which itself continues in the direct-mapped segment. *)
Definition jump_to (a : Z) : M mach unit :=
  m <-- get ;;;
  if negb (skip_jump m =? 0) then ret tt
  else if (0x80000000 <=? a) && (a <? 0xc0000000) then jump_to_mapped a
  else
    paddr <-- virtual_to_physical_address a 2 ;;;
    when (c_true paddr) (modify (fun m => host (HJumpTo a paddr) (m <| PC_addr := a |>))).

(** ** interrupt.cpp *)

Definition init_interrupt : M mach unit :=
  modify (fun m => m <| irq_queue := q_set_SPECIAL_done true (irq_queue m) |>) ;;;
  modify (fun m => m <| next_vi := 5000 |>) ;;;
  modify (set_next_interrupt 5000) ;;;
  modify (fun m => m <| vi_register := (vi_register m) <| vi_delay := next_vi m |> |>) ;;;
  modify (fun m => m <| vi_field := 0 |>) ;;;
  on_queue q_clear ;;;
  m <-- get ;;;
  on_queue (q_add_count (Count m) VI_INT (next_vi m)) ;;;
  on_queue (q_add_count (Count m) SPECIAL_INT 0).

(** An RCP interrupt is raised and not masked in the MI. *)
Definition rcp_pending (m : mach) : bool :=
  has_bits (mi_intr_reg (MI_register m)) (mi_intr_mask_reg (MI_register m)).

(** [core_Status & core_Cause & 0xFF00] *)
Definition irq_unmasked (m : mach) : bool :=
  c_true (Z.land (Z.land (Status m) (Cause m)) 0xFF00).

(** Interrupts enabled, no exception or error level: [(core_Status & 7) == 1] *)
Definition irq_enabled (m : mach) : bool := Z.land (Status m) 7 =? 1.

Definition raise_ip2 : M mach unit :=
  modify (fun m => set_Cause (Z.land (Z.lor (Cause m) 0x400) 0xFFFFFF83) m).

Definition check_interrupt : M mach unit :=
  m <-- get ;;;
  (if rcp_pending m then raise_ip2
   else modify (fun m => set_Cause (Z.land (Cause m) 0xFFFFFBFF) m)) ;;;
  m <-- get ;;;
  when (irq_enabled m && irq_unmasked m) (on_queue (q_push_check (Count m))).

(** The VI case up to the queue update. *)
Definition vi_frame : M mach unit :=
  modify (fun m => m <| lag_count := u64 (lag_count m + 1) |>) ;;;
  m <-- get ;;;
  let skip := (cfg_skip_rendering_lag m && (1 <? lag_count m)) || g_vr_frame_skipped m in
  let update := if cfg_render_throttling m
                then (if screen_invalidated m then negb skip else false) else true in
  when (update || c_true (frame_advance_outstanding m))
    (modify (host HUpdateScreen) ;;;
     modify (fun m => m <| screen_invalidated := false |>)) ;;;
  modify (host HViCallback) ;;; modify (host HVcrOnVi) ;;; modify (host HTimerNewVi) ;;;
  modify (fun m => m <| vi_register := (vi_register m) <| vi_delay :=
    if vi_v_sync (vi_register m) =? 0 then 500000
    else u32 (u32 (vi_v_sync (vi_register m) + 1) * u32 (1500 * cfg_counter_factor m)) |> |>) ;;;
  modify (fun m => m <| next_vi := u32 (next_vi m + vi_delay (vi_register m)) |>) ;;;
  modify (fun m => m <| vi_field :=
    if has_bits (vi_status (vi_register m)) 0x40 then 1 - vi_field m else 0 |>).

(** The [switch (q->type)] of [gen_interrupt]; the result says whether control
    reaches the code behind the switch. *)
Definition dispatch_event (type : Z) : M mach bool :=
  m <-- get ;;;
  if type =? SPECIAL_INT then
    if 0x10000000 <? Count m then ret false
    else
      on_queue (q_pop (Count m)) ;;;
      on_queue (q_add_count (Count m) SPECIAL_INT 0) ;;;
      ret false
  else if type =? VI_INT then
    vi_frame ;;;
    m <-- get ;;;
    on_queue (q_pop (Count m)) ;;;
    on_queue (q_add_count (Count m) VI_INT (next_vi m)) ;;;
    modify (or_intr 0x08) ;;; ret true
  else if type =? COMPARE_INT then
    on_queue (q_pop (Count m)) ;;;
    modify (fun m => set_Count (u32 (Count m + 2)) m) ;;;
    m <-- get ;;;
    on_queue (q_add_count (Count m) COMPARE_INT (core_Compare (m_cop0 m))) ;;;
    modify (fun m => set_Count (u32 (Count m - 2)) m) ;;; ret true
  else if type =? CHECK_INT then on_queue (q_pop (Count m)) ;;; ret true
  else if type =? SI_INT then
    modify (fun m => m <| PIF_RAMb := <[0x3F%nat := 0]> (PIF_RAMb m) |>) ;;;
    on_queue (q_pop (Count m)) ;;;
    modify (or_intr 0x02) ;;;
    modify (fun m => m <| si_register := (si_register m) <| si_status :=
      Z.lor (si_status (si_register m)) 0x1000 |> |>) ;;; ret true
  else if type =? PI_INT then
    on_queue (q_pop (Count m)) ;;;
    modify (or_intr 0x10) ;;;
    modify (fun m => m <| pi_register := (pi_register m) <| read_pi_status_reg :=
      Z.land (read_pi_status_reg (pi_register m)) 0xFFFFFFFC |> |>) ;;; ret true
  else if type =? AI_INT then
    if has_bits (ai_status (ai_register m)) 0x80000000 then
      ai_event <-- on_queue (q_get AI_INT) ;;;
      on_queue (q_pop (Count m)) ;;;
      modify (fun m => m <| ai_register := (ai_register m)
        <| ai_status := Z.land (ai_status (ai_register m)) 0x7FFFFFFF |>
        <| current_delay := next_delay (ai_register m) |>
        <| current_len := next_len (ai_register m) |> |>) ;;;
      m <-- get ;;;
      on_queue (q_add_count (Count m) AI_INT
                  (u32 (ai_event + next_delay (ai_register m)))) ;;;
      modify (or_intr 0x04) ;;; ret true
    else
      on_queue (q_pop (Count m)) ;;;
      modify (fun m => m <| ai_register := (ai_register m)
        <| ai_status := Z.land (ai_status (ai_register m)) 0xBFFFFFFF |> |>) ;;;
      modify (or_intr 0x04) ;;; ret true
  else if type =? SP_INT then
    on_queue (q_pop (Count m)) ;;;
    modify (fun m => m <| sp_register := (sp_register m)
      <| sp_status_reg := Z.lor (sp_status_reg (sp_register m)) 0x303 |>
      <| signal2 := 1 |> <| broke := 1 |> <| halt := 1 |> |>) ;;;
    m <-- get ;;;
    if negb (c_true (intr_break (sp_register m))) then ret false
    else modify (or_intr 0x01) ;;; ret true
  else if type =? DP_INT then
    on_queue (q_pop (Count m)) ;;;
    modify (fun m => m <| dpc_register := (dpc_register m) <| dpc_status :=
      Z.lor (Z.land (dpc_status (dpc_register m)) 0xFFFFFFFD) 0x81 |> |>) ;;;
    modify (or_intr 0x20) ;;; ret true
  else on_queue (q_pop (Count m)) ;;; ret true.

(** A pending exception of a delay slot: resume at the saved address. *)
Definition take_skip_jump : M mach unit :=
  m <-- get ;;;
  e <-- on_queue q_front ;;;
  modify (set_next_interrupt
    (if (Count m <? ev_count e) || (u32 (Count m - ev_count e) <? 0x80000000)
     then ev_count e else 0)) ;;;
  m <-- get ;;;
  (if interpcore m then
     modify (fun m => m <| interp_addr := skip_jump m |>) ;;;
     modify (fun m => m <| last_addr := interp_addr m |>)
   else
     let dest := skip_jump m in
     modify (fun m => m <| skip_jump := 0 |>) ;;;
     jump_to dest ;;;
     modify (fun m => m <| last_addr := PC_addr m |>)) ;;;
  modify (fun m => m <| skip_jump := 0 |>).

(** What follows the switch: set the Cause bits and take the exception. *)
Definition deliver (type : Z) : M mach unit :=
  when (type =? COMPARE_INT)
    (modify (fun m => set_Cause (Z.land (Z.lor (Cause m) 0x8000) 0xFFFFFF83) m)) ;;;
  if type =? CHECK_INT then exception_general
  else
    m <-- get ;;;
    if rcp_pending m then
      raise_ip2 ;;;
      m <-- get ;;;
      if negb (irq_enabled m) then ret tt
      else if negb (irq_unmasked m) then ret tt
      else exception_general
    else ret tt.

(** [dyna_stop] jumps with [longjmp] out of the translated code to where
    [dyna_start] called it; there the emulation ends.  The interpreters run without
    [dyna_start], so that for them the jump goes through a buffer nobody has filled.
    Under the recompiler [HDynaStop] notes the jump: [stop] ends the loop it leaves. *)
Definition dyna_stop : M mach unit :=
  m <-- get ;;;
  if dynacore m then modify (host HDynaStop) else undef Uninitialized.

Definition gen_interrupt : M mach unit :=
  m <-- get ;;;
  if stop m then dyna_stop
  else if c_true (skip_jump m) then take_skip_jump
  else
    e <-- on_queue q_front ;;;
    go <-- dispatch_event (ev_type e) ;;;
    when go (deliver (ev_type e)).

End Ops.
