(* ===== verification/ExceptionFacts.v ===== *)
(** * Facts about exceptions and interrupt dispatch

    Lemmas over any queue that satisfies [EventQueueLaws]: what the general
    exception does to the processor state, how the queue events travel through
    [dispatch_event], and that no step is undefined on a non-empty queue. *)

From S2P Require Import Prelude Queue Pool PoolRefines Machine Exception.

Open Scope prog_scope.

Section Facts.
Context {Q : Type} `{EventQueueLaws Q}.
Implicit Types m : machine Q.

(** The address of the current instruction in either interpreter. *)
Definition pc m : Z := if interpcore m then interp_addr m else PC_addr m.

Definition rep m (evs : list event) : Prop := q_rep (irq_queue m) evs.

(** Count after [update_count]. *)
Definition count_after m : Z := u32 (Count m + u32 (pc m - last_addr m) / 2).

Lemma exception_general_spec m :
  skip_jump m = 0 ->
  wp exception_general (fun _ m' =>
    pc m' = 0x80000180 /\ last_addr m' = 0x80000180 /\
    Count m' = count_after m /\
    Status m' = Z.lor (Status m) 2 /\
    EPC m' = (if in_delay_slot m then u32 (pc m - 4) else pc m) /\
    Cause m' = (if in_delay_slot m then Z.lor (Cause m) 0x80000000
                else Z.land (Cause m) 0x7FFFFFFF) /\
    (irq_queue m' = irq_queue m \/
     irq_queue m' = q_set_next_interrupt 0 (irq_queue m)) /\
    MI_register m' = MI_register m) m.
Proof.
  intros Hs. destruct m; cbn in Hs; subst skip_jump.
  unfold exception_general, update_count, goto_vector, jump_to_mapped, leave_exception,
    set_BD, clear_BD.
  unfold in_delay_slot at 2 3. cbn [Machine.delay_slot].
  destruct interpcore, dynacore, dyna_interp, (delay_slot =? 1) eqn:E1,
    (delay_slot =? 3) eqn:E3; wp_exec;
    try (exfalso; rewrite ?E1, ?E3 in *; discriminate);
    split_and!; try reflexivity; try first [left; reflexivity | right; reflexivity].
Qed.

(** Running queue code. *)
Lemma on_queue_Ret {A} (c : M Q A) m a s' :
  c (irq_queue m) = Ret (a, s') -> on_queue c m = Ret (a, m <| irq_queue := s' |>).
Proof. unfold on_queue. by intros ->. Qed.

Lemma on_queue_front m e evs :
  rep m (e :: evs) -> on_queue q_front m = Ret (e, m).
Proof.
  intros R. erewrite on_queue_Ret by (by eapply q_front_law). by destruct m.
Qed.

Lemma wp_front P m e evs : rep m (e :: evs) -> P e m -> wp (on_queue q_front) P m.
Proof. intros R HP. eapply wp_Ret; [by eapply on_queue_front|done]. Qed.

Lemma wp_get_event P m evs ty :
  rep m evs -> P (Spec.get_event ty evs) m -> wp (on_queue (q_get ty)) P m.
Proof.
  intros R HP. eapply wp_Ret.
  - apply on_queue_Ret. by apply q_get_law.
  - by destruct m.
Qed.

(** Queue steps: the machine changes in its queue only. *)
Lemma wp_pop P m e evs cnt :
  rep m (e :: evs) ->
  (forall s', q_rep s' evs ->
     q_sd s' = (if ev_type e =? SPECIAL_INT then true else q_sd (irq_queue m)) ->
     q_next_interrupt s' = Spec.next_of cnt evs ->
     P tt (m <| irq_queue := s' |>)) ->
  wp (on_queue (q_pop cnt)) P m.
Proof.
  intros R HP. destruct (q_pop_law _ _ _ cnt R) as (s' & Hrun & R' & Hsd & Hn).
  eapply wp_Ret; [by apply on_queue_Ret|]. auto.
Qed.

Lemma wp_add_count P m evs cnt ty c :
  rep m evs -> (length evs < POOL_SIZE)%nat -> is_u32 c ->
  (forall s',
     q_rep s' (Spec.insert cnt (special_after cnt (q_sd (irq_queue m))) (Event ty c) evs) ->
     P tt (m <| irq_queue := s' |>)) ->
  wp (on_queue (q_add_count cnt ty c)) P m.
Proof.
  intros R Hl Hc HP.
  destruct (q_add_count_law _ _ cnt ty c R Hl Hc) as (s' & Hrun & R' & _).
  eapply wp_Ret; [by apply on_queue_Ret|]. auto.
Qed.

Lemma wp_push_check P m evs cnt :
  rep m evs -> (length evs < POOL_SIZE)%nat ->
  (forall s', q_rep s' (Event CHECK_INT cnt :: evs) -> q_next_interrupt s' = cnt ->
     P tt (m <| irq_queue := s' |>)) ->
  wp (on_queue (q_push_check cnt)) P m.
Proof.
  intros R Hl HP. destruct (q_push_check_law _ _ cnt R Hl) as (s' & Hrun & R' & Hn & _).
  eapply wp_Ret; [by apply on_queue_Ret|]. auto.
Qed.

(** ** What a fired event does to the queue and to the MI interrupt register *)

(** The delay until the next vertical interrupt. *)
Definition vi_period m : Z :=
  if vi_v_sync (vi_register m) =? 0 then 500000
  else u32 (u32 (vi_v_sync (vi_register m) + 1) * u32 (1500 * cfg_counter_factor m)).

(** The event that is queued again when [e] fires, with the clock used. *)
Definition rearm m (e : event) : option (Z * event) :=
  if ev_type e =? SPECIAL_INT then Some (Count m, Event SPECIAL_INT 0)
  else if ev_type e =? VI_INT then
    Some (Count m, Event VI_INT (u32 (next_vi m + vi_period m)))
  else if ev_type e =? COMPARE_INT then
    Some (u32 (Count m + 2), Event COMPARE_INT (core_Compare (m_cop0 m)))
  else if (ev_type e =? AI_INT) && has_bits (ai_status (ai_register m)) 0x80000000 then
    Some (Count m, Event AI_INT (u32 (ev_count e + next_delay (ai_register m))))
  else None.

(** The MI interrupt bits [e] raises. *)
Definition raised m (type : Z) : Z :=
  if type =? VI_INT then 0x08 else if type =? SI_INT then 0x02
  else if type =? PI_INT then 0x10 else if type =? AI_INT then 0x04
  else if (type =? SP_INT) && c_true (intr_break (sp_register m)) then 0x01
  else if type =? DP_INT then 0x20 else 0.

(** Queue after [e] fired in front of [evs]. *)
Definition fired m (e : event) (evs : list event) (evs' : list event) : Prop :=
  match rearm m e with
  | None => evs' = evs
  | Some (cnt, new) => exists sd, evs' = Spec.insert cnt sd new evs
  end.

(** A SPECIAL event that is not due yet stays. *)
Definition special_early m (e : event) : bool :=
  (ev_type e =? SPECIAL_INT) && (0x10000000 <? Count m).

(** The state the dispatch leaves alone. *)
Definition same_control m m' : Prop :=
  Status m' = Status m /\ Cause m' = Cause m /\ Count m' = Count m /\
  EPC m' = EPC m /\ pc m' = pc m /\ skip_jump m' = skip_jump m /\
  delay_slot m' = delay_slot m /\ last_addr m' = last_addr m /\
  mi_intr_mask_reg (MI_register m') = mi_intr_mask_reg (MI_register m).

Lemma rep_room m e evs : rep m (e :: evs) -> (length evs < POOL_SIZE)%nat.
Proof. intros R. apply q_capacity in R. simpl in R. lia. Qed.

(** The screen handling of a vertical interrupt changes neither the queue nor
    the control state. *)
Lemma wp_vi_frame P m :
  (forall m', same_control m m' -> irq_queue m' = irq_queue m ->
     MI_register m' = MI_register m ->
     next_vi m' = u32 (next_vi m + vi_period m) -> P tt m') ->
  wp vi_frame P m.
Proof.
  intros HP. unfold vi_frame. wp_step. wp_step. wp_step. wp_step. wp_step.
  apply wp_when; intros _; wp_go; apply HP; reflexivity || (split_and!; reflexivity).
Qed.

Lemma fired_none m e evs :
  rearm m e = None -> fired m e evs evs.
Proof. unfold fired. by intros ->. Qed.

(** The event was popped and nothing is queued again. *)
Ltac close_popped R1 :=
  split; [done|]; split; [rewrite ?Z.lor_0_r; done|]; split; [|done];
  eexists; split; [exact R1|]; split; [done|lia].
(** The event was popped and another one inserted. *)
Ltac close_rearmed R2 :=
  split; [rewrite ?Z.lor_0_r; done|]; split; [|done];
  eexists; split; [exact R2|]; split; [eauto|by rewrite length_insert_event].

Lemma dispatch_event_spec m e evs :
  rep m (e :: evs) -> is_u32 (core_Compare (m_cop0 m)) -> is_u32 (Count m) ->
  wp (dispatch_event (ev_type e)) (fun go m' =>
    if special_early m e then go = false /\ m' = m
    else same_control m m' /\
      mi_intr_reg (MI_register m') =
        Z.lor (mi_intr_reg (MI_register m)) (raised m (ev_type e)) /\
      (exists evs', rep m' evs' /\ fired m e evs evs' /\
         (length evs' <= S (length evs))%nat) /\
      go = negb (ev_type e =? SPECIAL_INT) &&
           negb ((ev_type e =? SP_INT) && negb (c_true (intr_break (sp_register m))))) m.
Proof.
  intros R Hc Hcnt. pose proof (rep_room _ _ _ R) as Hl.
  unfold dispatch_event, special_early, fired, rearm, raised. wp_step. wp_step.
  destruct (ev_type e =? SPECIAL_INT) eqn:Esp; cbn [andb negb].
  { apply Z.eqb_eq in Esp. rewrite Esp.
    destruct (0x10000000 <? Count m); [by apply wp_ret|].
    wp_step. eapply wp_pop; [exact R|]. intros s1 R1 _ _. wp_step.
    eapply wp_add_count; [exact R1|lia|unfold is_u32; lia|]. intros s2 R2. wp_step.
    split; [done|]. close_rearmed R2. }
  destruct (ev_type e =? VI_INT) eqn:Evi.
  { apply Z.eqb_eq in Evi. wp_step. apply wp_vi_frame. intros m1 HC HQ HMI Hvi.
    assert (rep m1 (e :: evs)) as R1 by (unfold rep; by rewrite HQ).
    wp_go. eapply wp_pop; [exact R1|]. intros s2 R2 _ _. wp_go.
    eapply wp_add_count; [exact R2|lia|rewrite Hvi; apply u32_range|]. intros s3 R3.
    wp_go. rewrite Evi. split.
    { destruct HC as (? & ? & ? & ? & ? & ? & ? & ? & ?). by split_and!. }
    split; [by rewrite <- HMI|]. split; [|done].
    eexists. split; [exact R3|]. destruct HC as (_ & _ & -> & _). rewrite Hvi.
    split; [eauto|]. by rewrite length_insert_event. }
  destruct (ev_type e =? COMPARE_INT) eqn:Eco.
  { apply Z.eqb_eq in Eco. rewrite Eco. wp_go. eapply wp_pop; [exact R|].
    intros s1 R1 _ _. wp_go.
    eapply wp_add_count; [exact R1|lia|exact Hc|]. intros s2 R2. wp_go.
    split. { split_and!; try reflexivity. change (u32 (u32 (Count m + 2) - 2) = Count m). width_lia. }
    close_rearmed R2. }
  destruct (ev_type e =? CHECK_INT) eqn:Ech.
  { apply Z.eqb_eq in Ech. rewrite Ech. wp_go. eapply wp_pop; [exact R|].
    intros s1 R1 _ _. wp_go. close_popped R1. }
  destruct (ev_type e =? SI_INT) eqn:Esi.
  { apply Z.eqb_eq in Esi. rewrite Esi. wp_go. eapply wp_pop; [exact R|].
    intros s1 R1 _ _. wp_go. close_popped R1. }
  destruct (ev_type e =? PI_INT) eqn:Epi.
  { apply Z.eqb_eq in Epi. rewrite Epi. wp_go. eapply wp_pop; [exact R|].
    intros s1 R1 _ _. wp_go. close_popped R1. }
  destruct (ev_type e =? AI_INT) eqn:Eai.
  { apply Z.eqb_eq in Eai. rewrite Eai. destruct (has_bits _ _) eqn:Hfull; cbn [andb].
    - wp_go. eapply wp_get_event; [exact R|]. wp_go. eapply wp_pop; [exact R|].
      intros s1 R1 _ _. wp_go. cbn [Spec.get_event]. rewrite Eai, Z.eqb_refl.
      eapply wp_add_count; [exact R1|lia|apply u32_range|]. intros s2 R2. wp_go.
      split; [done|]. close_rearmed R2.
    - wp_go. eapply wp_pop; [exact R|]. intros s1 R1 _ _. wp_go.
      close_popped R1. }
  destruct (ev_type e =? SP_INT) eqn:Espi.
  { apply Z.eqb_eq in Espi. rewrite Espi. change (SP_INT =? DP_INT) with false.
    wp_go. eapply wp_pop; [exact R|]. intros s1 R1 _ _. wp_go.
    change (intr_break (sp_register s)) with (intr_break (sp_register m)).
    destruct (c_true (intr_break (sp_register m))); cbn [negb andb]; wp_go;
      close_popped R1. }
  destruct (ev_type e =? DP_INT) eqn:Edp; cbn [andb].
  { wp_go. eapply wp_pop; [exact R|]. intros s1 R1 _ _. wp_go.
    close_popped R1. }
  wp_go. eapply wp_pop; [exact R|]. intros s1 R1 _ _. wp_go.
  close_popped R1.
Qed.

(** ** Delivery *)

(** Cause when the interrupt lines have been set for an event of this type. *)
Definition cause_for m (type : Z) : Z :=
  let c := if type =? COMPARE_INT then Z.land (Z.lor (Cause m) 0x8000) 0xFFFFFF83
           else Cause m in
  Z.land (Z.lor c 0x400) 0xFFFFFF83.

(** [deliver] takes the exception: a CHECK event always, any other event when an
    unmasked RCP interrupt is raised, interrupts are enabled and the resulting
    Cause has an unmasked line. *)
Definition takes m (type : Z) : bool :=
  (type =? CHECK_INT) ||
  (rcp_pending m && irq_enabled m &&
   c_true (Z.land (Z.land (Status m) (cause_for m type)) 0xFF00)).

Definition exception_taken m m' : Prop :=
  pc m' = 0x80000180 /\ Status m' = Z.lor (Status m) 2 /\
  EPC m' = (if in_delay_slot m then u32 (pc m - 4) else pc m).

Definition no_exception m m' : Prop :=
  pc m' = pc m /\ Status m' = Status m /\ EPC m' = EPC m.

(** The queue keeps its events through the exception. *)
Lemma rep_after m m' evs :
  rep m evs ->
  irq_queue m' = irq_queue m \/ irq_queue m' = q_set_next_interrupt 0 (irq_queue m) ->
  rep m' evs.
Proof.
  unfold rep. intros R [->| ->]; [done|]. by apply q_set_next_law.
Qed.

Lemma wp_exception m m0 evs (P : unit -> machine Q -> Prop) :
  skip_jump m = 0 -> rep m evs ->
  Status m = Status m0 -> pc m = pc m0 -> in_delay_slot m = in_delay_slot m0 ->
  MI_register m = MI_register m0 ->
  (forall m', rep m' evs -> MI_register m' = MI_register m0 -> exception_taken m0 m' ->
     P tt m') ->
  wp exception_general P m.
Proof.
  intros Hs R E1 E2 E3 E4 HP. eapply wp_mono; [by apply exception_general_spec|].
  intros [] m' (H1 & H2 & H3 & H4 & H5 & H6 & H7 & H8). apply HP.
  - by eapply rep_after.
  - congruence.
  - unfold exception_taken. rewrite <- E1, <- E2, <- E3. auto.
Qed.

Lemma deliver_spec m evs type :
  skip_jump m = 0 -> rep m evs ->
  wp (deliver type) (fun _ m' =>
    rep m' evs /\ MI_register m' = MI_register m /\
    if takes m type then exception_taken m m' else no_exception m m') m.
Proof.
  intros Hs R. unfold deliver, takes, cause_for. wp_step.
  apply wp_when; intros Ec; wp_go.
  - apply Z.eqb_eq in Ec. rewrite Ec. unfold raise_ip2.
    change (COMPARE_INT =? CHECK_INT) with false. cbn [orb]. wp_go.
    change (rcp_pending s) with (rcp_pending m).
    destruct (rcp_pending m); cbn [andb]; wp_go; [|by wp_go; split_and!].
    change (irq_enabled s0) with (irq_enabled m).
    destruct (irq_enabled m); cbn [andb negb]; [|by wp_go; split_and!].
    change (irq_unmasked s0) with (c_true (Z.land (Z.land (Status m) (Z.land (Z.lor
      (Z.land (Z.lor (Cause m) 0x8000) 0xFFFFFF83) 0x400) 0xFFFFFF83)) 0xFF00)).
    rewrite Z.eqb_refl. destruct (c_true _); cbn [negb]; [|by wp_go; split_and!].
    eapply (wp_exception s0 m evs); try done.
  - rewrite Ec. destruct (type =? CHECK_INT) eqn:Ek; cbn [orb].
    { eapply (wp_exception m m evs); try done. }
    unfold raise_ip2. wp_go. destruct (rcp_pending m); cbn [andb]; wp_go; [|by wp_go; split_and!].
    change (irq_enabled s) with (irq_enabled m).
    destruct (irq_enabled m); cbn [andb negb]; [|by wp_go; split_and!].
    change (irq_unmasked s) with (c_true (Z.land (Z.land (Status m) (Z.land (Z.lor
      (Cause m) 0x400) 0xFFFFFF83)) 0xFF00)).
    destruct (c_true _); cbn [negb]; [|by wp_go; split_and!].
    eapply (wp_exception s m evs); try done.
Qed.

(** The condition under which the code, firing [e], takes the interrupt exception.
    [interrupt_taken_lines] compares it with the interrupt lines. *)
Definition interrupt_taken m (e : event) : bool :=
  negb (ev_type e =? SPECIAL_INT) &&
  negb ((ev_type e =? SP_INT) && negb (c_true (intr_break (sp_register m)))) &&
  takes (or_intr (raised m (ev_type e)) m) (ev_type e).

(** An unmasked interrupt waits and may be taken, with the Status [status] and the
    interrupt lines (bits 8 to 15) of [cause]: interrupts are enabled, neither the
    exception nor the error level is set, and a line is raised that Status admits. *)
Definition waiting (status cause : Z) : bool :=
  (Z.land status 7 =? 1) && c_true (Z.land (Z.land status cause) 0xFF00).

(** The interrupt lines with an RCP interrupt on line 2 and, for the timer event,
    the timer on line 7. *)
Definition lines_with m (type : Z) : Z :=
  Z.lor (Z.lor (Cause m) 0x400) (if type =? COMPARE_INT then 0x8000 else 0).

(** Clearing the exception code does not change the lines. *)
Lemma lines_code x : Z.land (Z.land x 0xFFFFFF83) 0xFF00 = Z.land x 0xFF00.
Proof. rewrite <- Z.land_assoc. reflexivity. Qed.

Lemma cause_for_lines m type : Z.land (cause_for m type) 0xFF00 = Z.land (lines_with m type) 0xFF00.
Proof.
  unfold cause_for, lines_with. rewrite lines_code. destruct (type =? COMPARE_INT).
  - by rewrite !Z.land_lor_distr_l, !lines_code, <- !Z.lor_assoc, (Z.lor_comm (Z.land 0x8000 _)).
  - by rewrite Z.lor_0_r.
Qed.

Lemma interrupt_taken_lines m e :
  interrupt_taken m e =
    if ev_type e =? CHECK_INT then true
    else if (ev_type e =? SPECIAL_INT) || ((ev_type e =? SP_INT) && (intr_break (sp_register m) =? 0)) then false
    else rcp_pending (or_intr (raised m (ev_type e)) m) && waiting (Status m) (lines_with m (ev_type e)).
Proof.
  unfold interrupt_taken, takes. destruct (Z.eqb_spec (ev_type e) CHECK_INT) as [->|Hc]; [reflexivity|].
  assert (forall x, c_true x = negb (x =? 0)) as Hct by reflexivity.
  rewrite (Hct (intr_break _)), negb_involutive. destruct (ev_type e =? SPECIAL_INT); [reflexivity|].
  destruct (_ && (_ =? 0)); [reflexivity|]. cbn [negb andb orb]. unfold waiting.
  rewrite <- andb_assoc. f_equal. unfold irq_enabled. change (Status (or_intr _ m)) with (Status m). f_equal.
  change (cause_for (or_intr (raised m (ev_type e)) m) (ev_type e)) with (cause_for m (ev_type e)).
  by rewrite <- !Z.land_assoc, cause_for_lines.
Qed.

Lemma takes_ext m m' type :
  Status m' = Status m -> Cause m' = Cause m ->
  mi_intr_reg (MI_register m') = mi_intr_reg (MI_register m) ->
  mi_intr_mask_reg (MI_register m') = mi_intr_mask_reg (MI_register m) ->
  takes m' type = takes m type.
Proof.
  intros H1 H2 H3 H4. unfold takes, cause_for, rcp_pending, irq_enabled.
  by rewrite H1, H2, H3, H4.
Qed.

Lemma gen_interrupt_spec m e evs :
  stop m = false -> skip_jump m = 0 -> rep m (e :: evs) ->
  is_u32 (core_Compare (m_cop0 m)) -> is_u32 (Count m) ->
  wp gen_interrupt (fun _ m' =>
    (exists evs', rep m' evs' /\ (length evs' <= S (length evs))%nat /\
       if special_early m e then evs' = e :: evs else fired m e evs evs') /\
    mi_intr_reg (MI_register m') =
      Z.lor (mi_intr_reg (MI_register m)) (raised m (ev_type e)) /\
    if interrupt_taken m e then exception_taken m m' else no_exception m m') m.
Proof.
  intros Hst Hsk R Hc Hcnt. unfold gen_interrupt. wp_step. wp_step.
  rewrite Hst, Hsk. change (c_true 0) with false. cbv iota. wp_step.
  eapply wp_front; [exact R|]. wp_step.
  eapply wp_mono; [by apply (dispatch_event_spec m e evs)|].
  intros go m1 H1. unfold interrupt_taken. destruct (special_early m e) eqn:Esp.
  { destruct H1 as [-> ->]. apply andb_true_iff in Esp as [Et _]. simpl.
    rewrite Et. unfold raised. apply Z.eqb_eq in Et. rewrite Et.
    split; [exists (e :: evs); auto|]. split; [by rewrite Z.lor_0_r|done]. }
  destruct H1 as (HC & HMI & (evs' & R' & Hf & Hlen) & ->).
  destruct HC as (C1 & C2 & C3 & C4 & C5 & C6 & C7 & C8 & C9).
  destruct (negb (ev_type e =? SPECIAL_INT) && _) eqn:Ego; cbn [andb when].
  - eapply wp_mono; [apply (deliver_spec m1 evs'); [by rewrite C6|done]|].
    intros [] m' (R2 & HMI2 & Hx). split; [eauto|]. split; [by rewrite HMI2|].
    rewrite (takes_ext (or_intr (raised m (ev_type e)) m) m1) in Hx by done.
    unfold exception_taken, no_exception, in_delay_slot in *.
    rewrite C1, C4, C5, C7 in Hx. done.
  - split; [eauto|]. split; [done|]. done.
Qed.

(** ** check_interrupt *)

(** The RCP line (IP2) of Cause after the check. *)
Definition checked_cause m : Z :=
  if rcp_pending m then Z.land (Z.lor (Cause m) 0x400) 0xFFFFFF83
  else Z.land (Cause m) 0xFFFFFBFF.

Lemma check_interrupt_spec m evs :
  rep m evs -> (length evs < POOL_SIZE)%nat ->
  wp check_interrupt (fun _ m' =>
    Cause m' = checked_cause m /\
    if irq_enabled m && c_true (Z.land (Z.land (Status m) (checked_cause m)) 0xFF00)
    then rep m' (Event CHECK_INT (Count m) :: evs) /\ next_interrupt_of m' = Count m
    else rep m' evs /\ next_interrupt_of m' = next_interrupt_of m) m.
Proof.
  intros R Hl. unfold check_interrupt, raise_ip2. wp_go.
  assert ((if rcp_pending m
      then modify (fun m => set_Cause (Z.land (Z.lor (Cause m) 0x400) 0xFFFFFF83) m)
      else modify (fun m => set_Cause (Z.land (Cause m) 0xFFFFFBFF) m)) m =
      Ret (tt, set_Cause (checked_cause m) m)) as Hrun.
  { unfold checked_cause. by destruct (rcp_pending m). }
  eapply wp_Ret; [exact Hrun|]. generalize (checked_cause m). intros c. wp_go.
  change (irq_enabled (set_Cause c m)) with (irq_enabled m).
  change (irq_unmasked (set_Cause c m)) with (c_true (Z.land (Z.land (Status m) c) 0xFF00)).
  destruct (irq_enabled m && _); cbn [when]; [|by wp_go].
  eapply wp_push_check; [exact R|done|]. intros s' R' Hn. done.
Qed.
End Facts.
