(* ===== verification/InterruptProps.v ===== *)
(** * Properties of the interrupt queue and of interrupt dispatch

    The theorems about [interrupt.cpp] and [exception.cpp]: the pool-allocated
    queue refines the list specification over whole operation sequences, keeps
    its order, survives a savestate, and overruns its pool when full; and
    [gen_interrupt], [check_interrupt] and the exception entry do what the
    machine's registers say. *)

From S2P Require Import Prelude Queue Pool PoolRefines Machine Exception ExceptionFacts.
From Stdlib Require Import Sorting.Sorted Sorting.Permutation.

Open Scope prog_scope.

(** ** Operation sequences *)

(** A call into the queue, with the value of Count it sees. *)
Inductive qop : Set :=
| OpAdd (core_Count type delay : Z)
| OpAddCount (core_Count type count : Z)
| OpPop (core_Count : Z)
| OpRemove (type : Z)
| OpClear
| OpTranslate (core_Count core_Compare base : Z).

Definition run_op (o : qop) : M irq unit :=
  match o with
  | OpAdd c t d => add_interrupt_event c t d
  | OpAddCount c t n => add_interrupt_event_count c t n
  | OpPop c => remove_interrupt_event c
  | OpRemove t => remove_event t
  | OpClear => clear_queue
  | OpTranslate c cmp b => translate_event_queue c cmp b
  end.

Fixpoint run_ops (ops : list qop) : M irq unit :=
  match ops with [] => ret tt | o :: rest => run_op o ;;; run_ops rest end.

(** The abstract queue: its events, SPECIAL_done and next_interrupt. *)
Record aqueue : Set := AQ { a_events : list event; a_sd : bool; a_next : Z }.

Definition a_insert (c : Z) (new : event) (a : aqueue) : option aqueue :=
  let sd := special_after c (a_sd a) in
  if (length (a_events a) <? POOL_SIZE)%nat then
    Some (AQ (Spec.insert c sd new (a_events a)) sd
            (if Spec.becomes_head c sd new (a_events a) then ev_count new else a_next a))
  else None.

(** The specification is partial: no insertion into a full queue, no removal
    from an empty one. *)
Definition spec_op (o : qop) (a : aqueue) : option aqueue :=
  match o with
  | OpAdd c t d => a_insert c (Event t (u32 (c + d))) a
  | OpAddCount c t n => a_insert c (Event t (u32 (c + u32 (n - c)))) a
  | OpPop c =>
      match a_events a with
      | [] => None
      | e :: es => Some (AQ es (if ev_type e =? SPECIAL_INT then true else a_sd a)
                           (Spec.next_of c es))
      end
  | OpRemove t => Some (AQ (Spec.remove_event t (a_events a)) (a_sd a) (a_next a))
  | OpClear => Some (AQ [] (a_sd a) (a_next a))
  | OpTranslate c cmp b =>
      let evs := Spec.translate c b <$>
        Spec.remove_event SPECIAL_INT (Spec.remove_event COMPARE_INT (a_events a)) in
      a1 ← a_insert c (Event COMPARE_INT (u32 (c + u32 (cmp - c)))) (AQ evs (a_sd a) (a_next a));
      a_insert c (Event SPECIAL_INT (u32 (c + u32 (0 - c)))) a1
  end.

Fixpoint spec_ops (ops : list qop) (a : aqueue) : option aqueue :=
  match ops with [] => Some a | o :: rest => a' ← spec_op o a; spec_ops rest a' end.

(** The simulation relation. *)
Definition implements (s : irq) (a : aqueue) : Prop :=
  represents s (a_events a) /\ SPECIAL_done s = a_sd a /\ next_interrupt s = a_next a.

Lemma sim_add s a a' c t d :
  implements s a -> a_insert c (Event t (u32 (c + d))) a = Some a' ->
  exists s', add_interrupt_event c t d s = Ret (tt, s') /\ implements s' a'.
Proof.
  intros (R & Hsd & Hn). unfold a_insert. case_cmp; [|done]. intros [= <-].
  destruct (add_interrupt_event_ok s _ c t d R) as (s' & Hrun & R' & H1 & H2); [done|].
  rewrite Hsd in *. rewrite Hn in *. exists s'. split; [done|]. by split_and!.
Qed.

Lemma sim_step o s a a' :
  implements s a -> spec_op o a = Some a' ->
  exists s', run_op o s = Ret (tt, s') /\ implements s' a'.
Proof.
  intros Himp. pose proof Himp as (R & Hsd & Hn). destruct o; simpl.
  - by apply sim_add.
  - by apply sim_add.
  - destruct (a_events a) as [|e es]; [done|]. intros [= <-].
    destruct (remove_interrupt_event_ok s e es core_Count R) as (s' & Hrun & R' & H1 & H2).
    exists s'. rewrite Hsd in H1. by split_and!.
  - intros [= <-]. destruct (remove_event_ok s _ type R) as (s' & Hrun & R' & H1 & H2).
    exists s'. split; [done|]. split_and!; simpl; congruence || done.
  - intros [= <-]. destruct (clear_queue_ok s _ R) as (s' & Hrun & R' & H1 & H2).
    exists s'. split; [done|]. split_and!; simpl; congruence || done.
  - unfold translate_event_queue, add_interrupt_event_count.
    destruct (remove_event_ok s _ COMPARE_INT R) as (s1 & H1 & R1 & S1 & N1).
    destruct (remove_event_ok s1 _ SPECIAL_INT R1) as (s2 & H2 & R2 & S2 & N2).
    destruct (translate_represents s2 _ core_Count base R2) as (s3 & H3 & R3 & S3 & N3).
    rewrite (bind_Ret _ _ _ _ _ H1), (bind_Ret _ _ _ _ _ H2), bind_get_l,
      (bind_Ret _ _ _ _ _ H3).
    destruct (a_insert _ _ (AQ _ _ _)) as [a1|] eqn:E1; [|done]. simpl. intros E2.
    edestruct (sim_add s3) as (s4 & H4 & I4); [|exact E1|].
    { split_and!; simpl; [exact R3|congruence..]. }
    rewrite (bind_Ret _ _ _ _ _ H4). by eapply sim_add.
Qed.

Lemma sim_ops ops s a a' :
  implements s a -> spec_ops ops a = Some a' ->
  exists s', run_ops ops s = Ret (tt, s') /\ implements s' a'.
Proof.
  revert s a. induction ops as [|o ops IH]; intros s a I H; simpl in *.
  { simplify_eq. by exists s. }
  destruct (spec_op o a) as [a1|] eqn:E; [|done]. simpl in H.
  destruct (sim_step o s a a1 I E) as (s1 & Hrun & I1).
  rewrite (bind_Ret _ _ _ _ _ Hrun). by eapply IH.
Qed.

(** Concrete queues to instantiate the theorems with. *)
Lemma queue_after ops a :
  spec_ops ops (AQ [] false 0) = Some a ->
  exists s, run_ops ops irq_init = Ret (tt, s) /\ implements s a.
Proof.
  apply sim_ops. split_and!; [apply irq_init_represents|done..].
Qed.

(** C5.  The pool-allocated linked list of interrupt.cpp refines the sorted-list
    specification: whatever sequence of queue calls is made from the initial
    state, as long as the specified queue never exceeds the 128 pool slots and is
    never popped when empty, the code runs without touching memory outside the
    pool, without dereferencing NULL and without diverging, and ends with exactly
    the specified events, SPECIAL_done flag and next_interrupt. *)
Theorem queue_refines_spec ops evs sd ni :
  spec_ops ops (AQ [] false 0) = Some (AQ evs sd ni) ->
  exists s, run_ops ops irq_init = Ret (tt, s) /\
    represents s evs /\ SPECIAL_done s = sd /\ next_interrupt s = ni.
Proof.
  intros H. destruct (queue_after _ _ H) as (s & Hrun & I). exists s. by split.
Qed.

(** A run with insertions in and out of order, a removal, a translation of the
    clock and a pop. *)
Definition sample_ops : list qop :=
  [OpAdd 0 VI_INT 5000; OpAdd 0 SI_INT 0x900; OpAddCount 10 COMPARE_INT 300;
   OpAdd 10 SPECIAL_INT 0; OpRemove SI_INT; OpTranslate 20 400 1000; OpPop 1000].

Lemma queue_refines_spec_witness :
  spec_ops sample_ops (AQ [] false 0) =
    Some (AQ [Event VI_INT 5980; Event SPECIAL_INT 0] false 5980) /\
  exists s, run_ops sample_ops irq_init = Ret (tt, s) /\
    represents s [Event VI_INT 5980; Event SPECIAL_INT 0] /\
    SPECIAL_done s = false /\ next_interrupt s = 5980.
Proof.
  assert (spec_ops sample_ops (AQ [] false 0) =
    Some (AQ [Event VI_INT 5980; Event SPECIAL_INT 0] false 5980)) as H
    by (vm_compute; reflexivity).
  split; [exact H|exact (queue_refines_spec _ _ _ _ H)].
Defined.

(** Ordered insertion: while Count is in the lower half of its range and the
    counter-wrap event has been served (or Count is past its grace period), adding
    a regular event with a delay below 2^31 puts it behind every queued event that
    is due no later (so events with equal deadlines fire in the order they were
    added), in front of every event due later and of the wrap event, and leaves
    the rest of the queue untouched and ordered. *)
Theorem add_event_position s evs core_Count type delay :
  represents s evs -> (length evs < POOL_SIZE)%nat ->
  0 < core_Count < 0x80000000 -> type <> SPECIAL_INT -> 0 <= delay < 0x80000000 ->
  SPECIAL_done s = true \/ 0x10000000 <= core_Count ->
  Forall (fun e => is_special e = true -> ev_count e = 0) evs ->
  ordered core_Count evs ->
  let new := Event type (u32 (core_Count + delay)) in
  exists s' pre post, add_interrupt_event core_Count type delay s = Ret (tt, s') /\
    evs = pre ++ post /\ represents s' (pre ++ new :: post) /\
    ordered core_Count (pre ++ new :: post) /\
    (forall e, e ∈ pre -> is_special e = false /\ distance core_Count e <= delay) /\
    (forall e, e ∈ post -> is_special e = true \/ delay < distance core_Count e).
Proof.
  intros R Hl Hc Ht Hd Hsd Hsp Hord new.
  destruct (add_interrupt_event_ok s evs core_Count type delay R Hl) as (s' & Hrun & R' & _).
  fold new in R'. set (sd := special_after core_Count (SPECIAL_done s)) in R'.
  assert (is_special new = false) as Hs by (by apply Z.eqb_neq).
  assert (distance core_Count new = delay) as Hdist
    by (unfold distance, new; cbn [ev_count]; width_lia).
  assert (upcoming core_Count new) as Hu by (unfold upcoming; lia).
  assert (forall e, is_special e = true -> e ∈ evs ->
            Spec.before core_Count sd (ev_count new) e = true) as Hb.
  { intros e He Hin. rewrite Forall_forall in Hsp. specialize (Hsp e Hin He).
    unfold Spec.before, before_event. rewrite Hsp. unfold is_special in He. rewrite He.
    change (u32 (ev_count new - core_Count)) with (distance core_Count new). rewrite Hdist.
    rewrite (proj2 (Z.ltb_lt delay _)) by lia.
    destruct (Z.ltb_spec (u32 (0 - core_Count)) 0x80000000); [width_lia|].
    case_cmp; [|done]. unfold sd, special_after. case_cmp; [lia|].
    destruct Hsd as [|Hsd]; [done|]. width_lia. }
  destruct (insert_position core_Count sd new evs Hs Hu Hb Hord) as
    (pre & post & Heq & Hins & Hpre & Hpost).
  exists s', pre, post. rewrite <- Hins. split; [done|]. split; [done|]. split; [done|].
  split; [by apply insert_ordered_regular|].
  unfold sooner in Hpre. rewrite Hdist in Hpre, Hpost. auto.
Qed.

(** A queue holding a VI event and the wrap event, at Count 0x20000000. *)
Definition vi_queue_ops : list qop :=
  [OpAdd 0x20000000 VI_INT 5000; OpAddCount 0x20000000 SPECIAL_INT 0].
Definition vi_queue : list event := [Event VI_INT 0x20001388; Event SPECIAL_INT 0].

Lemma vi_queue_reached :
  exists s, represents s vi_queue /\ SPECIAL_done s = false.
Proof.
  destruct (queue_after vi_queue_ops (AQ vi_queue false 0x20001388)) as (s & _ & R & H & _).
  - vm_compute. reflexivity.
  - eauto.
Qed.

Lemma vi_queue_ordered : ordered 0x20000000 vi_queue.
Proof.
  exists [Event VI_INT 0x20001388], [Event SPECIAL_INT 0]. split; [done|]. split; [|split].
  - constructor; [|constructor]. split; [done|]. vm_compute. reflexivity.
  - repeat constructor.
  - by constructor.
Qed.

Lemma add_event_position_witness :
  exists s, represents s vi_queue /\
    exists s' pre post, add_interrupt_event 0x20000000 SI_INT 0x900 s = Ret (tt, s') /\
      vi_queue = pre ++ post /\
      represents s' (pre ++ Event SI_INT (u32 (0x20000000 + 0x900)) :: post) /\
      ordered 0x20000000 (pre ++ Event SI_INT (u32 (0x20000000 + 0x900)) :: post) /\
      (forall e, e ∈ pre -> is_special e = false /\ distance 0x20000000 e <= 0x900) /\
      (forall e, e ∈ post -> is_special e = true \/ 0x900 < distance 0x20000000 e).
Proof.
  destruct vi_queue_reached as (s & R & Hsd). exists s. split; [done|].
  apply (add_event_position s vi_queue 0x20000000 SI_INT 0x900); try done.
  - simpl. unfold POOL_SIZE. lia.
  - by right.
  - repeat constructor; done.
  - apply vi_queue_ordered.
Defined.

(** A savestate keeps the queue: writing an ordered queue with
    [save_eventqueue_infos] and reading the bytes back with
    [load_eventqueue_infos], into any queue and at the same Count, restores
    exactly the same events in the same order. *)
Theorem savestate_queue_roundtrip s evs s0 old core_Count :
  represents s evs -> Forall event_ok evs -> ordered core_Count evs ->
  represents s0 old ->
  exists buf s', save_eventqueue_infos s = Ret (buf, s) /\
    load_eventqueue_infos core_Count buf s0 = Ret (tt, s') /\ represents s' evs.
Proof.
  intros R Hok Hord R0. exists (Spec.image evs).
  destruct (load_eventqueue_infos_ok core_Count s0 old evs [] R0 Hok) as (s' & Hrun & R').
  { by eapply represents_length. }
  rewrite app_nil_r in Hrun. rewrite load_ordered in R' by done.
  exists s'. split_and!; [by apply save_eventqueue_infos_ok|done..].
Qed.

Lemma savestate_queue_roundtrip_witness :
  exists s, represents s vi_queue /\
    exists buf s', save_eventqueue_infos s = Ret (buf, s) /\
      load_eventqueue_infos 0x20000000 buf irq_init = Ret (tt, s') /\
      represents s' vi_queue.
Proof.
  destruct vi_queue_reached as (s & R & _). exists s. split; [done|].
  apply (savestate_queue_roundtrip s vi_queue irq_init [] 0x20000000); try done.
  - repeat constructor; simpl; unfold VI_INT, SPECIAL_INT, is_u32; lia.
  - apply vi_queue_ordered.
  - apply irq_init_represents.
Defined.

(** The pool's capacity is not enforced: with 128 events queued,
    [add_interrupt_event] is handed slot 128 by the free-slot search, whose bound
    is the byte size of the pool instead of its length, and writes the new node
    outside [g_pool]. *)
Theorem full_pool_writes_out_of_bounds s evs core_Count type delay :
  represents s evs -> length evs = POOL_SIZE ->
  add_interrupt_event core_Count type delay s = Undef OutOfBounds.
Proof. apply add_interrupt_event_full. Qed.

(** 128 audio events at increasing deadlines. *)
Definition full_queue_ops : list qop :=
  map (fun i => OpAdd 0 AI_INT (Z.of_nat i)) (seq 0 POOL_SIZE).

Lemma full_pool_writes_out_of_bounds_witness :
  exists s, run_ops full_queue_ops irq_init = Ret (tt, s) /\
    add_interrupt_event 0 VI_INT 5000 s = Undef OutOfBounds.
Proof.
  destruct (queue_after full_queue_ops
    (AQ (map (fun i => Event AI_INT (Z.of_nat i)) (seq 0 POOL_SIZE)) false 0))
    as (s & Hrun & R & _).
  { vm_compute. reflexivity. }
  exists s. split; [done|].
  apply (full_pool_writes_out_of_bounds _ _ 0 VI_INT 5000 R). vm_compute. reflexivity.
Defined.

(** Translation of the queue inserts the timer event against the wrong
    clock: [translate_event_queue] moves the other deadlines to the new value of
    Count but compares the re-inserted COMPARE event with the old value, so a
    timer due long before the next vertical interrupt is queued behind it.  Here
    Count goes from 0x1000 to 0: the timer is due at 0x10, the vertical interrupt
    at 0x1000, and the timer ends up second. *)
Theorem translate_misorders_compare :
  exists s s', represents s [Event VI_INT 0x2000] /\
    translate_event_queue 0x1000 0x10 0 s = Ret (tt, s') /\
    represents s' [Event VI_INT 0x1000; Event COMPARE_INT 0x10; Event SPECIAL_INT 0] /\
    distance 0 (Event COMPARE_INT 0x10) < distance 0 (Event VI_INT 0x1000).
Proof.
  destruct (queue_after [OpAddCount 0x1000 VI_INT 0x2000]
    (AQ [Event VI_INT 0x2000] false 0x2000)) as (s & _ & I).
  { vm_compute. reflexivity. }
  destruct (sim_step (OpTranslate 0x1000 0x10 0) s _
    (AQ [Event VI_INT 0x1000; Event COMPARE_INT 0x10; Event SPECIAL_INT 0] false 0x2000) I)
    as (s' & Hrun & R' & _).
  { vm_compute. reflexivity. }
  exists s, s'. split; [apply I|]. by split_and!.
Qed.

(** ** Dispatch *)

(** C9.  [gen_interrupt] on a running machine whose queue head is [e]: the call
    always completes; the event is removed, and re-queued one period later when it
    is periodic (vertical interrupt, timer, full audio FIFO, counter wrap), so the
    queue never grows; the device's bit is raised in the MI interrupt register;
    and the processor enters the general exception vector with the interrupted
    address in EPC, leaving PC, Status and EPC alone otherwise, in these cases.  A
    CHECK event, which [check_interrupt] queues when an interrupt waits, is always
    taken.  A counter wrap, or the end of an RSP task that does not ask for an
    interrupt, never is.  Any other event is taken exactly when an RCP interrupt is
    raised that the MI lets through and, with line 2 and for the timer event line 7
    raised, Status enables interrupts and admits one of the raised lines.  So a
    timer event without an RCP interrupt is not taken, although the architecture
    asks for it ([compare_alone_is_not_delivered]). *)
Theorem gen_interrupt_correct (m : machine irq) e evs :
  stop m = false -> skip_jump m = 0 -> represents (irq_queue m) (e :: evs) ->
  is_u32 (core_Compare (m_cop0 m)) -> is_u32 (Count m) ->
  exists m', gen_interrupt m = Ret (tt, m') /\
    (exists evs', represents (irq_queue m') evs' /\ (length evs' <= S (length evs))%nat /\
       if special_early m e then evs' = e :: evs else fired m e evs evs') /\
    mi_intr_reg (MI_register m') =
      Z.lor (mi_intr_reg (MI_register m)) (raised m (ev_type e)) /\
    if ev_type e =? CHECK_INT then exception_taken m m'
    else if (ev_type e =? SPECIAL_INT) || ((ev_type e =? SP_INT) && (intr_break (sp_register m) =? 0))
    then no_exception m m'
    else if rcp_pending (or_intr (raised m (ev_type e)) m) && waiting (Status m) (lines_with m (ev_type e))
    then exception_taken m m' else no_exception m m'.
Proof.
  intros H1 H2 R H3 H4.
  pose proof (gen_interrupt_spec m e evs H1 H2 R H3 H4) as W.
  apply wp_exists in W as ([] & m' & Hrun & W). exists m'. split; [exact Hrun|].
  destruct W as (Hq & HMI & Hx). rewrite interrupt_taken_lines in Hx. split; [exact Hq|]. split; [exact HMI|].
  destruct (ev_type e =? CHECK_INT); [exact Hx|]. destruct (_ || _); exact Hx.
Qed.

(** COP0 at a vertical interrupt, with interrupts enabled and unmasked. *)
Definition cop0_enabled : cop0 :=
  cop0_zero <| core_Count := 0x20001388 |> <| core_Status := 0xFF01 |>.

Lemma gen_interrupt_correct_witness :
  exists s m', represents s vi_queue /\
    gen_interrupt (machine_with s cop0_enabled
      (core_mips_reg_zero <| mi_intr_mask_reg := 0x3F |>)) = Ret (tt, m') /\
    pc m' = 0x80000180 /\ EPC m' = 0x80001000 /\
    mi_intr_reg (MI_register m') = 0x08.
Proof.
  destruct vi_queue_reached as (s & R & _).
  destruct (gen_interrupt_correct (machine_with s cop0_enabled
      (core_mips_reg_zero <| mi_intr_mask_reg := 0x3F |>))
      (Event VI_INT 0x20001388) [Event SPECIAL_INT 0]) as (m' & Hrun & _ & HMI & Hx);
    try done.
  exists s, m'. split; [done|]. split; [done|].
  destruct Hx as (Hpc & _ & HE). split_and!; done.
Defined.

(** The timer interrupt is not delivered on its own: when the COMPARE event
    fires while no unmasked RCP interrupt is raised, [gen_interrupt] returns
    without taking the exception, even with interrupts enabled and the timer line
    unmasked in Status, although Cause then reports the timer interrupt. *)
Theorem compare_alone_is_not_delivered (m : machine irq) c evs :
  stop m = false -> skip_jump m = 0 ->
  represents (irq_queue m) (Event COMPARE_INT c :: evs) ->
  is_u32 (core_Compare (m_cop0 m)) -> is_u32 (Count m) ->
  rcp_pending m = false ->
  exists m', gen_interrupt m = Ret (tt, m') /\ no_exception m m'.
Proof.
  intros H1 H2 R H3 H4 Hrcp.
  pose proof (gen_interrupt_spec m _ evs H1 H2 R H3 H4) as W.
  apply wp_exists in W as ([] & m' & Hrun & _ & _ & Hx). exists m'. split; [done|].
  assert (interrupt_taken m (Event COMPARE_INT c) = false) as E.
  { unfold interrupt_taken, takes. cbn [ev_type]. unfold raised.
    change (COMPARE_INT =? VI_INT) with false. cbn [andb negb].
    replace (rcp_pending (or_intr _ m)) with (rcp_pending m); [by rewrite Hrcp|].
    unfold rcp_pending, or_intr, on_MI. simpl_upd. by rewrite Z.lor_0_r. }
  by rewrite E in Hx.
Qed.

Definition compare_queue_ops : list qop := [OpAddCount 0x100 COMPARE_INT 0x200].

Lemma compare_alone_is_not_delivered_witness :
  exists s m', represents s [Event COMPARE_INT 0x200] /\
    let m := machine_with s (cop0_zero <| core_Count := 0x200 |>
               <| core_Status := 0x8001 |> <| core_Compare := 0x200 |>) core_mips_reg_zero in
    irq_enabled m = true /\ gen_interrupt m = Ret (tt, m') /\ no_exception m m'.
Proof.
  destruct (queue_after compare_queue_ops (AQ [Event COMPARE_INT 0x200] false 0x200))
    as (s & _ & R & _). { vm_compute. reflexivity. }
  destruct (compare_alone_is_not_delivered (machine_with s (cop0_zero
      <| core_Count := 0x200 |> <| core_Status := 0x8001 |> <| core_Compare := 0x200 |>)
      core_mips_reg_zero) 0x200 []) as (m' & Hrun & Hx); try done.
  exists s, m'. by split_and!.
Defined.

(** [check_interrupt] keeps the RCP line of Cause equal to the masked MI
    interrupt state, and schedules an immediate CHECK event at the head of the
    queue (making [next_interrupt] the current Count) exactly when interrupts are
    enabled and some line of the updated Cause is unmasked in Status. *)
Theorem check_interrupt_correct (m : machine irq) evs :
  represents (irq_queue m) evs -> (length evs < POOL_SIZE)%nat ->
  exists m', check_interrupt m = Ret (tt, m') /\
    Z.testbit (Cause m') 10 = rcp_pending m /\
    Cause m' = checked_cause m /\
    if irq_enabled m && c_true (Z.land (Z.land (Status m) (Cause m')) 0xFF00)
    then represents (irq_queue m') (Event CHECK_INT (Count m) :: evs) /\
         next_interrupt_of m' = Count m
    else represents (irq_queue m') evs /\ next_interrupt_of m' = next_interrupt_of m.
Proof.
  intros R Hl. pose proof (check_interrupt_spec m evs R Hl) as W.
  apply wp_exists in W as ([] & m' & Hrun & HC & Hq). exists m'.
  split; [done|]. split; [|split; [done|by rewrite HC]].
  rewrite HC. unfold checked_cause.
  destruct (rcp_pending m); rewrite !Z.land_spec, ?Z.lor_spec; simpl.
  - by rewrite orb_true_r.
  - by rewrite andb_false_r.
Qed.

Lemma check_interrupt_correct_witness :
  exists s m', represents s vi_queue /\
    check_interrupt (machine_with s cop0_enabled
      (core_mips_reg_zero <| mi_intr_reg := 0x08 |> <| mi_intr_mask_reg := 0x3F |>))
      = Ret (tt, m') /\
    represents (irq_queue m') (Event CHECK_INT 0x20001388 :: vi_queue).
Proof.
  destruct vi_queue_reached as (s & R & _).
  destruct (check_interrupt_correct (machine_with s cop0_enabled
      (core_mips_reg_zero <| mi_intr_reg := 0x08 |> <| mi_intr_mask_reg := 0x3F |>))
      vi_queue R) as (m' & Hrun & _ & HC & Hq). { simpl. unfold POOL_SIZE. lia. }
  exists s, m'. split; [done|]. split; [done|]. rewrite HC in Hq. apply Hq.
Defined.
