(* ===== verification/Alu.v ===== *)
(** * The integer instructions (special.cpp, r4300.cpp, pure_interp.cpp, recomp.cpp)

    The instructions that compute on the general registers, HI and LO, in the two
    interpreters the emulator has.  The cached interpreter compiles an instruction
    word once (recomp.cpp) into a function and its operands, replacing instructions
    that write register 0 by NOP; the pure interpreter decodes the word again at
    every step and looks the function up in its own tables.  The functions exist
    twice in the source (special.cpp and r4300.cpp; pure_interp.cpp), with the same
    statements but for the last, [PC++] or [interp_addr += 4]; both advance the
    address by 4.  Signed arithmetic wraps around, as the project's compiler does. *)

From S2P Require Import Prelude.

Open Scope prog_scope.
#[local] Open Scope Z_scope.

(** ** State and operands *)

(** [reg] holds 32 values of [int64_t]; [pc] is [PC->addr] or [interp_addr]. *)
Record cpu : Set := Cpu {
  reg : list Z;
  hi : Z;
  lo : Z;
  pc : Z;
  c_stop : bool
}.
#[export] Instance cpu_eta : Eta cpu := fun s => Cpu (reg s) (hi s) (lo s) (pc s) (c_stop s).

(** The operands of a compiled instruction: register numbers for the pointers. *)
Record fields : Set := Fields {
  rs : nat;
  rt : nat;
  rd : nat;
  sa : Z;
  immediate : Z
}.

Definition rrs (f : fields) (s : cpu) : Z := reg s !!! rs f.
Definition rrt (f : fields) (s : cpu) : Z := reg s !!! rt f.
Definition rrs32 (f : fields) (s : cpu) : Z := s32 (rrs f s).
Definition rrt32 (f : fields) (s : cpu) : Z := s32 (rrt f s).
Definition irs (f : fields) (s : cpu) : Z := reg s !!! rs f.
Definition irs32 (f : fields) (s : cpu) : Z := s32 (irs f s).

Definition set_reg (r : nat) (v : Z) : M cpu unit := modify (fun s => s <| reg := <[r := v]> (reg s) |>).

(** An assignment to the low word of a register. *)
Definition set32 (r : nat) (v : Z) : M cpu unit :=
  modify (fun s => s <| reg := <[r := Z.lor (Z.ldiff (reg s !!! r) 0xFFFFFFFF) (u32 v)]> (reg s) |>).
Definition sign_extended (r : nat) : M cpu unit :=
  modify (fun s => s <| reg := <[r := s32 (reg s !!! r)]> (reg s) |>).

Definition next : M cpu unit := modify (fun s => s <| pc := u32 (pc s + 4) |>).

(** ** Instructions *)

Definition NOP (f : fields) : M cpu unit := next.

(** Unimplemented and reserved instructions stop the emulator. *)
Definition NI (f : fields) : M cpu unit := modify (fun s => s <| c_stop := true |>).
Definition RESERVED (f : fields) : M cpu unit := modify (fun s => s <| c_stop := true |>).

Definition SLL (f : fields) : M cpu unit :=
  s <-- get ;;; set32 (rd f) (Z.shiftl (u32 (rrt32 f s)) (sa f)) ;;; sign_extended (rd f) ;;; next.
Definition SRL (f : fields) : M cpu unit :=
  s <-- get ;;; set32 (rd f) (Z.shiftr (u32 (rrt32 f s)) (sa f)) ;;; sign_extended (rd f) ;;; next.
Definition SRA (f : fields) : M cpu unit :=
  s <-- get ;;; set32 (rd f) (Z.shiftr (rrt32 f s) (sa f)) ;;; sign_extended (rd f) ;;; next.
Definition SLLV (f : fields) : M cpu unit :=
  s <-- get ;;; set32 (rd f) (Z.shiftl (u32 (rrt32 f s)) (Z.land (rrs32 f s) 0x1F)) ;;;
  sign_extended (rd f) ;;; next.
Definition SRLV (f : fields) : M cpu unit :=
  s <-- get ;;; set32 (rd f) (Z.shiftr (u32 (rrt32 f s)) (Z.land (rrs32 f s) 0x1F)) ;;;
  sign_extended (rd f) ;;; next.
Definition SRAV (f : fields) : M cpu unit :=
  s <-- get ;;; set32 (rd f) (Z.shiftr (rrt32 f s) (Z.land (rrs32 f s) 0x1F)) ;;;
  sign_extended (rd f) ;;; next.
Definition MFHI (f : fields) : M cpu unit :=
  s <-- get ;;; set_reg (rd f) (hi s) ;;; next.
Definition MTHI (f : fields) : M cpu unit :=
  modify (fun s => s <| hi := (rrs f s) |>) ;;; next.
Definition MFLO (f : fields) : M cpu unit :=
  s <-- get ;;; set_reg (rd f) (lo s) ;;; next.
Definition MTLO (f : fields) : M cpu unit :=
  modify (fun s => s <| lo := (rrs f s) |>) ;;; next.
Definition DSLLV (f : fields) : M cpu unit :=
  s <-- get ;;; set_reg (rd f) (s64 (Z.shiftl (rrt f s) (Z.land (rrs32 f s) 0x3F))) ;;; next.
Definition DSRLV (f : fields) : M cpu unit :=
  s <-- get ;;; set_reg (rd f) (s64 (Z.shiftr (u64 (rrt f s)) (Z.land (rrs32 f s) 0x3F))) ;;; next.
Definition DSRAV (f : fields) : M cpu unit :=
  s <-- get ;;; set_reg (rd f) (Z.shiftr (rrt f s) (Z.land (rrs32 f s) 0x3F)) ;;; next.

Definition MULT (f : fields) : M cpu unit :=
  modify (fun s =>
    let temp := s64 (rrs f s * rrt f s) in
    s <| hi := Z.shiftr temp 32 |> <| lo := s32 temp |>) ;;; next.

Definition MULTU (f : fields) : M cpu unit :=
  modify (fun s =>
    let temp := u64 (u32 (rrs f s) * u32 (rrt f s)) in
    s <| hi := Z.shiftr (s64 temp) 32 |> <| lo := s32 temp |>) ;;; next.

(** The quotient of the smallest integer by -1 does not fit: the division traps. *)
Definition DIV (f : fields) : M cpu unit :=
  s <-- get ;;;
  (if c_true (rrt32 f s) then
     if (rrs32 f s =? -0x80000000) && (rrt32 f s =? -1) then undef DivideOverflow
     else modify (fun s => s <| lo := s32 (Z.quot (rrs32 f s) (rrt32 f s)) |>
                             <| hi := s32 (Z.rem (rrs32 f s) (rrt32 f s)) |>)
   else ret tt) ;;; next.

Definition DIVU (f : fields) : M cpu unit :=
  s <-- get ;;;
  when (c_true (rrt32 f s))
    (modify (fun s => s <| lo := s32 (u32 (rrs32 f s) / u32 (rrt32 f s)) |>
                        <| hi := s32 (u32 (rrs32 f s) mod u32 (rrt32 f s)) |>)) ;;; next.

(** The 128-bit product of two unsigned words from four 64-bit products. *)
Definition product128 (a b : Z) : Z * Z :=
  let op1 := Z.land a 0xFFFFFFFF in
  let op2 := Z.land (Z.shiftr a 32) 0xFFFFFFFF in
  let op3 := Z.land b 0xFFFFFFFF in
  let op4 := Z.land (Z.shiftr b 32) 0xFFFFFFFF in
  let temp1 := u64 (op1 * op3) in
  let temp2 := u64 (Z.shiftr temp1 32 + u64 (op1 * op4)) in
  let temp3 := u64 (op2 * op3) in
  let temp4 := u64 (Z.shiftr temp3 32 + u64 (op2 * op4)) in
  let result1 := Z.land temp1 0xFFFFFFFF in
  let result2 := u64 (temp2 + Z.land temp3 0xFFFFFFFF) in
  let result3 := u64 (Z.shiftr result2 32 + temp4) in
  let result4 := Z.shiftr result3 32 in
  (s64 (Z.lor (Z.land result3 0xFFFFFFFF) (u64 (Z.shiftl result4 32))),
   s64 (Z.lor result1 (u64 (Z.shiftl result2 32)))).

Definition DMULT (f : fields) : M cpu unit :=
  modify (fun s =>
    let sign := false in
    let '(op2, sign) := if rrs f s <? 0 then (u64 (s64 (- rrs f s)), negb sign)
                        else (u64 (rrs f s), sign) in
    let '(op4, sign) := if rrt f s <? 0 then (u64 (s64 (- rrt f s)), negb sign)
                        else (u64 (rrt f s), sign) in
    let '(h, l) := product128 op2 op4 in
    if sign : bool then
      let h := Z.lnot h in
      if l =? 0 then s <| hi := s64 (h + 1) |> <| lo := l |>
      else s <| hi := h |> <| lo := s64 (Z.lnot l + 1) |>
    else s <| hi := h |> <| lo := l |>) ;;; next.

Definition DMULTU (f : fields) : M cpu unit :=
  modify (fun s =>
    let '(h, l) := product128 (rrs f s) (rrt f s) in s <| hi := h |> <| lo := l |>) ;;; next.

Definition DDIV (f : fields) : M cpu unit :=
  s <-- get ;;;
  (if c_true (rrt f s) then
     if (rrs f s =? -0x8000000000000000) && (rrt f s =? -1) then undef DivideOverflow
     else modify (fun s => s <| lo := Z.quot (rrs f s) (rrt f s) |>
                             <| hi := Z.rem (rrs f s) (rrt f s) |>)
   else ret tt) ;;; next.

Definition DDIVU (f : fields) : M cpu unit :=
  s <-- get ;;;
  when (c_true (rrt f s))
    (modify (fun s => s <| lo := s64 (u64 (rrs f s) / u64 (rrt f s)) |>
                        <| hi := s64 (u64 (rrs f s) mod u64 (rrt f s)) |>)) ;;; next.

Definition ADD (f : fields) : M cpu unit :=
  s <-- get ;;; set32 (rd f) (rrs32 f s + rrt32 f s) ;;; sign_extended (rd f) ;;; next.
Definition ADDU (f : fields) : M cpu unit :=
  s <-- get ;;; set32 (rd f) (rrs32 f s + rrt32 f s) ;;; sign_extended (rd f) ;;; next.
Definition SUB (f : fields) : M cpu unit :=
  s <-- get ;;; set32 (rd f) (rrs32 f s - rrt32 f s) ;;; sign_extended (rd f) ;;; next.
Definition SUBU (f : fields) : M cpu unit :=
  s <-- get ;;; set32 (rd f) (rrs32 f s - rrt32 f s) ;;; sign_extended (rd f) ;;; next.
Definition AND (f : fields) : M cpu unit :=
  s <-- get ;;; set_reg (rd f) (Z.land (rrs f s) (rrt f s)) ;;; next.
Definition OR (f : fields) : M cpu unit :=
  s <-- get ;;; set_reg (rd f) (Z.lor (rrs f s) (rrt f s)) ;;; next.
Definition XOR (f : fields) : M cpu unit :=
  s <-- get ;;; set_reg (rd f) (Z.lxor (rrs f s) (rrt f s)) ;;; next.
Definition NOR (f : fields) : M cpu unit :=
  s <-- get ;;; set_reg (rd f) (Z.lnot (Z.lor (rrs f s) (rrt f s))) ;;; next.
Definition SLT (f : fields) : M cpu unit :=
  s <-- get ;;; set_reg (rd f) (if rrs f s <? rrt f s then 1 else 0) ;;; next.
Definition SLTU (f : fields) : M cpu unit :=
  s <-- get ;;; set_reg (rd f) (if u64 (rrs f s) <? u64 (rrt f s) then 1 else 0) ;;; next.
Definition DADD (f : fields) : M cpu unit :=
  s <-- get ;;; set_reg (rd f) (s64 (rrs f s + rrt f s)) ;;; next.
Definition DADDU (f : fields) : M cpu unit :=
  s <-- get ;;; set_reg (rd f) (s64 (rrs f s + rrt f s)) ;;; next.
Definition DSUB (f : fields) : M cpu unit :=
  s <-- get ;;; set_reg (rd f) (s64 (rrs f s - rrt f s)) ;;; next.
Definition DSUBU (f : fields) : M cpu unit :=
  s <-- get ;;; set_reg (rd f) (s64 (rrs f s - rrt f s)) ;;; next.

Definition TEQ (f : fields) : M cpu unit :=
  s <-- get ;;; when (rrs f s =? rrt f s) (modify (fun s => s <| c_stop := true |>)) ;;; next.

Definition DSLL (f : fields) : M cpu unit :=
  s <-- get ;;; set_reg (rd f) (s64 (Z.shiftl (rrt f s) (sa f))) ;;; next.
Definition DSRL (f : fields) : M cpu unit :=
  s <-- get ;;; set_reg (rd f) (s64 (Z.shiftr (u64 (rrt f s)) (sa f))) ;;; next.
Definition DSRA (f : fields) : M cpu unit :=
  s <-- get ;;; set_reg (rd f) (Z.shiftr (rrt f s) (sa f)) ;;; next.
Definition DSLL32 (f : fields) : M cpu unit :=
  s <-- get ;;; set_reg (rd f) (s64 (Z.shiftl (rrt f s) (32 + sa f))) ;;; next.
Definition DSRL32 (f : fields) : M cpu unit :=
  s <-- get ;;; set_reg (rd f) (s64 (Z.shiftr (u64 (rrt f s)) (32 + sa f))) ;;; next.
Definition DSRA32 (f : fields) : M cpu unit :=
  s <-- get ;;; set_reg (rd f) (Z.shiftr (rrt f s) (32 + sa f)) ;;; next.

Definition ADDI (f : fields) : M cpu unit :=
  s <-- get ;;; set32 (rt f) (irs32 f s + immediate f) ;;; sign_extended (rt f) ;;; next.
Definition ADDIU (f : fields) : M cpu unit :=
  s <-- get ;;; set32 (rt f) (irs32 f s + immediate f) ;;; sign_extended (rt f) ;;; next.
Definition SLTI (f : fields) : M cpu unit :=
  s <-- get ;;; set_reg (rt f) (if irs f s <? immediate f then 1 else 0) ;;; next.
Definition SLTIU (f : fields) : M cpu unit :=
  s <-- get ;;; set_reg (rt f) (if u64 (irs f s) <? u64 (immediate f) then 1 else 0) ;;; next.
Definition ANDI (f : fields) : M cpu unit :=
  s <-- get ;;; set_reg (rt f) (Z.land (irs f s) (u16 (immediate f))) ;;; next.
Definition ORI (f : fields) : M cpu unit :=
  s <-- get ;;; set_reg (rt f) (Z.lor (irs f s) (u16 (immediate f))) ;;; next.
Definition XORI (f : fields) : M cpu unit :=
  s <-- get ;;; set_reg (rt f) (Z.lxor (irs f s) (u16 (immediate f))) ;;; next.
Definition LUI (f : fields) : M cpu unit :=
  s <-- get ;;; set32 (rt f) (Z.shiftl (immediate f) 16) ;;; sign_extended (rt f) ;;; next.
Definition DADDI (f : fields) : M cpu unit :=
  s <-- get ;;; set_reg (rt f) (s64 (irs f s + immediate f)) ;;; next.
Definition DADDIU (f : fields) : M cpu unit :=
  s <-- get ;;; set_reg (rt f) (s64 (irs f s + immediate f)) ;;; next.

(** ** Decoding *)

Definition field5 (src : Z) (at_ : Z) : nat := Z.to_nat (Z.land (Z.shiftr src at_) 0x1F).

Definition no_fields : fields := Fields 0 0 0 0 0.

Definition recompile_standard_r_type (src : Z) : fields :=
  Fields (field5 src 21) (field5 src 16) (field5 src 11) (Z.land (Z.shiftr src 6) 0x1F) 0.

Definition recompile_standard_i_type (src : Z) : fields :=
  Fields (field5 src 21) (field5 src 16) 0 0 (s16 (Z.land src 0xFFFF)).

(** ** The cached interpreter: compilation *)

(** What [dst] holds afterwards: the function and its operands. *)
Definition instr_fn : Type := fields -> M cpu unit.
Definition compiler : Type := Z -> instr_fn * fields.

Definition r_plain (op : instr_fn) : compiler := fun src => (op, recompile_standard_r_type src).

(** [if (dst->f.r.rd == reg) RNOP();] *)
Definition r_guarded (op : instr_fn) : compiler := fun src =>
  let f := recompile_standard_r_type src in (if (rd f =? 0)%nat then NOP else op, f).

(** [if (dst->f.i.rt == reg) RNOP();] *)
Definition i_guarded (op : instr_fn) : compiler := fun src =>
  let f := recompile_standard_i_type src in (if (rt f =? 0)%nat then NOP else op, f).

(** These leave the operands as they are; nothing reads them. *)
Definition RSV : compiler := fun _ => (RESERVED, no_fields).
Definition RBREAK : compiler := fun _ => (NI, no_fields).
Definition RTGE : compiler := fun _ => (NI, no_fields).
Definition RTGEU : compiler := fun _ => (NI, no_fields).
Definition RTLT : compiler := fun _ => (NI, no_fields).
Definition RTLTU : compiler := fun _ => (NI, no_fields).
Definition RTNE : compiler := fun _ => (NI, no_fields).
Definition RLLD : compiler := fun src => (NI, recompile_standard_i_type src).
Definition RSCD : compiler := fun src => (NI, recompile_standard_i_type src).
Definition RSLL : compiler := r_guarded SLL.
Definition RSRL : compiler := r_guarded SRL.
Definition RSRA : compiler := r_guarded SRA.
Definition RSLLV : compiler := r_guarded SLLV.
Definition RSRLV : compiler := r_guarded SRLV.
Definition RSRAV : compiler := r_guarded SRAV.
Definition RMFHI : compiler := r_guarded MFHI.
Definition RMFLO : compiler := r_guarded MFLO.
Definition RDSLLV : compiler := r_guarded DSLLV.
Definition RDSRLV : compiler := r_guarded DSRLV.
Definition RDSRAV : compiler := r_guarded DSRAV.
Definition RADD : compiler := r_guarded ADD.
Definition RADDU : compiler := r_guarded ADDU.
Definition RSUB : compiler := r_guarded SUB.
Definition RSUBU : compiler := r_guarded SUBU.
Definition RAND : compiler := r_guarded AND.
Definition ROR : compiler := r_guarded OR.
Definition RXOR : compiler := r_guarded XOR.
Definition RNOR : compiler := r_guarded NOR.
Definition RSLT : compiler := r_guarded SLT.
Definition RSLTU : compiler := r_guarded SLTU.
Definition RDADD : compiler := r_guarded DADD.
Definition RDADDU : compiler := r_guarded DADDU.
Definition RDSUB : compiler := r_guarded DSUB.
Definition RDSUBU : compiler := r_guarded DSUBU.
Definition RDSLL : compiler := r_guarded DSLL.
Definition RDSRL : compiler := r_guarded DSRL.
Definition RDSRA : compiler := r_guarded DSRA.
Definition RDSLL32 : compiler := r_guarded DSLL32.
Definition RDSRL32 : compiler := r_guarded DSRL32.
Definition RDSRA32 : compiler := r_guarded DSRA32.
Definition RMTHI : compiler := r_plain MTHI.
Definition RMTLO : compiler := r_plain MTLO.
Definition RMULT : compiler := r_plain MULT.
Definition RMULTU : compiler := r_plain MULTU.
Definition RDIV : compiler := r_plain DIV.
Definition RDIVU : compiler := r_plain DIVU.
Definition RDMULT : compiler := r_plain DMULT.
Definition RDMULTU : compiler := r_plain DMULTU.
Definition RDDIV : compiler := r_plain DDIV.
Definition RDDIVU : compiler := r_plain DDIVU.
Definition RTEQ : compiler := r_plain TEQ.
Definition RADDI : compiler := i_guarded ADDI.
Definition RADDIU : compiler := i_guarded ADDIU.
Definition RSLTI : compiler := i_guarded SLTI.
Definition RSLTIU : compiler := i_guarded SLTIU.
Definition RANDI : compiler := i_guarded ANDI.
Definition RORI : compiler := i_guarded ORI.
Definition RXORI : compiler := i_guarded XORI.
Definition RLUI : compiler := i_guarded LUI.
Definition RDADDI : compiler := i_guarded DADDI.
Definition RDADDIU : compiler := i_guarded DADDIU.

(** The tables; [None] for instructions outside this file. *)
Definition recomp_special : list (option compiler) :=
  [Some RSLL; Some RSV; Some RSRL; Some RSRA; Some RSLLV; Some RSV; Some RSRLV; Some RSRAV; None;
   None; Some RSV; Some RSV; None; Some RBREAK; Some RSV; None; Some RMFHI; Some RMTHI; Some
   RMFLO; Some RMTLO; Some RDSLLV; Some RSV; Some RDSRLV; Some RDSRAV; Some RMULT; Some
   RMULTU; Some RDIV; Some RDIVU; Some RDMULT; Some RDMULTU; Some RDDIV; Some RDDIVU; Some
   RADD; Some RADDU; Some RSUB; Some RSUBU; Some RAND; Some ROR; Some RXOR; Some RNOR; Some
   RSV; Some RSV; Some RSLT; Some RSLTU; Some RDADD; Some RDADDU; Some RDSUB; Some RDSUBU;
   Some RTGE; Some RTGEU; Some RTLT; Some RTLTU; Some RTEQ; Some RSV; Some RTNE; Some RSV;
   Some RDSLL; Some RSV; Some RDSRL; Some RDSRA; Some RDSLL32; Some RSV; Some RDSRL32; Some
   RDSRA32].

Definition recomp_ops : list (option compiler) :=
  [None; None; None; None; None; None; None; None; Some RADDI; Some RADDIU; Some RSLTI; Some
   RSLTIU; Some RANDI; Some RORI; Some RXORI; Some RLUI; None; None; Some RSV; Some RSV; None;
   None; None; None; Some RDADDI; Some RDADDIU; None; None; Some RSV; Some RSV; Some RSV; Some
   RSV; None; None; None; None; None; None; None; None; None; None; None; None; None; None;
   None; None; None; None; Some RSV; Some RSV; Some RLLD; None; Some RSV; None; None; None;
   Some RSV; Some RSV; Some RSCD; None; Some RSV; None].

Definition compile (src : Z) : option (instr_fn * fields) :=
  let opcode := Z.land (Z.shiftr src 26) 0x3F in
  c ← (if opcode =? 0 then mjoin (recomp_special !! Z.to_nat (Z.land src 0x3F))
       else mjoin (recomp_ops !! Z.to_nat opcode));
  Some (c src).

(** One step of the cached interpreter on a compiled instruction. *)
Definition cached_step (src : Z) : option (M cpu unit) :=
  '(op, f) ← compile src; Some (op f).

(** ** The pure interpreter *)

Definition interp_special : list (option instr_fn) :=
  [Some SLL; Some NI; Some SRL; Some SRA; Some SLLV; Some NI; Some SRLV; Some SRAV; None; None;
   Some NI; Some NI; None; Some NI; Some NI; None; Some MFHI; Some MTHI; Some MFLO; Some MTLO;
   Some DSLLV; Some NI; Some DSRLV; Some DSRAV; Some MULT; Some MULTU; Some DIV; Some DIVU;
   Some DMULT; Some DMULTU; Some DDIV; Some DDIVU; Some ADD; Some ADDU; Some SUB; Some SUBU;
   Some AND; Some OR; Some XOR; Some NOR; Some NI; Some NI; Some SLT; Some SLTU; Some DADD;
   Some DADDU; Some DSUB; Some DSUBU; Some NI; Some NI; Some NI; Some NI; Some TEQ; Some NI;
   Some NI; Some NI; Some DSLL; Some NI; Some DSRL; Some DSRA; Some DSLL32; Some NI; Some
   DSRL32; Some DSRA32].

Definition interp_ops : list (option instr_fn) :=
  [None; None; None; None; None; None; None; None; Some ADDI; Some ADDIU; Some SLTI; Some SLTIU;
   Some ANDI; Some ORI; Some XORI; Some LUI; None; None; Some NI; Some NI; None; None; None;
   None; Some DADDI; Some DADDIU; None; None; Some NI; Some NI; Some NI; Some NI; None; None;
   None; None; None; None; None; None; None; None; None; None; None; None; None; None; None;
   None; Some NI; Some NI; Some NI; None; Some NI; None; None; None; Some NI; Some NI; Some
   NI; None; Some NI; None].

(** [prefetch_opcode] fills the operands through the compiler's tables, the
    function comes from the interpreter's own. *)
Definition pure_step (vr_op : Z) : option (M cpu unit) :=
  '(_, f) ← compile vr_op;
  let opcode := Z.land (Z.shiftr vr_op 26) 0x3F in
  op ← (if opcode =? 0 then mjoin (interp_special !! Z.to_nat (Z.land vr_op 0x3F))
        else mjoin (interp_ops !! Z.to_nat opcode));
  Some (op f).
