(* ===== verification/AluProps.v ===== *)
(** * What the integer instructions compute

    Multiplication and division against their mathematical definitions, the
    agreement of the two interpreters, and the invariants of the register file. *)

From S2P Require Import Prelude Hoare Alu.

Open Scope prog_scope.
#[local] Open Scope Z_scope.

(** The registers hold 64-bit values. *)
Record regs_ok (s : cpu) : Prop := {
  ro_length : length (reg s) = 32%nat;
  ro_values : Forall is_s64 (reg s);
  ro_hi : is_s64 (hi s);
  ro_lo : is_s64 (lo s)
}.

(** ** Products of two 64-bit words *)

Lemma land_word x : Z.land x 0xFFFFFFFF = x mod 2 ^ 32.
Proof. change 0xFFFFFFFF with (Z.ones 32). apply Z.land_ones. lia. Qed.

(** Two words side by side. *)
Lemma lor_words x y : 0 <= x < 2 ^ 32 -> Z.lor x (u64 (Z.shiftl y 32)) = x + 2 ^ 32 * (y mod 2 ^ 32).
Proof.
  intros Hx. unfold u64. rewrite Z.shiftl_mul_pow2 by lia.
  replace ((y * 2 ^ 32) mod 18446744073709551616) with (2 ^ 32 * (y mod 2 ^ 32)).
  2: { change 18446744073709551616 with (2 ^ 32 * 2 ^ 32). rewrite (Z.mul_comm y), Z.mul_mod_distr_l; lia. }
  symmetry. apply Z.add_nocarry_lor. apply Z.bits_inj'. intros n Hn. rewrite Z.land_spec, Z.bits_0.
  destruct (Z.ltb_spec n 32).
  - rewrite (Z.mul_comm (2 ^ 32)), Z.mul_pow2_bits_low by lia. apply andb_false_r.
  - rewrite <- (Z.mod_small x (2 ^ 32)) by lia. rewrite Z.mod_pow2_bits_high by lia. done.
Qed.

Lemma word_product a b : 0 <= a < 2 ^ 32 -> 0 <= b < 2 ^ 32 -> 0 <= a * b <= (2 ^ 32 - 1) * (2 ^ 32 - 1).
Proof. intros Ha Hb. split; [nia|]. apply Z.mul_le_mono_nonneg; lia. Qed.

(** Schoolbook multiplication in base 2^32; no intermediate sum overflows. *)
Lemma schoolbook p q r t :
  0 <= p < 2 ^ 32 -> 0 <= q < 2 ^ 32 -> 0 <= r < 2 ^ 32 -> 0 <= t < 2 ^ 32 ->
  let temp1 := u64 (p * r) in
  let temp2 := u64 (temp1 / 2 ^ 32 + u64 (p * t)) in
  let temp3 := u64 (q * r) in
  let temp4 := u64 (temp3 / 2 ^ 32 + u64 (q * t)) in
  let result2 := u64 (temp2 + temp3 mod 2 ^ 32) in
  let result3 := u64 (result2 / 2 ^ 32 + temp4) in
  (result3 mod 2 ^ 32 + 2 ^ 32 * ((result3 / 2 ^ 32) mod 2 ^ 32)) * 2 ^ 64 +
    (temp1 mod 2 ^ 32 + 2 ^ 32 * (result2 mod 2 ^ 32)) =
  (p + 2 ^ 32 * q) * (r + 2 ^ 32 * t).
Proof.
  intros Hp Hq Hr Ht.
  pose proof (word_product p r Hp Hr). pose proof (word_product p t Hp Ht).
  pose proof (word_product q r Hq Hr). pose proof (word_product q t Hq Ht).
  replace ((p + 2 ^ 32 * q) * (r + 2 ^ 32 * t))
    with (p * r + 2 ^ 32 * (p * t + q * r) + 2 ^ 64 * (q * t)) by ring.
  generalize dependent (p * r). intros pr ?. generalize dependent (p * t). intros pt ?.
  generalize dependent (q * r). intros qr ?. generalize dependent (q * t). intros qt ?.
  cbv zeta. unfold u64. change (2 ^ 32) with 4294967296 in *. change (2 ^ 64) with 18446744073709551616 in *.
  clear Hp Hq Hr Ht. Z.div_mod_to_equations. lia.
Qed.

Lemma word_parts a : Z.land a 0xFFFFFFFF + 2 ^ 32 * Z.land (Z.shiftr a 32) 0xFFFFFFFF = u64 a.
Proof.
  rewrite !land_word, Z.shiftr_div_pow2 by lia. unfold u64.
  change (2 ^ 32) with 4294967296. Z.div_mod_to_equations. lia.
Qed.

Lemma product128_spec a b :
  let '(h, l) := product128 a b in
  is_s64 h /\ is_s64 l /\ u64 h * 2 ^ 64 + u64 l = u64 a * u64 b.
Proof.
  unfold product128. cbv zeta. split; [apply s64_range|]. split; [apply s64_range|].
  rewrite !u64_s64, <- (word_parts a), <- (word_parts b), !land_word, !Z.shiftr_div_pow2 by lia.
  assert (forall x, 0 <= x mod 2 ^ 32 < 2 ^ 32) as Hm by (intros; apply Z.mod_pos_bound; lia).
  rewrite !lor_words by apply Hm.
  set (p := a mod 2 ^ 32). set (q := (a / 2 ^ 32) mod 2 ^ 32).
  set (r := b mod 2 ^ 32). set (t := (b / 2 ^ 32) mod 2 ^ 32).
  rewrite <- (schoolbook p q r t) by apply Hm. cbv zeta. f_equal; [f_equal|].
  - apply u64_id. unfold is_u64. pose proof Hm. Z.div_mod_to_equations. lia.
  - apply u64_id. unfold is_u64. Z.div_mod_to_equations. lia.
Qed.

(** The two's complement of a 128-bit number given as two words. *)
Lemma negate128 h l n :
  is_s64 h -> is_s64 l -> u64 h * 2 ^ 64 + u64 l = n -> 0 <= n <= 2 ^ 126 ->
  let '(h', l') := if l =? 0 then (s64 (Z.lnot h + 1), l) else (Z.lnot h, s64 (Z.lnot l + 1)) in
  h' * 2 ^ 64 + u64 l' = - n.
Proof.
  intros Hh Hl Hn Hb. unfold Z.lnot in *. destruct (Z.eqb_spec l 0) as [->|Hl0].
  - unfold u64, s64, is_s64 in *. change (2 ^ 64) with 18446744073709551616 in *.
    change (2 ^ 126) with 85070591730234615865843651857942052864 in *. Z.div_mod_to_equations. lia.
  - unfold u64, s64, is_s64 in *. change (2 ^ 64) with 18446744073709551616 in *.
    change (2 ^ 126) with 85070591730234615865843651857942052864 in *. Z.div_mod_to_equations. lia.
Qed.

Lemma signed_product h l n :
  is_s64 h -> u64 h * 2 ^ 64 + u64 l = n -> 0 <= n <= 2 ^ 126 -> h * 2 ^ 64 + u64 l = n.
Proof.
  intros Hh Hn Hb. assert (u64 h = h) as E; [|by rewrite <- E at 1].
  pose proof (u64_range l). unfold u64, is_s64, is_u64 in *. change (2 ^ 64) with 18446744073709551616 in *.
  change (2 ^ 126) with 85070591730234615865843651857942052864 in *. Z.div_mod_to_equations. lia.
Qed.

(** The magnitude [DMULT] computes with. *)
Definition mag (x : Z) : Z := if x <? 0 then u64 (s64 (- x)) else u64 x.

Lemma mag_abs x : is_s64 x -> u64 (mag x) = Z.abs x /\ 0 <= Z.abs x <= 2 ^ 63.
Proof.
  unfold is_s64, mag. change (2 ^ 63) with 9223372036854775808. intros Hx. split; [|lia].
  destruct (Z.ltb_spec x 0); unfold u64, s64; Z.div_mod_to_equations; lia.
Qed.

Lemma dmult_form f s :
  DMULT f s =
    (let '(h, l) := product128 (mag (rrs f s)) (mag (rrt f s)) in
     let '(h, l) := if xorb (rrs f s <? 0) (rrt f s <? 0)
                    then if l =? 0 then (s64 (Z.lnot h + 1), l) else (Z.lnot h, s64 (Z.lnot l + 1))
                    else (h, l) in
     Ret (tt, s <| hi := h |> <| lo := l |> <| pc := u32 (pc s + 4) |>)).
Proof.
  unfold DMULT, next, mag. rewrite bind_modify_l.
  destruct (rrs f s <? 0), (rrt f s <? 0); destruct (product128 _ _) as [h l]; cbn [xorb negb];
    try destruct (l =? 0); reflexivity.
Qed.

Lemma dmult_ok f s :
  is_s64 (rrs f s) -> is_s64 (rrt f s) ->
  exists h l, DMULT f s = Ret (tt, s <| hi := h |> <| lo := l |> <| pc := u32 (pc s + 4) |>) /\
    h * 2 ^ 64 + u64 l = rrs f s * rrt f s.
Proof.
  intros Ha Hb. rewrite dmult_form. set (a := rrs f s) in *. set (b := rrt f s) in *.
  destruct (mag_abs a Ha) as [Ea Ra]. destruct (mag_abs b Hb) as [Eb Rb].
  pose proof (product128_spec (mag a) (mag b)) as Hp.
  destruct (product128 (mag a) (mag b)) as [h l]. destruct Hp as (Hh & Hl & Hp). rewrite Ea, Eb in Hp.
  assert (0 <= Z.abs a * Z.abs b <= 2 ^ 126) as Hr
    by (change (2 ^ 126) with (2 ^ 63 * 2 ^ 63); split; [lia|apply Z.mul_le_mono_nonneg; lia]).
  destruct (xorb (a <? 0) (b <? 0)) eqn:Es.
  - pose proof (negate128 h l _ Hh Hl Hp Hr) as Hn.
    assert (- (Z.abs a * Z.abs b) = a * b) as Eab
      by (destruct (Z.ltb_spec a 0), (Z.ltb_spec b 0); try done; lia).
    rewrite Eab in Hn. destruct (l =? 0); do 2 eexists; (split; [reflexivity|exact Hn]).
  - do 2 eexists. split; [reflexivity|]. rewrite (signed_product h l _ Hh Hp Hr).
    destruct (Z.ltb_spec a 0), (Z.ltb_spec b 0); try done; lia.
Qed.

(** C16.  Multiplying 64-bit registers gives the exact 128-bit product: after
    [DMULT] HI and LO hold the two halves of the signed product, after [DMULTU]
    those of the unsigned product, for all operands including the smallest
    integer; nothing but HI, LO and the address changes. *)
Theorem dmult_exact f s :
  is_s64 (rrs f s) -> is_s64 (rrt f s) ->
  (exists h l, DMULT f s = Ret (tt, s <| hi := h |> <| lo := l |> <| pc := u32 (pc s + 4) |>) /\
     h * 2 ^ 64 + u64 l = rrs f s * rrt f s) /\
  (exists h l, DMULTU f s = Ret (tt, s <| hi := h |> <| lo := l |> <| pc := u32 (pc s + 4) |>) /\
     u64 h * 2 ^ 64 + u64 l = u64 (rrs f s) * u64 (rrt f s)).
Proof.
  intros Ha Hb. split; [by apply dmult_ok|].
  unfold DMULTU. rewrite bind_modify_l. pose proof (product128_spec (rrs f s) (rrt f s)) as Hp.
  destruct (product128 _ _) as [h l]. destruct Hp as (_ & _ & Hp). exists h, l. by split.
Qed.

(** The smallest integer times itself, and -1 times 1. *)
Lemma dmult_exact_witness :
  let s := Cpu (<[1%nat := - 2 ^ 63]> (<[2%nat := -1]> (replicate 32 1))) 0 0 0x80000000 false in
  let f := Fields 1 1 0 0 0 in let g := Fields 2 3 0 0 0 in
  (exists h l, DMULT f s = Ret (tt, s <| hi := h |> <| lo := l |> <| pc := u32 (pc s + 4) |>) /\
     h * 2 ^ 64 + u64 l = 2 ^ 126) /\
  (exists h l, DMULT g s = Ret (tt, s <| hi := h |> <| lo := l |> <| pc := u32 (pc s + 4) |>) /\
     h * 2 ^ 64 + u64 l = -1).
Proof.
  intros s f g. split.
  - apply (dmult_exact f s); [vm_compute; split; congruence | vm_compute; split; congruence].
  - apply (dmult_exact g s); [vm_compute; split; congruence | vm_compute; split; congruence].
Defined.

(** ** Division *)

(** Quotient and remainder as C defines them. *)
Definition divides (n d q r : Z) : Prop :=
  n = q * d + r /\ Z.abs r < Z.abs d /\ (r = 0 \/ Z.sgn r = Z.sgn n).

Lemma quot_rem_divides n d : d <> 0 -> divides n d (Z.quot n d) (Z.rem n d).
Proof.
  intros Hd. split; [|split].
  - rewrite Z.mul_comm. apply Z.quot_rem'.
  - by apply Z.rem_bound_abs.
  - destruct (Z.eq_dec (Z.rem n d) 0); [by left|right]. apply Z.rem_sign_nz; done.
Qed.

Lemma div_mod_divides n d : 0 <= n -> 0 < d -> divides n d (n / d) (n mod d).
Proof.
  intros Hn Hd. rewrite <- Z.quot_div_nonneg, <- Z.rem_mod_nonneg by lia. apply quot_rem_divides. lia.
Qed.

(** The signed quotient fits unless the smallest integer is divided by -1. *)
Lemma quot_rem_fit m n d :
  0 < m -> - m <= n < m -> - m <= d < m -> d <> 0 -> ~ (n = - m /\ d = -1) ->
  - m <= Z.quot n d < m /\ - m <= Z.rem n d < m.
Proof.
  intros Hm Hn Hd H0 Hne. destruct (quot_rem_divides n d H0) as (_ & Hb & _). split; [|lia].
  assert (Z.abs (Z.quot n d) = Z.abs n / Z.abs d) as E
    by (rewrite <- Z.quot_abs by done; apply Z.quot_div_nonneg; lia).
  destruct (Z.eq_dec d 1) as [->|]; [by rewrite Z.quot_1_r|].
  destruct (Z.eq_dec d (-1)) as [->|]; [change (-1) with (- (1)); rewrite Z.quot_opp_r, Z.quot_1_r; lia|].
  assert (Z.abs n / Z.abs d <= Z.abs n / 2) by (apply Z.div_le_compat_l; lia).
  assert (Z.abs n / 2 < m) by (apply Z.div_lt_upper_bound; lia). lia.
Qed.

Definition with_hi_lo (h l : Z) (s : cpu) : cpu := s <| lo := l |> <| hi := h |> <| pc := u32 (pc s + 4) |>.

(** One division instruction [op] on operands [n] and [d] of [m] (half the
    range): exact unless the divisor is 0, when HI and LO stay, or the quotient
    does not fit, when the host's division traps. *)
Definition division_ok (signed : bool) (m n d : Z) (wide : Z -> Z) (op : M cpu unit) (s : cpu) : Prop :=
  (d = 0 -> op s = Ret (tt, s <| pc := u32 (pc s + 4) |>)) /\
  (signed = true -> n = - m -> d = -1 -> op s = Undef DivideOverflow) /\
  (d <> 0 -> ~ (signed = true /\ n = - m /\ d = -1) ->
     exists q r, op s = Ret (tt, with_hi_lo (wide r) (wide q) s) /\ divides n d q r).

Lemma signed_division m n d (wide : Z -> Z) (op : M cpu unit) s :
  0 < m -> - m <= n < m -> - m <= d < m ->
  (forall z, - m <= z < m -> wide z = z) ->
  op s = (if c_true d then
            if (n =? - m) && (d =? -1) then Undef DivideOverflow
            else Ret (tt, with_hi_lo (wide (Z.rem n d)) (wide (Z.quot n d)) s)
          else Ret (tt, s <| pc := u32 (pc s + 4) |>)) ->
  division_ok true m n d (fun z => z) op s.
Proof.
  intros Hm Hn Hd Hw E. unfold division_ok. rewrite E. unfold c_true. split; [|split].
  - intros ->. done.
  - intros _ -> ->. by rewrite !Z.eqb_refl.
  - intros H0 Hne. rewrite (proj2 (Z.eqb_neq d 0) H0). cbn [negb].
    assert ((n =? - m) && (d =? -1) = false) as ->
      by (destruct (Z.eqb_spec n (- m)), (Z.eqb_spec d (-1)); try done; by destruct Hne).
    assert (~ (n = - m /\ d = -1)) as Hne' by (intros [? ?]; by apply Hne).
    destruct (quot_rem_fit m n d Hm Hn Hd H0 Hne') as [Hq Hr].
    do 2 eexists. rewrite !Hw by done. split; [reflexivity|by apply quot_rem_divides].
Qed.

Lemma unsigned_division m n d (wide : Z -> Z) (op : M cpu unit) s :
  0 <= n -> 0 <= d ->
  op s = (if c_true d then Ret (tt, with_hi_lo (wide (n mod d)) (wide (n / d)) s)
          else Ret (tt, s <| pc := u32 (pc s + 4) |>)) ->
  division_ok false m n d wide op s.
Proof.
  intros Hn Hd E. unfold division_ok. rewrite E. unfold c_true. split; [|split].
  - intros ->. done.
  - done.
  - intros H0 _. rewrite (proj2 (Z.eqb_neq d 0) H0). cbn [negb].
    do 2 eexists. split; [reflexivity|]. apply div_mod_divides; lia.
Qed.

(** A value is zero iff its unsigned conversion is. *)
Lemma unsigned_zero z :
  (is_s32 z -> c_true (u32 z) = c_true z) /\ (is_s64 z -> c_true (u64 z) = c_true z).
Proof.
  unfold c_true. split; intros Hz; f_equal; unfold is_s32, is_s64, u32, u64 in *;
    repeat match goal with |- context [?a =? ?b] => destruct (Z.eqb_spec a b) end; try done;
    Z.div_mod_to_equations; lia.
Qed.

(** C31.  Division: each of the four instructions puts the exact quotient into LO
    and the remainder into HI (rounding towards zero, the remainder with the
    dividend's sign; 32-bit results sign-extended), leaves HI and LO alone when the
    divisor is 0, and for the smallest integer divided by -1 the signed ones run
    into the host's division trap, where the processor would go on. *)
Theorem division_exact f s :
  is_s64 (rrs f s) -> is_s64 (rrt f s) ->
  division_ok true (2 ^ 31) (rrs32 f s) (rrt32 f s) (fun z => z) (DIV f) s /\
  division_ok false (2 ^ 31) (u32 (rrs32 f s)) (u32 (rrt32 f s)) s32 (DIVU f) s /\
  division_ok true (2 ^ 63) (rrs f s) (rrt f s) (fun z => z) (DDIV f) s /\
  division_ok false (2 ^ 63) (u64 (rrs f s)) (u64 (rrt f s)) s64 (DDIVU f) s.
Proof.
  intros Ha Hb. split; [|split; [|split]].
  - apply (signed_division _ _ _ s32); try done; try apply s32_range.
    + intros z Hz. by apply s32_id.
    + unfold DIV. rewrite bind_get_l. destruct (c_true (rrt32 f s)); [|reflexivity].
      destruct (_ && _); reflexivity.
  - apply unsigned_division; try apply u32_range. unfold DIVU. rewrite bind_get_l.
    rewrite (proj1 (unsigned_zero (rrt32 f s))) by apply s32_range. by destruct (c_true _).
  - apply (signed_division _ _ _ (fun z => z)); try done.
    unfold DDIV. rewrite bind_get_l. destruct (c_true (rrt f s)); [|reflexivity].
    destruct (_ && _); reflexivity.
  - apply unsigned_division; try apply u64_range. unfold DDIVU. rewrite bind_get_l.
    rewrite (proj2 (unsigned_zero (rrt f s))) by done. by destruct (c_true _).
Qed.

(** -7 divided by 2. *)
Lemma division_exact_witness :
  let s := Cpu (<[1%nat := -7]> (replicate 32 2)) 0 0 0x80000000 false in let f := Fields 1 2 0 0 0 in
  division_ok true (2 ^ 31) (-7) 2 (fun z => z) (DIV f) s /\
  DIV f s = Ret (tt, with_hi_lo (-1) (-3) s).
Proof.
  intros s f. split; [|reflexivity].
  apply (division_exact f s); [vm_compute; split; congruence | vm_compute; split; congruence].
Defined.

(** ** The two interpreters *)

(** Both interpreters' tables in one: what is outside this file, what is not
    implemented (with how it is compiled), and which destination is guarded. *)
Inductive row : Type :=
| Outside
| Missing (c : compiler)
| Plain (op : instr_fn)
| Guarded (op : instr_fn)
| Immediate (op : instr_fn).

Definition special_rows : list row :=
  [Guarded SLL; Missing RSV; Guarded SRL; Guarded SRA; Guarded SLLV; Missing RSV; Guarded SRLV;
   Guarded SRAV; Outside; Outside; Missing RSV; Missing RSV; Outside; Missing RBREAK;
   Missing RSV; Outside; Guarded MFHI; Plain MTHI; Guarded MFLO; Plain MTLO; Guarded DSLLV;
   Missing RSV; Guarded DSRLV; Guarded DSRAV; Plain MULT; Plain MULTU; Plain DIV; Plain
   DIVU; Plain DMULT; Plain DMULTU; Plain DDIV; Plain DDIVU; Guarded ADD; Guarded ADDU;
   Guarded SUB; Guarded SUBU; Guarded AND; Guarded OR; Guarded XOR; Guarded NOR; Missing
   RSV; Missing RSV; Guarded SLT; Guarded SLTU; Guarded DADD; Guarded DADDU; Guarded DSUB;
   Guarded DSUBU; Missing RTGE; Missing RTGEU; Missing RTLT; Missing RTLTU; Plain TEQ;
   Missing RSV; Missing RTNE; Missing RSV; Guarded DSLL; Missing RSV; Guarded DSRL; Guarded
   DSRA; Guarded DSLL32; Missing RSV; Guarded DSRL32; Guarded DSRA32].

Definition op_rows : list row :=
  [Outside; Outside; Outside; Outside; Outside; Outside; Outside; Outside; Immediate ADDI;
   Immediate ADDIU; Immediate SLTI; Immediate SLTIU; Immediate ANDI; Immediate ORI;
   Immediate XORI; Immediate LUI; Outside; Outside; Missing RSV; Missing RSV; Outside;
   Outside; Outside; Outside; Immediate DADDI; Immediate DADDIU; Outside; Outside; Missing
   RSV; Missing RSV; Missing RSV; Missing RSV; Outside; Outside; Outside; Outside; Outside;
   Outside; Outside; Outside; Outside; Outside; Outside; Outside; Outside; Outside; Outside;
   Outside; Outside; Outside; Missing RSV; Missing RSV; Missing RLLD; Outside; Missing RSV;
   Outside; Outside; Outside; Missing RSV; Missing RSV; Missing RSCD; Outside; Missing RSV;
   Outside].

Definition row_compiler (r : row) : option compiler :=
  match r with
  | Outside => None
  | Missing c => Some c
  | Plain op => Some (r_plain op)
  | Guarded op => Some (r_guarded op)
  | Immediate op => Some (i_guarded op)
  end.

Definition row_interp (r : row) : option instr_fn :=
  match r with
  | Outside => None
  | Missing _ => Some NI
  | Plain op | Guarded op | Immediate op => Some op
  end.

(** The guard of a row is the destination of its words. *)
Definition row_destination (r : row) (src : Z) : option nat :=
  match r with
  | Outside | Missing _ | Plain _ => None
  | Guarded _ => Some (field5 src 11)
  | Immediate _ => Some (field5 src 16)
  end.

Definition row_of (src : Z) : option row :=
  let opcode := Z.land (Z.shiftr src 26) 0x3F in
  if opcode =? 0 then special_rows !! Z.to_nat (Z.land src 0x3F) else op_rows !! Z.to_nat opcode.

(** The register an instruction word names as its destination. *)
Definition destination (src : Z) : option nat := r ← row_of src; row_destination r src.

(** Compiled as unimplemented. *)
Definition row_missing (r : row) : Prop :=
  match r with Missing c => forall src s, (c src).1 (c src).2 s = NI no_fields s | _ => True end.

Lemma tables_are_rows :
  recomp_special = map row_compiler special_rows /\ interp_special = map row_interp special_rows /\
  recomp_ops = map row_compiler op_rows /\ interp_ops = map row_interp op_rows.
Proof. split_and!; reflexivity. Qed.

Lemma rows_missing : Forall row_missing special_rows /\ Forall row_missing op_rows.
Proof. split; repeat constructor; done. Qed.

(** One step of each interpreter on a word, from its row. *)
Lemma steps_of_row src :
  match row_of src with
  | Some r =>
      row_missing r /\
      cached_step src = (c ← row_compiler r; Some ((c src).1 (c src).2)) /\
      pure_step src = (c ← row_compiler r; op ← row_interp r; Some (op (c src).2))
  | None => cached_step src = None /\ pure_step src = None
  end.
Proof.
  unfold row_of, cached_step, pure_step, compile.
  destruct tables_are_rows as (-> & -> & -> & ->). destruct rows_missing as [M1 M2].
  destruct (_ =? 0); rewrite !list_lookup_fmap.
  - destruct (special_rows !! _) as [r|] eqn:E; [|done].
    split; [exact (Forall_lookup_1 _ _ _ _ M1 E)|]. destruct r as [|c| | |]; try done. cbn. by destruct (c src).
  - destruct (op_rows !! _) as [r|] eqn:E; [|done].
    split; [exact (Forall_lookup_1 _ _ _ _ M2 E)|]. destruct r as [|c| | |]; try done. cbn. by destruct (c src).
Qed.

Lemma steps_agree src s :
  match cached_step src, pure_step src with
  | Some c, Some p =>
      if bool_decide (destination src = Some 0%nat)
      then c s = Ret (tt, s <| pc := u32 (pc s + 4) |>) else c s = p s
  | None, None => True
  | _, _ => False
  end.
Proof.
  pose proof (steps_of_row src) as Hr. unfold destination.
  destruct (row_of src) as [r|]; [|by destruct Hr as [-> ->]]. destruct Hr as (Hm & -> & ->).
  destruct r as [|c|op|op|op]; cbn in Hm |- *.
  - exact I.
  - rewrite Hm. reflexivity.
  - reflexivity.
  - destruct (field5 src 11); reflexivity.
  - destruct (field5 src 16); reflexivity.
Qed.

(** The two interpreters agree: they implement the same integer
    instructions, and run the same on every word that does not name register 0 as
    its destination; on those the cached interpreter does nothing but advance. *)
Theorem interpreters_agree src s :
  match cached_step src, pure_step src with
  | Some c, Some p =>
      if bool_decide (destination src = Some 0%nat)
      then c s = Ret (tt, s <| pc := u32 (pc s + 4) |>) else c s = p s
  | None, None => True
  | _, _ => False
  end.
Proof. exact (steps_agree src s). Qed.

(** ** The register file *)

(** Operands as the decoder makes them. *)
Record fields_ok (f : fields) : Prop := {
  fo_rs : (rs f < 32)%nat;
  fo_rt : (rt f < 32)%nat;
  fo_rd : (rd f < 32)%nat;
  fo_sa : 0 <= sa f < 32;
  fo_immediate : - 2 ^ 15 <= immediate f < 2 ^ 15
}.

(** 64-bit values are those whose bits from 63 on are all alike. *)
Lemma is_s64_sign x : is_s64 x <-> Z.shiftr x 63 = 0 \/ Z.shiftr x 63 = -1.
Proof.
  unfold is_s64. rewrite Z.shiftr_div_pow2 by lia. change (2 ^ 63) with 9223372036854775808.
  Z.div_mod_to_equations. lia.
Qed.

Lemma is_s64_bitwise x y :
  is_s64 x -> is_s64 y ->
  is_s64 (Z.land x y) /\ is_s64 (Z.lor x y) /\ is_s64 (Z.lxor x y) /\ is_s64 (Z.lnot x).
Proof.
  rewrite !is_s64_sign. rewrite Z.shiftr_land, Z.shiftr_lor, Z.shiftr_lxor.
  assert (Z.shiftr (Z.lnot x) 63 = Z.lnot (Z.shiftr x 63)) as ->.
  { rewrite <- !Z.lxor_m1_r, Z.shiftr_lxor. done. }
  intros [-> | ->] [-> | ->]; vm_compute; auto 6.
Qed.

Lemma is_s64_land x y : is_s64 x -> is_s64 y -> is_s64 (Z.land x y).
Proof. intros Hx Hy. apply (is_s64_bitwise x y Hx Hy). Qed.
Lemma is_s64_lor x y : is_s64 x -> is_s64 y -> is_s64 (Z.lor x y).
Proof. intros Hx Hy. apply (is_s64_bitwise x y Hx Hy). Qed.
Lemma is_s64_lxor x y : is_s64 x -> is_s64 y -> is_s64 (Z.lxor x y).
Proof. intros Hx Hy. apply (is_s64_bitwise x y Hx Hy). Qed.
Lemma is_s64_lnot x : is_s64 x -> is_s64 (Z.lnot x).
Proof. intros Hx. apply (is_s64_bitwise x x Hx Hx). Qed.

Lemma is_s64_shiftr x n : is_s64 x -> 0 <= n -> is_s64 (Z.shiftr x n).
Proof.
  unfold is_s64. intros Hx Hn. rewrite Z.shiftr_div_pow2 by done.
  assert (0 < 2 ^ n) by (apply Z.pow_pos_nonneg; lia).
  split; [apply Z.div_le_lower_bound; nia|]. apply Z.div_lt_upper_bound; nia.
Qed.

Lemma is_s64_of_s32 x : is_s64 (s32 x).
Proof. pose proof (s32_range x). unfold is_s32, is_s64 in *. lia. Qed.
Lemma is_s64_u16 x : is_s64 (u16 x).
Proof. unfold u16, is_s64. pose proof (Z.mod_pos_bound x 65536). lia. Qed.
Lemma is_s64_bool (b : bool) : is_s64 (if b then 1 else 0).
Proof. by destruct b. Qed.

Lemma reg_range r s : regs_ok s -> (r < 32)%nat -> is_s64 (reg s !!! r).
Proof.
  intros [Hl Hv _ _] Hr. rewrite <- Hl in Hr. apply lookup_lt_is_Some_2 in Hr as (v & E).
  rewrite (list_lookup_total_correct _ _ _ E). exact (Forall_lookup_1 _ _ _ _ Hv E).
Qed.

Lemma insert_regs_ok r v s : regs_ok s -> is_s64 v -> regs_ok (s <| reg := <[r := v]> (reg s) |>).
Proof. intros [] Hv. constructor; try done; [refine (eq_trans (length_insert _ _ _) _); done|exact (Forall_insert _ _ _ _ ro_values0 Hv)]. Qed.

Lemma keeps_set_reg r v : is_s64 v -> keeps regs_ok (set_reg r v).
Proof. intros Hv. apply keeps_modify. intros s Hs. by apply insert_regs_ok. Qed.

Lemma keeps_next : keeps regs_ok next.
Proof. apply keeps_modify. intros s []. by constructor. Qed.

(** A 32-bit result: the low word is replaced and then sign-extended. *)
Lemma word_result r v s :
  (r < length (reg s))%nat ->
  (set32 r v ;;; sign_extended r ;;; next) s =
    Ret (tt, s <| reg := <[r := s32 v]> (reg s) |> <| pc := u32 (pc s + 4) |>).
Proof.
  intros Hr. unfold set32, sign_extended, next. rewrite !bind_modify_l. unfold modify.
  set (x := Z.lor _ _). do 3 f_equal.
  change (reg (s <| reg := <[r := x]> (reg s) |>)) with (<[r := x]> (reg s)).
  rewrite list_lookup_total_insert_eq by done.
  assert (s32 x = s32 v) as ->.
  2: { rewrite (list_insert_insert_eq (reg s) r (s32 v) x). reflexivity. }
  rewrite <- (s32_u32 x), <- (s32_u32 v). f_equal. unfold x.
  change (u32 (Z.lor (Z.ldiff (reg s !!! r) (Z.ones 32)) (u32 v)) = u32 v).
  assert (forall z, u32 z = Z.land z (Z.ones 32)) as Hu by (intros; by rewrite Z.land_ones).
  rewrite !Hu, Z.land_lor_distr_l, <- Z.land_assoc, Z.land_diag.
  rewrite Z.land_ldiff, Z.lor_0_l. done.
Qed.

Lemma keeps_word r v :
  (r < 32)%nat -> keeps regs_ok (set32 r v ;;; sign_extended r ;;; next).
Proof.
  intros Hr s Hs. rewrite word_result by (rewrite (ro_length _ Hs); done).
  pose proof (insert_regs_ok r (s32 v) s Hs (is_s64_of_s32 v)) as []. by constructor.
Qed.

Lemma land_mask_nonneg x m : 0 <= m -> 0 <= Z.land x m.
Proof. intros. apply Z.land_nonneg. by right. Qed.

(** What an instruction reads is in range. *)
Lemma operands_range f s :
  regs_ok s -> fields_ok f -> is_s64 (rrs f s) /\ is_s64 (rrt f s) /\ is_s64 (irs f s).
Proof. intros Hs []. unfold rrs, rrt, irs. split_and!; by apply reg_range. Qed.

Lemma keeps_product (g : cpu -> Z * Z) :
  (forall s, regs_ok s -> is_s64 (g s).1 /\ is_s64 (g s).2) ->
  keeps regs_ok (modify (fun s => let '(h, l) := g s in s <| hi := h |> <| lo := l |>) ;;; next).
Proof.
  intros Hg. apply keeps_bind; [|intros; apply keeps_next]. apply keeps_modify. intros s Hs.
  specialize (Hg s Hs). destruct (g s) as [h l]. destruct Hs, Hg. by constructor.
Qed.

Definition op_in_range (op : instr_fn) : Prop := forall f, fields_ok f -> keeps regs_ok (op f).

(** Range of a computed value, by its outermost operation. *)
Ltac value_range :=
  repeat lazymatch goal with
  | |- is_s64 (s64 _) => apply s64_range
  | |- is_s64 (s32 _) => apply is_s64_of_s32
  | |- is_s64 (u16 _) => apply is_s64_u16
  | |- is_s64 (if _ then 1 else 0) => apply is_s64_bool
  | |- is_s64 (Z.land _ _) => apply is_s64_land
  | |- is_s64 (Z.lor _ _) => apply is_s64_lor
  | |- is_s64 (Z.lxor _ _) => apply is_s64_lxor
  | |- is_s64 (Z.lnot _) => apply is_s64_lnot
  | |- is_s64 (Z.shiftr _ _) => apply is_s64_shiftr
  | |- is_s64 _ => assumption
  | |- 0 <= Z.land _ _ => apply land_mask_nonneg
  | |- 0 <= _ => lia
  end.

(** An instruction with one result. *)
Ltac op_range op :=
  intros f Hf; unfold op; apply keeps_get; intros s Hs;
  destruct (operands_range f s Hs Hf) as (?Ha & ?Hb & ?Hc); pose proof (ro_hi _ Hs); pose proof (ro_lo _ Hs);
  destruct Hf;
  lazymatch goal with
  | |- keeps _ (bind (set32 _ _) _) => apply keeps_word; assumption
  | |- keeps _ (bind (set_reg _ _) _) =>
      apply keeps_bind; [apply keeps_set_reg; value_range | intros _; apply keeps_next]
  end.

Lemma shifts_in_range :
  op_in_range SLL /\ op_in_range SRL /\ op_in_range SRA /\ op_in_range SLLV /\ op_in_range SRLV /\
  op_in_range SRAV /\ op_in_range DSLLV /\ op_in_range DSRLV /\ op_in_range DSRAV /\ op_in_range DSLL /\
  op_in_range DSRL /\ op_in_range DSRA /\ op_in_range DSLL32 /\ op_in_range DSRL32 /\ op_in_range DSRA32.
Proof.
  split_and!; [op_range SLL|op_range SRL|op_range SRA|op_range SLLV|op_range SRLV|op_range SRAV
    |op_range DSLLV|op_range DSRLV|op_range DSRAV|op_range DSLL|op_range DSRL|op_range DSRA
    |op_range DSLL32|op_range DSRL32|op_range DSRA32].
Qed.

Lemma arithmetic_in_range :
  op_in_range MFHI /\ op_in_range MFLO /\ op_in_range ADD /\ op_in_range ADDU /\ op_in_range SUB /\
  op_in_range SUBU /\ op_in_range AND /\ op_in_range OR /\ op_in_range XOR /\ op_in_range NOR /\
  op_in_range SLT /\ op_in_range SLTU /\ op_in_range DADD /\ op_in_range DADDU /\ op_in_range DSUB /\
  op_in_range DSUBU.
Proof.
  split_and!; [op_range MFHI|op_range MFLO|op_range ADD|op_range ADDU|op_range SUB|op_range SUBU
    |op_range AND|op_range OR|op_range XOR|op_range NOR|op_range SLT|op_range SLTU|op_range DADD
    |op_range DADDU|op_range DSUB|op_range DSUBU].
Qed.

Lemma immediates_in_range :
  op_in_range ADDI /\ op_in_range ADDIU /\ op_in_range SLTI /\ op_in_range SLTIU /\ op_in_range ANDI /\
  op_in_range ORI /\ op_in_range XORI /\ op_in_range LUI /\ op_in_range DADDI /\ op_in_range DADDIU.
Proof.
  split_and!; [op_range ADDI|op_range ADDIU|op_range SLTI|op_range SLTIU|op_range ANDI|op_range ORI
    |op_range XORI|op_range LUI|op_range DADDI|op_range DADDIU].
Qed.

(** Instructions on HI and LO. *)
Lemma keeps_stop : keeps regs_ok (modify (fun s => s <| c_stop := true |>)).
Proof. apply keeps_modify. intros s []. by constructor. Qed.

Lemma moves_in_range : op_in_range MTHI /\ op_in_range MTLO /\ op_in_range TEQ /\ op_in_range NOP /\ op_in_range NI.
Proof.
  split_and!; intros f Hf.
  - apply keeps_bind; [|intros _; apply keeps_next]. apply keeps_modify. intros s Hs.
    destruct (operands_range f s Hs Hf) as (Ha & _ & _). destruct Hs. by constructor.
  - apply keeps_bind; [|intros _; apply keeps_next]. apply keeps_modify. intros s Hs.
    destruct (operands_range f s Hs Hf) as (Ha & _ & _). destruct Hs. by constructor.
  - unfold TEQ. apply keeps_get. intros s Hs. apply keeps_bind; [|intros _; apply keeps_next].
    apply keeps_when, keeps_stop.
  - apply keeps_next.
  - apply keeps_stop.
Qed.

Lemma products_in_range :
  op_in_range MULT /\ op_in_range MULTU /\ op_in_range DMULT /\ op_in_range DMULTU.
Proof.
  split_and!; intros f Hf.
  - apply (keeps_product (fun s => (Z.shiftr (s64 (rrs f s * rrt f s)) 32, s32 (s64 (rrs f s * rrt f s))))).
    intros s Hs. split; cbn [fst snd]; value_range.
  - apply (keeps_product (fun s => (Z.shiftr (s64 (u64 (u32 (rrs f s) * u32 (rrt f s)))) 32,
                                    s32 (u64 (u32 (rrs f s) * u32 (rrt f s)))))).
    intros s Hs. split; cbn [fst snd]; value_range.
  - intros s Hs. rewrite dmult_form. pose proof (product128_spec (mag (rrs f s)) (mag (rrt f s))) as Hp.
    destruct (product128 _ _) as [h l]. destruct Hp as (Hh & Hl & _). destruct Hs.
    repeat case_match; simplify_eq; constructor; try done; try apply s64_range; by apply is_s64_lnot.
  - apply (keeps_product (fun s => product128 (rrs f s) (rrt f s))). intros s Hs.
    pose proof (product128_spec (rrs f s) (rrt f s)) as Hp. by destruct (product128 _ _), Hp as (? & ? & _).
Qed.

Lemma quot_rem_s64 n d : is_s64 n -> is_s64 d -> d <> 0 -> ~ (n = - 2 ^ 63 /\ d = -1) ->
  is_s64 (Z.quot n d) /\ is_s64 (Z.rem n d).
Proof. intros Hn Hd H0 Hne. exact (quot_rem_fit (2 ^ 63) n d ltac:(lia) Hn Hd H0 Hne). Qed.

Lemma divisions_in_range :
  op_in_range DIV /\ op_in_range DIVU /\ op_in_range DDIV /\ op_in_range DDIVU.
Proof.
  assert (forall (m : M cpu unit), keeps regs_ok m -> keeps regs_ok (m ;;; next)) as Hn
    by (intros; apply keeps_bind; [done|intros _; apply keeps_next]).
  split_and!; intros f Hf.
  - apply keeps_get. intros s Hs. apply Hn. destruct (c_true _); [|apply keeps_ret].
    destruct (_ && _); [apply keeps_undef|]. apply keeps_modify. intros t [].
    constructor; try done; apply is_s64_of_s32.
  - apply keeps_get. intros s Hs. apply Hn, keeps_when, keeps_modify. intros t [].
    constructor; try done; apply is_s64_of_s32.
  - intros s Hs. destruct (operands_range f s Hs Hf) as (Ha & Hb & _). unfold DDIV. rewrite bind_get_l.
    destruct (Z.eqb_spec (rrt f s) 0) as [E|E].
    { rewrite E. cbn. destruct Hs. by constructor. }
    unfold c_true. rewrite (proj2 (Z.eqb_neq _ _) E). cbn [negb].
    destruct (_ && _) eqn:Eo; [done|]. apply andb_false_iff in Eo. rewrite !Z.eqb_neq in Eo.
    destruct (quot_rem_s64 (rrs f s) (rrt f s) Ha Hb E) as [Hq Hr]; [change (- 2 ^ 63) with (-0x8000000000000000); tauto|].
    cbn. destruct Hs. by constructor.
  - apply keeps_get. intros s Hs. apply Hn, keeps_when, keeps_modify. intros t [].
    constructor; try done; apply s64_range.
Qed.

(** A property of every instruction of a table row. *)
Definition row_all (K : instr_fn -> Prop) (r : row) : Prop :=
  match r with
  | Outside | Missing _ => True
  | Plain op | Guarded op | Immediate op => K op
  end.

Lemma rows_in_range : Forall (row_all op_in_range) special_rows /\ Forall (row_all op_in_range) op_rows.
Proof.
  pose proof shifts_in_range. pose proof arithmetic_in_range. pose proof immediates_in_range.
  pose proof moves_in_range. pose proof products_in_range. pose proof divisions_in_range.
  destruct_and!.
  split; repeat (apply Forall_cons_2; [first [exact I | assumption]|]); apply Forall_nil_2.
Qed.

(** Decoded operands are in range. *)
Lemma field5_small src k : (field5 src k < 32)%nat.
Proof.
  unfold field5. change 0x1F with (Z.ones 5). rewrite Z.land_ones by lia.
  pose proof (Z.mod_pos_bound (Z.shiftr src k) (2 ^ 5)). lia.
Qed.

Lemma r_type_ok src : fields_ok (recompile_standard_r_type src).
Proof.
  constructor; try apply field5_small; cbn [sa immediate recompile_standard_r_type]; [|lia].
  change 0x1F with (Z.ones 5). rewrite Z.land_ones by lia. apply Z.mod_pos_bound. lia.
Qed.

Lemma i_type_ok src : fields_ok (recompile_standard_i_type src).
Proof.
  constructor; try apply field5_small; cbn [rd sa immediate recompile_standard_i_type]; try lia.
  unfold s16. change (2 ^ 15) with 32768. pose proof (Z.mod_pos_bound (Z.land src 0xFFFF + 32768) 65536). lia.
Qed.

(** An invariant that every instruction of the tables keeps is kept by every
    instruction word of either interpreter. *)
Lemma integer_step_keeps (P : cpu -> Prop) (K := fun op : instr_fn => forall f, fields_ok f -> keeps P (op f)) src m :
  Forall (row_all K) special_rows /\ Forall (row_all K) op_rows -> K NOP -> K NI ->
  cached_step src = Some m \/ pure_step src = Some m -> keeps P m.
Proof.
  intros [R1 R2] Hnop Hni Hm. pose proof (steps_of_row src) as Hr.
  destruct (row_of src) as [r|] eqn:Er; [|by destruct Hr as [Hc Hp], Hm; congruence].
  destruct Hr as (Hmi & Hc & Hp). rewrite Hc, Hp in Hm.
  assert (row_all K r) as Hrr.
  { unfold row_of in Er.
    destruct (_ =? 0); [exact (Forall_lookup_1 _ _ _ _ R1 Er)|exact (Forall_lookup_1 _ _ _ _ R2 Er)]. }
  pose proof (r_type_ok src) as Hrt. pose proof (i_type_ok src) as Hit.
  destruct r as [|c|op|op|op]; cbn in Hmi, Hrr, Hm; destruct Hm as [Hm|Hm]; simplify_eq.
  - intros t Ht. rewrite Hmi. exact (Hni _ Hrt t Ht).
  - exact (Hni _ Hrt).
  - by apply Hrr.
  - by apply Hrr.
  - destruct (_ =? _)%nat; [by apply Hnop|by apply Hrr].
  - by apply Hrr.
  - destruct (_ =? _)%nat; [by apply Hnop|by apply Hrr].
  - by apply Hrr.
Qed.

(** The registers keep their width: whatever integer instruction either
    interpreter runs, 32 registers, HI and LO hold 64-bit values afterwards. *)
Lemma integer_step_in_range src m :
  cached_step src = Some m \/ pure_step src = Some m -> keeps regs_ok m.
Proof. apply integer_step_keeps; [exact rows_in_range|apply moves_in_range..]. Qed.

(** [DADDU $3, $1, $2] on two large values. *)
(** ** Register 0 *)

Definition zero_ok (s : cpu) : Prop := reg s !! 0%nat = Some 0.

Lemma zero_insert r (v : Z) (l : list Z) :
  r <> 0%nat -> l !! 0%nat = Some 0 -> <[r := v]> l !! 0%nat = Some 0.
Proof. intros Hr Hl. by rewrite list_lookup_insert_ne. Qed.

Lemma zero_set_reg r v : r <> 0%nat -> keeps zero_ok (set_reg r v).
Proof. intros Hr. apply keeps_modify. intros s Hs. exact (zero_insert r v (reg s) Hr Hs). Qed.
Lemma zero_set32 r v : r <> 0%nat -> keeps zero_ok (set32 r v).
Proof. intros Hr. apply keeps_modify. intros s Hs. exact (zero_insert r _ (reg s) Hr Hs). Qed.
Lemma zero_sign_extended r : r <> 0%nat -> keeps zero_ok (sign_extended r).
Proof. intros Hr. apply keeps_modify. intros s Hs. exact (zero_insert r _ (reg s) Hr Hs). Qed.
Lemma zero_next : keeps zero_ok next.
Proof. by apply keeps_modify. Qed.
Lemma zero_dmult f : keeps zero_ok (DMULT f) /\ keeps zero_ok (DMULTU f).
Proof.
  split; intros s Hs.
  - rewrite dmult_form. by repeat case_match; simplify_eq.
  - unfold DMULTU. rewrite bind_modify_l. by destruct (product128 _ _).
Qed.
#[local] Hint Resolve zero_set_reg zero_set32 zero_sign_extended zero_next : keeps.

Definition row_keeps_zero (r : row) : Prop :=
  match r with
  | Outside | Missing _ => True
  | Plain op => forall f, keeps zero_ok (op f)
  | Guarded op => forall f, rd f <> 0%nat -> keeps zero_ok (op f)
  | Immediate op => forall f, rt f <> 0%nat -> keeps zero_ok (op f)
  end.

Ltac keeps_zero :=
  lazymatch goal with
  | |- row_keeps_zero Outside => exact I
  | |- row_keeps_zero (Missing _) => exact I
  | |- row_keeps_zero (Plain DMULT) => intros f; apply zero_dmult
  | |- row_keeps_zero (Plain DMULTU) => intros f; apply zero_dmult
  | |- row_keeps_zero (?k ?op) => cbn [row_keeps_zero]; intros; unfold op; keeps_auto
  end.

Lemma rows_keep_zero : Forall row_keeps_zero special_rows /\ Forall row_keeps_zero op_rows.
Proof. split; repeat (apply Forall_cons_2; [keeps_zero|]); apply Forall_nil_2. Qed.

(** The fields of [ORI $0, $0, n]. *)
Lemma ori_fields n :
  0 <= n < 65536 ->
  let src := 0x34000000 + n in
  Z.land (Z.shiftr src 26) 0x3F = 13 /\ field5 src 21 = 0%nat /\ field5 src 16 = 0%nat /\
  u16 (s16 (Z.land src 0xFFFF)) = n.
Proof.
  intros Hn src. unfold field5.
  assert (Z.shiftr src 26 = 13 /\ Z.shiftr src 21 = 416 /\ Z.shiftr src 16 = 13312) as (-> & -> & ->).
  { rewrite !Z.shiftr_div_pow2 by lia. change (2 ^ 26) with 67108864. change (2 ^ 21) with 2097152.
    change (2 ^ 16) with 65536. unfold src. Z.div_mod_to_equations. lia. }
  split_and!; try reflexivity. change 0xFFFF with (Z.ones 16). rewrite Z.land_ones by lia.
  unfold src, u16, s16. change (2 ^ 16) with 65536. Z.div_mod_to_equations. lia.
Qed.

(** Register 0 reads as zero in the cached interpreter: no integer
    instruction it runs changes it.  The pure interpreter has no such guard, so
    for instance [ORI $0, $0, n] leaves [n] in register 0. *)
Theorem zero_register :
  (forall src m s s', cached_step src = Some m -> zero_ok s -> m s = Ret (tt, s') -> zero_ok s') /\
  (forall n s, 0 <= n < 65536 -> zero_ok s ->
     exists m s', pure_step (0x34000000 + n) = Some m /\ m s = Ret (tt, s') /\ reg s' !! 0%nat = Some n).
Proof.
  split.
  - intros src m s s' Hm Hs E. pose proof (steps_of_row src) as Hr.
    destruct (row_of src) as [r|] eqn:Er; [|by destruct Hr; congruence].
    destruct Hr as (Hmi & Hc & _). rewrite Hc in Hm.
    assert (row_keeps_zero r) as Hz.
    { destruct rows_keep_zero as [R1 R2]. unfold row_of in Er.
      destruct (_ =? 0); [exact (Forall_lookup_1 _ _ _ _ R1 Er)|exact (Forall_lookup_1 _ _ _ _ R2 Er)]. }
    assert (keeps zero_ok m) as Hk; [|exact (keeps_run _ _ _ _ _ Hk Hs E)].
    destruct r as [|c|op|op|op]; cbn in Hmi, Hz, Hm; simplify_eq.
    + intros t Ht. by rewrite Hmi.
    + apply Hz.
    + destruct (Nat.eqb_spec (field5 src 11) 0); [apply zero_next|by apply Hz].
    + destruct (Nat.eqb_spec (field5 src 16) 0); [apply zero_next|by apply Hz].
  - intros n s Hn Hs. destruct (ori_fields n Hn) as (E1 & E2 & E3 & E4).
    eexists. eexists. split; [|split].
    + unfold pure_step, compile. rewrite E1. reflexivity.
    + reflexivity.
    + set (src := 0x34000000 + n) in *.
      change (<[field5 src 16 := Z.lor (reg s !!! field5 src 21) (u16 (s16 (Z.land src 0xFFFF)))]> (reg s)
                !! 0%nat = Some n).
      rewrite E2, E3, E4, list_lookup_insert_eq by exact (lookup_lt_Some _ _ _ Hs).
      rewrite (list_lookup_total_correct _ _ _ Hs). done.
Qed.
