(* ===== verification/Tlb.v ===== *)
(** * The TLB instructions (pure_interp.cpp, tlb.cpp)

    The 32 TLB entries and the two look-up tables that cache what they map,
    [tlb_LUT_r] for reads and [tlb_LUT_w] for writes, one word per 4 KiB page.
    [TLBWI] and [TLBWR] have the same body but for the index; it is [tlb_write]
    here.  The cached interpreter's versions in tlb.cpp also drop translated code
    of the pages concerned, which has no effect on this state. *)

From S2P Require Import Prelude Machine Exception.

Open Scope prog_scope.
#[local] Open Scope Z_scope.

(** [for (i = start; i < end; i++) lut[i >> 12] = value(i);], [n] iterations from [i]. *)
Fixpoint lut_loop (n : nat) (i : Z) (value : Z -> Z) (lut : gmap Z Z) : gmap Z Z :=
  match n with
  | O => lut
  | S n => lut_loop n (i + 1) value (<[Z.shiftr i 12 := value i]> lut)
  end.

Definition lut_fill (start end_ : Z) (value : Z -> Z) (lut : gmap Z Z) : gmap Z Z :=
  lut_loop (Z.to_nat (end_ - start)) start value lut.

(** What the entry takes over from EntryLo0, EntryLo1, EntryHi and PageMask. *)
Definition load_entry (c : cop0) (e : tlb) : tlb :=
  e <| g := Z.land (Z.land (core_EntryLo0 c) (core_EntryLo1 c)) 1 |>
    <| pfn_even := Z.shiftr (Z.land (core_EntryLo0 c) 0x3FFFFFC0) 6 |>
    <| pfn_odd := Z.shiftr (Z.land (core_EntryLo1 c) 0x3FFFFFC0) 6 |>
    <| c_even := Z.shiftr (Z.land (core_EntryLo0 c) 0x38) 3 |>
    <| c_odd := Z.shiftr (Z.land (core_EntryLo1 c) 0x38) 3 |>
    <| d_even := Z.shiftr (Z.land (core_EntryLo0 c) 0x4) 2 |>
    <| d_odd := Z.shiftr (Z.land (core_EntryLo1 c) 0x4) 2 |>
    <| v_even := Z.shiftr (Z.land (core_EntryLo0 c) 0x2) 1 |>
    <| v_odd := Z.shiftr (Z.land (core_EntryLo1 c) 0x2) 1 |>
    <| asid := Z.land (core_EntryHi c) 0xFF |>
    <| vpn2 := Z.shiftr (Z.land (core_EntryHi c) 0xFFFFE000) 13 |>
    <| mask := Z.shiftr (Z.land (core_PageMask c) 0x1FFE000) 13 |>.

Definition set_even_range (e : tlb) : tlb :=
  let e := e <| start_even := u32 (Z.shiftl (vpn2 e) 13) |> in
  let e := e <| end_even := u32 (start_even e + Z.shiftl (mask e) 12 + 0xFFF) |> in
  e <| phys_even := u32 (Z.shiftl (pfn_even e) 12) |>.

Definition set_odd_range (e : tlb) : tlb :=
  let e := e <| start_odd := u32 (end_even e + 1) |> in
  let e := e <| end_odd := u32 (start_odd e + Z.shiftl (mask e) 12 + 0xFFF) |> in
  e <| phys_odd := u32 (Z.shiftl (pfn_odd e) 12) |>.

(** A range that gets into the tables. *)
Definition mappable (start end_ phys : Z) : bool :=
  (start <? end_) && negb ((0x80000000 <=? start) && (end_ <? 0xC0000000)) && (phys <? 0x20000000).

(** The entry of page [i >> 12]. *)
Definition lut_value (start phys i : Z) : Z := Z.lor 0x80000000 (u32 (phys + (i - start))).

Section Instructions.
Context {Q : Type} `{EventQueue Q}.
#[local] Abbreviation mach := (machine Q).

Definition fill_r (start end_ : Z) (value : Z -> Z) : M mach unit :=
  modify (fun m => m <| tlb_LUT_r := lut_fill start end_ value (tlb_LUT_r m) |>).
Definition fill_w (start end_ : Z) (value : Z -> Z) : M mach unit :=
  modify (fun m => m <| tlb_LUT_w := lut_fill start end_ value (tlb_LUT_w m) |>).

Definition unmap (v d start end_ : Z) : M mach unit :=
  when (c_true v)
    (fill_r start end_ (fun _ => 0) ;;; when (c_true d) (fill_w start end_ (fun _ => 0))).

Definition map_range (v d start end_ phys : Z) : M mach unit :=
  when (c_true v)
    (when (mappable start end_ phys)
       (fill_r start end_ (lut_value start phys) ;;;
        when (c_true d) (fill_w start end_ (lut_value start phys)))).

(** [tlb_e[k]]; there are 32 entries. *)
Definition read_tlb (k : nat) : M mach tlb :=
  m <-- get ;;; match tlb_e m !! k with Some e => ret e | None => undef OutOfBounds end.
Definition change_tlb (k : nat) (f : tlb -> tlb) : M mach unit :=
  modify (fun m => m <| tlb_e := alter f k (tlb_e m) |>).

Definition tlb_write (k : nat) : M mach unit :=
  e <-- read_tlb k ;;;
  unmap (v_even e) (d_even e) (start_even e) (end_even e) ;;;
  unmap (v_odd e) (d_odd e) (start_odd e) (end_odd e) ;;;
  m <-- get ;;;
  change_tlb k (load_entry (m_cop0 m)) ;;;
  change_tlb k set_even_range ;;;
  e <-- read_tlb k ;;;
  map_range (v_even e) (d_even e) (start_even e) (end_even e) (phys_even e) ;;;
  change_tlb k set_odd_range ;;;
  e <-- read_tlb k ;;;
  map_range (v_odd e) (d_odd e) (start_odd e) (end_odd e) (phys_odd e).

Definition step4 : M mach unit := modify (fun m => m <| interp_addr := u32 (interp_addr m + 4) |>).

(** [TLBR] and [TLBP] without the step to the next instruction. *)
Definition tlb_read : M mach unit :=
  m <-- get ;;;
  e <-- read_tlb (Z.to_nat (Z.land (core_Index (m_cop0 m)) 0x1F)) ;;;
  modify (on_cop0 (fun c =>
    c <| core_PageMask := u32 (Z.shiftl (mask e) 13) |>
      <| core_EntryHi := u32 (Z.lor (Z.shiftl (vpn2 e) 13) (asid e)) |>
      <| core_EntryLo0 := u32 (Z.lor (Z.lor (Z.lor (Z.lor (Z.shiftl (pfn_even e) 6) (Z.shiftl (c_even e) 3))
                                 (Z.shiftl (d_even e) 2)) (Z.shiftl (v_even e) 1)) (g e)) |>
      <| core_EntryLo1 := u32 (Z.lor (Z.lor (Z.lor (Z.lor (Z.shiftl (pfn_odd e) 6) (Z.shiftl (c_odd e) 3))
                                 (Z.shiftl (d_odd e) 2)) (Z.shiftl (v_odd e) 1)) (g e)) |>)).
Definition TLBR : M mach unit := tlb_read ;;; step4.

Definition TLBWI : M mach unit :=
  m <-- get ;;; tlb_write (Z.to_nat (Z.land (core_Index (m_cop0 m)) 0x3F)) ;;; step4.

(** [core_Random = (core_Count / 2 % (32 - core_Wired)) + core_Wired;] *)
Definition TLBWR : M mach unit :=
  update_count ;;;
  m <-- get ;;;
  let c := m_cop0 m in
  let n := u32 (32 - core_Wired c) in
  if n =? 0 then undef DivideByZero
  else
    let random := u32 ((core_Count c / 2) mod n + core_Wired c) in
    modify (on_cop0 (fun c => c <| core_Random := random |>)) ;;;
    tlb_write (Z.to_nat random) ;;; step4.

(** The condition of the search in [TLBP]. *)
Definition tlb_matches (EntryHi : Z) (e : tlb) : bool :=
  (Z.land (vpn2 e) (Z.lnot (mask e)) =? Z.land (Z.shiftr (Z.land EntryHi 0xFFFFE000) 13) (Z.lnot (mask e))) &&
  (c_true (g e) || (asid e =? Z.land EntryHi 0xFF)).

Fixpoint tlb_search (EntryHi : Z) (i : Z) (es : list tlb) : option Z :=
  match es with
  | [] => None
  | e :: es => if tlb_matches EntryHi e then Some i else tlb_search EntryHi (i + 1) es
  end.

Definition tlb_probe : M mach unit :=
  modify (fun m => on_cop0 (fun c =>
    let c := c <| core_Index := Z.lor (core_Index c) 0x80000000 |> in
    match tlb_search (core_EntryHi c) 0 (tlb_e m) with
    | Some i => c <| core_Index := i |>
    | None => c
    end) m).
Definition TLBP : M mach unit := tlb_probe ;;; step4.

Definition ERET : M mach unit :=
  update_count ;;;
  m <-- get ;;;
  (if has_bits (Status m) 0x4 then modify (fun m => m <| stop := true |>)
   else
     modify (fun m => set_Status (Z.land (Status m) 0xFFFFFFFD) m) ;;;
     modify (fun m => m <| interp_addr := EPC m |>)) ;;;
  modify (fun m => m <| llbit := 0 |>) ;;;
  check_interrupt ;;;
  modify (fun m => m <| last_addr := interp_addr m |>) ;;;
  m <-- get ;;;
  when (next_interrupt_of m <=? Count m) gen_interrupt.

End Instructions.
