(* ===== verification/TlbProps.v ===== *)
(** * What the TLB instructions guarantee

    The abstract view of the TLB is the relation [tlb_maps]: an address is mapped
    by a valid half of some entry.  The look-up tables are a cache of it; the
    writing instructions keep the cache exact. *)

From S2P Require Import Prelude Hoare Pool Machine Exception Tlb.

Open Scope prog_scope.
#[local] Open Scope Z_scope.

(** ** The two halves of an entry *)

Record half : Set := Half { h_v : Z; h_d : Z; h_start : Z; h_end : Z; h_phys : Z }.

Definition half_of (odd : bool) (e : tlb) : half :=
  if odd then Half (v_odd e) (d_odd e) (start_odd e) (end_odd e) (phys_odd e)
  else Half (v_even e) (d_even e) (start_even e) (end_even e) (phys_even e).

(** Usable for reading, or for writing. *)
Definition usable (w : bool) (s : half) : bool := c_true (h_v s) && (negb w || c_true (h_d s)).

Definition holdable (s : half) : bool := mappable (h_start s) (h_end s) (h_phys s).

Definition tlb_maps (w : bool) (es : list tlb) (a pa : Z) : Prop :=
  exists k odd e, es !! k = Some e /\ usable w (half_of odd e) = true /\ holdable (half_of odd e) = true /\
    h_start (half_of odd e) <= a <= h_end (half_of odd e) /\
    pa = 0x80000000 + h_phys (half_of odd e) + (a - h_start (half_of odd e)).

(** Valid halves cover whole pages. *)
Definition half_ok (s : half) : Prop :=
  is_u32 (h_start s) /\ is_u32 (h_end s) /\ is_u32 (h_phys s) /\
  h_start s mod 4096 = 0 /\ h_end s mod 4096 = 4095 /\ h_phys s mod 4096 = 0 /\
  (h_start s < h_end s -> h_end s - h_start s < 2 ^ 24).

Definition entry_ok (e : tlb) : Prop := forall odd, c_true (h_v (half_of odd e)) = true -> half_ok (half_of odd e).

(** No two valid halves overlap; the processor requires it of the program. *)
Definition no_overlap (es : list tlb) : Prop :=
  forall k odd e k' odd' e', es !! k = Some e -> es !! k' = Some e' -> (k, odd) <> (k', odd') ->
    c_true (h_v (half_of odd e)) = true -> c_true (h_v (half_of odd' e')) = true ->
    h_end (half_of odd e) < h_start (half_of odd' e') \/ h_end (half_of odd' e') < h_start (half_of odd e).

(** ** The tables *)

Definition lut_translate (lut : gmap Z Z) (a : Z) : option Z :=
  let x := lut_lookup lut a in if c_true x then Some (page_address x a) else None.

Definition lut_sound (w : bool) (es : list tlb) (lut : gmap Z Z) : Prop :=
  forall a pa, is_u32 a -> lut_translate lut a = Some pa -> tlb_maps w es a pa.
Definition lut_complete (w : bool) (es : list tlb) (lut : gmap Z Z) : Prop :=
  forall a pa, is_u32 a -> tlb_maps w es a pa -> lut_translate lut a = Some pa.

Lemma shiftr_page i : Z.shiftr i 12 = i / 4096.
Proof. by rewrite Z.shiftr_div_pow2. Qed.

(** The last byte of page [p] the loop visits is what stays. *)
Lemma lut_loop_lookup n i value lut p :
  lut_loop n i value lut !! p =
    if bool_decide (i / 4096 <= p /\ p * 4096 < i + Z.of_nat n /\ (0 < n)%nat)
    then Some (value (Z.min (i + Z.of_nat n - 1) (p * 4096 + 4095))) else lut !! p.
Proof.
  revert i lut. induction n as [|n IH]; intros i lut.
  { rewrite bool_decide_eq_false_2; [done|lia]. }
  cbn [lut_loop]. rewrite IH, shiftr_page. destruct (Z.eq_dec (i / 4096) p) as [E|E].
  - rewrite (bool_decide_eq_true_2 (i / 4096 <= p /\ _)) by (split; [lia|]; Z.div_mod_to_equations; lia).
    case_bool_decide as Hc; [do 2 f_equal; lia|]. rewrite E, lookup_insert_eq. do 2 f_equal.
    destruct (decide (n = 0%nat)) as [->|]; [Z.div_mod_to_equations; lia|].
    assert (p < (i + 1) / 4096 \/ i + 1 + Z.of_nat n <= p * 4096) by lia.
    Z.div_mod_to_equations. lia.
  - rewrite lookup_insert_ne by done.
    assert ((i + 1) / 4096 <= p /\ p * 4096 < i + 1 + Z.of_nat n /\ (0 < n)%nat <->
            i / 4096 <= p /\ p * 4096 < i + Z.of_nat (S n) /\ (0 < S n)%nat) as Hiff
      by (split; intros (? & ? & ?); Z.div_mod_to_equations; lia).
    rewrite (bool_decide_ext _ _ Hiff). case_bool_decide; [|done]. do 2 f_equal. lia.
Qed.

(** Filling a range of whole pages. *)
Lemma lut_fill_lookup s value lut p :
  half_ok s ->
  lut_fill (h_start s) (h_end s) value lut !! p =
    if bool_decide (h_start s <= p * 4096 < h_end s)
    then Some (value (Z.min (h_end s - 1) (p * 4096 + 4095))) else lut !! p.
Proof.
  intros (Hs & He & _ & As & Ae & _ & _). unfold lut_fill. rewrite lut_loop_lookup.
  destruct (Z.le_gt_cases (h_end s) (h_start s)) as [Hle|Hlt].
  - rewrite !bool_decide_eq_false_2; [done|lia|]. intros (_ & _ & Hn). lia.
  - replace (h_start s + Z.of_nat (Z.to_nat (h_end s - h_start s))) with (h_end s) by lia.
    assert (h_start s / 4096 <= p /\ p * 4096 < h_end s /\ (0 < Z.to_nat (h_end s - h_start s))%nat <->
            h_start s <= p * 4096 < h_end s) as Hiff by (Z.div_mod_to_equations; lia).
    by rewrite (bool_decide_ext _ _ Hiff).
Qed.

(** Bytes of a covered page. *)
Lemma covers_page s a :
  half_ok s -> is_u32 a ->
  (h_start s <= a <= h_end s) <-> (h_start s <= (a / 4096) * 4096 < h_end s).
Proof.
  intros (Hs & He & _ & As & Ae & _ & _) Ha. unfold is_u32 in *. Z.div_mod_to_equations. lia.
Qed.

(** ** One half in the tables *)

Definition unmap_half (w : bool) (s : half) (lut : gmap Z Z) : gmap Z Z :=
  if usable w s then lut_fill (h_start s) (h_end s) (fun _ => 0) lut else lut.
Definition map_half (w : bool) (s : half) (lut : gmap Z Z) : gmap Z Z :=
  if usable w s && holdable s
  then lut_fill (h_start s) (h_end s) (lut_value (h_start s) (h_phys s)) lut else lut.

Lemma usable_valid w s : usable w s = true -> c_true (h_v s) = true.
Proof. unfold usable. by intros [? _]%andb_true_iff. Qed.

Lemma land_page x : Z.land x 0xFFF = x mod 4096.
Proof. change 0xFFF with (Z.ones 12). by rewrite Z.land_ones. Qed.

Lemma land_frame x : is_u32 x -> Z.land x 0xFFFFF000 = x / 4096 * 4096.
Proof.
  intros Hx. pose proof (land_split x 0xFFFFF000 0xFFF eq_refl) as E. rewrite land_page in E.
  change (Z.lor 0xFFFFF000 0xFFF) with (Z.ones 32) in E. rewrite Z.land_ones in E by lia.
  rewrite (Z.mod_small x (2 ^ 32)) in E by exact Hx.
  Z.div_mod_to_equations. lia.
Qed.

(** A table entry gives the address in its page. *)
Lemma page_address_spec x a : is_u32 x -> page_address x a = x / 4096 * 4096 + a mod 4096.
Proof.
  unfold page_address. intros Hx. rewrite land_page, land_frame by done.
  apply (lor_add_shift 12); [lia|]. apply Z.mod_pos_bound. lia.
Qed.

Lemma lut_value_spec s i :
  holdable s = true -> half_ok s -> h_start s <= i < h_end s ->
  lut_value (h_start s) (h_phys s) i = 0x80000000 + h_phys s + (i - h_start s).
Proof.
  unfold holdable, mappable, lut_value. rewrite !andb_true_iff, !Z.ltb_lt.
  intros [[Hlt _] Hp] (Hs & He & Hph & _ & _ & _ & Hlen) Hi.
  rewrite u32_id by (unfold is_u32 in *; lia).
  change 0x80000000 with (1 * 2 ^ 31) at 1. rewrite lor_add_shift; unfold is_u32 in *; lia.
Qed.

(** The page an address lies in, after mapping and unmapping a half. *)
Lemma map_half_translate w s lut a :
  (c_true (h_v s) = true -> half_ok s) -> is_u32 a ->
  lut_translate (map_half w s lut) a =
    if usable w s && holdable s && bool_decide (h_start s <= a <= h_end s)
    then Some (0x80000000 + h_phys s + (a - h_start s)) else lut_translate lut a.
Proof.
  intros Hok Ha. unfold map_half. destruct (usable w s) eqn:Hu; [|done].
  specialize (Hok (usable_valid _ _ Hu)). destruct (holdable s) eqn:Hh; [|done]. cbn [andb].
  rewrite (bool_decide_ext _ _ (covers_page s a Hok Ha)).
  unfold lut_translate, lut_lookup. rewrite shiftr_page, lut_fill_lookup by done.
  case_bool_decide as Hc; [|done]. cbn [default].
  pose proof Hok as (Hs & He & Hp & As & Ae & Ap & Hlen).
  assert (h_phys s < 0x20000000) as Hp2.
  { revert Hh. unfold holdable, mappable. rewrite !andb_true_iff, !Z.ltb_lt. tauto. }
  set (i := Z.min _ _). assert (h_start s <= i < h_end s) as Hi by (unfold i; lia).
  assert (i / 4096 = a / 4096) as Ei.
  { unfold i. apply Z.min_case_strong; intros; Z.div_mod_to_equations; lia. }
  rewrite lut_value_spec by done. unfold is_u32 in *.
  assert (0x80000000 + h_phys s + (i - h_start s) =? 0 = false) as E0 by (apply Z.eqb_neq; lia).
  unfold c_true, id. rewrite E0. cbn [negb]. f_equal.
  rewrite page_address_spec by (unfold is_u32; lia). Z.div_mod_to_equations. lia.
Qed.

Lemma unmap_half_translate w s lut a :
  (c_true (h_v s) = true -> half_ok s) -> is_u32 a ->
  lut_translate (unmap_half w s lut) a =
    if usable w s && bool_decide (h_start s <= a <= h_end s) then None else lut_translate lut a.
Proof.
  intros Hok Ha. unfold unmap_half. destruct (usable w s) eqn:Hu; [|done].
  specialize (Hok (usable_valid _ _ Hu)). cbn [andb].
  rewrite (bool_decide_ext _ _ (covers_page s a Hok Ha)).
  unfold lut_translate, lut_lookup. rewrite shiftr_page, lut_fill_lookup by done.
  by case_bool_decide.
Qed.

(** ** Writing an entry *)

Definition new_entry (c : cop0) (e : tlb) : tlb := set_odd_range (set_even_range (load_entry c e)).

(** A table after entry [e] was replaced by [e']. *)
Definition lut_replace (w : bool) (e e' : tlb) (lut : gmap Z Z) : gmap Z Z :=
  map_half w (half_of true e') (map_half w (half_of false e')
    (unmap_half w (half_of true e) (unmap_half w (half_of false e) lut))).

Section Machine.
Context {Q : Type} `{EventQueue Q}.
#[local] Abbreviation mach := (machine Q).

Definition set_luts (lr lw : gmap Z Z) (m : mach) : mach := m <| tlb_LUT_r := lr |> <| tlb_LUT_w := lw |>.

Lemma unmap_ok s (m : mach) :
  unmap (h_v s) (h_d s) (h_start s) (h_end s) m =
    Ret (tt, set_luts (unmap_half false s (tlb_LUT_r m)) (unmap_half true s (tlb_LUT_w m)) m).
Proof.
  unfold unmap, unmap_half, usable. destruct m, (c_true (h_v s)), (c_true (h_d s)); reflexivity.
Qed.

Lemma map_range_ok s (m : mach) :
  map_range (h_v s) (h_d s) (h_start s) (h_end s) (h_phys s) m =
    Ret (tt, set_luts (map_half false s (tlb_LUT_r m)) (map_half true s (tlb_LUT_w m)) m).
Proof.
  unfold map_range, map_half, usable, holdable.
  destruct m, (c_true (h_v s)), (c_true (h_d s)), (mappable _ _ _); reflexivity.
Qed.

Lemma read_tlb_ok k e (m : mach) : tlb_e m !! k = Some e -> read_tlb k m = Ret (e, m).
Proof. intros E. unfold read_tlb. by rewrite bind_get_l, E. Qed.

Lemma alter_lookup (f : tlb -> tlb) k e (l : list tlb) : l !! k = Some e -> alter f k l = <[k := f e]> l.
Proof.
  intros E. apply list_eq. intros j. destruct (decide (j = k)) as [->|Hne].
  - by rewrite list_lookup_alter_eq, E, list_lookup_insert_eq by exact (lookup_lt_Some _ _ _ E).
  - by rewrite list_lookup_alter_ne, list_lookup_insert_ne.
Qed.

Lemma change_tlb_ok k f e (m : mach) :
  tlb_e m !! k = Some e -> change_tlb k f m = Ret (tt, m <| tlb_e := <[k := f e]> (tlb_e m) |>).
Proof. intros E. unfold change_tlb, modify. by rewrite (alter_lookup f k e). Qed.

Lemma tlb_write_ok k e (m : mach) :
  tlb_e m !! k = Some e ->
  let e' := new_entry (m_cop0 m) e in
  tlb_write k m = Ret (tt, set_luts (lut_replace false e e' (tlb_LUT_r m)) (lut_replace true e e' (tlb_LUT_w m))
                             (m <| tlb_e := <[k := e']> (tlb_e m) |>)).
Proof.
  intros E. unfold tlb_write. rewrite (bind_Ret _ _ _ _ _ (read_tlb_ok _ _ _ E)).
  rewrite (bind_Ret _ _ _ _ _ (unmap_ok (half_of false e) m)).
  rewrite (bind_Ret _ _ _ _ _ (unmap_ok (half_of true e) _)), bind_get_l.
  pose proof (lookup_lt_Some _ _ _ E) as Hk.
  erewrite bind_Ret by (apply change_tlb_ok; exact E).
  set (e1 := load_entry _ e).
  assert (forall x, <[k := x]> (tlb_e m) !! k = Some x) as Hi by (intros; by apply list_lookup_insert_eq).
  erewrite bind_Ret by (apply change_tlb_ok; exact (Hi e1)).
  set (e2 := set_even_range e1).
  set (m2 := _ <| tlb_e := <[k := e2]> _ |>). assert (tlb_e m2 = <[k := e2]> (tlb_e m)) as E2.
  { exact (list_insert_insert_eq (tlb_e m) k e2 e1). }
  assert (tlb_e m2 !! k = Some e2) as L2 by (rewrite E2; apply Hi).
  rewrite (bind_Ret _ _ _ _ _ (read_tlb_ok k e2 m2 L2)).
  rewrite (bind_Ret _ _ _ _ _ (map_range_ok (half_of false e2) m2)).
  erewrite bind_Ret by (apply change_tlb_ok; exact L2).
  set (e3 := set_odd_range e2). set (m3 := _ <| tlb_e := <[k := e3]> _ |>).
  assert (tlb_e m3 = <[k := e3]> (tlb_e m)) as E3.
  { change (<[k := e3]> (tlb_e m2) = <[k := e3]> (tlb_e m)). rewrite E2. apply list_insert_insert_eq. }
  assert (tlb_e m3 !! k = Some e3) as L3 by (rewrite E3; apply Hi).
  rewrite (bind_Ret _ _ _ _ _ (read_tlb_ok k e3 m3 L3)).
  refine (eq_trans (map_range_ok (half_of true e3) m3) _).
  change (new_entry (m_cop0 m) e) with e3. rewrite <- E3. reflexivity.
Qed.

(** The state after [TLBWI] on entry [k], which held [e]. *)
Definition after_tlbwi (k : nat) (e : tlb) (m : mach) : mach :=
  let e' := new_entry (m_cop0 m) e in
  (set_luts (lut_replace false e e' (tlb_LUT_r m)) (lut_replace true e e' (tlb_LUT_w m))
     (m <| tlb_e := <[k := e']> (tlb_e m) |>)) <| interp_addr := u32 (interp_addr m + 4) |>.

Lemma tlbwi_ok k e (m : mach) :
  Z.to_nat (Z.land (core_Index (m_cop0 m)) 0x3F) = k -> tlb_e m !! k = Some e ->
  TLBWI m = Ret (tt, after_tlbwi k e m).
Proof. intros <- E. unfold TLBWI. rewrite bind_get_l. by erewrite bind_Ret by (apply tlb_write_ok; exact E). Qed.

Lemma after_tlbwi_view k e (m : mach) :
  tlb_e (after_tlbwi k e m) = <[k := new_entry (m_cop0 m) e]> (tlb_e m) /\ m_cop0 (after_tlbwi k e m) = m_cop0 m.
Proof. split; reflexivity. Qed.

(** ** The invariant *)

Definition tlb_ok (m : mach) : Prop :=
  Forall entry_ok (tlb_e m) /\
  lut_sound false (tlb_e m) (tlb_LUT_r m) /\ lut_sound true (tlb_e m) (tlb_LUT_w m).
Definition tlb_exact (m : mach) : Prop :=
  tlb_ok m /\ no_overlap (tlb_e m) /\
  lut_complete false (tlb_e m) (tlb_LUT_r m) /\ lut_complete true (tlb_e m) (tlb_LUT_w m).
End Machine.

(** Fields of a freshly written entry. *)
Lemma land_shiftr_range x mask_ k n :
  0 <= k -> 0 <= mask_ < 2 ^ (k + n) -> 0 <= n -> 0 <= Z.shiftr (Z.land x mask_) k < 2 ^ n.
Proof.
  intros Hk Hm Hn. pose proof (land_le_mask x mask_ ltac:(lia)).
  rewrite Z.shiftr_div_pow2 by done. rewrite Z.pow_add_r in Hm by lia.
  assert (0 < 2 ^ k) by (apply Z.pow_pos_nonneg; lia).
  split; [apply Z.div_pos; lia|]. apply Z.div_lt_upper_bound; lia.
Qed.

Lemma new_entry_ok c e : entry_ok (new_entry c e).
Proof.
  pose proof (land_shiftr_range (core_EntryHi c) 0xFFFFE000 13 19 ltac:(lia) ltac:(lia) ltac:(lia)) as Hv.
  pose proof (land_shiftr_range (core_PageMask c) 0x1FFE000 13 12 ltac:(lia) ltac:(lia) ltac:(lia)) as Hm.
  intros odd _. unfold half_ok.
  assert (forall x, is_u32 (u32 x)) as Hu by apply u32_range.
  destruct odd; cbn -[u32 Z.shiftl Z.pow Z.modulo]; rewrite !Z.shiftl_mul_pow2 by lia;
    set (v := Z.shiftr _ 13) in Hv |- *; set (k := Z.shiftr _ 13) in Hm |- *;
    split_and!; try apply Hu; unfold u32; change (2 ^ 12) with 4096; change (2 ^ 13) with 8192;
    change (2 ^ 24) with 16777216; change (2 ^ 19) with 524288 in Hv; Z.div_mod_to_equations; lia.
Qed.

(** Split on the condition of the translation at hand. *)
Ltac split_if E :=
  lazymatch goal with |- (if ?b then _ else _) = _ -> _ => destruct b eqn:E end.

Section Replace.
Context (w : bool) (es : list tlb) (k : nat) (e e' : tlb) (lut : gmap Z Z).
Context (Hk : es !! k = Some e) (Hes : Forall entry_ok es) (He' : entry_ok e').

Lemma old_entry_ok : entry_ok e.
Proof. exact (Forall_lookup_1 _ _ _ _ Hes Hk). Qed.

Lemma new_lookup : <[k := e']> es !! k = Some e'.
Proof. apply list_lookup_insert_eq. exact (lookup_lt_Some _ _ _ Hk). Qed.

(** Every translation after the replacement comes from an entry. *)
Lemma lut_replace_sound : lut_sound w es lut -> lut_sound w (<[k := e']> es) (lut_replace w e e' lut).
Proof.
  intros Hs a pa Ha. unfold lut_replace.
  rewrite map_half_translate by (done || apply He'). split_if E1.
  { apply andb_true_iff in E1 as [[Hu Hh]%andb_true_iff Hr%bool_decide_eq_true]. intros Eq. injection Eq as <-.
    exists k, true, e'. split; [apply new_lookup|]. done. }
  rewrite map_half_translate by (done || apply He'). split_if E2.
  { apply andb_true_iff in E2 as [[Hu Hh]%andb_true_iff Hr%bool_decide_eq_true]. intros Eq. injection Eq as <-.
    exists k, false, e'. split; [apply new_lookup|]. done. }
  rewrite unmap_half_translate by (done || apply old_entry_ok). split_if E3; [done|].
  rewrite unmap_half_translate by (done || apply old_entry_ok). split_if E4; [done|].
  intros Hl. destruct (Hs a pa Ha Hl) as (j & odd & e0 & Hj & Hu & Hh & Hr & Hp).
  exists j, odd, e0. split_and!; try done; try lia. destruct (decide (j = k)) as [->|Hne].
  - rewrite Hk in Hj. injection Hj as <-. destruct odd; [rewrite Hu, bool_decide_eq_true_2 in E3|rewrite Hu, bool_decide_eq_true_2 in E4]; done.
  - by rewrite list_lookup_insert_ne.
Qed.

(** Every mapping is found, when the halves do not overlap. *)
Lemma lut_replace_complete :
  no_overlap es -> no_overlap (<[k := e']> es) -> lut_complete w es lut ->
  lut_complete w (<[k := e']> es) (lut_replace w e e' lut).
Proof.
  intros Hn Hn' Hc a pa Ha (j & odd & e0 & Hj & Hu & Hh & Hr & Hp). unfold lut_replace.
  assert (forall i o e1, <[k := e']> es !! i = Some e1 -> (i, o) <> (j, odd) -> c_true (h_v (half_of o e1)) = true ->
            bool_decide (h_start (half_of o e1) <= a <= h_end (half_of o e1)) = false) as Hx.
  { intros i o e1 Hi Hne Hv. apply bool_decide_eq_false. intros Hr1.
    destruct (Hn' i o e1 j odd e0 Hi Hj Hne Hv (usable_valid _ _ Hu)); lia. }
  assert (forall o, (k, o) <> (j, odd) ->
            usable w (half_of o e') && holdable (half_of o e') &&
              bool_decide (h_start (half_of o e') <= a <= h_end (half_of o e')) = false) as Hy.
  { intros o Hne. destruct (usable w (half_of o e')) eqn:Hu1; [|done].
    rewrite (Hx k o e' new_lookup Hne (usable_valid _ _ Hu1)). apply andb_false_r. }
  rewrite !map_half_translate by (done || apply He'). destruct (decide (j = k)) as [->|Hne].
  - rewrite new_lookup in Hj. injection Hj as <-. destruct odd.
    + by rewrite Hu, Hh, bool_decide_eq_true_2, Hp.
    + rewrite Hy by congruence. by rewrite Hu, Hh, bool_decide_eq_true_2, Hp.
  - rewrite !Hy by congruence. rewrite list_lookup_insert_ne in Hj by done.
    rewrite !unmap_half_translate by (done || apply old_entry_ok).
    assert (forall o, usable w (half_of o e) &&
              bool_decide (h_start (half_of o e) <= a <= h_end (half_of o e)) = false) as Hz.
    { intros o. destruct (usable w (half_of o e)) eqn:Hu1; [|done]. apply bool_decide_eq_false. intros Hr1.
      assert ((k, o) <> (j, odd)) as Hne' by congruence.
      destruct (Hn k o e j odd e0 Hk Hj Hne' (usable_valid _ _ Hu1) (usable_valid _ _ Hu)); lia. }
    rewrite !Hz. apply Hc; [done|]. exists j, odd, e0. done.
Qed.
End Replace.

(** ** Reachable states *)

Section Reachable.
Context {Q : Type} `{EventQueue Q}.
#[local] Abbreviation mach := (machine Q).

(** States reached by the TLB instructions, whatever else changes in between; [P]
    is what the program promises of the entries it writes. *)
Inductive tlb_run (P : list tlb -> Prop) : mach -> Prop :=
| run_start m : tlb_e m = replicate 32 tlb_zero -> tlb_LUT_r m = ∅ -> tlb_LUT_w m = ∅ -> tlb_run P m
| run_write_index m m' : tlb_run P m -> TLBWI m = Ret (tt, m') -> P (tlb_e m') -> tlb_run P m'
| run_write_random m m' : tlb_run P m -> TLBWR m = Ret (tt, m') -> P (tlb_e m') -> tlb_run P m'
| run_read m m' : tlb_run P m -> TLBR m = Ret (tt, m') -> tlb_run P m'
| run_probe m m' : tlb_run P m -> TLBP m = Ret (tt, m') -> tlb_run P m'
| run_other m m' : tlb_run P m -> tlb_e m' = tlb_e m -> tlb_LUT_r m' = tlb_LUT_r m ->
    tlb_LUT_w m' = tlb_LUT_w m -> tlb_run P m'.

(** The parts of the state the invariant is about. *)
Definition tlb_view (m : mach) : list tlb * gmap Z Z * gmap Z Z := (tlb_e m, tlb_LUT_r m, tlb_LUT_w m).

Lemma tlb_write_inv k (m m' : mach) :
  tlb_write k m = Ret (tt, m') -> exists e, tlb_e m !! k = Some e /\
    let e' := new_entry (m_cop0 m) e in
    tlb_view m' = (<[k := e']> (tlb_e m), lut_replace false e e' (tlb_LUT_r m), lut_replace true e e' (tlb_LUT_w m)).
Proof.
  intros E. destruct (tlb_e m !! k) as [e|] eqn:Hk.
  - exists e. split; [done|]. rewrite (tlb_write_ok k e m Hk) in E. by injection E as <-.
  - unfold tlb_write, read_tlb in E. rewrite bind_assoc, bind_get_l, Hk in E. done.
Qed.

(** Either writing instruction is one [tlb_write] from a state with the same TLB. *)
Lemma writes_are_tlb_write (m m' : mach) :
  TLBWI m = Ret (tt, m') \/ TLBWR m = Ret (tt, m') ->
  exists k m0 m1, tlb_view m0 = tlb_view m /\ tlb_write k m0 = Ret (tt, m1) /\ tlb_view m' = tlb_view m1.
Proof.
  unfold TLBWI, TLBWR. intros [E|E].
  - rewrite bind_get_l in E. apply bind_inv in E as ([] & m1 & E1 & E2). injection E2 as <-.
    eexists _, m, m1. done.
  - unfold update_count in E. rewrite bind_modify_l, bind_get_l in E. cbv zeta in E.
    destruct (_ =? 0); [done|]. rewrite bind_modify_l in E.
    apply bind_inv in E as ([] & m1 & E1 & E2). injection E2 as <-.
    eexists _, _, m1. split; [|split; [exact E1|done]]. by destruct (interpcore m).
Qed.

Lemma tlb_view_ok (m m' : mach) : tlb_view m' = tlb_view m -> tlb_ok m -> tlb_ok m'.
Proof. unfold tlb_view. intros [= E1 E2 E3]. unfold tlb_ok. by rewrite E1, E2, E3. Qed.
Lemma tlb_view_exact (m m' : mach) : tlb_view m' = tlb_view m -> tlb_exact m -> tlb_exact m'.
Proof. unfold tlb_view. intros [= E1 E2 E3]. unfold tlb_exact, tlb_ok. by rewrite E1, E2, E3. Qed.

Lemma write_keeps_ok (m m' : mach) : TLBWI m = Ret (tt, m') \/ TLBWR m = Ret (tt, m') -> tlb_ok m -> tlb_ok m'.
Proof.
  intros (k & m0 & m1 & V0 & E & V1)%writes_are_tlb_write Hok.
  apply (tlb_view_ok _ _ V1). apply (tlb_view_ok _ _ V0) in Hok as (He & Hr & Hw).
  apply tlb_write_inv in E as (e & Hk & [= E1 E2 E3]). unfold tlb_ok. rewrite E1, E2, E3.
  pose proof (new_entry_ok (m_cop0 m0) e) as Hn. split; [by apply Forall_insert|].
  split; by apply lut_replace_sound.
Qed.

Lemma write_keeps_exact (m m' : mach) :
  TLBWI m = Ret (tt, m') \/ TLBWR m = Ret (tt, m') -> tlb_exact m -> no_overlap (tlb_e m') -> tlb_exact m'.
Proof.
  intros Hw Hex Hn. split; [by eapply write_keeps_ok; [|apply Hex]|]. split; [done|].
  apply writes_are_tlb_write in Hw as (k & m0 & m1 & V0 & E & V1).
  apply (tlb_view_exact _ _ V0) in Hex as ((He & _) & Hn0 & Hr & Hw0). unfold tlb_view in V1. injection V1 as W1 W2 W3.
  apply tlb_write_inv in E as (e & Hk & [= E1 E2 E3]). rewrite W1, E1 in Hn. rewrite W1, W2, W3, E1, E2, E3.
  pose proof (new_entry_ok (m_cop0 m0) e). split; by apply lut_replace_complete.
Qed.

(** The other instructions do not touch the TLB. *)
Lemma reads_keep_view (m m' : mach) : TLBR m = Ret (tt, m') \/ TLBP m = Ret (tt, m') -> tlb_view m' = tlb_view m.
Proof.
  intros [E|E].
  - unfold TLBR, tlb_read, read_tlb in E. rewrite bind_assoc, bind_get_l, !bind_assoc, bind_get_l in E.
    destruct (tlb_e m !! _); [|done]. by injection E as <-.
  - by injection E as <-.
Qed.

Lemma empty_tlb_invalid k odd e : replicate 32 tlb_zero !! k = Some e -> c_true (h_v (half_of odd e)) = false.
Proof. intros [-> _]%lookup_replicate. by destruct odd. Qed.
Lemma empty_tlb_maps_nothing a w pa : ~ tlb_maps w (replicate 32 tlb_zero) a pa.
Proof. intros (k & odd & e & Hk & Hu & _). apply usable_valid in Hu. by rewrite (empty_tlb_invalid k odd e Hk) in Hu. Qed.

Lemma start_exact (m : mach) :
  tlb_e m = replicate 32 tlb_zero -> tlb_LUT_r m = ∅ -> tlb_LUT_w m = ∅ -> tlb_exact m.
Proof.
  intros E1 E2 E3. unfold tlb_exact, tlb_ok. rewrite E1, E2, E3.
  split_and!.
  - apply Forall_replicate. by intros [].
  - by intros a pa _.
  - by intros a pa _.
  - intros k odd e k' odd' e' Hk _ _ Hv. by rewrite (empty_tlb_invalid k odd e Hk) in Hv.
  - intros a pa _ Hm. by apply empty_tlb_maps_nothing in Hm.
  - intros a pa _ Hm. by apply empty_tlb_maps_nothing in Hm.
Qed.

Lemma tlb_run_ok P (m : mach) : tlb_run P m -> tlb_ok m.
Proof.
  induction 1 as [m E1 E2 E3|m m' _ IH E _|m m' _ IH E _|m m' _ IH E|m m' _ IH E|m m' _ IH E1 E2 E3].
  - by apply start_exact.
  - eapply write_keeps_ok; eauto.
  - eapply write_keeps_ok; eauto.
  - eapply tlb_view_ok; [apply reads_keep_view; eauto|exact IH].
  - eapply tlb_view_ok; [apply reads_keep_view; eauto|exact IH].
  - eapply tlb_view_ok; [|exact IH]. unfold tlb_view. congruence.
Qed.

Lemma tlb_run_exact (m : mach) : tlb_run no_overlap m -> tlb_exact m.
Proof.
  induction 1 as [m E1 E2 E3|m m' _ IH E|m m' _ IH E|m m' _ IH E|m m' _ IH E|m m' _ IH E1 E2 E3].
  - by apply start_exact.
  - eapply write_keeps_exact; eauto.
  - eapply write_keeps_exact; eauto.
  - eapply tlb_view_exact; [apply reads_keep_view; eauto|exact IH].
  - eapply tlb_view_exact; [apply reads_keep_view; eauto|exact IH].
  - eapply tlb_view_exact; [|exact IH]. unfold tlb_view. congruence.
Qed.

(** The GoldenEye special case. *)
Definition special_case (a : Z) (m : mach) : option Z :=
  if (0x7f000000 <=? a) && (a <? 0x80000000) then goldeneye_base (rom_CRC1 m) else None.
Definition ordinary (a : Z) (m : mach) : Prop := special_case a m = None.

Lemma translate_cases a w (m : mach) :
  virtual_to_physical_address a w m =
    match special_case a m with
    | Some base => Ret (u32 (base + Z.land a 0xFFFFFF), m)
    | None => match lut_translate (if w =? 1 then tlb_LUT_w m else tlb_LUT_r m) a with
              | Some pa => Ret (pa, m)
              | None => (TLB_refill_exception a w ;;; ret 0) m
              end
    end.
Proof.
  unfold virtual_to_physical_address. rewrite bind_get_l. fold (special_case a m).
  destruct (special_case a m); [done|]. unfold lut_translate. by destruct (c_true _).
Qed.

Lemma translate_ordinary a w (m : mach) :
  ordinary a m ->
  virtual_to_physical_address a w m =
    match lut_translate (if w =? 1 then tlb_LUT_w m else tlb_LUT_r m) a with
    | Some pa => Ret (pa, m)
    | None => (TLB_refill_exception a w ;;; ret 0) m
    end.
Proof. intros Ho. rewrite translate_cases. by rewrite Ho. Qed.

(** What a translated address stands for. *)
Lemma lut_translate_maps w a pa (m : mach) :
  tlb_ok m -> is_u32 a -> lut_translate (if w =? 1 then tlb_LUT_w m else tlb_LUT_r m) a = Some pa ->
  tlb_maps (w =? 1) (tlb_e m) a pa.
Proof. intros (_ & Sr & Sw) Ha E. destruct (w =? 1); [by apply Sw|by apply Sr]. Qed.

(** The direct-mapped segments past their first 16 MiB cannot be mapped. *)
Lemma maps_outside_segments w a pa (m : mach) :
  tlb_ok m -> tlb_maps w (tlb_e m) a pa ->
  (a < 0x81000000 \/ 0xBF000000 <= a) /\ 0x80000000 <= pa < 0xA1000000.
Proof.
  intros (He & _ & _) (k & odd & e & Hk & Hu & Hh & Hr & ->).
  destruct (Forall_lookup_1 _ _ _ _ He Hk odd (usable_valid _ _ Hu)) as (Hs & Hn & Hp & _ & _ & _ & Hl).
  unfold holdable, mappable in Hh. change (2 ^ 24) with 16777216 in Hl. unfold is_u32 in *. lia.
Qed.
End Reachable.

(** C17.  Address translation implements the TLB: as long as the program keeps the
    valid halves of its entries apart, in every state its TLB instructions reach an
    address maps to what the entry covering it says, for reads and for writes, and
    an address no entry covers raises the refill exception. *)
Theorem translation_refines_tlb {Q} `{EventQueue Q} (m : machine Q) a w :
  tlb_run no_overlap m -> is_u32 a -> ordinary a m ->
  (forall pa, tlb_maps (w =? 1) (tlb_e m) a pa -> virtual_to_physical_address a w m = Ret (pa, m)) /\
  ((forall pa, ~ tlb_maps (w =? 1) (tlb_e m) a pa) ->
     virtual_to_physical_address a w m = (TLB_refill_exception a w ;;; ret 0) m).
Proof.
  intros Hr Ha Ho. pose proof (tlb_run_exact m Hr) as ((_ & Sr & Sw) & _ & Cr & Cw).
  rewrite translate_ordinary by done. split.
  - intros pa Hm. destruct (w =? 1); [by rewrite (Cw a pa Ha Hm)|by rewrite (Cr a pa Ha Hm)].
  - intros Hno. destruct (w =? 1).
    + destruct (lut_translate _ a) as [pa|] eqn:E; [by apply Sw, Hno in E|done].
    + destruct (lut_translate _ a) as [pa|] eqn:E; [by apply Sr, Hno in E|done].
Qed.

(** A page at 0x2000 mapped to 0x100000, for reading. *)
Definition one_page : cop0 :=
  cop0_zero <| core_EntryHi := 0x2000 |> <| core_EntryLo0 := Z.lor (Z.shiftl 0x100 6) 2 |>.

Lemma single_half_no_overlap e n :
  v_odd e = 0 -> no_overlap (e :: replicate n tlb_zero).
Proof.
  intros Ho k odd e1 k' odd' e2 H1 H2 Hne V1 V2. exfalso.
  assert (forall j o x, (e :: replicate n tlb_zero) !! j = Some x -> c_true (h_v (half_of o x)) = true ->
            j = 0%nat /\ o = false) as Hx.
  { intros [|j] o x Hj Hv.
    - injection Hj as <-. destruct o; [|done]. cbn in Hv. by rewrite Ho in Hv.
    - cbn in Hj. apply lookup_replicate in Hj as [-> _]. by destruct o. }
  destruct (Hx k odd e1 H1 V1), (Hx k' odd' e2 H2 V2). by subst.
Qed.

Lemma one_page_run :
  let m := after_tlbwi 0 tlb_zero (machine_with irq_init one_page core_mips_reg_zero) in
  TLBWI (machine_with irq_init one_page core_mips_reg_zero) = Ret (tt, m) /\ tlb_run no_overlap m.
Proof.
  intros m. assert (TLBWI (machine_with irq_init one_page core_mips_reg_zero) = Ret (tt, m)) as Hrun
    by (by apply tlbwi_ok).
  split; [exact Hrun|]. apply (run_write_index _ (machine_with irq_init one_page core_mips_reg_zero)); [by apply run_start|exact Hrun|].
  apply (single_half_no_overlap _ 31). reflexivity.
Qed.

Lemma translation_refines_tlb_witness :
  let m := after_tlbwi 0 tlb_zero (machine_with irq_init one_page core_mips_reg_zero) in
  TLBWI (machine_with irq_init one_page core_mips_reg_zero) = Ret (tt, m) /\
  virtual_to_physical_address 0x2ABC 0 m = Ret (0x80100ABC, m).
Proof.
  intros m. destruct one_page_run as [Hrun Hm]. split; [exact Hrun|].
  assert (ordinary 0x2ABC m) as Ho by reflexivity.
  destruct (translation_refines_tlb m 0x2ABC 0 Hm) as [Ht _]; [unfold is_u32; lia|exact Ho|]. apply Ht.
  exists 0%nat, false, (new_entry one_page tlb_zero). split_and!; try reflexivity; vm_compute; done.
Defined.

(** C18.  Translations are never stale, whatever the program writes into the TLB,
    overlapping entries included: an address that translates is covered by a valid
    half of an entry that is in the TLB now, a dirty one for a write, and the
    physical address is that entry's. *)
Theorem translation_never_stale {Q} `{EventQueue Q} (m m' : machine Q) a w pa :
  tlb_run (fun _ => True) m -> is_u32 a -> ordinary a m ->
  virtual_to_physical_address a w m = Ret (pa, m') -> pa <> 0 ->
  m' = m /\ tlb_maps (w =? 1) (tlb_e m) a pa.
Proof.
  intros Hr Ha Ho. destruct (tlb_run_ok _ m Hr) as (_ & Sr & Sw). rewrite translate_ordinary by done.
  destruct (lut_translate _ a) as [x|] eqn:E; intros Hv Hp.
  - injection Hv as -> <-. split; [done|]. destruct (w =? 1); [by apply Sw|by apply Sr].
  - apply bind_inv in Hv as (u & m1 & _ & Hret). injection Hret as <- <-. done.
Qed.

Lemma tlb_run_weaken {Q} `{EventQueue Q} P (m : machine Q) : tlb_run P m -> tlb_run (fun _ => True) m.
Proof.
  induction 1; [by apply run_start|by eapply run_write_index|by eapply run_write_random|by eapply run_read
    |by eapply run_probe|by eapply run_other].
Qed.

Lemma translation_never_stale_witness :
  let m := after_tlbwi 0 tlb_zero (machine_with irq_init one_page core_mips_reg_zero) in
  virtual_to_physical_address 0x2ABC 0 m = Ret (0x80100ABC, m) /\ tlb_maps false (tlb_e m) 0x2ABC 0x80100ABC.
Proof.
  intros m. destruct one_page_run as [_ Hm].
  assert (ordinary 0x2ABC m) as Ho by reflexivity.
  assert (virtual_to_physical_address 0x2ABC 0 m = Ret (0x80100ABC, m)) as Hv.
  { rewrite translate_ordinary by exact Ho. assert (lut_translate (tlb_LUT_r m) 0x2ABC = Some 0x80100ABC) as E
      by (vm_compute; reflexivity).
    change (0 =? 1) with false. cbv iota. rewrite E. reflexivity. }
  split; [exact Hv|].
  apply (translation_never_stale m m 0x2ABC 0 0x80100ABC (tlb_run_weaken _ _ Hm)); [|exact Ho|exact Hv|];
    [unfold is_u32; lia|lia].
Defined.

(** ** Reading an entry back *)

Lemma shift_back x m k : 0 <= k -> Z.ldiff m (Z.ones k) = m -> Z.shiftl (Z.shiftr (Z.land x m) k) k = Z.land x m.
Proof.
  intros Hk Hm. rewrite <- Z.ldiff_ones_r, Z.ldiff_land, <- Z.land_assoc, <- Z.ldiff_land by done. by rewrite Hm.
Qed.

(** EntryLo as [TLBR] gives it back. *)
Definition entry_lo (lo gbit : Z) : Z := Z.lor (Z.land lo 0x3FFFFFFE) gbit.

Lemma entry_lo_fields lo gbit :
  0 <= gbit <= 1 ->
  u32 (Z.lor (Z.lor (Z.lor (Z.lor (Z.shiftl (Z.shiftr (Z.land lo 0x3FFFFFC0) 6) 6)
         (Z.shiftl (Z.shiftr (Z.land lo 0x38) 3) 3)) (Z.shiftl (Z.shiftr (Z.land lo 0x4) 2) 2))
         (Z.shiftl (Z.shiftr (Z.land lo 0x2) 1) 1)) gbit) = entry_lo lo gbit.
Proof.
  intros Hg. rewrite !shift_back by (lia || reflexivity). rewrite <- !Z.land_lor_distr_r.
  apply u32_id. pose proof (land_le_mask lo 0x3FFFFFFE ltac:(lia)).
  pose proof (lor_bound 32 (Z.land lo 0x3FFFFFFE) gbit) as Hb. apply Hb; lia.
Qed.

Lemma tlb_search_first h i es k e :
  es !! k = Some e -> tlb_matches h e = true ->
  exists j e', (j <= k)%nat /\ es !! j = Some e' /\ tlb_matches h e' = true /\
    tlb_search h i es = Some (i + Z.of_nat j) /\
    forall j' e'', (j' < j)%nat -> es !! j' = Some e'' -> tlb_matches h e'' = false.
Proof.
  revert i k. induction es as [|x es IH]; intros i k Hk Hm; [done|]. cbn [tlb_search].
  destruct (tlb_matches h x) eqn:Ex.
  { exists 0%nat, x. split_and!; try done; [lia|by rewrite Z.add_0_r|lia]. }
  destruct k as [|k]; [injection Hk as ->; congruence|].
  destruct (IH (i + 1) k Hk Hm) as (j & e' & Hj & He & Hm' & Hs & Hf).
  exists (S j), e'. split_and!; try done; [lia|rewrite Hs; f_equal; lia|].
  intros [|j'] e'' Hlt Hl; [injection Hl as <-; done|]. apply (Hf j'); [lia|done].
Qed.

(** The entry just written matches the EntryHi it was written from. *)
Lemma new_entry_matches c e : tlb_matches (core_EntryHi c) (new_entry c e) = true.
Proof. unfold tlb_matches. cbn -[Z.land Z.lnot Z.shiftr]. by rewrite !Z.eqb_refl, orb_true_r. Qed.

(** What [TLBR] puts into the registers. *)
Definition read_back (e : tlb) (c : cop0) : cop0 :=
  c <| core_PageMask := u32 (Z.shiftl (mask e) 13) |>
    <| core_EntryHi := u32 (Z.lor (Z.shiftl (vpn2 e) 13) (asid e)) |>
    <| core_EntryLo0 := u32 (Z.lor (Z.lor (Z.lor (Z.lor (Z.shiftl (pfn_even e) 6) (Z.shiftl (c_even e) 3))
                               (Z.shiftl (d_even e) 2)) (Z.shiftl (v_even e) 1)) (g e)) |>
    <| core_EntryLo1 := u32 (Z.lor (Z.lor (Z.lor (Z.lor (Z.shiftl (pfn_odd e) 6) (Z.shiftl (c_odd e) 3))
                               (Z.shiftl (d_odd e) 2)) (Z.shiftl (v_odd e) 1)) (g e)) |>.

Lemma tlbr_ok {Q} `{EventQueue Q} k e (m : machine Q) :
  Z.to_nat (Z.land (core_Index (m_cop0 m)) 0x1F) = k -> tlb_e m !! k = Some e ->
  TLBR m = Ret (tt, (on_cop0 (read_back e) m) <| interp_addr := u32 (interp_addr m + 4) |>).
Proof. intros <- E. unfold TLBR, tlb_read. rewrite bind_assoc, bind_get_l, bind_assoc, (bind_Ret _ _ _ _ _ (read_tlb_ok _ _ _ E)). reflexivity. Qed.

Lemma tlbp_ok {Q} `{EventQueue Q} (m : machine Q) i :
  tlb_search (core_EntryHi (m_cop0 m)) 0 (tlb_e m) = Some i ->
  TLBP m = Ret (tt, (on_cop0 (fun c => c <| core_Index := i |>) m) <| interp_addr := u32 (interp_addr m + 4) |>).
Proof.
  intros E. unfold TLBP, tlb_probe. rewrite bind_modify_l. unfold on_cop0.
  change (core_EntryHi ((m_cop0 m) <| core_Index := Z.lor (core_Index (m_cop0 m)) 0x80000000 |>))
    with (core_EntryHi (m_cop0 m)). rewrite E. reflexivity.
Qed.

(** The registers after reading back an entry written from [c]. *)
Lemma read_back_new c e c0 :
  let gbit := Z.land (Z.land (core_EntryLo0 c) (core_EntryLo1 c)) 1 in
  core_PageMask (read_back (new_entry c e) c0) = Z.land (core_PageMask c) 0x1FFE000 /\
  core_EntryHi (read_back (new_entry c e) c0) = Z.land (core_EntryHi c) 0xFFFFE0FF /\
  core_EntryLo0 (read_back (new_entry c e) c0) = entry_lo (core_EntryLo0 c) gbit /\
  core_EntryLo1 (read_back (new_entry c e) c0) = entry_lo (core_EntryLo1 c) gbit.
Proof.
  intros gbit. assert (0 <= gbit <= 1) as Hg by (apply land_le_mask; lia). split_and!.
  - change (u32 (Z.shiftl (Z.shiftr (Z.land (core_PageMask c) 0x1FFE000) 13) 13) = Z.land (core_PageMask c) 0x1FFE000).
    rewrite shift_back by (lia || reflexivity). apply u32_id.
    pose proof (land_le_mask (core_PageMask c) 0x1FFE000 ltac:(lia)). unfold is_u32. lia.
  - change (u32 (Z.lor (Z.shiftl (Z.shiftr (Z.land (core_EntryHi c) 0xFFFFE000) 13) 13) (Z.land (core_EntryHi c) 0xFF))
              = Z.land (core_EntryHi c) 0xFFFFE0FF).
    rewrite shift_back, <- Z.land_lor_distr_r by (lia || reflexivity). apply u32_id.
    pose proof (land_le_mask (core_EntryHi c) 0xFFFFE0FF ltac:(lia)). unfold is_u32. lia.
  - exact (entry_lo_fields (core_EntryLo0 c) gbit Hg).
  - exact (entry_lo_fields (core_EntryLo1 c) gbit Hg).
Qed.

(** Entries read back as they were written: [TLBR] after [TLBWI] gives the
    four registers back, reduced to their implemented bits and with the global bit
    the conjunction of both halves'; and [TLBP] after [TLBWI] succeeds, with the
    first entry that matches EntryHi. *)
Theorem tlb_entry_roundtrip {Q} `{EventQueue Q} (m : machine Q) (k : nat) :
  core_Index (m_cop0 m) = Z.of_nat k -> (k < 32)%nat -> length (tlb_e m) = 32%nat ->
  let c := m_cop0 m in
  let gbit := Z.land (Z.land (core_EntryLo0 c) (core_EntryLo1 c)) 1 in
  (exists m', (TLBWI ;;; TLBR) m = Ret (tt, m') /\
     core_PageMask (m_cop0 m') = Z.land (core_PageMask c) 0x1FFE000 /\
     core_EntryHi (m_cop0 m') = Z.land (core_EntryHi c) 0xFFFFE0FF /\
     core_EntryLo0 (m_cop0 m') = entry_lo (core_EntryLo0 c) gbit /\
     core_EntryLo1 (m_cop0 m') = entry_lo (core_EntryLo1 c) gbit) /\
  (exists m' j e, (TLBWI ;;; TLBP) m = Ret (tt, m') /\ core_Index (m_cop0 m') = Z.of_nat j /\ (j <= k)%nat /\
     tlb_e m' !! j = Some e /\ tlb_matches (core_EntryHi c) e = true /\
     forall j' e', (j' < j)%nat -> tlb_e m' !! j' = Some e' -> tlb_matches (core_EntryHi c) e' = false).
Proof.
  intros Hi Hk Hl c gbit.
  assert (forall n, (n = 5 \/ n = 6) -> Z.to_nat (Z.land (core_Index c) (Z.ones n)) = k) as Hn.
  { intros n Hn. unfold c. rewrite Hi, Z.land_ones, Z.mod_small by (destruct Hn as [-> | ->]; lia). lia. }
  destruct (lookup_lt_is_Some_2 (tlb_e m) k) as [e He]; [lia|].
  assert (TLBWI m = Ret (tt, after_tlbwi k e m)) as Hw by (apply tlbwi_ok; [by apply (Hn 6); right|done]).
  destruct (after_tlbwi_view k e m) as [Hv Hc]. fold c in Hc. revert Hw Hv Hc. generalize (after_tlbwi k e m).
  intros m1 Hw Hv Hc. assert (tlb_e m1 !! k = Some (new_entry c e)) as He1
    by (rewrite Hv; apply list_lookup_insert_eq; exact (lookup_lt_Some _ _ _ He)).
  split.
  - eexists. rewrite (bind_Ret _ _ _ _ _ Hw). split.
    + apply (tlbr_ok k (new_entry c e) m1); [rewrite Hc; by apply (Hn 5); left|exact He1].
    + exact (read_back_new c e (m_cop0 m1)).
  - destruct (tlb_search_first (core_EntryHi c) 0 (tlb_e m1) k _ He1 (new_entry_matches c e))
      as (j & e' & Hj & Hje & Hm & Hs & Hf).
    eexists. exists j, e'. rewrite (bind_Ret _ _ _ _ _ Hw). split; [apply tlbp_ok; rewrite Hc; exact Hs|].
    split; [reflexivity|]. split; [exact Hj|]. split; [exact Hje|]. split; [exact Hm|exact Hf].
Qed.

Lemma tlb_entry_roundtrip_witness :
  let m := machine_with irq_init (one_page <| core_Index := 3 |>) core_mips_reg_zero in
  exists m', (TLBWI ;;; TLBR) m = Ret (tt, m') /\ core_EntryHi (m_cop0 m') = 0x2000 /\
    core_EntryLo0 (m_cop0 m') = 0x4002 /\ core_EntryLo1 (m_cop0 m') = 0.
Proof.
  intros m. destruct (tlb_entry_roundtrip m 3) as [(m' & Hrun & _ & H1 & H2 & H3) _]; [reflexivity|by apply Nat.ltb_lt|reflexivity|].
  exists m'. split; [exact Hrun|]. split; [exact H1|]. split; [exact H2|exact H3].
Defined.
