(* ===== verification/Controller.v ===== *)
(** * Controllers (core_plugin.h)

    What is plugged into the four controller ports: read by the movie engine and
    by the PIF. *)

From S2P Require Import Prelude.

#[local] Open Scope Z_scope.

Record core_controller : Set := Controller { Present : bool; RawData : bool; Plugin : Z }.

Definition ce_none : Z := 1.
Definition ce_mempak : Z := 2.
Definition ce_rumblepak : Z := 3.
Definition ce_transferpak : Z := 4.
Definition ce_raw : Z := 5.
