(* ===== verification/DeviceState.v ===== *)
(** * The state of the devices

    Registers of the devices that [Machine] does not have, the memories of the
    cartridge and of the controllers with the files behind them, the state of the
    flash RAM and of the SD card cartridge, and what the devices read of the
    emulator's own state. *)

From S2P Require Import Prelude Controller.

#[local] Open Scope Z_scope.

(** An open file: its length and its bytes. *)
Record file : Set := File { f_len : Z; f_data : gmap Z Z }.

(** RDRAM interface. *)
Record core_rdram_reg : Set := mk_core_rdram_reg {
  rdram_config : Z;
  rdram_device_id : Z;
  rdram_delay : Z;
  rdram_mode : Z;
  rdram_ref_interval : Z;
  rdram_ref_row : Z;
  rdram_ras_interval : Z;
  rdram_min_interval : Z;
  rdram_addr_select : Z;
  rdram_device_manuf : Z;
}.
#[export] Instance core_rdram_reg_eta : Eta core_rdram_reg := fun d =>
  mk_core_rdram_reg (rdram_config d) (rdram_device_id d) (rdram_delay d) (rdram_mode d)
    (rdram_ref_interval d) (rdram_ref_row d) (rdram_ras_interval d) (rdram_min_interval d)
    (rdram_addr_select d) (rdram_device_manuf d).

(** Program counter of the signal processor. *)
Record core_rsp_reg : Set := mk_core_rsp_reg {
  rsp_pc : Z;
  rsp_ibist : Z;
}.
#[export] Instance core_rsp_reg_eta : Eta core_rsp_reg := fun d =>
  mk_core_rsp_reg (rsp_pc d) (rsp_ibist d).

(** Display processor test registers. *)
Record core_dps_reg : Set := mk_core_dps_reg {
  dps_tbist : Z;
  dps_test_mode : Z;
  dps_buftest_addr : Z;
  dps_buftest_data : Z;
}.
#[export] Instance core_dps_reg_eta : Eta core_dps_reg := fun d =>
  mk_core_dps_reg (dps_tbist d) (dps_test_mode d) (dps_buftest_addr d) (dps_buftest_data d).

(** RDRAM controller. *)
Record core_ri_reg : Set := mk_core_ri_reg {
  ri_mode : Z;
  ri_config : Z;
  ri_current_load : Z;
  ri_select : Z;
  ri_refresh : Z;
  ri_latency : Z;
  ri_error : Z;
  ri_werror : Z;
}.
#[export] Instance core_ri_reg_eta : Eta core_ri_reg := fun d =>
  mk_core_ri_reg (ri_mode d) (ri_config d) (ri_current_load d) (ri_select d) (ri_refresh d)
    (ri_latency d) (ri_error d) (ri_werror d).

(** The statics of flashram.cpp; [use_flashram] is 1 when the game uses flash RAM, -1 when it
    uses SRAM. *)
Record flash : Set := mk_flash {
  use_flashram : Z;
  mode : Z;
  status : Z;
  erase_offset : Z;
  write_pointer : Z;
}.
#[export] Instance flash_eta : Eta flash := fun d =>
  mk_flash (use_flashram d) (mode d) (status d) (erase_offset d) (write_pointer d).

(** The SD card cartridge. *)
Record summercart : Set := mk_summercart {
  sc_buffer : gmap Z Z;
  sc_status : Z;
  data0 : Z;
  data1 : Z;
  sd_sector : Z;
  cfg_rom_write : Z;
  sd_byteswap : Z;
  unlock : Z;
  lock_seq : Z;
}.
#[export] Instance summercart_eta : Eta summercart := fun d =>
  mk_summercart (sc_buffer d) (sc_status d) (data0 d) (data1 d) (sd_sector d) (cfg_rom_write d)
    (sd_byteswap d) (unlock d) (lock_seq d).

(** [word] is the global the word stores pass their value in, [trash] the cell behind unused
    register addresses, [lastwrite] the last word written to the cartridge; [mempack] holds the
    four controller paks one after the other. *)
Record devices : Set := mk_devices {
  rdram_register : core_rdram_reg;
  rsp_register : core_rsp_reg;
  dps_register : core_dps_reg;
  ri_register : core_ri_reg;
  word : Z;
  trash : Z;
  lastwrite : Z;
  sram : gmap Z Z;
  flashram : gmap Z Z;
  eeprom : gmap Z Z;
  mempack : gmap Z Z;
  g_sram_file : file;
  g_fram_file : file;
  g_eeprom_file : file;
  g_mpak_file : file;
  sd_image : option file;
  d_flash : flash;
  d_summercart : summercart;
  controls : list core_controller;
  CIC_Chip : Z;
  Country_code : Z;
  is_audio_delay_enabled : bool;
  dma_read_enabled : bool;
  g_st_skip_dma : bool;
  g_st_old : bool;
  g_vr_fast_forward : bool;
  fastforward_silent : bool;
  g_total_frames : Z;
  total_frames : Z;
  controllerRead : Z;
}.
#[export] Instance devices_eta : Eta devices := fun d =>
  mk_devices (rdram_register d) (rsp_register d) (dps_register d) (ri_register d) (word d) (trash d)
    (lastwrite d) (sram d) (flashram d) (eeprom d) (mempack d) (g_sram_file d) (g_fram_file d)
    (g_eeprom_file d) (g_mpak_file d) (sd_image d) (d_flash d) (d_summercart d) (controls d)
    (CIC_Chip d) (Country_code d) (is_audio_delay_enabled d) (dma_read_enabled d) (g_st_skip_dma d)
    (g_st_old d) (g_vr_fast_forward d) (fastforward_silent d) (g_total_frames d) (total_frames d)
    (controllerRead d).

(** Everything zero, no files, no controllers. *)
Definition file_empty : file := File 0 ∅.
Definition summercart_zero : summercart := mk_summercart ∅ 0 0 0 0 0 0 0 0.
Definition devices_zero : devices :=
  mk_devices (mk_core_rdram_reg 0 0 0 0 0 0 0 0 0 0) (mk_core_rsp_reg 0 0) (mk_core_dps_reg 0 0 0 0)
    (mk_core_ri_reg 0 0 0 0 0 0 0 0) 0 0 0 ∅ ∅ ∅ ∅ file_empty file_empty file_empty file_empty None
    (mk_flash 0 0 0 0 0) summercart_zero (replicate 4 (Controller false false ce_none)) 2 0x45
    false true false false false false 0 0 999.
