(* ===== verification/Core.v ===== *)
(** * The processor and its memory

    The state the instructions work on: the general registers, the control state
    of [Machine] and the memories.  The integer instructions run on its registers
    through [on_cpu]; instructions that touch memory go through the interface
    [Bus], one operation per access size as in memory.h. *)

From S2P Require Import Prelude Machine Alu DeviceState.

Open Scope prog_scope.
#[local] Open Scope Z_scope.

(** ** The registers of a larger state *)

Class CpuState (S : Type) := {
  get_cpu : S -> cpu;
  put_cpu : cpu -> S -> S;
  get_llbit : S -> Z;
  put_llbit : Z -> S -> S;
}.

Class CpuLaws (S : Type) `{CpuState S} := {
  get_put_cpu c (s : S) : get_cpu (put_cpu c s) = c;
  put_put_cpu c d (s : S) : put_cpu c (put_cpu d s) = put_cpu c s;
  put_get_cpu (s : S) : put_cpu (get_cpu s) s = s;
}.

Section OnCpu.
Context {S : Type} `{CpuState S}.

Definition on_cpu {A} (c : M cpu A) : M S A := fun s =>
  match c (get_cpu s) with
  | Ret (a, r) => Ret (a, put_cpu r s)
  | Undef f => Undef f
  end.

Definition cpu_now : M S cpu := s <-- get ;;; ret (get_cpu s).
End OnCpu.

(** ** Memory accesses *)

Inductive size : Set := B | H | W | D.

Definition bytes_of (sz : size) : nat := match sz with B => 1 | H => 2 | W => 4 | D => 8 end.
Definition width (sz : size) : Z := Z.of_nat (bytes_of sz).

(** [read_byte_in_memory] and the like: the global [address] afterwards, which a
    translation replaces (by 0 when it fails), and the value stored through
    [rdword], if one was. *)
Class Bus (S : Type) := {
  bus_read : size -> Z -> M S (Z * option Z);
  bus_write : size -> Z -> Z -> M S unit;
}.

(** ** Big-endian memory *)

(** The value of the [n] bytes from [a] on, the first the most significant. *)
Fixpoint be_value (byte : Z -> Z) (a : Z) (n : nat) : Z :=
  match n with
  | O => 0
  | S n => byte a * 256 ^ Z.of_nat n + be_value byte (a + 1) n
  end.

(** Byte [i] of an [n]-byte value. *)
Definition be_byte_of (n : nat) (v : Z) (i : Z) : Z := u8 (Z.shiftr v (8 * (Z.of_nat n - 1 - i))).

(** What a memory promises for the addresses from [lo] to [hi]: aligned accesses
    read and write big-endian values byte by byte, and nothing else. *)
Class BusLaws (S : Type) `{CpuState S} `{Bus S} (lo hi : Z) := {
  mem_ok : S -> Prop;
  mem_byte : S -> Z -> Z;
  mem_byte_range s a : mem_ok s -> is_u8 (mem_byte s a);
  mem_cpu c s : (mem_ok s -> mem_ok (put_cpu c s)) /\ forall a, mem_byte (put_cpu c s) a = mem_byte s a;
  mem_read sz a s :
    mem_ok s -> lo <= a -> a + width sz <= hi -> a mod width sz = 0 ->
    bus_read sz a s = Ret ((a, Some (be_value (mem_byte s) a (bytes_of sz))), s);
  mem_write sz a v s :
    mem_ok s -> lo <= a -> a + width sz <= hi -> a mod width sz = 0 ->
    exists s', bus_write sz a v s = Ret (tt, s') /\ mem_ok s' /\ get_cpu s' = get_cpu s /\
      forall x, lo <= x < hi -> mem_byte s' x =
        if (a <=? x) && (x <? a + width sz) then be_byte_of (bytes_of sz) v (x - a) else mem_byte s x;
}.

(** ** The state *)

(** Coprocessor 1: the control registers, the 32 doublewords the floating-point
    registers live in, and where the pointers [reg_cop1_simple[i]] and
    [reg_cop1_double[i]] point: to a word or to a doubleword of them. *)
Record cop1 : Set := Cop1 {
  FCR0 : Z;
  FCR31 : Z;
  rounding_mode : Z;
  reg_cop1_fgr_64 : list Z;
  reg_cop1_simple : list nat;
  reg_cop1_double : list nat
}.
#[export] Instance cop1_eta : Eta cop1 := fun c =>
  Cop1 (FCR0 c) (FCR31 c) (rounding_mode c) (reg_cop1_fgr_64 c) (reg_cop1_simple c) (reg_cop1_double c).

Record core (Q : Type) : Type := mk_core {
  c_reg : list Z;
  c_hi : Z;
  c_lo : Z;
  c_mach : machine Q;
  c_cop1 : cop1;
  vr_op : Z;
  local_rs : Z;
  local_rt : Z;
  local_rs32 : Z;
  rdram : gmap Z Z;
  SP_MEM : gmap Z Z;
  rom : gmap Z Z;
  rom_size : Z;
  cfg_use_summercart : bool;
  g_vr_beq_ignore_jmp : bool;
  c_dev : devices;
}.
Arguments mk_core {Q}.
Arguments c_reg {Q} _.
Arguments c_hi {Q} _.
Arguments c_lo {Q} _.
Arguments c_mach {Q} _.
Arguments c_cop1 {Q} _.
Arguments vr_op {Q} _.
Arguments local_rs {Q} _.
Arguments local_rt {Q} _.
Arguments local_rs32 {Q} _.
Arguments rdram {Q} _.
Arguments SP_MEM {Q} _.
Arguments rom {Q} _.
Arguments rom_size {Q} _.
Arguments cfg_use_summercart {Q} _.
Arguments g_vr_beq_ignore_jmp {Q} _.
Arguments c_dev {Q} _.
#[export] Instance core_eta Q : Eta (core Q) := fun s =>
  mk_core (c_reg s) (c_hi s) (c_lo s) (c_mach s) (c_cop1 s) (vr_op s) (local_rs s) (local_rt s) (local_rs32 s) (rdram s) (SP_MEM s) (rom s) (rom_size s)
    (cfg_use_summercart s) (g_vr_beq_ignore_jmp s) (c_dev s).

(** [interp_addr] and [stop] are the control state's. *)
#[export] Instance core_cpu Q : CpuState (core Q) := {
  get_cpu s := Cpu (c_reg s) (c_hi s) (c_lo s) (interp_addr (c_mach s)) (stop (c_mach s));
  put_cpu c s := s <| c_reg := reg c |> <| c_hi := hi c |> <| c_lo := lo c |>
                   <| c_mach := (c_mach s) <| interp_addr := pc c |> <| stop := c_stop c |> |>;
  get_llbit s := llbit (c_mach s);
  put_llbit v s := s <| c_mach := (c_mach s) <| llbit := v |> |>;
}.

#[export] Instance core_cpu_laws Q : CpuLaws (core Q).
Proof. split; [by intros []|done|by intros [? ? ? []]]. Qed.

(** Run control code on the control state. *)
Definition on_mach {Q A} (c : M (machine Q) A) : M (core Q) A := fun s =>
  match c (c_mach s) with
  | Ret (a, m) => Ret (a, s <| c_mach := m |>)
  | Undef f => Undef f
  end.
