(* ===== verification/Dma.v ===== *)
(** * Transfers between memories and the flash RAM (dma.cpp, flashram.cpp)

    The peripheral and signal processor transfers, byte by byte as the code does
    them: the memories hold 32-bit words in host order, so byte [i] of the emulated
    memory is byte [i ^ 3] of the array.  An access outside an array is undefined.
    The serial transfers are in [Pif]. *)

From S2P Require Import Prelude Queue Machine Exception Alu DeviceState Core.

Open Scope prog_scope.
#[local] Open Scope Z_scope.

(** [fread(arr, 1, n, f)] and [fwrite(arr, 1, n, f)] at the start of the file. *)
Fixpoint blit (n : nat) (i : Z) (src dst : gmap Z Z) : gmap Z Z :=
  match n with
  | O => dst
  | S n => blit n (i + 1) src (<[i := byte_at src i]> dst)
  end.
Definition fread (n : Z) (f : file) (arr : gmap Z Z) : gmap Z Z := blit (Z.to_nat (Z.min n (f_len f))) 0 (f_data f) arr.
Definition fwrite (n : Z) (arr : gmap Z Z) (f : file) : file :=
  File (Z.max n (f_len f)) (blit (Z.to_nat n) 0 arr (f_data f)).

Section Transfers.
Context {Q : Type} `{EventQueue Q}.
#[local] Abbreviation st := (core Q).
#[local] Abbreviation mach := (machine Q).

(** A byte array of the emulator. *)
Record array : Type := Array { arr_get : st -> gmap Z Z; arr_set : gmap Z Z -> st -> st; arr_len : st -> Z }.

Definition on_dev (g : devices -> devices) (s : st) : st := s <| c_dev := g (c_dev s) |>.

(** With an SD card cartridge 64 MiB are allocated for the ROM. *)
Definition rom_alloc (s : st) : Z :=
  if cfg_use_summercart s && (rom_size s <? 0x4000000) then 0x4000000 else rom_size s.

Definition rdram_array : array := Array rdram (fun m s => s <| rdram := m |>) (fun _ => 0x800000).
Definition sp_array : array := Array SP_MEM (fun m s => s <| SP_MEM := m |>) (fun _ => 0x2000).
Definition rom_array : array := Array rom (fun m s => s <| rom := m |>) rom_alloc.
Definition sram_array : array :=
  Array (fun s => sram (c_dev s)) (fun m => on_dev (fun d => d <| sram := m |>)) (fun _ => 0x8000).
Definition flashram_array : array :=
  Array (fun s => flashram (c_dev s)) (fun m => on_dev (fun d => d <| flashram := m |>)) (fun _ => 0x20000).
Definition sc_array : array :=
  Array (fun s => sc_buffer (d_summercart (c_dev s)))
    (fun m => on_dev (fun d => d <| d_summercart := (d_summercart d) <| sc_buffer := m |> |>)) (fun _ => 0x2000).

Definition in_array (a : array) (i : Z) (s : st) : bool := (0 <=? i) && (i <? arr_len a s).

Definition get_byte (a : array) (i : Z) : M st Z :=
  s <-- get ;;; if in_array a i s then ret (byte_at (arr_get a s) i) else undef OutOfBounds.
Definition put_byte (a : array) (i v : Z) : M st unit :=
  s <-- get ;;;
  if in_array a i s then modify (fun s => arr_set a (<[i := u8 v]> (arr_get a s)) s) else undef OutOfBounds.

(** [for (...; i < i + n; i++) body(i);] *)
Fixpoint for_loop (n : nat) (i : Z) (body : Z -> M st unit) : M st unit :=
  match n with
  | O => ret tt
  | S n => body i ;;; for_loop n (i + 1) body
  end.

(** [dst[(d + i) ^ S8] = src[(s + i) ^ S8]] with 32-bit indices. *)
Definition swapped (off i : Z) : Z := Z.lxor (u32 (off + i)) 3.
Definition copy_byte (dst : array) (d : Z) (src : array) (s i : Z) : M st unit :=
  v <-- get_byte src (swapped s i) ;;; put_byte dst (swapped d i) v.
Definition copy_bytes (n : Z) (dst : array) (d : Z) (src : array) (s : Z) : M st unit :=
  for_loop (Z.to_nat n) 0 (copy_byte dst d src s).

(** [*(uint32_t* )&arr[i] = v] *)
Definition put_word (a : array) (i v : Z) : M st unit :=
  s <-- get ;;;
  if (0 <=? i) && (i + 4 <=? arr_len a s)
  then modify (fun s => arr_set a (store_bytes i (le_split 4 v) (arr_get a s)) s) else undef OutOfBounds.
Definition get_word (a : array) (i : Z) : M st Z :=
  s <-- get ;;;
  if (0 <=? i) && (i + 4 <=? arr_len a s) then ret (le_combine (load_bytes 4 i (arr_get a s))) else undef OutOfBounds.

Definition dev : M st devices := s <-- get ;;; ret (c_dev s).
Definition mod_dev (g : devices -> devices) : M st unit := modify (on_dev g).
Definition mod_flash (g : flash -> flash) : M st unit := mod_dev (fun d => d <| d_flash := g (d_flash d) |>).
Definition mod_mach (g : mach -> mach) : M st unit := on_mach (modify g).
Definition pi_now : M st core_pi_reg := s <-- get ;;; ret (pi_register (c_mach s)).
Definition stop_core : M st unit := mod_mach (fun m => m <| stop := true |>).

(** ** Flash RAM *)

Definition NOPES_MODE : Z := 0.
Definition ERASE_MODE : Z := 1.
Definition WRITE_MODE : Z := 2.
Definition READ_MODE : Z := 3.
Definition STATUS_MODE : Z := 4.

Definition init_flashram : M st unit := mod_flash (fun f => f <| mode := NOPES_MODE |> <| status := 0 |>).

Definition flashram_status (f : flash) : Z := u32 (Z.shiftr (status f) 32).

(** Read the whole flash RAM from the file, work on it, and write it back; the file
    is that of the SRAM. *)
Definition flash_update (work : M st unit) : M st unit :=
  mod_dev (fun d => d <| flashram := fread 0x20000 (g_sram_file d) (flashram d) |>) ;;;
  work ;;;
  mod_dev (fun d => d <| g_sram_file := fwrite 0x20000 (flashram d) (g_sram_file d) |>).

Definition flash_execute : M st unit :=
  d <-- dev ;;;
  let f := d_flash d in
  (if mode f =? NOPES_MODE then ret tt
   else if mode f =? ERASE_MODE then
     flash_update (for_loop 128 (erase_offset f) (fun i => put_byte flashram_array (Z.lxor i 3) 0xff))
   else if mode f =? WRITE_MODE then
     flash_update (copy_bytes 128 flashram_array (erase_offset f) rdram_array (write_pointer f))
   else if mode f =? STATUS_MODE then ret tt
   else stop_core) ;;;
  mod_flash (fun f => f <| mode := NOPES_MODE |>).

Definition flashram_command (command : Z) : M st unit :=
  match Z.land command 0xff000000 with
  | 0x4b000000 => mod_flash (fun f => f <| erase_offset := Z.land command 0xffff * 128 |>)
  | 0x78000000 => mod_flash (fun f => f <| mode := ERASE_MODE |> <| status := 0x1111800800c20000 |>)
  | 0xa5000000 => mod_flash (fun f => f <| erase_offset := Z.land command 0xffff * 128 |> <| status := 0x1111800400c20000 |>)
  | 0xb4000000 => mod_flash (fun f => f <| mode := WRITE_MODE |>)
  | 0xd2000000 => flash_execute
  | 0xe1000000 => mod_flash (fun f => f <| mode := STATUS_MODE |> <| status := 0x1111800100c20000 |>)
  | 0xf0000000 => mod_flash (fun f => f <| mode := READ_MODE |> <| status := 0x11118004f0000000 |>)
  | _ => ret tt
  end.

Definition dma_read_flashram : M st unit :=
  d <-- dev ;;; p <-- pi_now ;;;
  let f := d_flash d in
  if mode f =? STATUS_MODE then
    put_word rdram_array (pi_dram_addr_reg p / 4 * 4) (Z.shiftr (status f) 32) ;;;
    put_word rdram_array ((pi_dram_addr_reg p / 4 + 1) * 4) (status f)
  else if mode f =? READ_MODE then
    mod_dev (fun d => d <| flashram := fread 0x20000 (g_fram_file d) (flashram d) |>) ;;;
    copy_bytes (Z.land (pi_wr_len_reg p) 0x0FFFFFF + 1) rdram_array (pi_dram_addr_reg p)
      flashram_array (Z.land (u32 (pi_cart_addr_reg p - 0x08000000)) 0xFFFF * 2)
  else stop_core.

Definition dma_write_flashram : M st unit :=
  d <-- dev ;;; p <-- pi_now ;;;
  if mode (d_flash d) =? WRITE_MODE then mod_flash (fun f => f <| write_pointer := pi_dram_addr_reg p |>)
  else stop_core.

(** ** Peripheral interface *)

Definition on_pi (g : core_pi_reg -> core_pi_reg) : M st unit :=
  mod_mach (fun m => m <| pi_register := g (pi_register m) |>).

(** The end of every transfer: busy bits and the interrupt event. *)
Definition pi_done (bits delay : Z) : M st unit :=
  on_pi (fun r => r <| read_pi_status_reg := Z.lor (read_pi_status_reg r) bits |>) ;;;
  on_mach (update_count ;;; m <-- get ;;; on_queue (q_add (Count m) PI_INT delay)).

(** The transfers of the SD card cartridge stop at the end of either memory. *)
Fixpoint clamped_copy (n : nat) (i : Z) (dram cart limit : Z) (copy : Z -> Z -> M st unit) : M st unit :=
  match n with
  | O => ret tt
  | S n =>
      let dr := u32 (dram + i) in let ca := u32 (cart + i) in
      if (0x7FFFFF <? dr) || (limit <? ca) then ret tt
      else copy dr ca ;;; clamped_copy n (i + 1) dram cart limit copy
  end.
Definition move_byte (dst : array) (d : Z) (src : array) (s : Z) : M st unit :=
  v <-- get_byte src (Z.lxor s 3) ;;; put_byte dst (Z.lxor d 3) v.

Definition in_sram (p : core_pi_reg) : bool :=
  (0x08000000 <=? pi_cart_addr_reg p) && (pi_cart_addr_reg p <? 0x08010000).
Definition in_sc_buffer (p : core_pi_reg) : bool :=
  (0x1ffe0000 <=? pi_cart_addr_reg p) && (pi_cart_addr_reg p <? 0x1fff0000).
Definition uses_flash (d : devices) : bool := use_flashram (d_flash d) =? 1.
Definition note_sram : M st unit := mod_flash (fun f => f <| use_flashram := -1 |>).

Definition dma_pi_read : M st unit :=
  s <-- get ;;; d <-- dev ;;; p <-- pi_now ;;;
  let longueur := Z.land (pi_rd_len_reg p) 0xFFFFFF + 1 in
  if in_sram p then
    (if uses_flash d then dma_write_flashram
     else
       mod_dev (fun d => d <| sram := fread 0x8000 (g_sram_file d) (sram d) |>) ;;;
       copy_bytes longueur sram_array (u32 (pi_cart_addr_reg p - 0x08000000)) rdram_array (pi_dram_addr_reg p) ;;;
       mod_dev (fun d => d <| g_sram_file := fwrite 0x8000 (sram d) (g_sram_file d) |>) ;;;
       note_sram) ;;;
    pi_done 1 0x1000
  else if cfg_use_summercart s then
    (if in_sc_buffer p then
       clamped_copy (Z.to_nat longueur) 0 (pi_dram_addr_reg p) (pi_cart_addr_reg p - 0x1ffe0000) 0x1FFF
         (fun dr ca => move_byte sc_array ca rdram_array dr)
     else when ((0x10000000 <=? pi_cart_addr_reg p) && (pi_cart_addr_reg p <? 0x14000000) && c_true (cfg_rom_write (d_summercart d)))
       (clamped_copy (Z.to_nat longueur) 0 (pi_dram_addr_reg p) (pi_cart_addr_reg p - 0x10000000) 0x3FFFFFF
          (fun dr ca => move_byte rom_array ca rdram_array dr))) ;;;
    pi_done 1 (longueur / 8)
  else pi_done 1 0x1000.

(** The part of the cartridge a transfer takes: where it starts and how much of it
    fits into the cartridge and into RDRAM. *)
Definition rom_start (p : core_pi_reg) : Z := Z.land (u32 (pi_cart_addr_reg p - 0x10000000)) 0x3FFFFFF.
Definition rom_length (size : Z) (p : core_pi_reg) : Z :=
  let i := rom_start p in
  let longueur := Z.land (pi_wr_len_reg p) 0xFFFFFF + 1 in
  let longueur := if size <? u32 (i + longueur) then u32 (size - i) else longueur in
  if 0x7FFFFF <? u32 (pi_dram_addr_reg p + longueur) then u32 (0x7FFFFF - pi_dram_addr_reg p) else longueur.

Definition rom_byte (src i : Z) : M st Z :=
  d <-- dev ;;; if dma_read_enabled d then get_byte rom_array (swapped src i) else ret 0xFF.

(** The size of RDRAM, where the boot code looks for it. *)
Definition boot_size : M st unit :=
  s <-- get ;;;
  let cic := CIC_Chip (c_dev s) in
  when (u64 (debug_count (c_mach s) + Count (c_mach s)) <? 0x100000)
    (if (cic =? 1) || (cic =? 2) || (cic =? 3) || (cic =? 6) then put_word rdram_array 0x318 0x800000
     else when (cic =? 5) (put_word rdram_array 0x3F0 0x800000)).

Definition dma_pi_write : M st unit :=
  s <-- get ;;; d <-- dev ;;; p <-- pi_now ;;;
  let longueur := Z.land (pi_wr_len_reg p) 0xFFFFFF + 1 in
  if pi_cart_addr_reg p <? 0x10000000 then
    when (in_sram p)
      (if uses_flash d then dma_read_flashram
       else
         mod_dev (fun d => d <| sram := fread 0x8000 (g_sram_file d) (sram d) |>) ;;;
         copy_bytes longueur rdram_array (pi_dram_addr_reg p)
           sram_array (Z.land (u32 (pi_cart_addr_reg p - 0x08000000)) 0xFFFF) ;;;
         note_sram) ;;;
    pi_done 1 0x1000
  else if cfg_use_summercart s && in_sc_buffer p then
    clamped_copy (Z.to_nat longueur) 0 (pi_dram_addr_reg p) (pi_cart_addr_reg p - 0x1ffe0000) 0x1FFF
      (fun dr ca => move_byte rdram_array dr sc_array ca) ;;;
    pi_done 1 (longueur / 8)
  else if 0x1fc00000 <=? pi_cart_addr_reg p then pi_done 1 0x1000
  else
    let i := rom_start p in
    let longueur := rom_length (rom_size s) p in
    if (rom_size s <? i) || (0x7FFFFF <? pi_dram_addr_reg p) then pi_done 3 (longueur / 8)
    else
      for_loop (Z.to_nat longueur) 0 (fun k =>
        v <-- rom_byte i k ;;; put_byte rdram_array (swapped (pi_dram_addr_reg p) k) v) ;;;
      on_mach (notify_code (HCodeWritten (pi_dram_addr_reg p) longueur)) ;;;
      boot_size ;;;
      pi_done 3 (longueur / 8).

(** ** Signal processor *)

Definition sp_now : M st core_sp_reg := s <-- get ;;; ret (sp_register (c_mach s)).

(** [SP_IMEM] is the second half of the array [SP_DMEM]. *)
Definition sp_base (p : core_sp_reg) : Z := if 0 <? Z.land (sp_mem_addr_reg p) 0x1000 then 0x1000 else 0.

Definition dma_sp_write : M st unit :=
  p <-- sp_now ;;;
  for_loop (Z.to_nat (Z.land (sp_rd_len_reg p) 0xFFF + 1)) 0 (fun i =>
    v <-- get_byte rdram_array (Z.lxor (Z.land (sp_dram_addr_reg p) 0xFFFFFF + i) 3) ;;;
    put_byte sp_array (sp_base p + Z.lxor (Z.land (sp_mem_addr_reg p) 0xFFF + i) 3) v).

Definition dma_sp_read : M st unit :=
  p <-- sp_now ;;;
  for_loop (Z.to_nat (Z.land (sp_wr_len_reg p) 0xFFF + 1)) 0 (fun i =>
    v <-- get_byte sp_array (sp_base p + Z.lxor (Z.land (sp_mem_addr_reg p) 0xFFF + i) 3) ;;;
    put_byte rdram_array (Z.lxor (Z.land (sp_dram_addr_reg p) 0xFFFFFF + i) 3) v).

End Transfers.
