(* ===== verification/PifLut.v ===== *)
(** * The answers of the lock-out chip (pif_lut.cpp)

    [g_pif_lut]: for each challenge of sixteen bytes the sixteen bytes of the answer.
    A block of sixteen bytes is written as one number, the first byte the most
    significant; [be_split] gives its bytes. *)

From S2P Require Import Prelude.

#[local] Open Scope Z_scope.

Definition be_split (n : nat) (v : Z) : list Z := rev (le_split n v).

Definition g_pif_lut : list (Z * Z) := [
  (0xEC3CB676B81DBB8F6B3A80ECEDEA5B02, 0x136AF74CDB4FB0DE4540C64AE7730B00);
  (0x00004000100004000100000000000002, 0xBF9FD371C6EC62A8CBF9F9F9F9F9F900);
  (0x01004000100004000100400010000002, 0xB4E62A8CBF9F937176ECA8C637171700);
  (0x02004000100004000100800020000002, 0xB999D371C6EC62A8CBF9717117171700);
  (0x03004000100004000100C00030000002, 0xBEC62A8CBF9F937176EC2A8C55555500);
  (0x04004100100004000100000040000002, 0xB371B4E637171BF9FE6EC6ECA8C6EC00);
  (0x05004100100004000100400050000002, 0xB8C62F9FE6EC62A8CBF93717A8C6EC00);
  (0x06004100100004000100800060000002, 0xBD375A8CBF9F937176ECE6EC4E6EC600);
  (0x07004100100004000100C00070000002, 0xB2A80999EC6ECA8C637137174E6EC600);
  (0x08004200100004000100000080000002, 0xB7175F9FE6EC62A8CBF9F9F971717100);
  (0x09004200100004000100400090000002, 0xBC6E0EC637171BF9FE6E04E6B5555500);
  (0x0A0042001000040001008000A0000002, 0xB1115F9FE6EC62A8CBF971719F9F9F00);
  (0x0B004200100004000100C000B0000002, 0xB6ECA2A8111115555A8C2A8CD3717100);
  (0x0C0043001000040001000000C0000002, 0xBB5598C637171BF9FE6EC6EC2A8C6E00);
  (0x0D0043001000040001004000D0000002, 0xB04EA7176EC6E04E6371BF9FA8C6EC00);
  (0x0E0043001000040001008000E0000002, 0xB55598C637171BF9FE6E4E6E2A8C6E00);
  (0x0F004300100004000100C000F0000002, 0xBA8CA7176EC6E04E63713717C6EC6E00);
  (0x10004400110004000100000000000002, 0x04E62EC63C6ECA8C6371717171717100);
  (0x11004400110004000100400010000002, 0x0999D717637175555A8CA8C637171700);
  (0x12004400110004000100800020000002, 0x0EC62EC63C6ECA8C6371F9F99F9F9F00);
  (0x13004400110004000100C00030000002, 0x0371B371CBF9FD371C6E8C6EBF9F9F00);
  (0x14004500110004000100000040000002, 0x08C62371CBF9FD371C6EC6ECA8C6EC00);
  (0x15004500110004000100400050000002, 0x0D375EC63C6ECA8C6371BF9F2A8C6E00);
  (0x16004500110004000100800060000002, 0x02A80D37637175555A8CE6EC4E6EC600);
  (0x17004500110004000100C00070000002, 0x07175EC63C6ECA8C637137174E6EC600);
  (0x18004600110004000100000080000002, 0x0C6E02A816EC62A8CBF9F9F971717100);
  (0x19004600110004000100400090000002, 0x01115371CBF9FD371C6E04E6B5555500);
  (0x1A0046001100040001008000A0000002, 0x06ECA6ECB4E6E04E6371F9F917171700);
  (0x1B004600110004000100C000B0000002, 0x0B559717637175555A8C2A8CD3717100);
  (0x1C0047001100040001000000C0000002, 0x004EABF9437175555A8C6EC6A8C6EC00);
  (0x1D0047001100040001004000D0000002, 0x05559C6E1C6ECA8C6371BF9FA8C6EC00);
  (0x1E0047001100040001008000E0000002, 0x0A8CABF9437175555A8CE6ECC6EC6E00);
  (0x1F004700110004000100C000F0000002, 0x0F9FD6ECB4E6E04E63713717C6EC6E00);
  (0x20004800120004000100000000000002, 0x5555911168C6E04E6371717171717100);
  (0x21004800120004000100400010000002, 0x5A8CA04EBF9F937176ECA8C637171700);
  (0x22004800120004000100800020000002, 0x5F9FDBF948C6E04E6371F9F99F9F9F00);
  (0x23004800120004000100C00030000002, 0x54E622A81B5559999EC6A8C6D3717100);
  (0x24004900120004000100000040000002, 0x5999D04EBF9F937176EC6EC62A8C6E00);
  (0x25004900120004000100400050000002, 0x5EC6271768C6E04E6371BF9F2A8C6E00);
  (0x26004900120004000100800060000002, 0x5371BC6E117175555A8CE6EC4E6EC600);
  (0x27004900120004000100C00070000002, 0x58C6271768C6E04E637137174E6EC600);
  (0x28004A00120004000100000080000002, 0x5D37571768C6E04E63717171F9F9F900);
  (0x29004A00120004000100400090000002, 0x52A806ECB9999D371C6E04E6B5555500);
  (0x2A004A001200040001008000A0000002, 0x5717571768C6E04E6371F9F917171700);
  (0x2B004A00120004000100C000B0000002, 0x5C6E06ECB9999D371C6E8C6E37171700);
  (0x2C004B001200040001000000C0000002, 0x51115C6E117175555A8C6EC6A8C6EC00);
  (0x2D004B001200040001004000D0000002, 0x56ECAF9FE04E62A8CBF937172A8C6E00);
  (0x2E004B001200040001008000E0000002, 0x5B55904EBF9F937176ECE6ECC6EC6E00);
  (0x2F004B00120004000100C000F0000002, 0x504EAF9FE04E62A8CBF9BF9F4E6EC600);
  (0x30004C00130004000100000000000002, 0xA8C626ECBEC6E04E6371717171717100);
  (0x31004C00130004000100400010000002, 0xAD3751116D371BF9FE6E04E637171700);
  (0x32004C00130004000100800020000002, 0xA2A8004EB4E6E04E6371F9F99F9F9F00);
  (0x33004C00130004000100C00030000002, 0xA71751116D371BF9FE6E8C6EBF9F9F00);
  (0x34004D00130004000100000040000002, 0xAC6E0555A7171BF9FE6EC6ECA8C6EC00);
  (0x35004D00130004000100400050000002, 0xA171B04EB4E6E04E6371BF9F2A8C6E00);
  (0x36004D00130004000100800060000002, 0xA6ECA9F94D371BF9FE6E4E6EA8C6EC00);
  (0x37004D00130004000100C00070000002, 0xABF938C636EC62A8CBF9BF9FC6EC6E00);
  (0x38004E00130004000100000080000002, 0xA04EAE6E16EC62A8CBF9F9F971717100);
  (0x39004E00130004000100400090000002, 0xA5559F9FE55559999EC62A8C37171700);
  (0x3A004E001300040001008000A0000002, 0xAA8CAE6E16EC62A8CBF971719F9F9F00);
  (0x3B004E00130004000100C000B0000002, 0xAF9FD9F94D371BF9FE6E8C6E37171700);
  (0x3C004F001300040001000000C0000002, 0xA4E62555A7171BF9FE6EC6EC2A8C6E00);
  (0x3D004F001300040001004000D0000002, 0xA9F932A8104E62A8CBF937172A8C6E00);
  (0x3E004F001300040001008000E0000002, 0xAE6E0F9FE55559999EC66EC64E6EC600);
  (0x3F004F00130004000100C000F0000002, 0xA371BA8CBEC6E04E63713717C6EC6E00);
  (0x40005000140005000100000000000002, 0xF9F98C6E1BF9F2A8CBF9F9F9F9F9F900);
  (0x41005000140005000100400010000002, 0xFE6E5555AC6ECF9F94E62A8CBF9F9F00);
  (0x42005000140005000100800020000002, 0xF37104E63B555EC6E171F9F99F9F9F00);
  (0x43005000140005000100C00030000002, 0xF8C67171CA8C67171C6E8C6EBF9F9F00);
  (0x44005100140005000100000040000002, 0xFD37AD3762A8CF9F94E6EC6E04E6EC00);
  (0x45005100140005000100400050000002, 0xF2A85A8CB3717A8C6371BF9F2A8C6E00);
  (0x46005100140005000100800060000002, 0xF717AD3762A8CF9F94E66EC6C6EC6E00);
  (0x47005100140005000100C00070000002, 0xFC6E5A8CB3717A8C637137174E6EC600);
  (0x48005200140005000100000080000002, 0xF1710EC63B555EC6E1717171F9F9F900);
  (0x49005200140005000100400090000002, 0xF6ECF371CA8C67171C6E04E6B5555500);
  (0x4A0052001400050001008000A0000002, 0xFBF986ECB3717A8C6371F9F917171700);
  (0x4B005200140005000100C000B0000002, 0xF04EF371CA8C67171C6E8C6E37171700);
  (0x4C0053001400050001000000C0000002, 0xF555EBF942A8CF9F94E6EC6E8C6EC600);
  (0x4D0053001400050001004000D0000002, 0xFA8CF8C63B555EC6E171BF9FA8C6EC00);
  (0x4E0053001400050001008000E0000002, 0xFF9F2999E04E67171C6E4E6E2A8C6E00);
  (0x4F005300140005000100C000F0000002, 0xF4E6704EB9F9F2A8CBF9BF9F4E6EC600);
  (0x50005400150005000100000000000002, 0x4E6E5999E5555EC6E171717171717100);
  (0x51005400150005000100400010000002, 0x437108C6304E67171C6E04E637171700);
  (0x52005400150005000100800020000002, 0x48C67555A1717A8C6371F9F99F9F9F00);
  (0x53005400150005000100C00030000002, 0x4D37AC6E104E67171C6E8C6EBF9F9F00);
  (0x54005500150005000100000040000002, 0x42A85EC6304E67171C6EC6ECA8C6EC00);
  (0x55005500150005000100400050000002, 0x4717A171CF9F98C6E171BF9F2A8C6E00);
  (0x56005500150005000100800060000002, 0x4C6E5EC6304E67171C6E4E6EA8C6EC00);
  (0x57005500150005000100C00070000002, 0x41710D376717104E637137174E6EC600);
  (0x58005600150005000100000080000002, 0x46ECF7176717104E63717171F9F9F900);
  (0x59005600150005000100400090000002, 0x4BF98A8CB8C6E5555A8CA8C6B5555500);
  (0x5A0056001500050001008000A0000002, 0x404EF7176717104E6371F9F917171700);
  (0x5B005600150005000100C000B0000002, 0x4555EA8CB8C6E5555A8C2A8CD3717100);
  (0x5C0057001500050001000000C0000002, 0x4A8CFC6E104E67171C6EC6EC2A8C6E00);
  (0x5D0057001500050001004000D0000002, 0x4F9F2D376717104E6371BF9FA8C6EC00);
  (0x5E0057001500050001008000E0000002, 0x44E674E6304E67171C6E4E6E2A8C6E00);
  (0x5F005700150005000100C000F0000002, 0x49F98F9FEF9F98C6E1713717C6EC6E00);
  (0x60005800160005000100000000000002, 0x9F9F22A81F9F98C6E171717171717100);
  (0x61005800160005000100400010000002, 0x94E679F94C6ECF9F94E62A8CBF9F9F00);
  (0x62005800160005000100800020000002, 0x99F984E635555EC6E171F9F99F9F9F00);
  (0x63005800160005000100C00030000002, 0x9E6E5D376C6ECF9F94E6A8C6D3717100);
  (0x64005900160005000100000040000002, 0x937101116C6ECF9F94E6EC6E04E6EC00);
  (0x65005900160005000100400050000002, 0x98C67E6E15555EC6E171BF9F2A8C6E00);
  (0x66005900160005000100800060000002, 0x9D37A555A6EC67171C6E4E6EA8C6EC00);
  (0x67005900160005000100C00070000002, 0x92A852A81F9F98C6E17137174E6EC600);
  (0x68005A00160005000100000080000002, 0x9717AA8CBD37104E63717171F9F9F900);
  (0x69005A00160005000100400090000002, 0x9C6E57176C6ECF9F94E62A8C37171700);
  (0x6A005A001600050001008000A0000002, 0x917106ECBD37104E6371F9F917171700);
  (0x6B005A00160005000100C000B0000002, 0x96ECFBF94C6ECF9F94E6A8C655555500);
  (0x6C005B001600050001000000C0000002, 0x9BF98371C4E6E5555A8C6EC6A8C6EC00);
  (0x6D005B001600050001004000D0000002, 0x904EF04EB3717A8C6371BF9FA8C6EC00);
  (0x6E005B001600050001008000E0000002, 0x9555E371C4E6E5555A8CE6ECC6EC6E00);
  (0x6F005B00160005000100C000F0000002, 0x9A8CF04EB3717A8C63713717C6EC6E00);
  (0x70005C00170005000100000000000002, 0xE6ECF555ABF9F2A8CBF9F9F9F9F9F900);
  (0x71005C00170005000100400010000002, 0xEB55E8C63A8C67171C6E04E637171700);
  (0x72005C00170005000100800020000002, 0xE04EF555ABF9F2A8CBF9717117171700);
  (0x73005C00170005000100C00030000002, 0xE555E8C63A8C67171C6E8C6EBF9F9F00);
  (0x74005D00170005000100000040000002, 0xEA8CFA8CB2A8CF9F94E6EC6E04E6EC00);
  (0x75005D00170005000100400050000002, 0xEF9F2B55ABF9F2A8CBF93717A8C6EC00);
  (0x76005D00170005000100800060000002, 0xE4E672A814E6E5555A8CE6EC4E6EC600);
  (0x77005D00170005000100C00070000002, 0xE9992B55ABF9F2A8CBF9BF9FC6EC6E00);
  (0x78005E00170005000100000080000002, 0xEEC6771761111A8C63717171F9F9F900);
  (0x79005E00170005000100400090000002, 0xE3710A8CB2A8CF9F94E62A8C37171700);
  (0x7A005E001700050001008000A0000002, 0xE8C6771761111A8C6371F9F917171700);
  (0x7B005E00170005000100C000B0000002, 0xED37AE6E1A8C67171C6E8C6E37171700);
  (0x7C005F001700050001000000C0000002, 0xE2A8504EB8C6E5555A8C6EC6A8C6EC00);
  (0x7D005F001700050001004000D0000002, 0xE717A371C9F9F2A8CBF937172A8C6E00);
  (0x7E005F001700050001008000E0000002, 0xEC6E504EB8C6E5555A8CE6ECC6EC6E00);
  (0x7F005F00170005000100C000F0000002, 0xE111A371C9F9F2ABCBF9BF9F4E6EC600);
  (0x80006000180006000100000000000002, 0x3717F9F946EC6C6ECBF9F9F9F9F9F900);
  (0x81006000180006000100400010000002, 0x3C6EA8C63F9F9D371C6E04E637171700);
  (0x82006000180006000100800020000002, 0x3111F9F946EC6C6ECBF9717117171700);
  (0x83006000180006000100C00030000002, 0x36EC4E6E1F9F9D371C6E8C6EBF9F9F00);
  (0x84006100180006000100000040000002, 0x3B553C6E1F9F9D371C6EC6ECA8C6EC00);
  (0x85006100180006000100400050000002, 0x304E4371CE6EC4E6E171BF9F2A8C6E00);
  (0x86006100180006000100800060000002, 0x35553C6E1F9F9D371C6E4E6EA8C6EC00);
  (0x87006100180006000100C00070000002, 0x3A8C4371CE6EC4E6E17137174E6EC600);
  (0x88006200180006000100000080000002, 0x3F9F7BF946EC6C6ECBF9F9F971717100);
  (0x89006200180006000100400090000002, 0x34E6C04EBD3715555A8CA8C6B5555500);
  (0x8A0062001800060001008000A0000002, 0x39997BF946EC6C6ECBF971719F9F9F00);
  (0x8B006200180006000100C000B0000002, 0x3EC6C04EBD3715555A8C2A8CD3717100);
  (0x8C0063001800060001000000C0000002, 0x337154E63F9F9D371C6EC6EC2A8C6E00);
  (0x8D0063001800060001004000D0000002, 0x38C6C555A04E6C6ECBF937172A8C6E00);
  (0x8E0063001800060001008000E0000002, 0x3D37F8C63F9F9D371C6E4E6E2A8C6E00);
  (0x8F006300180006000100C000F0000002, 0x32A8A71766EC6C6ECBF9BF9F4E6EC600);
  (0x90006400190006000100000000000002, 0x8C6EAC6E14E6EA8C6371717171717100);
  (0x91006400190006000100400010000002, 0x8111FD376B55537176ECA8C637171700);
  (0x92006400190006000100800020000002, 0x86EC42A81EC6EA8C6371F9F99F9F9F00);
  (0x93006400190006000100C00030000002, 0x8B553B55A555537176EC2A8C55555500);
  (0x94006500190006000100000040000002, 0x804E47176B55537176EC6EC62A8C6E00);
  (0x95006500190006000100400050000002, 0x8555304EB2A8C4E6E171BF9F2A8C6E00);
  (0x96006500190006000100800060000002, 0x8A8C47176B55537176ECE6EC4E6EC600);
  (0x97006500190006000100C00070000002, 0x8F9F7A8CBC6EC4E6E17137174E6EC600);
  (0x98006600190006000100000080000002, 0x84E6C4E634E6EA8C63717171F9F9F900);
  (0x99006600190006000100400090000002, 0x89997F9FE3717F9F94E62A8C37171700);
  (0x9A0066001900060001008000A0000002, 0x8EC6C4E634E6EA8C6371F9F917171700);
  (0x9B006600190006000100C000B0000002, 0x83715371C3717F9F94E6A8C655555500);
  (0x9C0067001900060001000000C0000002, 0x88C6C9F94BF9F7171C6EC6EC2A8C6E00);
  (0x9D0067001900060001004000D0000002, 0x8D37FC6E14E6EA8C6371BF9FA8C6EC00);
  (0x9E0067001900060001008000E0000002, 0x82A8ABF94BF9F7171C6E4E6E2A8C6E00);
  (0x9F006700190006000100C000F0000002, 0x8717FC6E14E6EA8C63713717C6EC6E00);
  (0xA00028000A0002000000000000000002, 0xD3711F9F91717BF9F9F9F9F9F9F9F900);
  (0xA10028000A0002000000400010000002, 0xD8C684E6EE6EC04E6EC62A8CBF9F9F00);
  (0xA20028000A0002000000800020000002, 0xDD37B71719F9F3717171F9F99F9F9F00);
  (0xA30028000A0002000000C00030000002, 0xD2A866EC604E68C6EC6E8C6EBF9F9F00);
  (0xA40029000A0002000000000040000002, 0xD717BC6EC8C6E6EC6EC6EC6E04E6EC00);
  (0xA50029000A0002000000400050000002, 0xDC6E6B55571711717171BF9F2A8C6E00);
  (0xA60029000A0002000000800060000002, 0xD17114E6EE6EC04E6EC66EC6C6EC6E00);
  (0xA70029000A0002000000C00070000002, 0xD6EC011113717BF9F9F9BF9FC6EC6E00);
  (0xA8002A000A0002000000000080000002, 0xDBF9917173717BF9F9F9F9F971717100);
  (0xA9002A000A0002000000400090000002, 0xD04E06EC604E68C6EC6E04E6B5555500);
  (0xAA002A000A00020000008000A0000002, 0xD555FBF9FBF9F3717171F9F917171700);
  (0xAB002A000A0002000000C000B0000002, 0xDA8C06EC604E68C6EC6E8C6E37171700);
  (0xAC002B000A00020000000000C0000002, 0xDF9F3EC6EE6EC04E6EC6EC6E8C6EC600);
  (0xAD002B000A00020000004000D0000002, 0xD4E6837173717BF9F9F937172A8C6E00);
  (0xAE002B000A00020000008000E0000002, 0xD9F996EC604E68C6EC6E4E6E2A8C6E00);
  (0xAF002B000A0002000000C000F0000002, 0xDE6E65555717117171713717C6EC6E00);
  (0xB0002C000B0002000000000000000002, 0x2A8C004E65555F9F9F9F9F9F9F9F9F00);
  (0xB1002C000B0002000000400010000002, 0x2F9F337178C6E6EC6EC62A8CBF9F9F00);
  (0xB2002C000B0002000000800020000002, 0x24E688C6E3717BF9F9F9717117171799);
  (0xB3002C000B0002000000C00030000002, 0x2999337178C6E6EC6EC6A8C6D3717100);
  (0xB4002D000B0002000000000040000002, 0x2EC68D371E6EC04E6EC6EC6E04E6EC00);
  (0xB5002D000B0002000000400050000002, 0x237118C6E3717BF9F9F93717A8C6EC00);
  (0xB6002D000B0002000000800060000002, 0x28C68D371E6EC04E6EC66EC6C6EC6E00);
  (0xB7002D000B0002000000C00070000002, 0x2D37B04E65555F9F9F9F55558C6EC600);
  (0xB8002E000B0002000000000080000002, 0x22A864E6E3717BF9F9F9F9F971717100);
  (0xB9002E000B0002000000400090000002, 0x2717B5555C6EC04E6EC62A8C37171700);
  (0xBA002E000B00020000008000A0000002, 0x2C6E64E6E3717BF9F9F971719F9F9F00);
  (0xBB002E000B0002000000C000B0000002, 0x2111BBF9F04E68C6EC6E8C6E37171700);
  (0xBC002F000B00020000000000C0000002, 0x26EC0F9F96EC68C6EC6EC6EC2A8C6E00);
  (0xBD002F000B00020000004000D0000002, 0x2B55F4E6E3717BF9F9F937172A8C6E00);
  (0xBE002F000B00020000008000E0000002, 0x204E0F9F96EC68C6EC6E4E6E2A8C6E00);
  (0xBF002F000B0002000000C000F0000002, 0x2555F4E6E3717BF9F9F9BF9F4E6EC600);
  (0xC00030000C0003000000000000000002, 0x71716EC6E8C6EBF9F9F9F9F9F9F9F900);
  (0xC10030000C0003000000400010000002, 0x76EC55555111104E6EC62A8CBF9F9F00);
  (0xC20030000C0003000000800020000002, 0x7BF9E6EC6A8C6D3717179F9F37171700);
  (0xC30030000C0003000000C00030000002, 0x704E55555111104E6EC6A8C6D3717100);
  (0xC40031000C0003000000000040000002, 0x755543717D3716EC6EC6EC6E04E6EC00);
  (0xC50031000C0003000000400050000002, 0x7A8C5A8C6A8C6D3717175555EC6EC600);
  (0xC60031000C0003000000800060000002, 0x7F9F81111D3716EC6EC66EC6C6EC6E00);
  (0xC70031000C0003000000C00070000002, 0x74E6D8C6E8C6EBF9F9F9BF9FC6EC6E00);
  (0xC80032000C0003000000000080000002, 0x79F9E04E6A8C6D37171717179F9F9F00);
  (0xC90032000C0003000000400090000002, 0x7E6EB999955554E6EC6E04E6B5555500);
  (0xCA0032000C00030000008000A0000002, 0x737168C6E8C6EBF9F9F971719F9F9F00);
  (0xCB0032000C0003000000C000B0000002, 0x78C6DD371371704E6EC6A8C655555500);
  (0xCC0033000C00030000000000C0000002, 0x7D3703717D3716EC6EC6EC6E8C6EC600);
  (0xCD0033000C00030000004000D0000002, 0x72A8B4E6E8C6EBF9F9F937172A8C6E00);
  (0xCE0033000C00030000008000E0000002, 0x771703717D3716EC6EC66EC64E6EC600);
  (0xCF0033000C0003000000C000F0000002, 0x7C6EBEC6E8C6EBF9F9F9BF9F4E6EC600);
  (0xD00034000D0003000000000000000002, 0xC6EC59999A8C6D371717171717171700);
  (0xD10034000D0003000000400010000002, 0xCBF9EA8C6F9F9E6EC6ECA8C637171700);
  (0xD20034000D0003000000800020000002, 0xC04E59999A8C6D3717179F9F37171700);
  (0xD30034000D0003000000C00030000002, 0xC55542A8C71716EC6EC6A8C6D3717100);
  (0xD40035000D0003000000000040000002, 0xCA8C5EC6ED3716EC6EC6EC6E04E6EC00);
  (0xD50035000D0003000000400050000002, 0xCF9F855556EC6D3717175555EC6EC600);
  (0xD60035000D0003000000800060000002, 0xC4E6DC6EC71716EC6EC66EC6C6EC6E00);
  (0xD70035000D0003000000C00070000002, 0xC9F9EF9F904E6D371717D371A8C6EC00);
  (0xD80036000D0003000000000080000002, 0xCE6EBD3718C6EBF9F9F9F9F971717100);
  (0xD90036000D0003000000400090000002, 0xC3716C6EC71716EC6EC62A8C37171700);
  (0xDA0036000D00030000008000A0000002, 0xC8C6D17172A8C5555555D3719F9F9F00);
  (0xDB0036000D0003000000C000B0000002, 0xCD3702A8C71716EC6EC6A8C655555500);
  (0xDC0037000D00030000000000C0000002, 0xC2A8B8C6ED3716EC6EC6EC6E8C6EC600);
  (0xDD0037000D00030000004000D0000002, 0xC717071718C6EBF9F9F937172A8C6E00);
  (0xDE0037000D00030000008000E0000002, 0xCC6EB2A8C71716EC6EC66EC64E6EC600);
  (0xDF0037000D0003000000C000F0000002, 0xC171611112A8C55555551111C6EC6E00);
  (0xE00038000E0003000000000000000002, 0x17170C6ECC6EC5555555555555555500);
  (0xE10038000E0003000000400010000002, 0x1C6EB7171D3716EC6EC62A8CBF9F9F00);
  (0xE20038000E0003000000800020000002, 0x117166EC64E6EBF9F9F9717117171700);
  (0xE30038000E0003000000C00030000002, 0x16EC5D371D3716EC6EC6A8C6D3717100);
  (0xE40039000E0003000000000040000002, 0x1BF9E371771716EC6EC6EC6E04E6EC00);
  (0xE50039000E0003000000400050000002, 0x104E52A8CC6EC555555599992A8C6E00);
  (0xE60039000E0003000000800060000002, 0x15554BF9FF9F9E6EC6ECE6EC4E6EC600);
  (0xE70039000E0003000000C00070000002, 0x1A8C52A8CC6EC555555511114E6EC600);
  (0xE8003A000E0003000000000080000002, 0x1F9F8EC6E2A8C55555555555D3717100);
  (0xE9003A000E0003000000400090000002, 0x14E6D5555B5554E6EC6E04E6B5555500);
  (0xEA003A000E00030000008000A0000002, 0x19F9E8C6E2A8C5555555D3719F9F9F00);
  (0xEB003A000E0003000000C000B0000002, 0x1E6EB111171716EC6EC6A8C655555500);
  (0xEC003B000E00030000000000C0000002, 0x137165555B5554E6EC6EC6EC2A8C6E00);
  (0xED003B000E00030000004000D0000002, 0x18C6DA8C64E6EBF9F9F937172A8C6E00);
  (0xEE003B000E00030000008000E0000002, 0x1D370B555B5554E6EC6E4E6E2A8C6E00);
  (0xEF003B000E0003000000C000F0000002, 0x12A8BC6ECC6EC55555551111C6EC6E00);
  (0xF0003C000F0003000000000000000002, 0x6EC6DF9F9A8C6D371717171717171700);
  (0xF1003C000F0003000000400010000002, 0x63716A8C699998C6EC6E04E637171700);
  (0xF2003C000F0003000000800020000002, 0x68C6DF9F9A8C6D3717179F9F37171700);
  (0xF3003C000F0003000000C00030000002, 0x6D37004E699998C6EC6E8C6EBF9F9F00);
  (0xF4003D000F0003000000000040000002, 0x62A8B6EC699998C6EC6EC6ECA8C6EC00);
  (0xF5003D000F0003000000400050000002, 0x67170555504E6D3717175555EC6EC600);
  (0xF6003D000F0003000000800060000002, 0x6C6EB04E699998C6EC6E4E6EA8C6EC00);
  (0xF7003D000F0003000000C00070000002, 0x61110555504E6D371717D371A8C6EC00);
  (0xF8003E000F0003000000000080000002, 0x66EC5B55504E6D37171717179F9F9F00);
  (0xF9003E000F0003000000400090000002, 0x6B5544E6E71716EC6EC62A8C37171700);
  (0xFA003E000F00030000008000A0000002, 0x604E5B55504E6D3717179F9FBF9F9F00);
  (0xFB003E000F0003000000C000B0000002, 0x655544E6E71716EC6EC6A8C655555500);
  (0xFC003F000F00030000000000C0000002, 0x6A8C504E699998C6EC6EC6EC2A8C6E00);
  (0xFD003F000F00030000004000D0000002, 0x6F9F871712A8C55555559999A8C6EC00);
  (0xFE003F000F00030000008000E0000002, 0x64E6DE6EC171704E6EC66EC64E6EC600);
  (0xFF003F000F0003000000C000F0000002, 0x6999871712A8C55555551111C6EC6E00);
  (0xA00068001A0006000100000000000002, 0xD3715D37604E6C6ECBF9F9F9F9F9F900);
  (0xA10068001A0006000100400010000002, 0xD8C6CE6E19F9F7171C6E04E637171700);
  (0xA20068001A0006000100800020000002, 0xDD37F171C8C6EA8C6371F9F99F9F9F00);
  (0xA30068001A0006000100C00030000002, 0xD2A8A04EB71715555A8C2A8C55555500);
  (0xA40069001A0006000100000040000002, 0xD717F6ECB1111F9F94E6EC6E04E6EC00);
  (0xA50069001A0006000100400050000002, 0xDC6EA555AA8C6C6ECBF93717A8C6EC00);
  (0xA60069001A0006000100800060000002, 0xD17152A813717F9F94E66EC6C6EC6E00);
  (0xA70069001A0006000100C00070000002, 0xD6EC4BF9404E6C6ECBF9BF9FC6EC6E00);
  (0xA8006A001A0006000100000080000002, 0xDBF9D555AA8C6C6ECBF9F9F971717100);
  (0xA9006A001A0006000100400090000002, 0xD04E404EB71715555A8CA8C6B5555500);
  (0xAA006A001A00060001008000A0000002, 0xD5553999EE6EC4E6E171F9F917171700);
  (0xAA006A001A00060001008000A0000002, 0xD5553999EE6EC4E6E171F9F917171700)
].
