(* ===== verification/Pif.v ===== *)
(** * The peripheral interface processor (pif.cpp, the serial transfers of dma.cpp)

    The 64 bytes of PIF RAM hold a sequence of commands to the controllers, their
    paks and the EEPROM.  A command is a pointer into PIF RAM, here its offset;
    indexing past the 64 bytes is undefined.  Polling a controller executes the
    cheats and asks the movie engine for the sample; that, the input plugin, and
    waiting while the emulator is paused are the operations of [PifHost]. *)

From S2P Require Import Prelude Controller Queue Machine Exception Alu DeviceState Core Dma PifLut.

Open Scope prog_scope.
#[local] Open Scope Z_scope.

Class PifHost (Q : Type) := {
  (** [cht_execute(); vcr_on_controller_poll(control, &input);], giving [input.value] *)
  controller_poll : Z -> M (core Q) Z;
  (** the input plugin, with the offset of the command, or none *)
  input_controller_command : Z -> option Z -> M (core Q) unit;
  input_read_controller : Z -> option Z -> M (core Q) unit;
  has_controller_command : bool;
  (** [callbacks.input] on the sample at an offset *)
  input_callback : Z -> Z -> M (core Q) unit;
  (** [core_vcr_get_task() == task_idle] *)
  vcr_idle : M (core Q) bool;
  (** [emu_paused], [g_wait_counter] *)
  paused_now : M (core Q) bool;
  wait_counter : M (core Q) Z;
  pause_emu : M (core Q) unit;
  (** the loops that wait for [g_wait_counter] and [emu_paused], working on
      savestates when allowed *)
  wait_until_resumed : bool -> M (core Q) unit;
  st_do_work : M (core Q) unit;
}.

(** ** The checksum of a controller pak block *)

Definition crc_bit (CRC : Z) (bit : bool) : Z :=
  let xor_tap := if has_bits CRC 0x80 then 0x85 else 0x00 in
  let CRC := u8 (Z.shiftl CRC 1) in
  let CRC := if bit then Z.lor CRC 1 else CRC in
  Z.lxor CRC xor_tap.

(** The bits of a byte under the masks 0x80 down to 1. *)
Definition masks : list Z := [0x80; 0x40; 0x20; 0x10; 8; 4; 2; 1].
Definition crc_byte (CRC byte : Z) : Z := fold_left (fun c mask => crc_bit c (has_bits byte mask)) masks CRC.

Definition mempack_crc (data : list Z) : Z := crc_byte (fold_left crc_byte (take 0x20 data) 0) 0.

(** The first block of a fresh controller pak, and the pages of the four paks. *)
Definition id_block : list Z :=
  [0xff; 0xff; 0xff; 0xff; 0x05; 0x1a; 0x5f; 0x13; 0; 0; 0; 0; 0; 0; 0; 0;
   0xff; 0xff; 0xff; 0xff; 0xff; 0xff; 0xff; 0xff; 0xff; 0xff; 0x01; 0xff; 0x66; 0x25; 0x99; 0xcd].
Definition mempack_init : list Z :=
  0x81 :: seqZ 1 31 ++ id_block ++ replicate 32 0 ++ id_block ++ id_block ++ replicate 32 0 ++ id_block ++
  replicate 32 0 ++ [0; 0x71; 0; 3; 0; 3; 0; 3; 0; 3; 0; 3; 0; 3; 0; 3].

(** [mempack[i][j] = 0; mempack[i][j + 1] = 3;] for even [j]. *)
Fixpoint fill_pages (n : nat) (j : Z) (m : gmap Z Z) : gmap Z Z :=
  match n with
  | O => m
  | S n => fill_pages n (j + 2) (<[j + 1 := 3]> (<[j := 0]> m))
  end.
Definition format_mempacks (m : gmap Z Z) : gmap Z Z :=
  fold_left (fun m i => store_bytes (i * 0x8000) mempack_init (fill_pages (Z.to_nat 0x4000) (i * 0x8000) m)) [0; 1; 2; 3] m.

Section Pif.
Context {Q : Type} `{EventQueue Q} `{PifHost Q}.
#[local] Abbreviation st := (core Q).

(** ** PIF RAM *)

Definition pif (k : Z) : M st Z :=
  s <-- get ;;;
  match PIF_RAMb (c_mach s) !! Z.to_nat k with
  | Some b => if 0 <=? k then ret b else undef OutOfBounds
  | None => undef OutOfBounds
  end.
Definition set_pif (k v : Z) : M st unit :=
  s <-- get ;;;
  if (0 <=? k) && (Z.to_nat k <? length (PIF_RAMb (c_mach s)))%nat
  then mod_mach (fun m => m <| PIF_RAMb := <[Z.to_nat k := u8 v]> (PIF_RAMb m) |>)
  else undef OutOfBounds.

(** [memcpy] out of and into PIF RAM. *)
Fixpoint pif_bytes (n : nat) (k : Z) : M st (list Z) :=
  match n with
  | O => ret []
  | S n => b <-- pif k ;;; l <-- pif_bytes n (k + 1) ;;; ret (b :: l)
  end.
Fixpoint set_pif_bytes (k : Z) (l : list Z) : M st unit :=
  match l with
  | [] => ret tt
  | b :: l => set_pif k b ;;; set_pif_bytes (k + 1) l
  end.

Definition or_pif (k bits : Z) : M st unit := b <-- pif k ;;; set_pif k (Z.lor b bits).

(** ** EEPROM *)

Definition load_eeprom : M st unit := mod_dev (fun d => d <| eeprom := fread 0x800 (g_eeprom_file d) (eeprom d) |>).

Definition EepromCommand (c : Z) : M st unit :=
  cmd <-- pif (c + 2) ;;;
  match cmd with
  | 0 =>
      len <-- pif (c + 1) ;;;
      if negb (len =? 3) then
        or_pif (c + 1) 0x40 ;;;
        len <-- pif (c + 1) ;;;
        when (0 <? Z.land len 3) (set_pif (c + 3) 0) ;;;
        when (1 <? Z.land len 3) (set_pif (c + 4) 0x80) ;;;
        when (2 <? Z.land len 3) (set_pif (c + 5) 0)
      else set_pif (c + 3) 0 ;;; set_pif (c + 4) 0x80 ;;; set_pif (c + 5) 0
  | 4 =>
      load_eeprom ;;;
      block <-- pif (c + 3) ;;;
      d <-- dev ;;; set_pif_bytes (c + 4) (load_bytes 8 (block * 8) (eeprom d))
  | 5 =>
      load_eeprom ;;;
      block <-- pif (c + 3) ;;;
      data <-- pif_bytes 8 (c + 4) ;;;
      mod_dev (fun d => d <| eeprom := store_bytes (block * 8) data (eeprom d) |>) ;;;
      mod_dev (fun d => d <| g_eeprom_file := fwrite 0x800 (eeprom d) (g_eeprom_file d) |>)
  | _ => ret tt
  end.

(** ** Controllers and controller paks *)

(** [controls[Control]]; there are four. *)
Definition control (k : Z) : M st core_controller :=
  d <-- dev ;;; match controls d !! Z.to_nat k with Some c => ret c | None => undef OutOfBounds end.

Definition load_mempacks : M st unit := mod_dev (fun d => d <| mempack := fread 0x20000 (g_mpak_file d) (mempack d) |>).

Definition put_crc (c : Z) : M st unit := data <-- pif_bytes 0x20 (c + 5) ;;; set_pif (c + 0x25) (mempack_crc data).

(** The address of a pak command. *)
Definition pak_address (c : Z) : M st Z :=
  h <-- pif (c + 3) ;;; l <-- pif (c + 4) ;;; ret (Z.lor (Z.shiftl h 8) l).

Definition read_mempak (k c : Z) : M st unit :=
  a <-- pak_address c ;;;
  if a =? 0x8001 then set_pif_bytes (c + 5) (replicate 0x20 0) ;;; put_crc c
  else
    let a := Z.land a 0xFFE0 in
    (if a <=? 0x7FE0 then
       load_mempacks ;;;
       d <-- dev ;;; set_pif_bytes (c + 5) (load_bytes 0x20 (k * 0x8000 + a) (mempack d))
     else set_pif_bytes (c + 5) (replicate 0x20 0)) ;;;
    put_crc c.

Definition write_mempak (k c : Z) : M st unit :=
  a <-- pak_address c ;;;
  if a =? 0x8001 then put_crc c
  else
    let a := Z.land a 0xFFE0 in
    when (a <=? 0x7FE0)
      (load_mempacks ;;;
       data <-- pif_bytes 0x20 (c + 5) ;;;
       mod_dev (fun d => d <| mempack := store_bytes (k * 0x8000 + a) data (mempack d) |>) ;;;
       mod_dev (fun d => d <| g_mpak_file := fwrite 0x20000 (mempack d) (g_mpak_file d) |>)) ;;;
    put_crc c.

Definition raw_command (k c : Z) : M st unit := when has_controller_command (input_controller_command k (Some c)).

Definition internal_ControllerCommand (k c : Z) : M st unit :=
  cmd <-- pif (c + 2) ;;;
  match cmd with
  | 0x00 | 0xFF =>
      len <-- pif (c + 1) ;;;
      if has_bits len 0x80 then ret tt
      else
        p <-- control k ;;;
        if Present p then
          set_pif (c + 3) 0x05 ;;; set_pif (c + 4) 0x00 ;;;
          set_pif (c + 5) (if (Plugin p =? ce_mempak) || (Plugin p =? ce_raw) then 1 else 0)
        else or_pif (c + 1) 0x80
  | 0x01 => p <-- control k ;;; if Present p then ret tt else or_pif (c + 1) 0x80
  | 0x02 =>
      p <-- control k ;;;
      if Present p then
        if Plugin p =? ce_mempak then read_mempak k c
        else if Plugin p =? ce_raw then raw_command k c
        else set_pif_bytes (c + 5) (replicate 0x20 0) ;;; set_pif (c + 0x25) 0
      else or_pif (c + 1) 0x80
  | 0x03 =>
      p <-- control k ;;;
      if Present p then
        if Plugin p =? ce_mempak then write_mempak k c
        else if Plugin p =? ce_raw then raw_command k c
        else put_crc c
      else or_pif (c + 1) 0x80
  | _ => ret tt
  end.

Definition internal_ReadController (k c : Z) : M st unit :=
  cmd <-- pif (c + 2) ;;;
  match cmd with
  | 1 =>
      p <-- control k ;;;
      when (Present p)
        (mod_mach (fun m => m <| lag_count := 0 |>) ;;;
         value <-- controller_poll k ;;;
         set_pif_bytes (c + 3) (le_split 4 value))
  | 2 | 3 =>
      p <-- control k ;;;
      when (Present p && (Plugin p =? ce_raw) && has_controller_command) (input_read_controller k (Some c))
  | _ => ret tt
  end.

(** ** The command loops *)

(** The offset of the next command behind the one at [i]. *)
Definition command_end (i : Z) : M st Z :=
  tx <-- pif i ;;; rx <-- pif (i + 1) ;;; ret (i + tx + Z.land rx 0x3F + 1).

Definition first_answer (challenge : list Z) : option (list Z) :=
  option_map (fun r => be_split 16 r.2) (List.find (fun r => bool_decide (challenge = be_split 16 r.1)) g_pif_lut).

(** Commands in the last byte other than to run the sequence. *)
Definition pif_special (b : Z) : M st unit :=
  match b with
  | 0x02 =>
      challenge <-- pif_bytes 16 48 ;;;
      match first_answer challenge with Some answer => set_pif_bytes 48 answer | None => ret tt end
  | 0x08 => set_pif 0x3F 0
  | _ => ret tt
  end.

Definition run_command (channel i : Z) : M st unit :=
  if channel <? 4 then
    p <-- control channel ;;;
    if Present p && RawData p then input_controller_command channel (Some i)
    else internal_ControllerCommand channel i
  else when (channel =? 4) (EepromCommand i).

(** The loops over PIF RAM; [i] grows with every round, so [fuel] 64 is enough. *)
Fixpoint write_loop (fuel : nat) (i channel : Z) : M st unit :=
  if 0x40 <=? i then ret tt
  else match fuel with
  | O => undef Diverges
  | S fuel =>
      b <-- pif i ;;;
      if b =? 0x00 then
        if 6 <? channel + 1 then ret tt else write_loop fuel (i + 1) (channel + 1)
      else if b =? 0xFF then write_loop fuel (i + 1) channel
      else if negb (has_bits b 0xC0) then
        run_command channel i ;;;
        e <-- command_end i ;;;
        write_loop fuel (e + 1) (channel + 1)
      else ret tt
  end.

Definition update_pif_write : M st unit :=
  b <-- pif 0x3F ;;;
  if 1 <? b then pif_special b
  else write_loop 64 0 0 ;;; input_controller_command (-1) None.

(** Before the first controller of a frame is read: pause there when the user
    advances frame by frame. *)
Definition frame_pause (stAllowed : bool) : M st unit :=
  w <-- wait_counter ;;;
  s <-- get ;;;
  let outstanding := frame_advance_outstanding (c_mach s) in
  when (w =? 0)
    (if outstanding =? 1 then
       mod_mach (fun m => m <| frame_advance_outstanding := outstanding - 1 |>) ;;; pause_emu
     else when (1 <? outstanding) (mod_mach (fun m => m <| frame_advance_outstanding := outstanding - 1 |>))) ;;;
  wait_until_resumed stAllowed.

(** Read one controller; the result says whether the loop goes on and what is left
    of [once]. *)
Definition read_controller (channel i : Z) (once stAllowed : bool) : M st (bool * bool) :=
  d <-- dev ;;;
  cmd <-- pif (i + 2) ;;;
  let pause := once && (channel <=? controllerRead d) && (cmd =? 1) in
  when pause (frame_pause stAllowed) ;;;
  let once := once && negb pause in
  when stAllowed st_do_work ;;;
  d <-- dev ;;;
  if g_st_old d then mod_dev (fun d => d <| g_st_old := false |>) ;;; ret (false, once)
  else
    mod_dev (fun d => d <| controllerRead := channel |>) ;;;
    p <-- control channel ;;;
    raw <-- (if Present p && RawData p then vcr_idle else ret false) ;;;
    (if raw : bool then input_read_controller channel (Some i) ;;; input_callback channel (i + 3)
     else internal_ReadController channel i) ;;;
    ret (true, once).

Fixpoint read_loop (fuel : nat) (i channel : Z) (once stAllowed : bool) : M st bool :=
  if 0x40 <=? i then ret true
  else match fuel with
  | O => undef Diverges
  | S fuel =>
      b <-- pif i ;;;
      if b =? 0x00 then
        if 6 <? channel + 1 then ret true else read_loop fuel (i + 1) (channel + 1) once stAllowed
      else if b =? 0xFE then ret true
      else if (b =? 0xFF) || (b =? 0xB4) || (b =? 0x56) || (b =? 0xB8) then read_loop fuel (i + 1) channel once stAllowed
      else if negb (has_bits b 0xC0) then
        r <-- (if channel <? 4 then read_controller channel i once stAllowed else ret (true, once)) ;;;
        if negb r.1 then ret false
        else
          e <-- command_end i ;;;
          read_loop fuel (e + 1) (channel + 1) r.2 (stAllowed && negb (channel <? 4))
      else ret true
  end.

Definition update_pif_read : M st unit :=
  paused <-- paused_now ;;;
  w <-- wait_counter ;;;
  s <-- get ;;;
  let once := paused || (0 <? frame_advance_outstanding (c_mach s)) || c_true w in
  go <-- read_loop 64 0 0 once true ;;;
  when go (input_read_controller (-1) None).

(** ** Serial transfers *)

Definition si_now : M st core_si_reg := s <-- get ;;; ret (si_register (c_mach s)).

(** The test compares a word index with the size of RDRAM in bytes. *)
Definition check_register_validity (r : core_si_reg) : bool := negb (0x800000 <? si_dram_addr r / 4 + 16).

Definition si_done : M st unit := on_mach (update_count ;;; m <-- get ;;; on_queue (q_add (Count m) SI_INT 0x900)).

Definition dma_si_write : M st unit :=
  r <-- si_now ;;;
  when (negb (si_pif_addr_wr64b r =? 0x1FC007C0)) stop_core ;;;
  if negb (check_register_validity r) then stop_core
  else
    for_loop 16 0 (fun i =>
      w <-- get_word rdram_array ((si_dram_addr r / 4 + i) * 4) ;;; set_pif_bytes (4 * i) (le_split 4 (sl w))) ;;;
    update_pif_write ;;;
    si_done.

Definition dma_si_read : M st unit :=
  r <-- si_now ;;;
  when (negb (si_pif_addr_rd64b r =? 0x1FC007C0)) stop_core ;;;
  update_pif_read ;;;
  r <-- si_now ;;;
  if negb (check_register_validity r) then stop_core
  else
    for_loop 16 0 (fun i =>
      w <-- pif_bytes 4 (4 * i) ;;; put_word rdram_array ((si_dram_addr r / 4 + i) * 4) (sl (le_combine w))) ;;;
    d <-- dev ;;;
    when (negb (g_st_skip_dma d)) si_done ;;;
    mod_dev (fun d => d <| g_st_skip_dma := false |>).

End Pif.
