(* ===== verification/SaveFormat.v ===== *)
(** * The memory images of savestates

    A savestate is the bytes of the emulator's variables one after the other.  Here
    are the layouts of the structures it contains (core_types.h, tlb.h, flashram.cpp),
    [memread] and [vecwrite] (IOHelpers.cpp), and that reading what was written gives
    back the values of a structure. *)

From S2P Require Import Prelude Machine DeviceState.

Open Scope prog_scope.
#[local] Open Scope Z_scope.

(** ** Structures *)

(** The members of a structure in the order of memory: integers of some bytes, and
    the bytes the compiler leaves unused. *)
Inductive ctype : Set := UInt (n : nat) | SInt (n : nat) | Pad (n : nat).

Definition type_size (t : ctype) : nat := match t with UInt n | SInt n | Pad n => n end.
Definition sizeof (ts : list ctype) : nat := foldr (fun t n => type_size t + n)%nat O ts.

Definition signed (n : nat) (v : Z) : Z :=
  if 2 ^ (8 * Z.of_nat n - 1) <=? v then v - 2 ^ (8 * Z.of_nat n) else v.

(** The bytes of a structure with the members [vs]; [junk] is in the unused ones. *)
Fixpoint save_cells (junk : nat -> Z) (ts : list ctype) (vs : list Z) : list Z :=
  match ts, vs with
  | Pad n :: ts, vs => replicate n (junk (length ts)) ++ save_cells junk ts vs
  | (UInt n | SInt n) :: ts, v :: vs => le_split n v ++ save_cells junk ts vs
  | _, _ => []
  end.

Fixpoint load_cells (ts : list ctype) (l : list Z) : list Z :=
  match ts with
  | [] => []
  | Pad n :: ts => load_cells ts (drop n l)
  | UInt n :: ts => le_combine (take n l) :: load_cells ts (drop n l)
  | SInt n :: ts => signed n (le_combine (take n l)) :: load_cells ts (drop n l)
  end.

(** The members have values of their types. *)
Fixpoint cells_ok (ts : list ctype) (vs : list Z) : Prop :=
  match ts, vs with
  | [], [] => True
  | Pad _ :: ts, vs => cells_ok ts vs
  | UInt n :: ts, v :: vs => 0 <= v < 2 ^ (8 * Z.of_nat n) /\ cells_ok ts vs
  | SInt n :: ts, v :: vs =>
      - 2 ^ (8 * Z.of_nat n - 1) <= v < 2 ^ (8 * Z.of_nat n - 1) /\ (0 < n)%nat /\ cells_ok ts vs
  | _, _ => False
  end.

Class Struct (R : Type) := {
  layout : list ctype;
  cells : R -> list Z;
  of_cells : list Z -> R;
}.

Class StructLaws (R : Type) `{Struct R} := { of_cells_cells (r : R) : of_cells (cells r) = r }.

Definition typed {R} `{Struct R} (r : R) : Prop := cells_ok (layout (R := R)) (cells r).

(** ** The structures of a savestate *)

Definition u32s (n : nat) : list ctype := replicate n (UInt 4).
Definition chars (n : nat) : list ctype := replicate n (SInt 1).

#[export] Instance rdram_struct : Struct core_rdram_reg := {
  layout := u32s 10;
  cells r := [rdram_config r; rdram_device_id r; rdram_delay r; rdram_mode r; rdram_ref_interval r; rdram_ref_row r;
    rdram_ras_interval r; rdram_min_interval r; rdram_addr_select r; rdram_device_manuf r];
  of_cells l := match l with
    | [a; b; c; d; e; f; g; h; i; j] => mk_core_rdram_reg a b c d e f g h i j
    | _ => mk_core_rdram_reg 0 0 0 0 0 0 0 0 0 0
    end;
}.

#[export] Instance mips_struct : Struct core_mips_reg := {
  layout := u32s 2 ++ chars 4 ++ u32s 4 ++ chars 6 ++ [Pad 2];
  cells r := [w_mi_init_mode_reg r; mi_init_mode_reg r; init_length r; init_mode r; ebus_test_mode r; RDRAM_reg_mode r;
    mi_version_reg r; mi_intr_reg r; mi_intr_mask_reg r; w_mi_intr_mask_reg r; SP_intr_mask r; SI_intr_mask r;
    AI_intr_mask r; VI_intr_mask r; PI_intr_mask r; DP_intr_mask r];
  of_cells l := match l with
    | [a; b; c; d; e; f; g; h; i; j; k; l; m; n; o; p] => mk_core_mips_reg a b c d e f g h i j k l m n o p
    | _ => core_mips_reg_zero
    end;
}.

#[export] Instance pi_struct : Struct core_pi_reg := {
  layout := u32s 13;
  cells r := [pi_dram_addr_reg r; pi_cart_addr_reg r; pi_rd_len_reg r; pi_wr_len_reg r; read_pi_status_reg r;
    pi_bsd_dom1_lat_reg r; pi_bsd_dom1_pwd_reg r; pi_bsd_dom1_pgs_reg r; pi_bsd_dom1_rls_reg r; pi_bsd_dom2_lat_reg r;
    pi_bsd_dom2_pwd_reg r; pi_bsd_dom2_pgs_reg r; pi_bsd_dom2_rls_reg r];
  of_cells l := match l with
    | [a; b; c; d; e; f; g; h; i; j; k; l; m] => mk_core_pi_reg a b c d e f g h i j k l m
    | _ => core_pi_reg_zero
    end;
}.

#[export] Instance sp_struct : Struct core_sp_reg := {
  layout := u32s 6 ++ chars 15 ++ [Pad 1] ++ u32s 3;
  cells r := [sp_mem_addr_reg r; sp_dram_addr_reg r; sp_rd_len_reg r; sp_wr_len_reg r; w_sp_status_reg r; sp_status_reg r;
    halt r; broke r; sp_dma_busy r; dma_full r; io_full r; single_step r; intr_break r; signal0 r; signal1 r; signal2 r;
    signal3 r; signal4 r; signal5 r; signal6 r; signal7 r; sp_dma_full_reg r; sp_dma_busy_reg r; sp_semaphore_reg r];
  of_cells l := match l with
    | [a; b; c; d; e; f; g; h; i; j; k; l; m; n; o; p; q; r; s; t; u; v; w; x] =>
        mk_core_sp_reg a b c d e f g h i j k l m n o p q r s t u v w x
    | _ => core_sp_reg_zero
    end;
}.

#[export] Instance rsp_struct : Struct core_rsp_reg := {
  layout := u32s 2;
  cells r := [rsp_pc r; rsp_ibist r];
  of_cells l := match l with [a; b] => mk_core_rsp_reg a b | _ => mk_core_rsp_reg 0 0 end;
}.

#[export] Instance si_struct : Struct core_si_reg := {
  layout := u32s 4;
  cells r := [si_dram_addr r; si_pif_addr_rd64b r; si_pif_addr_wr64b r; si_status r];
  of_cells l := match l with [a; b; c; d] => mk_core_si_reg a b c d | _ => core_si_reg_zero end;
}.

#[export] Instance vi_struct : Struct core_vi_reg := {
  layout := u32s 15;
  cells r := [vi_status r; vi_origin r; vi_width r; vi_v_intr r; vi_current r; vi_burst r; vi_v_sync r; vi_h_sync r;
    vi_leap r; vi_h_start r; vi_v_start r; vi_v_burst r; vi_x_scale r; vi_y_scale r; vi_delay r];
  of_cells l := match l with
    | [a; b; c; d; e; f; g; h; i; j; k; l; m; n; o] => mk_core_vi_reg a b c d e f g h i j k l m n o
    | _ => core_vi_reg_zero
    end;
}.

#[export] Instance ri_struct : Struct core_ri_reg := {
  layout := u32s 8;
  cells r := [ri_mode r; ri_config r; ri_current_load r; ri_select r; ri_refresh r; ri_latency r; ri_error r; ri_werror r];
  of_cells l := match l with
    | [a; b; c; d; e; f; g; h] => mk_core_ri_reg a b c d e f g h
    | _ => mk_core_ri_reg 0 0 0 0 0 0 0 0
    end;
}.

#[export] Instance ai_struct : Struct core_ai_reg := {
  layout := u32s 10;
  cells r := [ai_dram_addr r; ai_len r; ai_control r; ai_status r; ai_dacrate r; ai_bitrate r; next_delay r; next_len r;
    current_delay r; current_len r];
  of_cells l := match l with
    | [a; b; c; d; e; f; g; h; i; j] => mk_core_ai_reg a b c d e f g h i j
    | _ => core_ai_reg_zero
    end;
}.

#[export] Instance dpc_struct : Struct core_dpc_reg := {
  layout := u32s 5 ++ chars 11 ++ [Pad 1] ++ u32s 4;
  cells r := [dpc_start r; dpc_end r; dpc_current r; w_dpc_status r; dpc_status r; xbus_dmem_dma r; dpc_freeze r;
    dpc_flush r; start_glck r; tmem_busy r; pipe_busy r; cmd_busy r; cbuf_busy r; dpc_dma_busy r; end_valid r;
    start_valid r; dpc_clock r; dpc_bufbusy r; dpc_pipebusy r; dpc_tmem r];
  of_cells l := match l with
    | [a; b; c; d; e; f; g; h; i; j; k; l; m; n; o; p; q; r; s; t] =>
        mk_core_dpc_reg a b c d e f g h i j k l m n o p q r s t
    | _ => core_dpc_reg_zero
    end;
}.

#[export] Instance dps_struct : Struct core_dps_reg := {
  layout := u32s 4;
  cells r := [dps_tbist r; dps_test_mode r; dps_buftest_addr r; dps_buftest_data r];
  of_cells l := match l with [a; b; c; d] => mk_core_dps_reg a b c d | _ => mk_core_dps_reg 0 0 0 0 end;
}.

(** [save_flashram_infos], [load_flashram_infos] *)
#[export] Instance flash_struct : Struct flash := {
  layout := [SInt 4; SInt 4; UInt 8; UInt 4; UInt 4];
  cells f := [use_flashram f; mode f; status f; erase_offset f; write_pointer f];
  of_cells l := match l with [a; b; c; d; e] => mk_flash a b c d e | _ => mk_flash 0 0 0 0 0 end;
}.

#[export] Instance tlb_struct : Struct tlb := {
  layout := [SInt 2; Pad 2; SInt 4; SInt 1; UInt 1; Pad 2; SInt 4; SInt 1; SInt 1; SInt 1; Pad 1; SInt 4; SInt 1; SInt 1;
    SInt 1; SInt 1; UInt 4; UInt 4; UInt 4; UInt 4; UInt 4; UInt 4];
  cells t := [mask t; vpn2 t; g t; asid t; pfn_even t; c_even t; d_even t; v_even t; pfn_odd t; c_odd t; d_odd t; v_odd t;
    r t; start_even t; end_even t; phys_even t; start_odd t; end_odd t; phys_odd t];
  of_cells l := match l with
    | [a; b; c; d; e; f; g; h; i; j; k; l; m; n; o; p; q; r; s] => mk_tlb a b c d e f g h i j k l m n o p q r s
    | _ => tlb_zero
    end;
}.

#[export] Instance rdram_struct_laws : StructLaws core_rdram_reg. Proof. constructor. by intros []. Qed.
#[export] Instance mips_struct_laws : StructLaws core_mips_reg. Proof. constructor. by intros []. Qed.
#[export] Instance pi_struct_laws : StructLaws core_pi_reg. Proof. constructor. by intros []. Qed.
#[export] Instance sp_struct_laws : StructLaws core_sp_reg. Proof. constructor. by intros []. Qed.
#[export] Instance rsp_struct_laws : StructLaws core_rsp_reg. Proof. constructor. by intros []. Qed.
#[export] Instance si_struct_laws : StructLaws core_si_reg. Proof. constructor. by intros []. Qed.
#[export] Instance vi_struct_laws : StructLaws core_vi_reg. Proof. constructor. by intros []. Qed.
#[export] Instance ri_struct_laws : StructLaws core_ri_reg. Proof. constructor. by intros []. Qed.
#[export] Instance ai_struct_laws : StructLaws core_ai_reg. Proof. constructor. by intros []. Qed.
#[export] Instance dpc_struct_laws : StructLaws core_dpc_reg. Proof. constructor. by intros []. Qed.
#[export] Instance dps_struct_laws : StructLaws core_dps_reg. Proof. constructor. by intros []. Qed.
#[export] Instance flash_struct_laws : StructLaws flash. Proof. constructor. by intros []. Qed.
#[export] Instance tlb_struct_laws : StructLaws tlb. Proof. constructor. by intros []. Qed.

(** ** Arrays of integers *)

(** [vals] as integers of [n] bytes. *)
Definition save_words (n : nat) (vals : list Z) : list Z := concat (map (le_split n) vals).

(** [count] integers of [n] bytes, each understood by [f]. *)
Fixpoint load_words (f : Z -> Z) (n count : nat) (l : list Z) : list Z :=
  match count with
  | O => []
  | S count => f (le_combine (take n l)) :: load_words f n count (drop n l)
  end.

(** ** Reading from a buffer *)

(** [memread]: the next [n] bytes and what follows them; behind the buffer there is
    nothing. *)
Definition memread {S} (n : nat) (p : list Z) : M S (list Z * list Z) :=
  if (length p <? n)%nat then undef OutOfBounds else ret (take n p, drop n p).

(** Read [n] bytes into a variable. *)
Definition read_into {S} (n : nat) (put : list Z -> S -> S) (p : list Z) : M S (list Z) :=
  x <-- memread n p ;;; modify (put x.1) ;;; ret x.2.

(** ** Properties *)

Lemma length_save_cells junk ts vs : cells_ok ts vs -> length (save_cells junk ts vs) = sizeof ts.
Proof.
  revert vs. induction ts as [|[n|n|n] ts IH]; intros vs Hok; [by destruct vs|..];
    [destruct vs as [|v vs]; [destruct Hok|]..|]; cbn [save_cells];
    rewrite length_app, ?length_le_split, ?length_replicate; cbn [sizeof foldr type_size]; fold (sizeof ts).
  - rewrite IH by apply Hok. done.
  - rewrite IH by apply Hok. done.
  - rewrite IH by apply Hok. done.
Qed.

Lemma signed_combine n v :
  - 2 ^ (8 * Z.of_nat n - 1) <= v < 2 ^ (8 * Z.of_nat n - 1) -> (0 < n)%nat -> signed n (v mod 2 ^ (8 * Z.of_nat n)) = v.
Proof.
  intros Hv Hn. unfold signed. set (k := 8 * Z.of_nat n - 1) in *. replace (8 * Z.of_nat n) with (Z.succ k) by lia.
  rewrite !Z.pow_succ_r by lia. assert (0 < 2 ^ k) by (apply Z.pow_pos_nonneg; lia).
  destruct (Z.ltb_spec v 0).
  - rewrite <- (Z.mod_unique v (2 * 2 ^ k) (-1) (v + 2 * 2 ^ k)) by lia.
    destruct (Z.leb_spec (2 ^ k) (v + 2 * 2 ^ k)); lia.
  - rewrite Z.mod_small by lia. destruct (Z.leb_spec (2 ^ k) v); lia.
Qed.

Lemma load_save_cells junk ts vs rest : cells_ok ts vs -> load_cells ts (save_cells junk ts vs ++ rest) = vs.
Proof.
  revert vs. induction ts as [|[n|n|n] ts IH]; intros vs Hok; [by destruct vs|..];
    [destruct vs as [|v vs]; [destruct Hok|]..|]; cbn [save_cells load_cells]; rewrite <- app_assoc.
  - rewrite take_app_length', drop_app_length' by by rewrite length_le_split. destruct Hok as [Hv Hok].
    rewrite IH, le_combine_split, pow_256, Z.mod_small by done. done.
  - rewrite take_app_length', drop_app_length' by by rewrite length_le_split. destruct Hok as (Hv & Hn & Hok).
    rewrite IH, le_combine_split, pow_256, signed_combine by done. done.
  - rewrite drop_app_length' by by rewrite length_replicate. by apply IH.
Qed.

Lemma length_save_words n vals : length (save_words n vals) = (n * length vals)%nat.
Proof.
  unfold save_words. induction vals as [|v vals IH]; [cbn; lia|]. cbn [map concat length].
  rewrite length_app, length_le_split, IH. lia.
Qed.

Lemma load_save_words f n vals rest :
  Forall (fun v => f (v mod 2 ^ (8 * Z.of_nat n)) = v) vals -> load_words f n (length vals) (save_words n vals ++ rest) = vals.
Proof.
  unfold save_words. induction 1 as [|v vals Hv Hvals IH]; [done|]. cbn [map concat length load_words].
  rewrite <- app_assoc, take_app_length', drop_app_length' by by rewrite length_le_split.
  by rewrite IH, le_combine_split, pow_256, Hv.
Qed.

Lemma read_into_ok {S} n (put : list Z -> S -> S) b rest s :
  length b = n -> read_into n put (b ++ rest) s = Ret (rest, put b s).
Proof.
  intros Hl. unfold read_into, memread. rewrite length_app.
  destruct (Nat.ltb_spec (length b + length rest) n); [lia|]. rewrite bind_ret_l, bind_modify_l. cbn [fst snd].
  by rewrite take_app_length', drop_app_length' by done.
Qed.
