(* ===== verification/SummerCart.v ===== *)
(** * The SD card cartridge (summercart.cpp)

    A cartridge whose registers, once unlocked, move sectors between the image file
    of an SD card (a fixed VHD disk) and its buffer or the ROM. *)

From S2P Require Import Prelude Machine DeviceState Core Dma.

Open Scope prog_scope.
#[local] Open Scope Z_scope.

(** Big-endian numbers and the footer of the image. *)
Definition be_number (l : list Z) : Z := le_combine (rev l).
Definition file_bytes (n : nat) (off : Z) (f : file) : list Z := load_bytes n off (f_data f).

Record vhd : Set := Vhd { vhd_cookie : list Z; vhd_disk_size : Z; vhd_type : Z }.
Definition vhd_footer (f : file) : vhd :=
  let base := f_len f - 512 in
  Vhd (file_bytes 8 base f) (be_number (file_bytes 8 (base + 40) f)) (be_number (file_bytes 4 (base + 60) f)).

(** "conectix" *)
Definition vhd_magic : list Z := [0x63; 0x6f; 0x6e; 0x65; 0x63; 0x74; 0x69; 0x78].

(** [fgetc] gives EOF, which is stored as 0xFF, behind the end. *)
Definition fgetc (f : file) (pos : Z) : Z := if pos <? f_len f then byte_at (f_data f) pos else 0xFF.
Definition fputc (v pos : Z) (f : file) : file := File (Z.max (f_len f) (pos + 1)) (<[pos := u8 v]> (f_data f)).

Section SummerCart.
Context {Q : Type} `{EventQueue Q}.
#[local] Abbreviation st := (core Q).

Definition mod_sc (g : summercart -> summercart) : M st unit :=
  mod_dev (fun d => d <| d_summercart := g (d_summercart d) |>).
Definition sc_now : M st summercart := d <-- dev ;;; ret (d_summercart d).
Definition sc_idle : M st unit := mod_sc (fun c => c <| sc_status := 0 |>).
Definition sd_error : M st unit := mod_mach (host HShowDialog).

Definition init_summercart : M st unit := mod_sc (fun _ => summercart_zero).

(** [sd_seek(fp) == 0], the file then being at [512 * sd_sector]. *)
Definition sd_seek (f : file) : M st bool :=
  c <-- sc_now ;;;
  let v := vhd_footer f in
  if f_len f <? 512 then sd_error ;;; ret false
  else if negb (bool_decide (vhd_cookie v = vhd_magic)) then sd_error ;;; ret false
  else if negb (vhd_type v =? 2) then sd_error ;;; ret false
  else ret (negb (vhd_disk_size v / 512 <? sd_sector c + data1 c)).

(** Where the sectors go to or come from: an array and an offset in it. *)
Definition sd_target (c : summercart) : option (@array Q * Z) :=
  let addr := Z.land (data0 c) 0x1fffffff in
  let size := 512 * data1 c in
  if (0x1ffe0000 <=? addr) && (addr + size <=? 0x1ffe2000) then Some (sc_array, addr - 0x1ffe0000)
  else if (0x10000000 <=? addr) && (addr + size <=? 0x14000000) then Some (rom_array, addr - 0x10000000)
  else None.

(** Only transfers to the ROM honour the byte order of the card. *)
Definition sd_swap (c : summercart) : Z :=
  let addr := Z.land (data0 c) 0x1fffffff in
  if (0x1ffe0000 <=? addr) && (addr + 512 * data1 c <=? 0x1ffe2000) then 3 else Z.lxor 3 (sd_byteswap c).

Definition sd_read : M st unit :=
  c <-- sc_now ;;; d <-- dev ;;;
  if 131072 <? data1 c then ret tt
  else match sd_image d with
  | None => sd_error
  | Some f =>
      ok <-- sd_seek f ;;;
      match (if ok : bool then sd_target c else None) with
      | Some (arr, addr) =>
          for_loop (Z.to_nat (512 * data1 c)) 0 (fun i =>
            put_byte arr (Z.lxor (addr + i) (sd_swap c)) (fgetc f (512 * sd_sector c + i))) ;;;
          sc_idle
      | None => ret tt
      end
  end.

Definition sd_write : M st unit :=
  c <-- sc_now ;;; d <-- dev ;;;
  if 131072 <? data1 c then ret tt
  else match sd_image d with
  | None => sd_error
  | Some f =>
      ok <-- sd_seek f ;;;
      match (if ok : bool then sd_target c else None) with
      | Some (arr, addr) =>
          for_loop (Z.to_nat (512 * data1 c)) 0 (fun i =>
            v <-- get_byte arr (Z.lxor (addr + i) 3) ;;;
            mod_dev (fun d => d <| sd_image := option_map (fputc v (512 * sd_sector c + i)) (sd_image d) |>)) ;;;
          sc_idle
      | None => ret tt
      end
  end.

Definition read_summercart (address : Z) : M st Z :=
  c <-- sc_now ;;;
  if negb (c_true (unlock c)) then ret 0
  else ret match Z.land address 0xFFFC with
           | 0x00 => sc_status c | 0x04 => data0 c | 0x08 => data1 c | 0x0C => 0x53437632 | _ => 0
           end.

(** The commands written to the status register. *)
Definition sc_command (value : Z) : M st unit :=
  c <-- sc_now ;;;
  match value with
  | 0x63 => match data0 c with
            | 1 => mod_sc (fun c => c <| data1 := cfg_rom_write c |> <| sc_status := 0 |>)
            | 3 | 6 => mod_sc (fun c => c <| data1 := 0 |> <| sc_status := 0 |>)
            | _ => ret tt
            end
  | 0x43 => when (data0 c =? 1)
              (mod_sc (fun c => c <| data1 := cfg_rom_write c |> <| cfg_rom_write := if c_true (data1 c) then 1 else 0 |>
                                  <| sc_status := 0 |>))
  | 0x69 => match data1 c with
            | 0 | 1 => sc_idle
            | 4 => mod_sc (fun c => c <| sd_byteswap := 1 |> <| sc_status := 0 |>)
            | 5 => mod_sc (fun c => c <| sd_byteswap := 0 |> <| sc_status := 0 |>)
            | _ => ret tt
            end
  | 0x49 => mod_sc (fun c => c <| sd_sector := data0 c |> <| sc_status := 0 |>)
  | 0x73 => sd_read
  | 0x53 => sd_write
  | _ => ret tt
  end.

(** The two words that unlock the registers, in order. *)
Definition sc_key (value : Z) (c : summercart) : summercart :=
  if value =? 0xFFFFFFFF then c <| unlock := 0 |>
  else if value =? 0x5F554E4C then (if lock_seq c =? 0 then c <| lock_seq := 2 |> else c)
  else if value =? 0x4F434B5F then (if lock_seq c =? 2 then c <| unlock := 1 |> <| lock_seq := 0 |> else c)
  else c <| lock_seq := 0 |>.

Definition write_summercart (address value : Z) : M st unit :=
  c <-- sc_now ;;;
  match Z.land address 0xFFFC with
  | 0x00 => when (c_true (unlock c)) (mod_sc (fun c => c <| sc_status := 0x40000000 |>) ;;; sc_command value)
  | 0x04 => when (c_true (unlock c)) (mod_sc (fun c => c <| data0 := value |>))
  | 0x08 => when (c_true (unlock c)) (mod_sc (fun c => c <| data1 := value |>))
  | 0x10 => mod_sc (sc_key value)
  | _ => ret tt
  end.

End SummerCart.
