(* ===== verification/Bus.v ===== *)
(** * The memory map (memory.cpp)

    [init_memory] fills one table of handlers per access size and direction,
    indexed by the upper half of the address.  Here a table is the list of its
    assignments, the last one that covers a page counting.  The handlers of RDRAM,
    of the signal processor's memories and of unmapped addresses are defined below;
    those of the device registers are the operations of the class [Devices]. *)

From S2P Require Import Prelude Machine Exception Alu DeviceState Core.

Open Scope prog_scope.
#[local] Open Scope Z_scope.

(** ** The tables *)

Inductive handler : Set :=
| Nomem | Nothing | Rdram | RspMem
| Rdramreg | RspReg | Rsp | Dp | Dps | Mi | Vi | Ai | Pi | Ri | Si
| FlashramStatus | FlashramDummy | FlashramCommand | Rom | Pif | Sc.

#[export] Instance handler_eq_dec : EqDecision handler.
Proof. solve_decision. Defined.

(** [for (i = first; i < last; i++) table[base + i] = h;] *)
Record assignment : Set := Assign { a_base : Z; a_first : Z; a_last : Z; a_handler : handler }.

(** The same assignment for the cached and the uncached segment. *)
Definition both (base first last : Z) (h : handler) : list assignment :=
  [Assign (0x8000 + base) first last h; Assign (0xa000 + base) first last h].

Definition one (base : Z) (h : handler) : list assignment := both base 0 1 h.

Definition covers (p : Z) (a : assignment) : bool := (a_base a + a_first a <=? p) && (p <? a_base a + a_last a).

Definition handler_at (table : list assignment) (p : Z) : handler :=
  fold_left (fun h a => if covers p a then a_handler a else h) table Nomem.

(** [rom_pages] is [rom_size >> 16]. *)
Definition read_table (rom_pages : Z) (use_summercart : bool) : list assignment :=
  both 0 0 0x80 Rdram ++ both 0 0x80 0x3F0 Nothing ++
  one 0x3f0 Rdramreg ++ both 0x3f0 1 0x10 Nothing ++
  one 0x400 RspMem ++ both 0x400 1 4 Nothing ++
  one 0x404 RspReg ++ both 0x400 5 8 Nothing ++
  one 0x408 Rsp ++ both 0x400 9 0x10 Nothing ++
  one 0x410 Dp ++ both 0x410 1 0x10 Nothing ++
  one 0x420 Dps ++ both 0x420 1 0x10 Nothing ++
  [Assign 0xa830 0 1 Mi; Assign 0xa430 0 1 Mi] ++ both 0x430 1 0x10 Nothing ++
  one 0x440 Vi ++ both 0x440 1 0x10 Nothing ++
  one 0x450 Ai ++ both 0x450 1 0x10 Nothing ++
  one 0x460 Pi ++ both 0x460 1 0x10 Nothing ++
  one 0x470 Ri ++ both 0x470 1 0x10 Nothing ++
  one 0x480 Si ++ both 0 0x481 0x800 Nothing ++
  one 0x800 FlashramStatus ++ one 0x801 Nothing ++ both 0 0x802 0x1000 Nothing ++
  both 0x1000 0 rom_pages Rom ++ both 0x1000 rom_pages 0xfc0 Nothing ++
  one 0x1fc0 Pif ++ both 0x1000 0xfc1 0x1000 Nothing ++
  (if use_summercart then one 0x1fff Sc else []).

(** Only words can be written to the cartridge, and only uncached. *)
Definition write_table (sz : size) (rom_pages : Z) (use_summercart : bool) : list assignment :=
  both 0 0 0x80 Rdram ++ both 0 0x80 0x3F0 Nothing ++
  one 0x3f0 Rdramreg ++ both 0x3f0 1 0x10 Nothing ++
  one 0x400 RspMem ++ both 0x400 1 4 Nothing ++
  one 0x404 RspReg ++ both 0x400 5 8 Nothing ++
  one 0x408 Rsp ++ both 0x400 9 0x10 Nothing ++
  one 0x410 Dp ++ both 0x410 1 0x10 Nothing ++
  one 0x420 Dps ++ both 0x420 1 0x10 Nothing ++
  one 0x430 Mi ++ both 0x430 1 0x10 Nothing ++
  one 0x440 Vi ++ both 0x440 1 0x10 Nothing ++
  one 0x450 Ai ++ both 0x450 1 0x10 Nothing ++
  one 0x460 Pi ++ both 0x460 1 0x10 Nothing ++
  one 0x470 Ri ++ both 0x470 1 0x10 Nothing ++
  one 0x480 Si ++ both 0 0x481 0x800 Nothing ++
  one 0x800 FlashramDummy ++ one 0x801 FlashramCommand ++ both 0 0x802 0x1000 Nothing ++
  [Assign 0x9000 0 rom_pages Nothing; Assign 0xb000 0 rom_pages (match sz with W => Rom | _ => Nothing end)] ++
  both 0x1000 rom_pages 0xfc0 Nothing ++
  one 0x1fc0 Pif ++ both 0x1000 0xfc1 0x1000 Nothing ++
  (if use_summercart then one 0x1fff Sc else []).

(** ** The handlers *)

(** Reads and writes of the device registers. *)
Class Devices (Q : Type) := {
  dev_read : handler -> size -> Z -> M (core Q) (option Z);
  dev_write : handler -> size -> Z -> Z -> M (core Q) unit;
}.

Section Handlers.
Context {Q : Type} `{EventQueue Q} `{Devices Q}.
#[local] Abbreviation st := (core Q).

(** The bytes of an array of [len] bytes in host order; reads and writes outside
    it are undefined. *)
Definition load_from (arr : st -> gmap Z Z) (len : Z) (n : nat) (off : Z) : M st Z :=
  s <-- get ;;;
  if (0 <=? off) && (off + Z.of_nat n <=? len) then ret (le_combine (load_bytes n off (arr s)))
  else undef OutOfBounds.

Definition store_rdram (n : nat) (off v : Z) : M st unit :=
  if (0 <=? off) && (off + Z.of_nat n <=? 0x800000)
  then modify (fun s => s <| rdram := store_bytes off (le_split n v) (rdram s) |>)
  else undef OutOfBounds.
Definition store_sp (n : nat) (off v : Z) : M st unit :=
  if (0 <=? off) && (off + Z.of_nat n <=? 0x2000)
  then modify (fun s => s <| SP_MEM := store_bytes off (le_split n v) (SP_MEM s) |>)
  else undef OutOfBounds.

(** An access of each size to an array holding 32-bit words in host order, at the
    emulated offset [off]: bytes and halfwords are swapped within their word. *)
Definition load_swapped (load : nat -> Z -> M st Z) (sz : size) (off : Z) : M st Z :=
  match sz with
  | B => load 1%nat (Z.lxor off 3)
  | H => load 2%nat (Z.lxor off 2)
  | W => load 4%nat off
  | D => h <-- load 4%nat off ;;; l <-- load 4%nat (off + 4) ;;; ret (Z.lor (Z.shiftl h 32) l)
  end.
Definition store_swapped (store : nat -> Z -> Z -> M st unit) (sz : size) (off v : Z) : M st unit :=
  match sz with
  | B => store 1%nat (Z.lxor off 3) v
  | H => store 2%nat (Z.lxor off 2) v
  | W => store 4%nat off v
  | D => store 4%nat off (Z.shiftr v 32) ;;; store 4%nat (off + 4) (Z.land v 0xFFFFFFFF)
  end.

Definition read_rdram (sz : size) (address : Z) : M st Z :=
  load_swapped (load_from rdram 0x800000) sz (Z.land address 0xFFFFFF).
Definition write_rdram (sz : size) (address v : Z) : M st unit :=
  store_swapped store_rdram sz (Z.land address 0xFFFFFF) v.

(** [SP_IMEM] follows [SP_DMEM] in the same array. *)
Definition read_sp (sz : size) (low : Z) : M st Z :=
  if low <? 0x1000 then load_swapped (load_from SP_MEM 0x2000) sz low
  else load_swapped (fun n off => load_from SP_MEM 0x2000 n (0x1000 + off)) sz (Z.land low 0xFFF).
Definition write_sp (sz : size) (low v : Z) : M st unit :=
  if low <? 0x1000 then store_swapped store_sp sz low v
  else store_swapped (fun n off => store_sp n (0x1000 + off)) sz (Z.land low 0xFFF) v.

(** Only the word handler knows the one special address. *)
Definition read_nothing (sz : size) (address : Z) : Z :=
  match sz with W => if address =? 0xa5000508 then 0xFFFFFFFF else 0 | _ => 0 end.

Definition page_of (address : Z) : Z := Z.shiftr address 16.
Definition address_low (address : Z) : Z := Z.land address 0xFFFF.

Definition read_handler (s : st) (address : Z) : handler :=
  handler_at (read_table (Z.shiftr (rom_size s) 16) (cfg_use_summercart s)) (page_of address).
Definition write_handler (sz : size) (s : st) (address : Z) : handler :=
  handler_at (write_table sz (Z.shiftr (rom_size s) 16) (cfg_use_summercart s)) (page_of address).

(** [readmem[address >> 16]()] and its variants.  The tables have 0xFFFF entries,
    so the last page is outside them.  [read_nomem] calls the dispatch again with
    the translated address; that call is [again] here. *)
Definition read_dispatch (again : size -> Z -> M st (Z * option Z)) (sz : size) (address : Z) : M st (Z * option Z) :=
  s <-- get ;;;
  let nomem :=
    a <-- on_mach (virtual_to_physical_address address 0) ;;;
    if a =? 0 then ret (0, None) else again sz a in
  if 0xFFFF <=? page_of address then undef OutOfBounds
  else match read_handler s address with
       | Nomem => nomem
       | Nothing => ret (address, Some (read_nothing sz address))
       | Rdram => v <-- read_rdram sz address ;;; ret (address, Some v)
       | RspMem => if address_low address <? 0x2000
                   then v <-- read_sp sz (address_low address) ;;; ret (address, Some v) else nomem
       | h => v <-- dev_read h sz address ;;; ret (address, v)
       end.

(** [write_rsp_memd] calls the read handler for addresses past the memories, which
    would store through the [rdword] some earlier load left behind. *)
Definition write_dispatch (again : size -> Z -> Z -> M st unit) (sz : size) (address v : Z) : M st unit :=
  s <-- get ;;;
  let nomem :=
    a <-- on_mach (virtual_to_physical_address address 1) ;;;
    if a =? 0 then ret tt else again sz a v in
  if 0xFFFF <=? page_of address then undef OutOfBounds
  else match write_handler sz s address with
       | Nomem => nomem
       | Nothing => ret tt
       | Rdram => write_rdram sz address v
       | RspMem =>
           if address_low address <? 0x2000 then write_sp sz (address_low address) v
           else match sz with
                | D => a <-- on_mach (virtual_to_physical_address address 0) ;;;
                       if a =? 0 then ret tt else undef DanglingPointer
                | _ => nomem
                end
       | h => dev_write h sz address v
       end.

(** The dispatch with [fuel] nested calls. *)
Fixpoint read_mem (fuel : nat) : size -> Z -> M st (Z * option Z) :=
  match fuel with
  | O => fun _ _ => undef Diverges
  | S fuel => read_dispatch (read_mem fuel)
  end.
Fixpoint write_mem (fuel : nat) : size -> Z -> Z -> M st unit :=
  match fuel with
  | O => fun _ _ _ => undef Diverges
  | S fuel => write_dispatch (write_mem fuel)
  end.

(** A word store leaves its value in the global [word]. *)
Definition note_word (sz : size) (v : Z) : M st unit :=
  match sz with
  | W => modify (fun s => s <| c_dev := (c_dev s) <| word := v |> |>)
  | _ => ret tt
  end.

(** An access is translated at most once, so that the dispatch runs at most twice. *)
#[export] Instance core_bus : Bus st := {
  bus_read := read_mem 2; bus_write sz a v := note_word sz v ;;; write_mem 2 sz a v }.

End Handlers.
