(* ===== verification/BusProps.v ===== *)
(** * What the memory map guarantees *)

From S2P Require Import Prelude Hoare Pool Machine Exception Tlb TlbProps Alu DeviceState Core Bus.

Open Scope prog_scope.
#[local] Open Scope Z_scope.

(** ** Big-endian values *)

Lemma be_value_bound byte a n : (forall x, is_u8 (byte x)) -> 0 <= be_value byte a n < 256 ^ Z.of_nat n.
Proof.
  intros Hb. revert a. induction n as [|n IH]; intros a; [done|]. cbn [be_value].
  rewrite Nat2Z.inj_succ, Z.pow_succ_r by lia. specialize (IH (a + 1)). pose proof (Hb a) as H. unfold is_u8 in H. nia.
Qed.

(** Two values side by side. *)
Lemma be_value_app byte a n k :
  be_value byte a (n + k) = be_value byte a n * 256 ^ Z.of_nat k + be_value byte (a + Z.of_nat n) k.
Proof.
  revert a. induction n as [|n IH]; intros a; cbn [Nat.add be_value]; [by rewrite Z.add_0_r|].
  rewrite IH, Nat2Z.inj_add, Z.pow_add_r by lia. replace (a + 1 + Z.of_nat n) with (a + Z.of_nat (S n)) by lia. ring.
Qed.

Lemma be_value_ext byte byte' a n :
  (forall i, a <= i < a + Z.of_nat n -> byte i = byte' i) -> be_value byte a n = be_value byte' a n.
Proof.
  revert a. induction n as [|n IH]; intros a Hb; [done|]. cbn [be_value]. rewrite (Hb a) by lia. f_equal.
  apply IH. intros i Hi. apply Hb. lia.
Qed.

Lemma be_value_shift byte base a n : be_value (fun x => byte (x - base)) a n = be_value byte (a - base) n.
Proof.
  revert a. induction n as [|n IH]; intros a; [done|]. cbn [be_value]. rewrite IH. do 2 f_equal. lia.
Qed.

(** ** RDRAM is big-endian memory *)

Section Ram.
Context {Q : Type} `{EventQueue Q} `{Devices Q}.
#[local] Abbreviation st := (core Q).

(** The byte an emulated byte offset stands for. *)
Definition ram_byte (s : st) (off : Z) : Z := byte_at (rdram s) (Z.lxor off 3).

Definition ram_ok (s : st) : Prop := map_Forall (fun _ b => is_u8 b) (rdram s).

Lemma byte_at_range s off : ram_ok s -> is_u8 (byte_at (rdram s) off).
Proof. intros Hs. unfold byte_at. destruct (rdram s !! off) as [b|] eqn:E; [exact (Hs _ _ E)|done]. Qed.

Lemma load_rdram_ok n off (s : st) :
  0 <= off -> off + Z.of_nat n <= 0x800000 ->
  load_from rdram 0x800000 n off s = Ret (le_combine (load_bytes n off (rdram s)), s).
Proof.
  intros Ho Hl. unfold load_from. rewrite bind_get_l.
  apply Z.leb_le in Ho, Hl. by rewrite Ho, Hl.
Qed.

(** Aligned words and halfwords, as the emulated bytes. *)
Lemma load_word_be (s : st) off :
  off mod 4 = 0 -> le_combine (load_bytes 4 off (rdram s)) = be_value (ram_byte s) off 4.
Proof.
  intros Ha. unfold ram_byte. cbn [be_value le_combine load_bytes]. rewrite !lxor_3.
  replace (4 * (off / 4) + (3 - off mod 4)) with (off + 1 + 1 + 1) by (Z.div_mod_to_equations; lia).
  replace (4 * ((off + 1) / 4) + (3 - (off + 1) mod 4)) with (off + 1 + 1) by (Z.div_mod_to_equations; lia).
  replace (4 * ((off + 1 + 1) / 4) + (3 - (off + 1 + 1) mod 4)) with (off + 1) by (Z.div_mod_to_equations; lia).
  replace (4 * ((off + 1 + 1 + 1) / 4) + (3 - (off + 1 + 1 + 1) mod 4)) with off by (Z.div_mod_to_equations; lia).
  lia.
Qed.

Lemma load_half_be (s : st) off :
  off mod 2 = 0 -> le_combine (load_bytes 2 (Z.lxor off 2) (rdram s)) = be_value (ram_byte s) off 2.
Proof.
  intros Ha. unfold ram_byte. cbn [be_value le_combine load_bytes]. rewrite !lxor_3, lxor_2.
  replace (4 * (off / 4) + (3 - off mod 4)) with (4 * (off / 4) + (off mod 4 + 2) mod 4 + 1)
    by (Z.div_mod_to_equations; lia).
  replace (4 * ((off + 1) / 4) + (3 - (off + 1) mod 4)) with (4 * (off / 4) + (off mod 4 + 2) mod 4)
    by (Z.div_mod_to_equations; lia).
  lia.
Qed.

Lemma read_rdram_be sz off (s : st) :
  ram_ok s -> 0 <= off -> off + width sz <= 0x800000 -> off mod width sz = 0 ->
  load_swapped (load_from rdram 0x800000) sz off s = Ret (be_value (ram_byte s) off (bytes_of sz), s).
Proof.
  intros Hs Ho Hl Ha. unfold width in *. destruct sz; cbn [load_swapped bytes_of] in *.
  - rewrite load_rdram_ok by (rewrite lxor_3; Z.div_mod_to_equations; lia).
    cbn [be_value le_combine load_bytes]. unfold ram_byte. do 2 f_equal. lia.
  - rewrite load_rdram_ok by (rewrite lxor_2; Z.div_mod_to_equations; lia). by rewrite load_half_be.
  - rewrite load_rdram_ok by lia. by rewrite load_word_be.
  - assert (off mod 4 = 0) by (Z.div_mod_to_equations; lia).
    rewrite (bind_Ret _ _ _ _ _ (load_rdram_ok 4 off s ltac:(lia) ltac:(lia))).
    rewrite (bind_Ret _ _ _ _ _ (load_rdram_ok 4 (off + 4) s ltac:(lia) ltac:(lia))).
    rewrite !load_word_be by (Z.div_mod_to_equations; lia). unfold ret. do 2 f_equal.
    rewrite Z.shiftl_mul_pow2, lor_add_shift; [|lia| |lia].
    + symmetry. exact (be_value_app (ram_byte s) off 4 4).
    + exact (be_value_bound _ _ 4 (fun x => byte_at_range s _ Hs)).
Qed.

(** Writing: [store n off v] on host bytes. *)
Lemma store_rdram_ok n off v (s : st) :
  0 <= off -> off + Z.of_nat n <= 0x800000 ->
  store_rdram n off v s = Ret (tt, s <| rdram := store_bytes off (le_split n v) (rdram s) |>).
Proof. intros Ho Hl. unfold store_rdram. apply Z.leb_le in Ho, Hl. by rewrite Ho, Hl. Qed.

Lemma store_ok n off v (s : st) :
  ram_ok s -> ram_ok (s <| rdram := store_bytes off (le_split n v) (rdram s) |>).
Proof.
  unfold ram_ok. intros Hs. change (rdram (s <| rdram := store_bytes off (le_split n v) (rdram s) |>))
    with (store_bytes off (le_split n v) (rdram s)).
  revert Hs. generalize (rdram s). pose proof (le_split_bytes n v) as Hb. revert off.
  induction Hb as [|b l Hb Hl IH]; intros off m Hm; [done|]. cbn [store_bytes]. apply IH.
  by apply map_Forall_insert_2.
Qed.

Lemma byte_of_stored n off v m x :
  byte_at (store_bytes off (le_split n v) m) x =
    if (off <=? x) && (x <? off + Z.of_nat n) then u8 (Z.shiftr v (8 * (x - off))) else byte_at m x.
Proof.
  rewrite store_bytes_lookup, length_le_split.
  destruct (Z.leb_spec off x), (Z.ltb_spec x (off + Z.of_nat n)); try done. cbn [andb].
  rewrite le_split_lookup by lia. do 3 f_equal. lia.
Qed.

(** The low word of a doubleword has its bytes. *)
Lemma u8_low_word v k : 0 <= k <= 24 -> u8 (Z.shiftr (Z.land v 0xFFFFFFFF) k) = u8 (Z.shiftr v k).
Proof.
  intros Hk. apply Z.bits_inj'. intros n Hn. unfold u8. change 256 with (2 ^ 8).
  destruct (Z.ltb_spec n 8); [|by rewrite !Z.mod_pow2_bits_high by lia].
  rewrite !Z.mod_pow2_bits_low, !Z.shiftr_spec, Z.land_spec by lia. change 0xFFFFFFFF with (Z.ones 32).
  rewrite Z.ones_spec_low by lia. apply andb_true_r.
Qed.

Definition written (n : nat) (v off x : Z) (old : Z) : Z :=
  if (off <=? x) && (x <? off + Z.of_nat n) then be_byte_of n v (x - off) else old.

Lemma write_rdram_be sz off v (s : st) :
  ram_ok s -> 0 <= off -> off + width sz <= 0x800000 -> off mod width sz = 0 ->
  exists ram, store_swapped store_rdram sz off v s = Ret (tt, s <| rdram := ram |>) /\
    ram_ok (s <| rdram := ram |>) /\
    forall x, 0 <= x < 0x800000 ->
      byte_at ram (Z.lxor x 3) = written (bytes_of sz) v off x (ram_byte s x).
Proof.
  intros Hs Ho Hl Ha. unfold width in *. unfold written, be_byte_of, ram_byte.
  destruct sz; cbn [store_swapped bytes_of] in *.
  - eexists. rewrite store_rdram_ok by (rewrite lxor_3; Z.div_mod_to_equations; lia).
    split; [done|]. split; [by apply store_ok|]. intros x Hx. rewrite byte_of_stored, !lxor_3.
    destruct (Z.eq_dec x off) as [->|Hne].
    + repeat case_cmp; try lia. cbn [andb]. do 2 f_equal. lia.
    + repeat case_cmp; try done; exfalso; Z.div_mod_to_equations; lia.
  - eexists. rewrite store_rdram_ok by (rewrite lxor_2; Z.div_mod_to_equations; lia).
    split; [done|]. split; [by apply store_ok|]. intros x Hx. rewrite byte_of_stored, !lxor_3, !lxor_2.
    repeat case_cmp; cbn [andb]; try done; try (exfalso; Z.div_mod_to_equations; lia).
    do 2 f_equal. Z.div_mod_to_equations. lia.
  - eexists. rewrite store_rdram_ok by lia.
    split; [done|]. split; [by apply store_ok|]. intros x Hx. rewrite byte_of_stored, !lxor_3.
    repeat case_cmp; cbn [andb]; try done; try (exfalso; Z.div_mod_to_equations; lia).
    do 2 f_equal. Z.div_mod_to_equations. lia.
  - eexists. rewrite (bind_Ret _ _ _ _ _ (store_rdram_ok 4 off _ s ltac:(lia) ltac:(lia))).
    rewrite store_rdram_ok by lia. split; [reflexivity|].
    split; [exact (store_ok 4 (off + 4) _ _ (store_ok 4 off _ s Hs))|]. intros x Hx.
    rewrite byte_of_stored.
    change (rdram (s <| rdram := store_bytes off (le_split 4 (Z.shiftr v 32)) (rdram s) |>))
      with (store_bytes off (le_split 4 (Z.shiftr v 32)) (rdram s)).
    rewrite byte_of_stored, !lxor_3.
    repeat case_cmp; cbn [andb]; try done; try (exfalso; Z.div_mod_to_equations; lia).
    + rewrite Z.shiftr_shiftr by (Z.div_mod_to_equations; lia). do 2 f_equal. Z.div_mod_to_equations. lia.
    + rewrite u8_low_word by (Z.div_mod_to_equations; lia). do 2 f_equal. Z.div_mod_to_equations. lia.
Qed.
End Ram.

(** ** The tables *)

(** The last assignment that covers a page counts. *)
Lemma handler_at_app t u p :
  handler_at (t ++ u) p = fold_left (fun h a => if covers p a then a_handler a else h) u (handler_at t p).
Proof. apply fold_left_app. Qed.

Lemma fold_uncovered u p h :
  Forall (fun a => covers p a = false) u ->
  fold_left (fun h a => if covers p a then a_handler a else h) u h = h.
Proof. intros Hu. revert h. induction Hu as [|a u Ha Hu IH]; intros h; [done|]. cbn. rewrite Ha. apply IH. Qed.

Lemma handler_at_index i a t p h :
  t !! i = Some a -> a_handler a = h -> covers p a = true -> Forall (fun a => covers p a = false) (drop (S i) t) ->
  handler_at t p = h.
Proof.
  intros Ei <- Ha Hu. rewrite <- (take_drop_middle t i a Ei), handler_at_app. cbn. rewrite Ha.
  by apply fold_uncovered.
Qed.

(** Pages of one segment, as assigned by [both]. *)
Definition in_segment (a : Z * Z * Z * handler) : Prop :=
  let '(base, first, last, _) := a in 0 <= base + first /\ base + last <= 0x2000.
Definition pair_up (a : Z * Z * Z * handler) : list assignment := let '(base, first, last, h) := a in both base first last h.

Definition segment_fold (t : list (Z * Z * Z * handler)) (p : Z) (h : handler) : handler :=
  fold_left (fun h a => let '(base, first, last, h') := a in
                        if (base + first <=? p) && (p <? base + last) then h' else h) t h.

Lemma pair_up_fold t p seg h :
  Forall in_segment t -> 0 <= p < 0x2000 -> seg = 0x8000 \/ seg = 0xa000 ->
  fold_left (fun h a => if covers (seg + p) a then a_handler a else h) (flat_map pair_up t) h = segment_fold t p h.
Proof.
  intros Ht Hp Hs. revert h. induction Ht as [|[[[base first] last] h'] t [H1 H2] Ht IH]; intros h; [done|].
  cbn [flat_map pair_up both app fold_left segment_fold]. rewrite IH. unfold segment_fold. cbn [fold_left]. f_equal.
  unfold covers. cbn [a_base a_first a_last a_handler].
  destruct Hs as [-> | ->]; repeat case_cmp; cbn [andb]; try done; lia.
Qed.

(** Entry [i] decides: the later ones do not cover the page. *)
Ltac decided_by i :=
  eapply (handler_at_index i); [reflexivity|reflexivity|unfold covers; cbn [a_base a_first a_last]; lia|];
  unfold both, one; cbn [app drop];
  repeat (apply Forall_cons_2; [unfold covers; cbn [a_base a_first a_last]; lia|]); apply Forall_nil_2.

(** The first 16 MiB of both segments: 8 MiB of RDRAM, then nothing. *)
Lemma low_pages rom_pages sc sz p :
  0 <= rom_pages <= 0xfc0 -> 0 <= p < 0x100 -> forall seg, seg = 0x8000 \/ seg = 0xa000 ->
  let h := if p <? 0x80 then Rdram else Nothing in
  handler_at (read_table rom_pages sc) (seg + p) = h /\ handler_at (write_table sz rom_pages sc) (seg + p) = h.
Proof.
  intros Hr Hp seg Hseg h. unfold h.
  destruct Hseg as [-> | ->], (Z.ltb_spec p 0x80), sc; split;
    first [decided_by 0%nat | decided_by 1%nat | decided_by 2%nat | decided_by 3%nat].
Qed.

(** ** RDRAM through the memory map *)

Section RamLaws.
Context {Q : Type} `{EventQueue Q} `{Devices Q}.
#[local] Abbreviation st := (core Q).

(** The cartridge fits below the PIF. *)
Definition rom_fits (s : st) : Prop := 0 <= Z.shiftr (rom_size s) 16 <= 0xfc0.

Definition segment (base : Z) : Prop := base = 0x80000000 \/ base = 0xa0000000.

(** An RDRAM address: its page, its offset and its handlers. *)
Lemma ram_address base a (s : st) sz :
  segment base -> rom_fits s -> base <= a < base + 0x800000 ->
  (0xFFFF <=? page_of a) = false /\ Z.land a 0xFFFFFF = a - base /\
  read_handler s a = Rdram /\ write_handler sz s a = Rdram.
Proof.
  intros Hb Hr Ha. unfold read_handler, write_handler, page_of.
  assert (exists seg p, (seg = 0x8000 \/ seg = 0xa000) /\ 0 <= p < 0x80 /\ Z.shiftr a 16 = seg + p /\ base = seg * 65536)
    as (seg & p & Hs & Hp & E & Eb).
  { rewrite Z.shiftr_div_pow2 by lia. change (2 ^ 16) with 65536.
    destruct Hb as [-> | ->]; [exists 0x8000, (a / 65536 - 0x8000)|exists 0xa000, (a / 65536 - 0xa000)];
      (split; [tauto|]); Z.div_mod_to_equations; lia. }
  rewrite E. split; [apply Z.leb_gt; destruct Hs as [-> | ->]; lia|]. split.
  { change 0xFFFFFF with (Z.ones 24). rewrite Z.land_ones by lia. change (2 ^ 24) with 16777216.
    destruct Hs as [-> | ->]; subst base; Z.div_mod_to_equations; lia. }
  destruct (low_pages _ (cfg_use_summercart s) sz p Hr ltac:(lia) seg Hs) as [-> ->].
  assert (p <? 0x80 = true) as -> by (apply Z.ltb_lt; lia). done.
Qed.

Definition ram_state_ok (s : st) : Prop := ram_ok s /\ rom_fits s.

Lemma read_ram base sz a (s : st) :
  segment base -> ram_state_ok s -> base <= a -> a + width sz <= base + 0x800000 -> a mod width sz = 0 ->
  bus_read sz a s = Ret ((a, Some (be_value (fun x => ram_byte s (x - base)) a (bytes_of sz))), s).
Proof.
  intros Hb [Hs Hr] Hlo Hhi Ha. assert (0 < width sz) by (by destruct sz).
  destruct (ram_address base a s sz Hb Hr ltac:(lia)) as (Hp & Ho & Hh & _).
  cbn [bus_read core_bus read_mem]. unfold read_dispatch. rewrite bind_get_l, Hp, Hh. unfold read_rdram. rewrite Ho, be_value_shift.
  erewrite bind_Ret; [reflexivity|]. apply read_rdram_be; try done; try lia.
  assert (base mod width sz = 0) by (destruct Hb as [-> | ->], sz; done).
  rewrite Zminus_mod, Ha. replace (base mod width sz) with 0 by done. done.
Qed.

Lemma note_word_ok sz v (s : st) : exists d, note_word sz v s = Ret (tt, s <| c_dev := d |>).
Proof. destruct sz; try by exists (c_dev s); destruct s. by eexists. Qed.

Lemma write_ram base sz a v (s : st) :
  segment base -> ram_state_ok s -> base <= a -> a + width sz <= base + 0x800000 -> a mod width sz = 0 ->
  exists s', bus_write sz a v s = Ret (tt, s') /\ ram_state_ok s' /\ get_cpu s' = get_cpu s /\
    forall x, base <= x < base + 0x800000 -> ram_byte s' (x - base) =
      if (a <=? x) && (x <? a + width sz) then be_byte_of (bytes_of sz) v (x - a) else ram_byte s (x - base).
Proof.
  intros Hb [Hs Hr] Hlo Hhi Ha. assert (0 < width sz) by (by destruct sz).
  destruct (ram_address base a s sz Hb Hr ltac:(lia)) as (Hp & Ho & _ & Hh).
  assert (base mod width sz = 0) as Hbm by (destruct Hb as [-> | ->], sz; done).
  destruct (note_word_ok sz v s) as (d & Hn). set (t := s <| c_dev := d |>) in Hn.
  destruct (write_rdram_be sz (a - base) v t Hs) as (ram & Hrun & Hok & Hbytes); try lia.
  { by rewrite Zminus_mod, Ha, Hbm. }
  exists (t <| rdram := ram |>). split; [|split; [by split|split; [done|]]].
  - cbn [bus_write core_bus]. rewrite (bind_Ret _ _ _ _ _ Hn). cbn [write_mem]. unfold write_dispatch.
    rewrite bind_get_l, Hp. change (write_handler sz t a) with (write_handler sz s a). rewrite Hh. unfold write_rdram. by rewrite Ho.
  - intros x Hx. refine (eq_trans (Hbytes (x - base) ltac:(lia)) _). unfold written, width.
    replace (x - base - (a - base)) with (x - a) by lia.
    repeat case_cmp; cbn [andb]; try done; lia.
Qed.

#[export, refine] Instance ram_laws base (Hb : segment base) : BusLaws st base (base + 0x800000) := {
  mem_ok := ram_state_ok; mem_byte s x := ram_byte s (x - base) }.
Proof.
  - intros s a [Hs _]. by apply byte_at_range.
  - intros c s. by split.
  - intros sz a s. by apply read_ram.
  - intros sz a v s. by apply write_ram.
Defined.
End RamLaws.

(** ** Nested accesses *)

Section Nesting.
Context {Q : Type} `{EventQueue Q} `{Devices Q}.
#[local] Abbreviation st := (core Q).

(** A successful translation changes nothing and leads into the direct-mapped
    segments. *)
Lemma translated_address a w (m m' : machine Q) pa :
  tlb_ok m -> is_u32 a -> virtual_to_physical_address a w m = Ret (pa, m') -> pa <> 0 ->
  m' = m /\ 0x80000000 <= pa < 0xBF000000.
Proof.
  intros Hok Ha. rewrite translate_cases. unfold special_case.
  destruct (if _ && _ then _ else _) as [base|] eqn:Eg; intros Hv Hp.
  - injection Hv as <- <-. split; [done|]. destruct (_ && _); [|done].
    pose proof (land_le_mask a 0xFFFFFF ltac:(lia)).
    assert (base = 0xb0034b30 \/ base = 0xb00329f0 \/ base = 0xb0034b70) as Hb
      by (unfold goldeneye_base in Eg; repeat case_match; simplify_eq; auto).
    unfold u32. destruct Hb as [-> | [-> | ->]]; rewrite Z.mod_small; lia.
  - destruct (lut_translate _ a) as [x|] eqn:El.
    + injection Hv as -> <-. split; [done|].
      destruct (maps_outside_segments _ a pa m Hok (lut_translate_maps w a pa m Hok Ha El)). lia.
    + apply bind_inv in Hv as (u & m1 & _ & Hr). injection Hr as <- <-. done.
Qed.

(** There, nothing translates again. *)
Lemma no_second_translation a w (m : machine Q) :
  tlb_ok m -> 0x81000000 <= a < 0xBF000000 ->
  virtual_to_physical_address a w m = (TLB_refill_exception a w ;;; ret 0) m.
Proof.
  intros Hok Ha. assert (is_u32 a) as Hu by (unfold is_u32; lia). rewrite translate_cases.
  assert (special_case a m = None) as -> by (unfold special_case; repeat case_cmp; try lia; done).
  destruct (lut_translate _ a) as [x|] eqn:El; [|done].
  destruct (maps_outside_segments _ a x m Hok (lut_translate_maps w a x m Hok Hu El)). lia.
Qed.

(** After a failed translation the continuation is not reached. *)
Lemma failed_translation {A} a w (k : Z -> M st A) (r : A) (s : st) :
  tlb_ok (c_mach s) -> 0x81000000 <= a < 0xBF000000 ->
  (x <-- on_mach (virtual_to_physical_address a w) ;;; if x =? 0 then ret r else k x) s =
  (on_mach (virtual_to_physical_address a w) ;;; ret r) s.
Proof.
  intros Hok Ha. unfold bind, on_mach. rewrite (no_second_translation a w _ Hok Ha).
  unfold bind, obind. by destruct (TLB_refill_exception a w (c_mach s)) as [[[] m]|].
Qed.

(** The low pages need no translation. *)
Lemma direct_handlers a (s : st) sz :
  rom_fits s -> 0x80000000 <= a < 0x81000000 ->
  (read_handler s a = Rdram \/ read_handler s a = Nothing) /\
  (write_handler sz s a = Rdram \/ write_handler sz s a = Nothing).
Proof.
  intros Hr Ha. unfold read_handler, write_handler, page_of.
  replace (Z.shiftr a 16) with (0x8000 + (Z.shiftr a 16 - 0x8000)) by lia.
  destruct (low_pages (Z.shiftr (rom_size s) 16) (cfg_use_summercart s) sz (Z.shiftr a 16 - 0x8000) Hr) with (seg := 0x8000)
    as [-> ->]; [|by left|by case_cmp; auto].
  rewrite Z.shiftr_div_pow2 by lia. change (2 ^ 16) with 65536. Z.div_mod_to_equations. lia.
Qed.

Lemma read_direct again again' sz a (s : st) :
  tlb_ok (c_mach s) -> rom_fits s -> 0x80000000 <= a < 0xBF000000 ->
  read_dispatch again sz a s = read_dispatch again' sz a s.
Proof.
  intros Hok Hr Ha. unfold read_dispatch. rewrite !bind_get_l. destruct (_ <=? _); [reflexivity|].
  destruct (Z.lt_ge_cases a 0x81000000) as [Hlt|Hge].
  - destruct (direct_handlers a s sz Hr ltac:(lia)) as [[-> | ->] _]; reflexivity.
  - destruct (read_handler s a); try reflexivity; [|destruct (_ <? _); [reflexivity|]];
      rewrite !failed_translation; (exact Hok || lia || reflexivity).
Qed.

Lemma write_direct again again' sz a v (s : st) :
  tlb_ok (c_mach s) -> rom_fits s -> 0x80000000 <= a < 0xBF000000 ->
  write_dispatch again sz a v s = write_dispatch again' sz a v s.
Proof.
  intros Hok Hr Ha. unfold write_dispatch. rewrite !bind_get_l. destruct (_ <=? _); [reflexivity|].
  destruct (Z.lt_ge_cases a 0x81000000) as [Hlt|Hge].
  - destruct (direct_handlers a s sz Hr ltac:(lia)) as [_ [-> | ->]]; reflexivity.
  - destruct (write_handler sz s a); try reflexivity;
      [|destruct (_ <? _); [reflexivity|destruct sz; try reflexivity]];
      rewrite !failed_translation; (exact Hok || lia || reflexivity).
Qed.

(** One translation, and the access is direct. *)
Lemma translated_access {A} a w (k k' : Z -> M st A) (r : A) (s : st) :
  tlb_ok (c_mach s) -> is_u32 a ->
  (forall x, 0x80000000 <= x < 0xBF000000 -> k x s = k' x s) ->
  (x <-- on_mach (virtual_to_physical_address a w) ;;; if x =? 0 then ret r else k x) s =
  (x <-- on_mach (virtual_to_physical_address a w) ;;; if x =? 0 then ret r else k' x) s.
Proof.
  intros Hok Ha Hk. apply bind_ext. intros x s' E. unfold on_mach in E.
  destruct (virtual_to_physical_address a w (c_mach s)) as [[y m]|] eqn:Ev; [|done]. injection E as <- <-.
  destruct (Z.eqb_spec y 0) as [|Hy]; [done|].
  destruct (translated_address a w _ _ _ Hok Ha Ev Hy) as [-> Hb].
  assert (s <| c_mach := c_mach s |> = s) as -> by (by destruct s). by apply Hk.
Qed.

(** The dispatch itself ends when what it calls does. *)
Abbreviation finishes m := (ends (fun _ => True) m (fun _ _ => True)).

Ltac finishes_auto := ends_by ltac:(fun _ => apply spares_modify; intros; exact I).

Lemma finishes_on_mach {A} (f : M (machine Q) A) : finishes f -> finishes (on_mach f : M st A).
Proof. intros Hf s _. specialize (Hf (c_mach s) I). unfold on_mach. by destruct (f (c_mach s)) as [[]|]. Qed.

Lemma finishes_translation a w : finishes (on_mach (virtual_to_physical_address a w) : M st Z).
Proof.
  apply finishes_on_mach. unfold virtual_to_physical_address, TLB_refill_exception, leave_exception, goto_vector,
    jump_to_mapped, update_count, set_BD, clear_BD. finishes_auto.
Qed.

Lemma finishes_load arr len n off : finishes (load_from arr len n off : M st Z).
Proof. unfold load_from. finishes_auto. Qed.
Lemma finishes_store_rdram n off v : finishes (store_rdram n off v : M st unit).
Proof. unfold store_rdram. finishes_auto. Qed.
Lemma finishes_store_sp n off v : finishes (store_sp n off v : M st unit).
Proof. unfold store_sp. finishes_auto. Qed.
#[local] Hint Resolve finishes_translation finishes_load finishes_store_rdram finishes_store_sp : ends.

Lemma finishes_read_dispatch again sz a :
  (forall h sz a, finishes (dev_read h sz a : M st _)) -> (forall sz a, finishes (again sz a)) ->
  finishes (read_dispatch again sz a : M st _).
Proof.
  intros Hd Hg. unfold read_dispatch, read_rdram, read_sp, load_swapped. finishes_auto.
Qed.
Lemma finishes_write_dispatch again sz a v :
  (forall h sz a v, finishes (dev_write h sz a v : M st _)) -> (forall sz a v, finishes (again sz a v)) ->
  finishes (write_dispatch again sz a v : M st _).
Proof.
  intros Hd Hg. unfold write_dispatch, write_rdram, write_sp, store_swapped. finishes_auto.
Qed.

Lemma spares_of {A} (m : M st A) : (forall s, m s <> Undef Diverges) -> finishes m.
Proof. intros Hm s _. specialize (Hm s). destruct (m s) as [[]|f]; [done|congruence]. Qed.
Lemma finishes_not {A} (m : M st A) s : finishes m -> m s <> Undef Diverges.
Proof. intros Hm E. specialize (Hm s I). by rewrite E in Hm. Qed.

(** The second nested call is never made: what it would do is immaterial. *)
Lemma read_nests_once again again' sz a (s : st) :
  tlb_ok (c_mach s) -> rom_fits s -> is_u32 a ->
  read_dispatch (read_dispatch again) sz a s = read_dispatch (read_dispatch again') sz a s.
Proof.
  intros Hok Hr Ha. unfold read_dispatch at 1 3. rewrite !bind_get_l. destruct (_ <=? _); [reflexivity|].
  destruct (read_handler s a); try reflexivity; [|destruct (_ <? _); [reflexivity|]];
    (apply translated_access; [exact Hok|exact Ha|]; intros x Hx; exact (read_direct _ _ sz x s Hok Hr Hx)).
Qed.
Lemma write_nests_once again again' sz a v (s : st) :
  tlb_ok (c_mach s) -> rom_fits s -> is_u32 a ->
  write_dispatch (write_dispatch again) sz a v s = write_dispatch (write_dispatch again') sz a v s.
Proof.
  intros Hok Hr Ha. unfold write_dispatch at 1 3. rewrite !bind_get_l. destruct (_ <=? _); [reflexivity|].
  destruct (write_handler sz s a); try reflexivity;
    [|destruct (_ <? _); [reflexivity|destruct sz; try reflexivity]];
    (apply translated_access; [exact Hok|exact Ha|]; intros x Hx; exact (write_direct _ _ _ x v s Hok Hr Hx)).
Qed.
End Nesting.

(** C20.  A memory access ends after at most one address translation, whatever
    the TLB holds: the dispatch through the handler tables calls itself at most
    once, since the call inside the second one is never made - the result is the
    same whatever that call would do, and in particular whatever nesting beyond
    [read_mem 2] is allowed.  So an access never runs on for ever, provided the
    handlers of the device registers themselves return. *)
Theorem memory_access_terminates {Q} `{EventQueue Q} `{Devices Q} (s : core Q) sz a v :
  tlb_ok (c_mach s) -> rom_fits s -> is_u32 a ->
  (forall again again',
     read_dispatch (read_dispatch again) sz a s = read_dispatch (read_dispatch again') sz a s) /\
  (forall again again',
     write_dispatch (write_dispatch again) sz a v s = write_dispatch (write_dispatch again') sz a v s) /\
  (forall n, read_mem (2 + n) sz a s = read_mem 2 sz a s /\ write_mem (2 + n) sz a v s = write_mem 2 sz a v s) /\
  ((forall h sz a s, dev_read h sz a s <> Undef Diverges) -> read_mem 2 sz a s <> Undef Diverges) /\
  ((forall h sz a v s, dev_write h sz a v s <> Undef Diverges) -> write_mem 2 sz a v s <> Undef Diverges).
Proof.
  intros Hok Hr Ha. split_and!.
  - intros again again'. by apply read_nests_once.
  - intros again again'. by apply write_nests_once.
  - intros n. split; [by apply read_nests_once|by apply write_nests_once].
  - intros Hd. change (read_dispatch (read_dispatch (read_mem 0)) sz a s <> Undef Diverges).
    rewrite (read_nests_once _ (fun _ _ => undef OutOfBounds)) by done.
    apply finishes_not. pose proof (fun h sz a => spares_of _ (Hd h sz a)) as Hd'.
    apply finishes_read_dispatch; [exact Hd'|]. intros. apply finishes_read_dispatch; [exact Hd'|].
    intros. by apply spares_undef.
  - intros Hd. change (write_dispatch (write_dispatch (write_mem 0)) sz a v s <> Undef Diverges).
    rewrite (write_nests_once _ (fun _ _ _ => undef OutOfBounds)) by done.
    apply finishes_not. pose proof (fun h sz a v => spares_of _ (Hd h sz a v)) as Hd'.
    apply finishes_write_dispatch; [exact Hd'|]. intros. apply finishes_write_dispatch; [exact Hd'|].
    intros. by apply spares_undef.
Qed.

(** ** The two segments *)

Definition device_pages : list (Z * Z * Z * handler) :=
  [(0x440, 0, 1, Vi); (0x440, 1, 0x10, Nothing); (0x450, 0, 1, Ai); (0x450, 1, 0x10, Nothing);
   (0x460, 0, 1, Pi); (0x460, 1, 0x10, Nothing); (0x470, 0, 1, Ri); (0x470, 1, 0x10, Nothing);
   (0x480, 0, 1, Si); (0, 0x481, 0x800, Nothing)].
Definition low_segment : list (Z * Z * Z * handler) :=
  [(0, 0, 0x80, Rdram); (0, 0x80, 0x3F0, Nothing); (0x3f0, 0, 1, Rdramreg); (0x3f0, 1, 0x10, Nothing);
   (0x400, 0, 1, RspMem); (0x400, 1, 4, Nothing); (0x404, 0, 1, RspReg); (0x400, 5, 8, Nothing);
   (0x408, 0, 1, Rsp); (0x400, 9, 0x10, Nothing); (0x410, 0, 1, Dp); (0x410, 1, 0x10, Nothing);
   (0x420, 0, 1, Dps); (0x420, 1, 0x10, Nothing)].
Definition high_segment (rom_pages : Z) (sc : bool) : list (Z * Z * Z * handler) :=
  [(0x1000, rom_pages, 0xfc0, Nothing); (0x1fc0, 0, 1, Pif); (0x1000, 0xfc1, 0x1000, Nothing)] ++
  (if sc then [(0x1fff, 0, 1, Sc)] else []).
Definition after_mi (rom_pages : Z) (sc : bool) : list (Z * Z * Z * handler) :=
  (0x430, 1, 0x10, Nothing) :: device_pages ++
  [(0x800, 0, 1, FlashramStatus); (0x801, 0, 1, Nothing); (0, 0x802, 0x1000, Nothing);
   (0x1000, 0, rom_pages, Rom)] ++ high_segment rom_pages sc.
Definition before_rom : list (Z * Z * Z * handler) :=
  low_segment ++ (0x430, 0, 1, Mi) :: (0x430, 1, 0x10, Nothing) :: device_pages ++
  [(0x800, 0, 1, FlashramDummy); (0x801, 0, 1, FlashramCommand); (0, 0x802, 0x1000, Nothing)].

Lemma tables_as_pairs sz rom_pages sc :
  read_table rom_pages sc = flat_map pair_up low_segment ++
    [Assign 0xa830 0 1 Mi; Assign 0xa430 0 1 Mi] ++ flat_map pair_up (after_mi rom_pages sc) /\
  write_table sz rom_pages sc = flat_map pair_up before_rom ++
    [Assign 0x9000 0 rom_pages Nothing; Assign 0xb000 0 rom_pages (match sz with W => Rom | _ => Nothing end)] ++
    flat_map pair_up (high_segment rom_pages sc).
Proof. split; destruct sc; reflexivity. Qed.

Lemma all_in_segment rom_pages sc :
  0 <= rom_pages <= 0xfc0 ->
  Forall in_segment low_segment /\ Forall in_segment before_rom /\ Forall in_segment (high_segment rom_pages sc) /\
  Forall in_segment (after_mi rom_pages sc).
Proof.
  intros Hr. destruct sc; split_and!; cbv [low_segment before_rom high_segment after_mi device_pages app];
    repeat (apply Forall_cons_2; [unfold in_segment; lia|]); apply Forall_nil_2.
Qed.

(** The handler of a page of either segment. *)
Lemma read_segment rom_pages sc p seg :
  0 <= rom_pages <= 0xfc0 -> 0 <= p < 0x2000 -> seg = 0x8000 \/ seg = 0xa000 ->
  handler_at (read_table rom_pages sc) (seg + p) =
    segment_fold (after_mi rom_pages sc) p
      (if (seg =? 0xa000) && ((p =? 0x430) || (p =? 0x830)) then Mi else segment_fold low_segment p Nomem).
Proof.
  intros Hr Hp Hs. destruct (all_in_segment rom_pages sc Hr) as (H1 & _ & _ & H4).
  rewrite (proj1 (tables_as_pairs W rom_pages sc)), !handler_at_app, fold_left_app.
  unfold handler_at at 1. rewrite !pair_up_fold by done. f_equal. cbn [fold_left]. unfold covers.
  cbn [a_base a_first a_last a_handler]. destruct Hs as [-> | ->]; repeat case_cmp; cbn [andb orb]; try done; lia.
Qed.

Lemma write_segment sz rom_pages sc p seg :
  0 <= rom_pages <= 0xfc0 -> 0 <= p < 0x2000 -> seg = 0x8000 \/ seg = 0xa000 ->
  sz <> W \/ ~ (0x1000 <= p < 0x1000 + rom_pages) ->
  handler_at (write_table sz rom_pages sc) (seg + p) =
    segment_fold (high_segment rom_pages sc) p
      (if (0x1000 <=? p) && (p <? 0x1000 + rom_pages) then Nothing else segment_fold before_rom p Nomem).
Proof.
  intros Hr Hp Hs Hw. destruct (all_in_segment rom_pages sc Hr) as (_ & H2 & H3 & _).
  rewrite (proj2 (tables_as_pairs sz rom_pages sc)), !handler_at_app, fold_left_app.
  unfold handler_at at 1. rewrite !pair_up_fold by done. f_equal. cbn [fold_left]. unfold covers.
  cbn [a_base a_first a_last a_handler].
  destruct Hs as [-> | ->], sz; repeat case_cmp; cbn [andb]; try done; destruct Hw; try done; lia.
Qed.

(** The uncached segment mirrors the cached one: the same handlers serve a
    page of 0x8000-0x9FFF and the page 0x2000 above it, except that the MI
    registers cannot be read through the cached segment (their pages are assigned
    to 0xA830, where a later assignment replaces them), and that only the uncached
    cartridge takes word writes. *)
Theorem segments_mirrored rom_pages sc p :
  0 <= rom_pages <= 0xfc0 -> 0 <= p < 0x2000 ->
  (p <> 0x430 -> handler_at (read_table rom_pages sc) (0x8000 + p) = handler_at (read_table rom_pages sc) (0xa000 + p)) /\
  (handler_at (read_table rom_pages sc) 0xa430 = Mi /\ handler_at (read_table rom_pages sc) 0x8430 = Nomem) /\
  (forall sz, sz <> W \/ ~ (0x1000 <= p < 0x1000 + rom_pages) ->
     handler_at (write_table sz rom_pages sc) (0x8000 + p) = handler_at (write_table sz rom_pages sc) (0xa000 + p)).
Proof.
  intros Hr Hp. assert ((0x1000 + rom_pages <=? 0x430) = false) as Eb by (apply Z.leb_gt; lia).
  split; [|split; [split|]].
  - intros Hne. rewrite !read_segment by (done || tauto). change (0x8000 =? 0xa000) with false.
    change (0xa000 =? 0xa000) with true. cbn [andb]. apply Z.eqb_neq in Hne. rewrite Hne. cbn [orb].
    destruct (Z.eqb_spec p 0x830) as [->|]; [|done]. destruct sc; reflexivity.
  - change 0xa430 with (0xa000 + 0x430). rewrite read_segment by (lia || tauto).
    destruct sc; cbv [segment_fold fold_left after_mi low_segment device_pages high_segment app]; by rewrite Eb.
  - change 0x8430 with (0x8000 + 0x430). rewrite read_segment by (lia || tauto).
    destruct sc; cbv [segment_fold fold_left after_mi low_segment device_pages high_segment app]; by rewrite Eb.
  - intros sz Hw. by rewrite !write_segment by (done || tauto).
Qed.

(** ** Examples *)

(** Device registers that read zero and ignore writes. *)
#[local] Instance silent_devices : Devices irq := {
  dev_read _ _ _ := ret (Some 0); dev_write _ _ _ _ := ret tt }.

(** A machine after reset, with 8 MiB of cartridge. *)
Definition reset_core : core irq :=
  mk_core (replicate 32 0) 0 0 (machine_with irq_init cop0_zero core_mips_reg_zero)
    (Cop1 0x511 0 0 (replicate 32 0) (seq 0 32) (seq 0 32)) 0 0 0 0 ∅ ∅ ∅ 0x800000 false false devices_zero.

Lemma reset_core_ok : ram_state_ok reset_core /\ tlb_ok (c_mach reset_core).
Proof.
  split; [|by apply start_exact]. split; [exact (map_Forall_empty _)|]. unfold rom_fits. by vm_compute.
Qed.

Lemma memory_access_terminates_witness :
  read_mem 100 W 0x2000 reset_core = read_mem 2 W 0x2000 reset_core /\
  write_mem 2 W 0x2000 7 reset_core <> Undef Diverges /\ is_ret (read_mem 2 W 0x2000 reset_core) = true.
Proof.
  destruct reset_core_ok as [[_ Hr] Ht].
  destruct (memory_access_terminates reset_core W 0x2000 7 Ht Hr) as (_ & _ & Hn & _ & Hw); [unfold is_u32; lia|].
  split_and!; [apply (Hn 98%nat)|apply Hw; intros; discriminate|reflexivity].
Defined.

Lemma segments_mirrored_witness :
  handler_at (read_table 0x200 false) 0x8480 = handler_at (read_table 0x200 false) 0xa480 /\
  handler_at (read_table 0x200 false) 0x8430 = Nomem.
Proof.
  destruct (segments_mirrored 0x200 false 0x480) as (H1 & [_ H2] & _); [lia|lia|].
  split; [apply H1; lia|exact H2].
Defined.

(** C19.  RDRAM behaves as big-endian memory in both segments, although the host
    stores its words little-endian: an aligned access of any size reads the value
    its bytes spell, first byte most significant, and writes exactly these bytes. *)
Theorem rdram_is_big_endian {Q} `{EventQueue Q} `{Devices Q} base sz a v (s : core Q) :
  segment base -> ram_state_ok s -> base <= a -> a + width sz <= base + 0x800000 -> a mod width sz = 0 ->
  bus_read sz a s = Ret ((a, Some (be_value (fun x => ram_byte s (x - base)) a (bytes_of sz))), s) /\
  exists s', bus_write sz a v s = Ret (tt, s') /\ ram_state_ok s' /\ get_cpu s' = get_cpu s /\
    forall x, base <= x < base + 0x800000 -> ram_byte s' (x - base) =
      if (a <=? x) && (x <? a + width sz) then be_byte_of (bytes_of sz) v (x - a) else ram_byte s (x - base).
Proof. intros Hb Hs Hlo Hhi Ha. split; [by apply read_ram|by apply write_ram]. Qed.

Lemma rdram_is_big_endian_witness :
  exists s, bus_write H 0xa0000102 0xABCD reset_core = Ret (tt, s) /\
    ram_byte s 0x102 = 0xAB /\ ram_byte s 0x103 = 0xCD /\ ram_byte s 0x104 = 0.
Proof.
  destruct reset_core_ok as [Hs _].
  destruct (rdram_is_big_endian 0xa0000000 H 0xa0000102 0xABCD reset_core) as (_ & s & Hrun & _ & _ & Hb);
    [by right|exact Hs|unfold width; cbn; lia|unfold width; cbn; lia|reflexivity|].
  exists s. split; [exact Hrun|].
  pose proof (Hb 0xa0000102 ltac:(lia)) as H2. pose proof (Hb 0xa0000103 ltac:(lia)) as H3.
  pose proof (Hb 0xa0000104 ltac:(lia)) as H4. split_and!; [exact H2|exact H3|exact H4].
Defined.
