(* ===== verification/LoadStore.v ===== *)
(** * The memory instructions (pure_interp.cpp)

    Loads and stores of the pure interpreter, aligned and unaligned, over the
    interfaces of [Core]: they compute an address, go through the bus, and merge
    what they read into the register or what they write into the old contents.
    A failed access leaves the destination of the read as it is; the register is
    then still sign-extended or merged with the zero in the temporary.  The
    unaligned stores write to wherever their read has left [address]. *)

From S2P Require Import Prelude Alu Core.

Open Scope prog_scope.
#[local] Open Scope Z_scope.

Section Instructions.
Context {S : Type} `{CpuState S} `{Bus S}.

(** [core_iimmediate + irs32] *)
Definition address_of (f : fields) (c : cpu) : Z := u32 (immediate f + irs32 f c).

(** [rdword = (uint64_t* )&core_irt] and the read; with [rdword = &word]. *)
Definition load_reg (r : nat) (sz : size) (a : Z) : M S unit :=
  r' <-- bus_read sz a ;;;
  match r'.2 with Some v => on_cpu (set_reg r (s64 v)) | None => ret tt end.
Definition load_word (sz : size) (a : Z) : M S (Z * Z) :=
  r' <-- bus_read sz a ;;; ret (r'.1, default 0 r'.2).

Definition irt (f : fields) (c : cpu) : Z := reg c !!! rt f.

(** [sign_extendedb] and [sign_extendedh]. *)
Definition sign_extendedb (r : nat) : M cpu unit := modify (fun c => c <| reg := <[r := s8 (reg c !!! r)]> (reg c) |>).
Definition sign_extendedh (r : nat) : M cpu unit := modify (fun c => c <| reg := <[r := s16 (reg c !!! r)]> (reg c) |>).

Definition with_address (f : fields) (k : Z -> M S unit) : M S unit :=
  c <-- cpu_now ;;; on_cpu next ;;; k (address_of f c).

Definition LB (f : fields) : M S unit := with_address f (fun a => load_reg (rt f) B a ;;; on_cpu (sign_extendedb (rt f))).
Definition LH (f : fields) : M S unit := with_address f (fun a => load_reg (rt f) H a ;;; on_cpu (sign_extendedh (rt f))).
Definition LW (f : fields) : M S unit := with_address f (fun a => load_reg (rt f) W a ;;; on_cpu (sign_extended (rt f))).
Definition LBU (f : fields) : M S unit := with_address f (fun a => load_reg (rt f) B a).
Definition LHU (f : fields) : M S unit := with_address f (fun a => load_reg (rt f) H a).
Definition LWU (f : fields) : M S unit := with_address f (fun a => load_reg (rt f) W a).
Definition LD (f : fields) : M S unit := with_address f (fun a => load_reg (rt f) D a).

Definition LL (f : fields) : M S unit :=
  with_address f (fun a => load_reg (rt f) W a ;;; on_cpu (sign_extended (rt f)) ;;; modify (put_llbit 1)).

Definition SB (f : fields) : M S unit :=
  with_address f (fun a => c <-- cpu_now ;;; bus_write B a (u8 (Z.land (irt f c) 0xFF))).
Definition SH (f : fields) : M S unit :=
  with_address f (fun a => c <-- cpu_now ;;; bus_write H a (u16 (Z.land (irt f c) 0xFFFF))).
Definition SW (f : fields) : M S unit :=
  with_address f (fun a => c <-- cpu_now ;;; bus_write W a (u32 (Z.land (irt f c) 0xFFFFFFFF))).
Definition SD (f : fields) : M S unit :=
  with_address f (fun a => c <-- cpu_now ;;; bus_write D a (u64 (irt f c))).

Definition SC (f : fields) : M S unit :=
  with_address f (fun a =>
    s <-- get ;;;
    if c_true (get_llbit s) then
      bus_write W a (u32 (Z.land (irt f (get_cpu s)) 0xFFFFFFFF)) ;;;
      modify (put_llbit 0) ;;; on_cpu (set_reg (rt f) 1)
    else on_cpu (set_reg (rt f) 0)).

(** [core_irt = (core_irt & keep) | part(word);] with [word] read at [a]. *)
Definition merge_reg (f : fields) (sz : size) (a keep : Z) (part : Z -> Z) : M S unit :=
  r' <-- load_word sz a ;;; let word := r'.2 in
  on_cpu (modify (fun c => c <| reg := <[rt f := s64 (Z.lor (Z.land (irt f c) keep) (part word))]> (reg c) |>)).

Definition word_at (a : Z) : Z := Z.land a 0xFFFFFFFC.
Definition dword_at (a : Z) : Z := Z.land a 0xFFFFFFF8.
Definition up (k word : Z) : Z := u64 (Z.shiftl word k).
Definition down (k word : Z) : Z := Z.shiftr word k.

Definition LWL (f : fields) : M S unit :=
  with_address f (fun a =>
    (match Z.land a 3 with
     | 0 => load_reg (rt f) W a
     | 1 => merge_reg f W (word_at a) 0xFF (up 8)
     | 2 => merge_reg f W (word_at a) 0xFFFF (up 16)
     | _ => merge_reg f W (word_at a) 0xFFFFFF (up 24)
     end) ;;;
    on_cpu (sign_extended (rt f))).

Definition LWR (f : fields) : M S unit :=
  with_address f (fun a =>
    match Z.land a 3 with
    | 0 => merge_reg f W (word_at a) 0xFFFFFFFFFFFFFF00 (fun word => Z.land (down 24 word) 0xFF)
    | 1 => merge_reg f W (word_at a) 0xFFFFFFFFFFFF0000 (fun word => Z.land (down 16 word) 0xFFFF)
    | 2 => merge_reg f W (word_at a) 0xFFFFFFFFFF000000 (fun word => Z.land (down 8 word) 0xFFFFFF)
    | _ => load_reg (rt f) W (word_at a) ;;; on_cpu (sign_extended (rt f))
    end).

Definition LDL (f : fields) : M S unit :=
  with_address f (fun a =>
    match Z.land a 7 with
    | 0 => load_reg (rt f) D a
    | 1 => merge_reg f D (dword_at a) 0xFF (up 8)
    | 2 => merge_reg f D (dword_at a) 0xFFFF (up 16)
    | 3 => merge_reg f D (dword_at a) 0xFFFFFF (up 24)
    | 4 => merge_reg f D (dword_at a) 0xFFFFFFFF (up 32)
    | 5 => merge_reg f D (dword_at a) 0xFFFFFFFFFF (up 40)
    | 6 => merge_reg f D (dword_at a) 0xFFFFFFFFFFFF (up 48)
    | _ => merge_reg f D (dword_at a) 0xFFFFFFFFFFFFFF (up 56)
    end).

Definition LDR (f : fields) : M S unit :=
  with_address f (fun a =>
    match Z.land a 7 with
    | 0 => merge_reg f D (dword_at a) 0xFFFFFFFFFFFFFF00 (down 56)
    | 1 => merge_reg f D (dword_at a) 0xFFFFFFFFFFFF0000 (down 48)
    | 2 => merge_reg f D (dword_at a) 0xFFFFFFFFFF000000 (down 40)
    | 3 => merge_reg f D (dword_at a) 0xFFFFFFFF00000000 (down 32)
    | 4 => merge_reg f D (dword_at a) 0xFFFFFF0000000000 (down 24)
    | 5 => merge_reg f D (dword_at a) 0xFFFF000000000000 (down 16)
    | 6 => merge_reg f D (dword_at a) 0xFF00000000000000 (down 8)
    | _ => load_reg (rt f) D (dword_at a)
    end).

(** Read the old contents at [a] and write [part(irt) | (old & keep)] back, to where
    the read has left [address]. *)
Definition merge_mem (f : fields) (sz : size) (a : Z) (part : Z -> Z) (keep : Z) : M S unit :=
  r' <-- load_word sz a ;;; let '(a', old) := r' in
  c <-- cpu_now ;;;
  bus_write sz a' (Z.lor (part (irt f c)) (Z.land old keep)).

Definition SWL (f : fields) : M S unit :=
  with_address f (fun a =>
    match Z.land a 3 with
    | 0 => c <-- cpu_now ;;; bus_write W (word_at a) (u32 (irt f c))
    | 1 => merge_mem f W (word_at a) (fun v => Z.shiftr (u32 v) 8) 0xFF000000
    | 2 => merge_mem f W (word_at a) (fun v => Z.shiftr (u32 v) 16) 0xFFFF0000
    | _ => c <-- cpu_now ;;; bus_write B a (u8 (Z.shiftr (irt f c) 24))
    end).

Definition SWR (f : fields) : M S unit :=
  with_address f (fun a =>
    match Z.land a 3 with
    | 0 => merge_mem f W a (fun v => u32 (Z.shiftl (u32 v) 24)) 0x00FFFFFF
    | 1 => merge_mem f W (word_at a) (fun v => u32 (Z.shiftl (u32 v) 16)) 0x0000FFFF
    | 2 => merge_mem f W (word_at a) (fun v => u32 (Z.shiftl (u32 v) 8)) 0x000000FF
    | _ => c <-- cpu_now ;;; bus_write W (word_at a) (u32 (irt f c))
    end).

Definition SDL (f : fields) : M S unit :=
  with_address f (fun a =>
    match Z.land a 7 with
    | 0 => c <-- cpu_now ;;; bus_write D (dword_at a) (u64 (irt f c))
    | 1 => merge_mem f D (dword_at a) (fun v => Z.shiftr (u64 v) 8) 0xFF00000000000000
    | 2 => merge_mem f D (dword_at a) (fun v => Z.shiftr (u64 v) 16) 0xFFFF000000000000
    | 3 => merge_mem f D (dword_at a) (fun v => Z.shiftr (u64 v) 24) 0xFFFFFF0000000000
    | 4 => merge_mem f D (dword_at a) (fun v => Z.shiftr (u64 v) 32) 0xFFFFFFFF00000000
    | 5 => merge_mem f D (dword_at a) (fun v => Z.shiftr (u64 v) 40) 0xFFFFFFFFFF000000
    | 6 => merge_mem f D (dword_at a) (fun v => Z.shiftr (u64 v) 48) 0xFFFFFFFFFFFF0000
    | _ => merge_mem f D (dword_at a) (fun v => Z.shiftr (u64 v) 56) 0xFFFFFFFFFFFFFF00
    end).

Definition SDR (f : fields) : M S unit :=
  with_address f (fun a =>
    match Z.land a 7 with
    | 0 => merge_mem f D a (fun v => u64 (Z.shiftl v 56)) 0x00FFFFFFFFFFFFFF
    | 1 => merge_mem f D (dword_at a) (fun v => u64 (Z.shiftl v 48)) 0x0000FFFFFFFFFFFF
    | 2 => merge_mem f D (dword_at a) (fun v => u64 (Z.shiftl v 40)) 0x000000FFFFFFFFFF
    | 3 => merge_mem f D (dword_at a) (fun v => u64 (Z.shiftl v 32)) 0x00000000FFFFFFFF
    | 4 => merge_mem f D (dword_at a) (fun v => u64 (Z.shiftl v 24)) 0x0000000000FFFFFF
    | 5 => merge_mem f D (dword_at a) (fun v => u64 (Z.shiftl v 16)) 0x000000000000FFFF
    | 6 => merge_mem f D (dword_at a) (fun v => u64 (Z.shiftl v 8)) 0x00000000000000FF
    | _ => c <-- cpu_now ;;; bus_write D (dword_at a) (u64 (irt f c))
    end).

Definition CACHE (f : fields) : M S unit := on_cpu next.

End Instructions.
