(* ===== verification/LoadStoreProps.v ===== *)
(** * What the memory instructions guarantee

    Proved against the interfaces of [Core], so for every memory that keeps the
    promises of [BusLaws]; RDRAM is one. *)

From S2P Require Import Prelude Pool Machine Exception Alu DeviceState Core Bus BusProps LoadStore.

Open Scope prog_scope.
#[local] Open Scope Z_scope.

(** ** Bytes of values *)

(** An unaligned value straddles two aligned ones. *)
Lemma unaligned_value byte a (n k : nat) :
  (forall x, is_u8 (byte x)) -> (k <= n)%nat ->
  let w := be_value byte a n in
  let w' := be_value byte (a + Z.of_nat n) n in
  let m := 2 ^ (8 * (Z.of_nat n - Z.of_nat k)) in
  be_value byte (a + Z.of_nat k) n = (w mod m) * 2 ^ (8 * Z.of_nat k) + w' / m.
Proof.
  intros Hb Hk w w' m. assert (0 < m) by (apply Z.pow_pos_nonneg; lia).
  assert (256 ^ Z.of_nat (n - k) = m) as Em by (rewrite pow_256; unfold m; f_equal; lia).
  assert (w = be_value byte a k * m + be_value byte (a + Z.of_nat k) (n - k)) as Ew.
  { unfold w. rewrite <- Em, <- be_value_app. f_equal. lia. }
  assert (w' = be_value byte (a + Z.of_nat n) k * m + be_value byte (a + Z.of_nat n + Z.of_nat k) (n - k)) as Ew'.
  { unfold w'. rewrite <- Em, <- be_value_app. f_equal. lia. }
  pose proof (be_value_bound byte (a + Z.of_nat k) (n - k) Hb) as B1.
  pose proof (be_value_bound byte (a + Z.of_nat n + Z.of_nat k) (n - k) Hb) as B2. rewrite Em in B1, B2.
  rewrite Ew, Ew'. rewrite (Z.add_comm (_ * m)), Z.mod_add, Z.mod_small by lia.
  rewrite (Z.add_comm (_ * m)), Z.div_add, Z.div_small by lia.
  replace n with ((n - k) + k)%nat at 1 by lia. rewrite be_value_app, pow_256.
  replace (a + Z.of_nat k + Z.of_nat (n - k)) with (a + Z.of_nat n) by lia. lia.
Qed.

(** Keep the low bits of a register, or the high ones. *)
Lemma keep_low old n w : 0 <= n <= 64 ->
  Z.lor (Z.land old (2 ^ n - 1)) (u64 (Z.shiftl w n)) = old mod 2 ^ n + (w mod 2 ^ (64 - n)) * 2 ^ n.
Proof.
  intros Hn. replace (2 ^ n - 1) with (Z.ones n) by (rewrite Z.ones_equiv; lia).
  rewrite Z.land_ones, Z.shiftl_mul_pow2 by lia. unfold u64. change 18446744073709551616 with (2 ^ 64).
  replace ((w * 2 ^ n) mod 2 ^ 64) with ((w mod 2 ^ (64 - n)) * 2 ^ n).
  2: { replace (2 ^ 64) with (2 ^ (64 - n) * 2 ^ n) by (rewrite <- Z.pow_add_r by lia; f_equal; lia).
       rewrite Z.mul_mod_distr_r; [done|apply Z.pow_nonzero; lia..]. }
  rewrite Z.lor_comm, lor_add_shift; [lia|lia|]. apply Z.mod_pos_bound. apply Z.pow_pos_nonneg; lia.
Qed.

Lemma keep_high old n v : 0 <= n <= 64 -> 0 <= v < 2 ^ n ->
  Z.lor (Z.land old (2 ^ 64 - 2 ^ n)) v = (u64 old / 2 ^ n) * 2 ^ n + v.
Proof.
  intros Hn Hv. assert (Z.land old (2 ^ 64 - 2 ^ n) = (u64 old / 2 ^ n) * 2 ^ n) as ->; [|apply lor_add_shift; lia].
  pose proof (land_split old (2 ^ 64 - 2 ^ n) (Z.ones n)) as E.
  assert (2 ^ 64 - 2 ^ n = (2 ^ (64 - n) - 1) * 2 ^ n) as Em.
  { rewrite Z.mul_sub_distr_r, <- Z.pow_add_r by lia. f_equal; [f_equal|]; lia. }
  assert (0 <= Z.ones n < 2 ^ n) as Ho by (rewrite Z.ones_equiv; assert (0 < 2 ^ n) by (apply Z.pow_pos_nonneg; lia); lia).
  rewrite Em in *. rewrite land_shift_disjoint in E by lia. specialize (E eq_refl).
  rewrite lor_add_shift in E by lia.
  replace ((2 ^ (64 - n) - 1) * 2 ^ n + Z.ones n) with (Z.ones 64) in E by (rewrite !Z.ones_equiv; lia).
  rewrite !Z.land_ones in E by lia. unfold u64. change 18446744073709551616 with (2 ^ 64).
  assert (old mod 2 ^ n = (old mod 2 ^ 64) mod 2 ^ n) as E2.
  { replace (2 ^ 64) with (2 ^ n * 2 ^ (64 - n)) by (rewrite <- Z.pow_add_r by lia; f_equal; lia).
    rewrite Z.rem_mul_r, (Z.mul_comm (2 ^ n)), Z.mod_add, Z.mod_mod; try done; try (apply Z.pow_nonzero; lia).
    apply Z.pow_pos_nonneg; lia. }
  rewrite E2 in E. pose proof (Z.div_mod (old mod 2 ^ 64) (2 ^ n) ltac:(apply Z.pow_nonzero; lia)). lia.
Qed.

(** ** Loads *)

Section Loads.
Context {S : Type} `{CpuState S} `{!CpuLaws S} `{Bus S} {lo hi : Z} `{!BusLaws S lo hi}.
Implicit Types (s : S) (f : fields) (c : cpu).

(** The registers after an instruction with result [v]. *)
Definition loaded f (v : Z) c : cpu := c <| reg := <[rt f := v]> (reg c) |> <| pc := u32 (pc c + 4) |>.

(** An aligned access inside the memory. *)
Definition access_ok (sz : size) (a : Z) : Prop := lo <= a /\ a + width sz <= hi /\ a mod width sz = 0.

Definition value_at s (sz : size) (a : Z) : Z := be_value (mem_byte s) a (bytes_of sz).

Lemma with_address_ok f (k : Z -> M S unit) s :
  with_address f k s =
    k (address_of f (get_cpu s)) (put_cpu ((get_cpu s) <| pc := u32 (pc (get_cpu s) + 4) |>) s).
Proof. reflexivity. Qed.

Lemma on_cpu_ok {A} (m : M cpu A) s a c : m (get_cpu s) = Ret (a, c) -> on_cpu m s = Ret (a, put_cpu c s).
Proof. intros E. unfold on_cpu. by rewrite E. Qed.

Lemma read_ok sz a s :
  mem_ok s -> access_ok sz a -> bus_read sz a s = Ret ((a, Some (value_at s sz a)), s).
Proof. intros Hs (Hl & Hh & Ha). by apply mem_read. Qed.

Lemma load_reg_ok r sz a s c :
  mem_ok s -> access_ok sz a ->
  load_reg r sz a (put_cpu c s) = Ret (tt, put_cpu (c <| reg := <[r := s64 (value_at s sz a)]> (reg c) |>) s).
Proof.
  intros Hs Ha. destruct (mem_cpu c s) as [Hok Hm]. unfold load_reg.
  rewrite (bind_Ret _ _ _ _ _ (read_ok sz a (put_cpu c s) (Hok Hs) Ha)). cbn [snd].
  erewrite on_cpu_ok by reflexivity. rewrite put_put_cpu, get_put_cpu.
  do 3 f_equal. unfold value_at. erewrite be_value_ext; [reflexivity|]. intros; apply Hm.
Qed.

Lemma merge_reg_ok f sz a keep part s c :
  mem_ok s -> access_ok sz a ->
  merge_reg f sz a keep part (put_cpu c s) =
    Ret (tt, put_cpu (c <| reg := <[rt f := s64 (Z.lor (Z.land (irt f c) keep) (part (value_at s sz a)))]> (reg c) |>) s).
Proof.
  intros Hs Ha. destruct (mem_cpu c s) as [Hok Hm]. unfold merge_reg, load_word. rewrite bind_assoc.
  rewrite (bind_Ret _ _ _ _ _ (read_ok sz a (put_cpu c s) (Hok Hs) Ha)). cbn [fst snd default].
  rewrite bind_ret_l. erewrite on_cpu_ok by reflexivity. rewrite put_put_cpu, get_put_cpu.
  assert (value_at (put_cpu c s) sz a = value_at s sz a) as E by (apply be_value_ext; intros; apply Hm).
  cbn [snd]. unfold id. rewrite E. reflexivity.
Qed.

(** Sign extension of what was just stored. *)
Lemma extend_ok (g : Z -> Z) r v c s :
  (r < length (reg c))%nat ->
  on_cpu (modify (fun c => c <| reg := <[r := g (reg c !!! r)]> (reg c) |>)) (put_cpu (c <| reg := <[r := v]> (reg c) |>) s)
    = Ret (tt, put_cpu (c <| reg := <[r := g v]> (reg c) |>) s).
Proof.
  intros Hr. erewrite on_cpu_ok by reflexivity. rewrite put_put_cpu, get_put_cpu.
  change (reg (c <| reg := <[r := v]> (reg c) |>)) with (<[r := v]> (reg c)).
  rewrite list_lookup_total_insert_eq, list_insert_insert_eq by done. reflexivity.
Qed.

Lemma value_bound s sz a : mem_ok s -> 0 <= value_at s sz a < 256 ^ width sz.
Proof. intros Hs. apply be_value_bound. intros. by apply mem_byte_range. Qed.

Lemma loads_ok f s sz (g : Z -> Z) :
  mem_ok s -> (rt f < length (reg (get_cpu s)))%nat -> access_ok sz (address_of f (get_cpu s)) ->
  let v := value_at s sz (address_of f (get_cpu s)) in
  with_address f (fun a => load_reg (rt f) sz a) s = Ret (tt, put_cpu (loaded f (s64 v) (get_cpu s)) s) /\
  with_address f (fun a => load_reg (rt f) sz a ;;;
      on_cpu (modify (fun c => c <| reg := <[rt f := g (reg c !!! rt f)]> (reg c) |>))) s =
    Ret (tt, put_cpu (loaded f (g (s64 v)) (get_cpu s)) s).
Proof.
  intros Hs Hr Ha v. rewrite !with_address_ok. split.
  - by rewrite load_reg_ok.
  - rewrite (bind_Ret _ _ _ _ _ (load_reg_ok (rt f) sz _ s _ Hs Ha)). by rewrite extend_ok.
Qed.
End Loads.

(** ** Unaligned addresses *)

Lemma land_low a k : 0 <= k -> Z.land a (2 ^ k - 1) = a mod 2 ^ k.
Proof. intros Hk. rewrite <- Z.land_ones by done. by rewrite Z.ones_equiv. Qed.

Lemma land_aligned a k : 0 <= k <= 32 -> is_u32 a -> Z.land a (2 ^ 32 - 2 ^ k) = a - a mod 2 ^ k.
Proof.
  intros Hk Ha. pose proof (land_split a (2 ^ 32 - 2 ^ k) (2 ^ k - 1)) as E.
  assert (0 < 2 ^ k) by (apply Z.pow_pos_nonneg; lia).
  assert (2 ^ 32 - 2 ^ k = (2 ^ (32 - k) - 1) * 2 ^ k) as Em.
  { rewrite Z.mul_sub_distr_r, <- Z.pow_add_r by lia. f_equal; [f_equal|]; lia. }
  rewrite Em in *. rewrite land_shift_disjoint in E by lia. specialize (E eq_refl). rewrite lor_add_shift in E by lia.
  replace ((2 ^ (32 - k) - 1) * 2 ^ k + (2 ^ k - 1)) with (2 ^ 32 - 1) in E by lia.
  rewrite !land_low in E by lia. rewrite (Z.mod_small a (2 ^ 32)) in E by exact Ha. lia.
Qed.

Lemma address_of_range f c : is_u32 (address_of f c).
Proof. apply u32_range. Qed.

(** The word and the doubleword an address lies in. *)
Lemma word_at_spec a : is_u32 a -> Z.land a 3 = a mod 4 /\ word_at a = a - a mod 4.
Proof. intros Ha. split; [exact (land_low a 2 ltac:(lia))|exact (land_aligned a 2 ltac:(lia) Ha)]. Qed.
Lemma dword_at_spec a : is_u32 a -> Z.land a 7 = a mod 8 /\ dword_at a = a - a mod 8.
Proof. intros Ha. split; [exact (land_low a 3 ltac:(lia))|exact (land_aligned a 3 ltac:(lia) Ha)]. Qed.

(** The same registers, [d] bytes further. *)
Definition shifted (d : Z) (f : fields) : fields := Fields (rs f) (rt f) (rd f) (sa f) (immediate f + d).

Lemma shifted_address d f v c :
  rs f <> rt f -> 0 <= address_of f c + d < 2 ^ 32 ->
  address_of (shifted d f) (loaded f v c) = address_of f c + d.
Proof.
  intros Hne Hb. unfold address_of, irs32, irs in *. cbn [rs immediate shifted].
  change (reg (loaded f v c)) with (<[rt f := v]> (reg c)). rewrite list_lookup_total_insert_ne by done.
  set (x := s32 _) in *. unfold u32 in *. change (2 ^ 32) with 4294967296 in Hb. Z.div_mod_to_equations. lia.
Qed.

Section Unaligned.
Context {S : Type} `{CpuState S} `{!CpuLaws S} `{Bus S} {lo hi : Z} `{!BusLaws S lo hi}.
Implicit Types (s : S) (f : fields) (c : cpu).

(** The upper part of a register replaced by a value shifted up, the lower part by
    one shifted down. *)
Lemma merge_left_ok n f sz a s c :
  0 <= n <= 64 -> mem_ok s -> access_ok (lo := lo) (hi := hi) sz a ->
  merge_reg f sz a (2 ^ n - 1) (up n) (put_cpu c s) = Ret (tt, put_cpu (c <| reg :=
    <[rt f := s64 (irt f c mod 2 ^ n + (value_at s sz a mod 2 ^ (64 - n)) * 2 ^ n)]> (reg c) |>) s).
Proof. intros Hn Hs Ha. rewrite merge_reg_ok by done. unfold up. by rewrite keep_low. Qed.

Lemma merge_right_ok n j part f sz a s c :
  0 <= n <= 64 -> 0 <= j -> mem_ok s -> access_ok (lo := lo) (hi := hi) sz a -> 256 ^ width sz <= 2 ^ (n + j) ->
  (forall v, 0 <= v < 2 ^ (n + j) -> part v = v / 2 ^ j) ->
  merge_reg f sz a (2 ^ 64 - 2 ^ n) part (put_cpu c s) = Ret (tt, put_cpu (c <| reg :=
    <[rt f := s64 ((u64 (irt f c) / 2 ^ n) * 2 ^ n + value_at s sz a / 2 ^ j)]> (reg c) |>) s).
Proof.
  intros Hn Hj Hs Ha Hz Hp. pose proof (value_bound s sz a Hs) as Hb.
  rewrite merge_reg_ok, Hp by (done || lia). rewrite keep_high; [done|done|].
  rewrite Z.pow_add_r in Hz by lia. assert (0 < 2 ^ j) by (apply Z.pow_pos_nonneg; lia).
  split; [apply Z.div_pos; lia|apply Z.div_lt_upper_bound; lia].
Qed.

Lemma down_div j v : 0 <= j -> down j v = v / 2 ^ j.
Proof. intros Hj. unfold down. by apply Z.shiftr_div_pow2. Qed.

Lemma down_masked n j v : 0 <= n -> 0 <= j -> 0 <= v < 2 ^ (n + j) -> Z.land (down j v) (2 ^ n - 1) = v / 2 ^ j.
Proof.
  intros Hn Hj Hv. rewrite down_div, land_low by done. apply Z.mod_small. rewrite Z.pow_add_r in Hv by lia.
  assert (0 < 2 ^ j) by (apply Z.pow_pos_nonneg; lia).
  split; [apply Z.div_pos; lia|apply Z.div_lt_upper_bound; lia].
Qed.

Lemma lwl_ok f s :
  let c := get_cpu s in let a := address_of f c in let n := 8 * (a mod 4) in
  mem_ok s -> (rt f < length (reg c))%nat -> access_ok (lo := lo) (hi := hi) W (word_at a) ->
  LWL f s = Ret (tt, put_cpu (loaded f (s32 (irt f c mod 2 ^ n + value_at s W (word_at a) * 2 ^ n)) c) s).
Proof.
  intros c a n Hs Hr Ha. destruct (word_at_spec a (address_of_range f c)) as [Hk Hw].
  pose proof (value_bound s W (word_at a) Hs) as Hb. change (256 ^ width W) with 4294967296 in Hb.
  unfold LWL. rewrite with_address_ok. fold c. fold a. rewrite Hk. unfold n.
  set (k := a mod 4) in *. unfold sign_extended.
  assert (forall m, m = 8 \/ m = 16 \/ m = 24 -> value_at s W (word_at a) mod 2 ^ (64 - m) = value_at s W (word_at a)) as Hm
    by (intros m [-> | [-> | ->]]; apply Z.mod_small; lia).
  assert (k = 0 \/ k = 1 \/ k = 2 \/ k = 3) as Hc by (pose proof (Z.mod_pos_bound a 4); unfold k; lia).
  destruct Hc as [E | [E | [E | E]]]; rewrite E.
  - assert (word_at a = a) as Ew by lia. rewrite Ew in *.
    rewrite (bind_Ret _ _ _ _ _ (load_reg_ok (rt f) W a s _ Hs Ha)), extend_ok by done.
    rewrite s32_s64. change (2 ^ (8 * 0)) with 1. rewrite Z.mod_1_r, Z.mul_1_r. reflexivity.
  - erewrite bind_Ret by exact (merge_left_ok 8 f W (word_at a) s _ ltac:(lia) Hs Ha).
    rewrite extend_ok, s32_s64, Hm by auto. reflexivity.
  - erewrite bind_Ret by exact (merge_left_ok 16 f W (word_at a) s _ ltac:(lia) Hs Ha).
    rewrite extend_ok, s32_s64, Hm by auto. reflexivity.
  - erewrite bind_Ret by exact (merge_left_ok 24 f W (word_at a) s _ ltac:(lia) Hs Ha).
    rewrite extend_ok, s32_s64, Hm by auto. reflexivity.
Qed.

Lemma lwr_ok f s :
  let c := get_cpu s in let a := address_of f c in let n := 8 * (a mod 4 + 1) in
  mem_ok s -> (rt f < length (reg c))%nat -> access_ok (lo := lo) (hi := hi) W (word_at a) ->
  let v := value_at s W (word_at a) in
  LWR f s = Ret (tt, put_cpu (loaded f (if a mod 4 =? 3 then s32 v
                                        else s64 ((u64 (irt f c) / 2 ^ n) * 2 ^ n + v / 2 ^ (32 - n))) c) s).
Proof.
  intros c a n Hs Hr Ha v. destruct (word_at_spec a (address_of_range f c)) as [Hk _].
  unfold LWR. rewrite with_address_ok. fold c. fold a. rewrite Hk. unfold n. set (k := a mod 4) in *.
  assert (k = 0 \/ k = 1 \/ k = 2 \/ k = 3) as Hc by (pose proof (Z.mod_pos_bound a 4); unfold k; lia).
  destruct Hc as [E | [E | [E | E]]]; rewrite E.
  - exact (merge_right_ok 8 24 _ f W _ s _ ltac:(lia) ltac:(lia) Hs Ha ltac:(done)
             (fun v => down_masked 8 24 v ltac:(lia) ltac:(lia))).
  - exact (merge_right_ok 16 16 _ f W _ s _ ltac:(lia) ltac:(lia) Hs Ha ltac:(done)
             (fun v => down_masked 16 16 v ltac:(lia) ltac:(lia))).
  - exact (merge_right_ok 24 8 _ f W _ s _ ltac:(lia) ltac:(lia) Hs Ha ltac:(done)
             (fun v => down_masked 24 8 v ltac:(lia) ltac:(lia))).
  - rewrite (bind_Ret _ _ _ _ _ (load_reg_ok (rt f) W _ s _ Hs Ha)). unfold sign_extended.
    rewrite extend_ok, s32_s64 by done. reflexivity.
Qed.
Lemma eight_cases a : a mod 8 = 0 \/ a mod 8 = 1 \/ a mod 8 = 2 \/ a mod 8 = 3 \/ a mod 8 = 4 \/ a mod 8 = 5 \/ a mod 8 = 6 \/ a mod 8 = 7.
Proof. pose proof (Z.mod_pos_bound a 8). lia. Qed.

Lemma ldl_ok f s :
  let c := get_cpu s in let a := address_of f c in let n := 8 * (a mod 8) in
  mem_ok s -> access_ok (lo := lo) (hi := hi) D (dword_at a) ->
  LDL f s = Ret (tt, put_cpu (loaded f (s64 (irt f c mod 2 ^ n + (value_at s D (dword_at a) mod 2 ^ (64 - n)) * 2 ^ n)) c) s).
Proof.
  intros c a n Hs Ha. destruct (dword_at_spec a (address_of_range f c)) as [Hk Hw].
  unfold LDL. rewrite with_address_ok. fold c. fold a. rewrite Hk. unfold n.
  destruct (eight_cases a) as [E | [E | [E | [E | [E | [E | [E | E]]]]]]]; rewrite E.
  { assert (dword_at a = a) as Ew by lia. rewrite Ew in *.
    pose proof (value_bound s D a Hs) as Hb. change (256 ^ width D) with (2 ^ (64 - 8 * 0)) in Hb.
    rewrite (load_reg_ok (rt f) D a s _ Hs Ha). rewrite (Z.mod_small _ _ Hb).
    change (2 ^ (8 * 0)) with 1. rewrite Z.mod_1_r, Z.mul_1_r. reflexivity. }
  all: match goal with |- merge_reg _ _ _ _ (up ?n) _ = _ => exact (merge_left_ok n f D _ s _ ltac:(lia) Hs Ha) end.
Qed.

Lemma ldr_ok f s :
  let c := get_cpu s in let a := address_of f c in let n := 8 * (a mod 8 + 1) in
  mem_ok s -> access_ok (lo := lo) (hi := hi) D (dword_at a) ->
  LDR f s = Ret (tt, put_cpu (loaded f (s64 ((u64 (irt f c) / 2 ^ n) * 2 ^ n + value_at s D (dword_at a) / 2 ^ (64 - n))) c) s).
Proof.
  intros c a n Hs Ha. destruct (dword_at_spec a (address_of_range f c)) as [Hk Hw].
  unfold LDR. rewrite with_address_ok. fold c. fold a. rewrite Hk. unfold n.
  destruct (eight_cases a) as [E | [E | [E | [E | [E | [E | [E | E]]]]]]]; rewrite E.
  8: { rewrite (load_reg_ok (rt f) D _ s _ Hs Ha). change (8 * (7 + 1)) with 64. change (2 ^ (64 - 64)) with 1.
       rewrite Z.div_1_r. rewrite (Z.div_small (u64 _)) by apply u64_range. reflexivity. }
  all: match goal with |- merge_reg _ _ _ _ (down ?j) _ = _ =>
         exact (merge_right_ok (64 - j) j _ f D _ s _ ltac:(lia) ltac:(lia) Hs Ha ltac:(done)
                  (fun v _ => down_div j v ltac:(lia))) end.
Qed.
End Unaligned.

(** Aligned loads give the value the bytes in memory spell, first byte most
    significant: sign-extended from their size, or zero-extended for the unsigned
    ones; the memory stays as it is. *)
Theorem aligned_loads {S} `{CpuState S} `{!CpuLaws S} `{Bus S} {lo hi} `{!BusLaws S lo hi} (s : S) f :
  mem_ok s -> (rt f < length (reg (get_cpu s)))%nat ->
  let c := get_cpu s in let a := address_of f c in
  (access_ok (lo := lo) (hi := hi) B a ->
     LB f s = Ret (tt, put_cpu (loaded f (s8 (value_at s B a)) c) s) /\
     LBU f s = Ret (tt, put_cpu (loaded f (value_at s B a) c) s)) /\
  (access_ok (lo := lo) (hi := hi) Core.H a ->
     LH f s = Ret (tt, put_cpu (loaded f (s16 (value_at s Core.H a)) c) s) /\
     LHU f s = Ret (tt, put_cpu (loaded f (value_at s Core.H a) c) s)) /\
  (access_ok (lo := lo) (hi := hi) W a ->
     LW f s = Ret (tt, put_cpu (loaded f (s32 (value_at s W a)) c) s) /\
     LWU f s = Ret (tt, put_cpu (loaded f (value_at s W a) c) s)) /\
  (access_ok (lo := lo) (hi := hi) D a ->
     LD f s = Ret (tt, put_cpu (loaded f (s64 (value_at s D a)) c) s)).
Proof.
  intros Hs Hr. cbv zeta. set (a := address_of f (get_cpu s)). unfold LB, LBU, LH, LHU, LW, LWU, LD, sign_extended, sign_extendedb, sign_extendedh.
  split_and!; intros Ha.
  - pose proof (value_bound s B a Hs) as Hb. change (256 ^ width B) with 256 in Hb. destruct (loads_ok f s B s8 Hs Hr Ha) as [-> ->]. fold a.
    assert (s64 (value_at s B a) = value_at s B a) as -> by (apply s64_id; unfold is_s64; lia). done.
  - pose proof (value_bound s Core.H a Hs) as Hb. change (256 ^ width Core.H) with 65536 in Hb. destruct (loads_ok f s Core.H s16 Hs Hr Ha) as [-> ->]. fold a.
    assert (s64 (value_at s Core.H a) = value_at s Core.H a) as -> by (apply s64_id; unfold is_s64; lia). done.
  - pose proof (value_bound s W a Hs) as Hb. change (256 ^ width W) with 4294967296 in Hb. destruct (loads_ok f s W s32 Hs Hr Ha) as [-> ->]. fold a.
    assert (s64 (value_at s W a) = value_at s W a) as -> by (apply s64_id; unfold is_s64; lia). done.
  - apply (loads_ok f s D id Hs Hr Ha).
Qed.

(** ** Pairs of unaligned loads *)

(** The two halves of a word, merged in a sign-extended register. *)
Lemma merge_word n x w r :
  n = 8 \/ n = 16 \/ n = 24 -> 0 <= r < 2 ^ n ->
  s64 ((u64 (s32 (x mod 2 ^ n + w * 2 ^ n)) / 2 ^ n) * 2 ^ n + r) = s32 ((w mod 2 ^ (32 - n)) * 2 ^ n + r).
Proof.
  intros Hn Hr. set (y := x mod 2 ^ n + w * 2 ^ n).
  assert (0 <= x mod 2 ^ n < 2 ^ n) as Hx by (apply Z.mod_pos_bound; apply Z.pow_pos_nonneg; lia).
  assert (s64 ((u64 (s32 y) / 2 ^ n) * 2 ^ n + r) = s64 (s32 y / 2 ^ n * 2 ^ n + r)) as ->.
  { destruct Hn as [-> | [-> | ->]]; change (2 ^ 8) with 256 in *; change (2 ^ 16) with 65536 in *;
      change (2 ^ 24) with 16777216 in *; width_lia. }
  generalize dependent (x mod 2 ^ n). intros x0 y Hx.
  destruct Hn as [-> | [-> | ->]]; cbn [Z.sub Z.add Z.opp Z.pos_sub Pos.pred_double Z.pred_double] in *;
    change (2 ^ 8) with 256 in *; change (2 ^ 16) with 65536 in *; change (2 ^ 24) with 16777216 in *;
    unfold y; width_lia.
Qed.

Lemma merge_dword n x w w' :
  0 <= n <= 64 -> is_u64 w' ->
  s64 ((u64 (s64 (x mod 2 ^ n + (w mod 2 ^ (64 - n)) * 2 ^ n)) / 2 ^ n) * 2 ^ n + w' / 2 ^ (64 - n)) =
  s64 ((w mod 2 ^ (64 - n)) * 2 ^ n + w' / 2 ^ (64 - n)).
Proof.
  intros Hn Hw. do 2 f_equal. rewrite u64_s64.
  assert (0 < 2 ^ n /\ 0 < 2 ^ (64 - n) /\ 2 ^ n * 2 ^ (64 - n) = 2 ^ 64) as (H1 & H2 & H3).
  { rewrite <- Z.pow_add_r by lia. split_and!; [apply Z.pow_pos_nonneg; lia..|f_equal; lia]. }
  pose proof (Z.mod_pos_bound x _ H1) as Hx. pose proof (Z.mod_pos_bound w _ H2) as Hq. revert Hx Hq.
  generalize (x mod 2 ^ n) (w mod 2 ^ (64 - n)). intros p q Hp Hq.
  rewrite u64_id by (unfold is_u64; change 18446744073709551616 with (2 ^ 64); nia).
  rewrite Z.div_add, Z.div_small by lia. lia.
Qed.

Section Pairs.
Context {S : Type} `{CpuState S} `{!CpuLaws S} `{Bus S} {lo hi : Z} `{!BusLaws S lo hi}.
Implicit Types (s : S) (f : fields) (c : cpu).
#[local] Abbreviation ok := (access_ok (lo := lo) (hi := hi)).

(** The registers after two instructions that both end with [v] in [rt]. *)
Definition loaded_pair f (v : Z) c : cpu := loaded f v (loaded f v c).

Lemma loaded_twice f v w c : loaded f w (loaded f v c) = loaded_pair f w c.
Proof.
  unfold loaded_pair, loaded. destruct c as [r h l p st]. unfold upd_field. cbn.
  f_equal. by rewrite !list_insert_insert_eq.
Qed.

Lemma word_pair f s :
  let c := get_cpu s in let a := address_of f c in
  mem_ok s -> (rt f < length (reg c))%nat -> rs f <> rt f -> hi <= 2 ^ 32 ->
  lo <= word_at a -> word_at (a + 3) + 4 <= hi -> a + 3 < 2 ^ 32 ->
  (LWL f ;;; LWR (shifted 3 f)) s = Ret (tt, put_cpu (loaded_pair f (s32 (be_value (mem_byte s) a 4)) c) s).
Proof.
  intros c a Hs Hr Hne Hhi Hlo Hend Hmax. pose proof (address_of_range f c) as Hu. fold a in Hu. unfold is_u32 in Hu.
  destruct (word_at_spec a Hu) as [_ Hw]. destruct (word_at_spec (a + 3)) as [_ Hw3]; [unfold is_u32; lia|].
  assert (ok W (word_at a)) as Ha by (split_and!; change (width W) with 4; Z.div_mod_to_equations; lia).
  assert (ok W (word_at (a + 3))) as Ha3 by (split_and!; change (width W) with 4; Z.div_mod_to_equations; lia).
  erewrite bind_Ret by exact (lwl_ok f s Hs Hr Ha). fold c. fold a. set (v1 := s32 _).
  destruct (mem_cpu (loaded f v1 c) s) as [Hok Hm].
  assert (address_of (shifted 3 f) (loaded f v1 c) = a + 3) as Ea by (apply shifted_address; [done|fold a; lia]).
  pose proof (lwr_ok (lo := lo) (hi := hi) (shifted 3 f) (put_cpu (loaded f v1 c) s)) as Hlwr. cbv zeta in Hlwr.
  rewrite get_put_cpu, Ea in Hlwr. rewrite Hlwr; [|by apply Hok|by (change (rt f < length (<[rt f := v1]> (reg c)))%nat; rewrite length_insert)|done].
  rewrite put_put_cpu. change (loaded (shifted 3 f)) with (loaded f). rewrite loaded_twice. do 4 f_equal.
  assert (irt (shifted 3 f) (loaded f v1 c) = v1) as -> by (by apply list_lookup_total_insert_eq).
  assert (forall x, value_at (put_cpu (loaded f v1 c) s) W x = value_at s W x) as Ev
    by (intros x; apply be_value_ext; intros; apply Hm).
  rewrite Ev. destruct (Z.eqb_spec ((a + 3) mod 4) 3) as [E|E].
  { replace (word_at (a + 3)) with a by (Z.div_mod_to_equations; lia). done. }
  assert ((a + 3) mod 4 + 1 = a mod 4 /\ word_at (a + 3) = word_at a + 4 /\ 0 < a mod 4 < 4) as (E1 & E2 & E3)
    by (Z.div_mod_to_equations; lia).
  rewrite E1, E2. unfold v1. pose proof (value_bound s W (word_at a + 4) Hs) as Hb. change (256 ^ width W) with 4294967296 in Hb.
  rewrite merge_word; [|lia|].
  - pose proof (unaligned_value (mem_byte s) (word_at a) 4 (Z.to_nat (a mod 4)) (fun x => mem_byte_range s x Hs) ltac:(lia)) as U.
    cbv zeta in U. rewrite Z2Nat.id in U by lia. replace (word_at a + a mod 4) with a in U by lia.
    change (Z.of_nat 4) with 4 in U. rewrite U. unfold value_at. cbn [bytes_of]. do 5 f_equal; lia.
  - split; [apply Z.div_pos; [lia|apply Z.pow_pos_nonneg; lia]|]. apply Z.div_lt_upper_bound; [apply Z.pow_pos_nonneg; lia|].
    rewrite <- Z.pow_add_r by lia. replace (32 - 8 * (a mod 4) + 8 * (a mod 4)) with 32 by lia. lia.
Qed.
Lemma dword_pair f s :
  let c := get_cpu s in let a := address_of f c in
  mem_ok s -> (rt f < length (reg c))%nat -> rs f <> rt f -> hi <= 2 ^ 32 ->
  lo <= dword_at a -> dword_at (a + 7) + 8 <= hi -> a + 7 < 2 ^ 32 ->
  (LDL f ;;; LDR (shifted 7 f)) s = Ret (tt, put_cpu (loaded_pair f (s64 (be_value (mem_byte s) a 8)) c) s).
Proof.
  intros c a Hs Hr Hne Hhi Hlo Hend Hmax. pose proof (address_of_range f c) as Hu. fold a in Hu. unfold is_u32 in Hu.
  destruct (dword_at_spec a Hu) as [_ Hw]. destruct (dword_at_spec (a + 7)) as [_ Hw7]; [unfold is_u32; lia|].
  assert (ok D (dword_at a)) as Ha by (split_and!; change (width D) with 8; Z.div_mod_to_equations; lia).
  assert (ok D (dword_at (a + 7))) as Ha7 by (split_and!; change (width D) with 8; Z.div_mod_to_equations; lia).
  erewrite bind_Ret by exact (ldl_ok f s Hs Ha). fold c. fold a. set (v1 := s64 _).
  destruct (mem_cpu (loaded f v1 c) s) as [Hok Hm].
  assert (address_of (shifted 7 f) (loaded f v1 c) = a + 7) as Ea by (apply shifted_address; [done|fold a; lia]).
  pose proof (ldr_ok (lo := lo) (hi := hi) (shifted 7 f) (put_cpu (loaded f v1 c) s)) as Hldr. cbv zeta in Hldr.
  rewrite get_put_cpu, Ea in Hldr. rewrite Hldr; [|by apply Hok|done].
  rewrite put_put_cpu. change (loaded (shifted 7 f)) with (loaded f). rewrite loaded_twice. do 4 f_equal.
  assert (irt (shifted 7 f) (loaded f v1 c) = v1) as -> by (by apply list_lookup_total_insert_eq).
  assert (forall x, value_at (put_cpu (loaded f v1 c) s) D x = value_at s D x) as Ev
    by (intros x; apply be_value_ext; intros; apply Hm).
  rewrite Ev. destruct (Z.eq_dec (a mod 8) 0) as [E|E].
  { replace (dword_at (a + 7)) with a by (Z.div_mod_to_equations; lia).
    replace ((a + 7) mod 8) with 7 by (Z.div_mod_to_equations; lia). change (2 ^ (64 - 8 * (7 + 1))) with 1.
    rewrite Z.div_1_r, Z.div_small by apply u64_range. done. }
  assert ((a + 7) mod 8 + 1 = a mod 8 /\ dword_at (a + 7) = dword_at a + 8 /\ 0 < a mod 8 < 8) as (E1 & E2 & E3)
    by (Z.div_mod_to_equations; lia).
  rewrite E1, E2. unfold v1. rewrite merge_dword; [|lia|exact (value_bound s D (dword_at a + 8) Hs)].
  pose proof (unaligned_value (mem_byte s) (dword_at a) 8 (Z.to_nat (a mod 8)) (fun x => mem_byte_range s x Hs) ltac:(lia)) as U.
  cbv zeta in U. rewrite Z2Nat.id in U by lia. replace (dword_at a + a mod 8) with a in U by lia.
  change (Z.of_nat 8) with 8 in U. rewrite U. unfold value_at. cbn [bytes_of]. do 5 f_equal; lia.
Qed.
End Pairs.

(** C21.  The pairs LWL/LWR and LDL/LDR load the word or doubleword at any
    address, aligned or not: the register holds the four or eight bytes from that
    address on, first byte most significant, sign-extended; the memory stays as it
    is. *)
Theorem unaligned_loads {S} `{CpuState S} `{!CpuLaws S} `{Bus S} {lo hi} `{!BusLaws S lo hi} (s : S) f :
  let c := get_cpu s in let a := address_of f c in
  mem_ok s -> (rt f < length (reg c))%nat -> rs f <> rt f -> hi <= 2 ^ 32 ->
  (lo <= word_at a -> word_at (a + 3) + 4 <= hi -> a + 3 < 2 ^ 32 ->
   (LWL f ;;; LWR (shifted 3 f)) s = Ret (tt, put_cpu (loaded_pair f (s32 (be_value (mem_byte s) a 4)) c) s)) /\
  (lo <= dword_at a -> dword_at (a + 7) + 8 <= hi -> a + 7 < 2 ^ 32 ->
   (LDL f ;;; LDR (shifted 7 f)) s = Ret (tt, put_cpu (loaded_pair f (s64 (be_value (mem_byte s) a 8)) c) s)).
Proof.
  intros c a Hs Hr Hne Hhi. split; intros; [by apply word_pair|by apply dword_pair].
Qed.

(** ** Examples *)

#[local] Existing Instance silent_devices.
#[local] Instance kseg0_laws : BusLaws (core irq) 0x80000000 0x80800000 := ram_laws 0x80000000 (or_introl eq_refl).

(** RDRAM with the bytes 0x81, 0x82, ... 0x90 from 0x80000100 on, which register 4
    points to. *)
Definition sample_core : core irq :=
  reset_core <| c_reg := <[4%nat := s32 0x80000100]> (replicate 32 0) |>
             <| rdram := store_bytes 0x100
                  [0x84; 0x83; 0x82; 0x81; 0x88; 0x87; 0x86; 0x85; 0x8C; 0x8B; 0x8A; 0x89; 0x90; 0x8F; 0x8E; 0x8D] ∅ |>.

Lemma sample_core_ok : ram_state_ok sample_core.
Proof.
  split; [|by vm_compute]. unfold ram_ok, sample_core, upd_field. cbn [rdram store_bytes].
  repeat (apply map_Forall_insert_2; [done|]). apply map_Forall_empty.
Qed.

Lemma aligned_loads_witness :
  LHU (Fields 4 8 0 0 2) sample_core = Ret (tt, put_cpu (loaded (Fields 4 8 0 0 2) 0x8384 (get_cpu sample_core)) sample_core) /\
  LH (Fields 4 8 0 0 2) sample_core = Ret (tt, put_cpu (loaded (Fields 4 8 0 0 2) (0x8384 - 0x10000) (get_cpu sample_core)) sample_core).
Proof.
  destruct (@aligned_loads _ _ _ _ _ _ kseg0_laws sample_core (Fields 4 8 0 0 2) sample_core_ok) as (_ & HH & _); [apply Nat.ltb_lt; reflexivity|].
  destruct HH as [HH HU]; [split_and!; apply Z.leb_le || idtac; reflexivity|]. split; [exact HU|exact HH].
Defined.

Lemma unaligned_loads_witness :
  (LWL (Fields 4 8 0 0 1) ;;; LWR (Fields 4 8 0 0 4)) sample_core =
    Ret (tt, put_cpu (loaded_pair (Fields 4 8 0 0 1) (0x82838485 - 0x100000000) (get_cpu sample_core)) sample_core) /\
  (LDL (Fields 4 8 0 0 3) ;;; LDR (Fields 4 8 0 0 10)) sample_core =
    Ret (tt, put_cpu (loaded_pair (Fields 4 8 0 0 3) (0x8485868788898A8B - 2 ^ 64) (get_cpu sample_core)) sample_core).
Proof.
  destruct (@unaligned_loads _ _ _ _ _ _ kseg0_laws sample_core (Fields 4 8 0 0 1) sample_core_ok) as [HW _]; [apply Nat.ltb_lt; reflexivity|done|done|].
  destruct (@unaligned_loads _ _ _ _ _ _ kseg0_laws sample_core (Fields 4 8 0 0 3) sample_core_ok) as [_ HD]; [apply Nat.ltb_lt; reflexivity|done|done|].
  split; [apply HW|apply HD]; (apply Z.leb_le || apply Z.ltb_lt); reflexivity.
Defined.
