(* ===== verification/StoreProps.v ===== *)
(** * What the store instructions guarantee

    Proved against the interfaces of [Core], as for the loads. *)

From S2P Require Import Prelude Pool Machine Exception Alu DeviceState Core Bus BusProps LoadStore LoadStoreProps.

Open Scope prog_scope.
#[local] Open Scope Z_scope.

(** ** Bytes of merged values *)

Lemma testbit_u8 z n : 0 <= n < 8 -> Z.testbit (u8 z) n = Z.testbit z n.
Proof. intros Hn. exact (Z.mod_pow2_bits_low z 8 n ltac:(lia)). Qed.

(** Two bytes are equal when their bits are. *)
Lemma u8_bits x y m n :
  0 <= m -> 0 <= n -> (forall j, 0 <= j < 8 -> Z.testbit x (m + j) = Z.testbit y (n + j)) ->
  u8 (Z.shiftr x m) = u8 (Z.shiftr y n).
Proof.
  intros Hm Hn Hb. apply Z.bits_inj'. intros j Hj. destruct (Z.ltb_spec j 8).
  - rewrite !testbit_u8, !Z.shiftr_spec, !(Z.add_comm j) by lia. apply Hb. lia.
  - unfold u8. change 256 with (2 ^ 8). by rewrite !Z.mod_pow2_bits_high by lia.
Qed.

(** The bits of the mask from [n] to [m]. *)
Lemma testbit_mask m n p : 0 <= n <= m -> 0 <= p -> Z.testbit (2 ^ m - 2 ^ n) p = (n <=? p) && (p <? m).
Proof.
  intros Hn Hp. replace (2 ^ m - 2 ^ n) with (Z.shiftl (Z.ones (m - n)) n).
  2: { rewrite Z.shiftl_mul_pow2, Z.ones_equiv by lia. unfold Z.pred. rewrite Z.mul_add_distr_r, <- Z.pow_add_r by lia.
       replace (m - n + n) with m by lia. lia. }
  rewrite Z.shiftl_spec by done. destruct (Z.leb_spec n p).
  - rewrite Z.testbit_ones by lia. repeat case_cmp; try done; lia.
  - rewrite Z.testbit_neg_r by lia. done.
Qed.

Lemma testbit_small N v p : 0 <= N -> 0 <= v < 2 ^ N -> N <= p -> Z.testbit v p = false.
Proof. intros HN Hv Hp. rewrite <- (Z.mod_small v (2 ^ N)) by done. by apply Z.mod_pow2_bits_high; lia. Qed.

Lemma be_byte_value byte a n i :
  (forall x, is_u8 (byte x)) -> 0 <= i < Z.of_nat n -> be_byte_of n (be_value byte a n) i = byte (a + i).
Proof.
  intros Hb Hi. unfold be_byte_of.
  replace n with (Z.to_nat i + (1 + (n - Z.to_nat i - 1)))%nat at 1 by lia.
  rewrite !be_value_app, Z2Nat.id, Z.shiftr_div_pow2 by lia. cbn [be_value].
  set (t := Z.of_nat (n - Z.to_nat i - 1)). replace (8 * (Z.of_nat n - 1 - i)) with (8 * t) by lia.
  rewrite <- pow_256. pose proof (be_value_bound byte (a + i + Z.of_nat 1) (n - Z.to_nat i - 1) Hb) as Hr. fold t in Hr.
  set (h := be_value byte a (Z.to_nat i)) in *. set (r := be_value _ _ _) in *.
  rewrite (Nat2Z.inj_add 1), Z.pow_add_r by lia. fold t. change (256 ^ Z.of_nat 1) with 256. change (256 ^ Z.of_nat 0) with 1.
  pose proof (Hb (a + i)) as Hbi. unfold is_u8 in Hbi. unfold u8.
  replace (h * (256 * 256 ^ t) + ((byte (a + i) * 1 + 0) * 256 ^ t + r))
    with (r + (h * 256 + byte (a + i)) * 256 ^ t) by lia.
  rewrite Z.div_add, Z.div_small by lia. rewrite Z.add_0_l, Z.add_comm, Z.mod_add, Z.mod_small by lia. done.
Qed.

(** [k] bytes kept at the top, the first bytes of [v] below them. *)
Lemma merged_below (n : nat) k v old i :
  0 <= k <= Z.of_nat n -> 0 <= v < 2 ^ (8 * Z.of_nat n) -> 0 <= i < Z.of_nat n ->
  be_byte_of n (Z.lor (Z.shiftr v (8 * k)) (Z.land old (2 ^ (8 * Z.of_nat n) - 2 ^ (8 * (Z.of_nat n - k))))) i =
    if k <=? i then be_byte_of n v (i - k) else be_byte_of n old i.
Proof.
  intros Hk Hv Hi. unfold be_byte_of.
  destruct (Z.leb_spec k i); apply u8_bits; try lia; intros j Hj;
    rewrite Z.lor_spec, Z.land_spec, testbit_mask, Z.shiftr_spec by lia.
  - replace (8 * (Z.of_nat n - k) <=? _) with false by (symmetry; apply Z.leb_gt; lia).
    cbn [andb]. rewrite andb_false_r, orb_false_r. f_equal. lia.
  - rewrite (testbit_small (8 * Z.of_nat n) v) by (done || lia). cbn [orb].
    replace (8 * (Z.of_nat n - k) <=? _) with true by (symmetry; apply Z.leb_le; lia).
    replace (_ <? _) with true by (symmetry; apply Z.ltb_lt; lia). apply andb_true_r.
Qed.

(** The last bytes of [v], and [k] bytes kept at the bottom. *)
Lemma merged_above (n : nat) k v old i :
  0 <= k <= Z.of_nat n -> 0 <= i < Z.of_nat n ->
  be_byte_of n (Z.lor (Z.shiftl v (8 * k) mod 2 ^ (8 * Z.of_nat n)) (Z.land old (2 ^ (8 * k) - 1))) i =
    if i <? Z.of_nat n - k then be_byte_of n v (i + k) else be_byte_of n old i.
Proof.
  intros Hk Hi. unfold be_byte_of. change (2 ^ (8 * k) - 1) with (2 ^ (8 * k) - 2 ^ 0).
  destruct (Z.ltb_spec i (Z.of_nat n - k)); apply u8_bits; try lia; intros j Hj;
    rewrite Z.lor_spec, Z.land_spec, testbit_mask, Z.mod_pow2_bits_low, Z.shiftl_spec by lia.
  - replace (_ <? 8 * k) with false by (symmetry; apply Z.ltb_ge; lia).
    rewrite !andb_false_r, orb_false_r. f_equal. lia.
  - rewrite Z.testbit_neg_r by lia. cbn [orb]. replace (0 <=? _) with true by (symmetry; apply Z.leb_le; lia).
    replace (_ <? 8 * k) with true by (symmetry; apply Z.ltb_lt; lia). apply andb_true_r.
Qed.

(** Bytes of a value cut to its size. *)
Lemma be_byte_mod n v i : 0 <= i < Z.of_nat n -> be_byte_of n (v mod 2 ^ (8 * Z.of_nat n)) i = be_byte_of n v i.
Proof.
  intros Hi. unfold be_byte_of. apply u8_bits; try lia. intros j Hj. apply Z.mod_pow2_bits_low. lia.
Qed.

(** ** Stores *)

Section Stores.
Context {S : Type} `{CpuState S} `{!CpuLaws S} `{Bus S} {lo hi : Z} `{!BusLaws S lo hi}.
Implicit Types (s : S) (f : fields) (c : cpu).
#[local] Abbreviation ok := (access_ok (lo := lo) (hi := hi)).

(** The registers after an instruction without result. *)
Definition passed c : cpu := c <| pc := u32 (pc c + 4) |>.

(** From [s] to [s'], with the registers [c] then: the bytes from [first] up to [last] are those of
    [byte], all others as they were. *)
Definition stored s s' c (first last : Z) (byte : Z -> Z) : Prop :=
  mem_ok s' /\ get_cpu s' = c /\
  forall x, lo <= x < hi -> mem_byte s' x = if (first <=? x) && (x <? last) then byte x else mem_byte s x.

Lemma write_ok sz a v s c :
  mem_ok s -> ok sz a ->
  exists s', bus_write sz a v (put_cpu c s) = Ret (tt, s') /\
    stored s s' c a (a + width sz) (fun x => be_byte_of (bytes_of sz) v (x - a)).
Proof.
  intros Hs (Hl & Hh & Ha). destruct (mem_cpu c s) as [Hok Hm].
  destruct (mem_write sz a v (put_cpu c s) (Hok Hs) Hl Hh Ha) as (s' & Hrun & Hs' & Hc & Hb).
  exists s'. split; [done|]. split; [done|]. split; [by rewrite Hc, get_put_cpu|].
  intros x Hx. rewrite Hb by done. by rewrite Hm.
Qed.

(** Reading back and writing: the bytes of the old value stay. *)
Lemma merge_mem_ok f sz a part keep s c first last byte :
  mem_ok s -> ok sz a -> a <= first -> last <= a + width sz ->
  (forall old i, 0 <= i < width sz -> be_byte_of (bytes_of sz) (Z.lor (part (irt f c)) (Z.land old keep)) i =
     if (first <=? a + i) && (a + i <? last) then byte (a + i) else be_byte_of (bytes_of sz) old i) ->
  exists s', merge_mem f sz a part keep (put_cpu c s) = Ret (tt, s') /\ stored s s' c first last byte.
Proof.
  intros Hs Ha Hf Hl Hp. destruct (mem_cpu c s) as [Hok Hm]. unfold merge_mem, load_word, cpu_now.
  rewrite bind_assoc, (bind_Ret _ _ _ _ _ (read_ok sz a (put_cpu c s) (Hok Hs) Ha)). cbn [fst snd default].
  rewrite bind_ret_l, bind_assoc, bind_get_l, bind_ret_l, get_put_cpu. unfold id.
  set (old := value_at (put_cpu c s) sz a).
  destruct (write_ok sz a (Z.lor (part (irt f c)) (Z.land old keep)) s c Hs Ha) as (s' & Hrun & Hs' & Hc & Hb).
  exists s'. split; [done|]. split; [done|]. split; [done|]. intros x Hx. rewrite Hb by done.
  destruct (Z.leb_spec a x), (Z.ltb_spec x (a + width sz)); cbn [andb].
  2-4: repeat case_cmp; cbn [andb]; (done || lia).
  rewrite Hp by lia. replace (a + (x - a)) with x by lia.
  destruct (_ && _); [done|]. unfold old, value_at, width in *.
  rewrite be_byte_value; [|intros; by apply mem_byte_range, Hok|lia]. rewrite Hm. f_equal. lia.
Qed.

(** The bytes that follow the first ones in the aligned unit, and those that
    precede the last ones. *)
Lemma merge_below_ok f sz w k v s c (part : Z -> Z) :
  mem_ok s -> ok sz w -> 0 <= k < width sz -> 0 <= v < 2 ^ (8 * width sz) -> part (irt f c) = Z.shiftr v (8 * k) ->
  exists s', merge_mem f sz w part (2 ^ (8 * width sz) - 2 ^ (8 * (width sz - k))) (put_cpu c s) = Ret (tt, s') /\
    stored s s' c (w + k) (w + width sz) (fun x => be_byte_of (bytes_of sz) v (x - (w + k))).
Proof.
  intros Hs Hw Hk Hv Hp. apply merge_mem_ok; [done|done|lia|lia|]. intros old i Hi. rewrite Hp.
  unfold width in *. rewrite merged_below by (done || lia). replace (w + i - (w + k)) with (i - k) by lia.
  repeat case_cmp; cbn [andb]; (done || lia).
Qed.

Lemma merge_above_ok f sz w k v s c (part : Z -> Z) :
  mem_ok s -> ok sz w -> 0 <= k < width sz -> part (irt f c) = Z.shiftl v (8 * k) mod 2 ^ (8 * width sz) ->
  exists s', merge_mem f sz w part (2 ^ (8 * k) - 1) (put_cpu c s) = Ret (tt, s') /\
    stored s s' c w (w + width sz - k) (fun x => be_byte_of (bytes_of sz) v (x - w + k)).
Proof.
  intros Hs Hw Hk Hp. apply merge_mem_ok; [done|done|lia|lia|]. intros old i Hi. rewrite Hp.
  unfold width in *. rewrite merged_above by (done || lia). replace (w + i - w) with i by lia.
  repeat case_cmp; cbn [andb]; (done || lia).
Qed.

Lemma stored_ext s s' c first last byte byte' :
  (forall x, first <= x < last -> byte x = byte' x) -> stored s s' c first last byte -> stored s s' c first last byte'.
Proof.
  intros He (Hs & Hc & Hb). split; [done|]. split; [done|]. intros x Hx. rewrite Hb by done.
  destruct (Z.leb_spec first x), (Z.ltb_spec x last); cbn [andb]; try done. apply He. lia.
Qed.

Lemma stored_at s s' c first last byte first' last' byte' :
  stored s s' c first last byte -> first = first' -> last = last' -> (forall x, first <= x < last -> byte x = byte' x) ->
  stored s s' c first' last' byte'.
Proof. intros Hst <- <- He. by eapply stored_ext. Qed.

(** Bytes of what is written are bytes of the register. *)
Lemma be_byte_u32 v i : 0 <= i < 4 -> be_byte_of 4 (u32 v) i = be_byte_of 4 v i.
Proof. exact (be_byte_mod 4 v i). Qed.
Lemma be_byte_u64 v i : 0 <= i < 8 -> be_byte_of 8 (u64 v) i = be_byte_of 8 v i.
Proof. exact (be_byte_mod 8 v i). Qed.

Lemma be_top_byte v : be_byte_of 1 (u8 (Z.shiftr v 24)) 0 = be_byte_of 4 v 0.
Proof.
  unfold be_byte_of. apply u8_bits; [lia|lia|]. intros j Hj. change (8 * (Z.of_nat 1 - 1 - 0)) with 0.
  rewrite testbit_u8, Z.shiftr_spec by lia. f_equal. lia.
Qed.

(** Close a store by the lemma on its access: the same bounds, the same bytes. *)
Ltac finish_store L :=
  destruct L as (s' & Hrun & Hst); exists s'; split; [exact Hrun|];
  change (width B) with 1 in Hst; change (width W) with 4 in Hst; change (width D) with 8 in Hst;
  apply (stored_at _ _ _ _ _ _ _ _ _ Hst); [lia|lia|intros x Hx].

Lemma swl_ok f s :
  let c := get_cpu s in let a := address_of f c in
  mem_ok s -> ok W (word_at a) ->
  exists s', SWL f s = Ret (tt, s') /\ stored s s' (passed c) a (word_at a + 4) (fun x => be_byte_of 4 (irt f c) (x - a)).
Proof.
  intros c a Hs Ha. destruct (word_at_spec a (address_of_range f c)) as [Hk Hw].
  unfold SWL. rewrite with_address_ok. fold c. fold a. rewrite Hk.
  assert (a mod 4 = 0 \/ a mod 4 = 1 \/ a mod 4 = 2 \/ a mod 4 = 3) as Hc by (pose proof (Z.mod_pos_bound a 4); lia).
  destruct Hc as [E | [E | [E | E]]]; rewrite E; cbv iota.
  - unfold cpu_now. rewrite bind_assoc, bind_get_l, bind_ret_l, get_put_cpu.
    finish_store (write_ok W (word_at a) (u32 (irt f (passed c))) s (passed c) Hs Ha).
    rewrite be_byte_u32 by lia. unfold irt. cbn [bytes_of reg passed]. f_equal. lia.
  - finish_store (merge_below_ok f W (word_at a) 1 (u32 (irt f c)) s (passed c) (fun v => Z.shiftr (u32 v) 8) Hs Ha ltac:(done) (u32_range _) eq_refl).
    rewrite be_byte_u32 by lia. f_equal. lia.
  - finish_store (merge_below_ok f W (word_at a) 2 (u32 (irt f c)) s (passed c) (fun v => Z.shiftr (u32 v) 16) Hs Ha ltac:(done) (u32_range _) eq_refl).
    rewrite be_byte_u32 by lia. f_equal. lia.
  - assert (ok B a) as Hb by (destruct Ha as (Hl & Hh & Hm); change (width W) with 4 in *; split_and!;
      change (width B) with 1; [lia|lia|apply Z.mod_1_r]).
    unfold cpu_now. rewrite bind_assoc, bind_get_l, bind_ret_l, get_put_cpu.
    finish_store (write_ok B a (u8 (Z.shiftr (irt f (passed c)) 24)) s (passed c) Hs Hb).
    replace (x - a) with 0 by lia. apply be_top_byte.
Qed.

Lemma swr_ok f s :
  let c := get_cpu s in let a := address_of f c in
  mem_ok s -> ok W (word_at a) ->
  exists s', SWR f s = Ret (tt, s') /\ stored s s' (passed c) (word_at a) (a + 1) (fun x => be_byte_of 4 (irt f c) (x - a + 3)).
Proof.
  intros c a Hs Ha. destruct (word_at_spec a (address_of_range f c)) as [Hk Hw].
  unfold SWR. rewrite with_address_ok. fold c. fold a. rewrite Hk.
  assert (forall k j n, a mod 4 = k -> j = 3 - k -> n = 8 * j -> 0 <= j < 4 ->
    exists s', merge_mem f W (word_at a) (fun v => u32 (Z.shiftl (u32 v) n)) (2 ^ n - 1) (put_cpu (passed c) s) = Ret (tt, s') /\
      stored s s' (passed c) (word_at a) (a + 1) (fun x => be_byte_of 4 (irt f c) (x - a + 3))) as Hmerge.
  { intros k j n E -> -> Hj.
    finish_store (merge_above_ok f W (word_at a) (3 - k) (u32 (irt f c)) s (passed c) (fun v => u32 (Z.shiftl (u32 v) (8 * (3 - k)))) Hs Ha ltac:(done) eq_refl).
    cbn [bytes_of]. rewrite be_byte_u32 by lia. f_equal. lia. }
  assert (a mod 4 = 0 \/ a mod 4 = 1 \/ a mod 4 = 2 \/ a mod 4 = 3) as Hc by (pose proof (Z.mod_pos_bound a 4); lia).
  destruct Hc as [E | [E | [E | E]]]; rewrite E; cbv iota.
  - pose proof (Hmerge 0 3 24 E eq_refl eq_refl ltac:(done)) as R. assert (word_at a = a) as Ew by lia. rewrite Ew in *. exact R.
  - by apply (Hmerge 1 2 16).
  - by apply (Hmerge 2 1 8).
  - unfold cpu_now. rewrite bind_assoc, bind_get_l, bind_ret_l, get_put_cpu.
    finish_store (write_ok W (word_at a) (u32 (irt f (passed c))) s (passed c) Hs Ha).
    cbn [bytes_of]. rewrite be_byte_u32 by lia. unfold irt. cbn [reg passed]. f_equal. lia.
Qed.

Lemma sdl_ok f s :
  let c := get_cpu s in let a := address_of f c in
  mem_ok s -> ok D (dword_at a) ->
  exists s', SDL f s = Ret (tt, s') /\ stored s s' (passed c) a (dword_at a + 8) (fun x => be_byte_of 8 (irt f c) (x - a)).
Proof.
  intros c a Hs Ha. destruct (dword_at_spec a (address_of_range f c)) as [Hk Hw].
  unfold SDL. rewrite with_address_ok. fold c. fold a. rewrite Hk.
  assert (forall k n m, a mod 8 = k -> n = 8 * k -> m = 64 - n ->
    exists s', merge_mem f D (dword_at a) (fun v => Z.shiftr (u64 v) n) (2 ^ 64 - 2 ^ m) (put_cpu (passed c) s) = Ret (tt, s') /\
      stored s s' (passed c) a (dword_at a + 8) (fun x => be_byte_of 8 (irt f c) (x - a))) as Hmerge.
  { intros k n m E -> ->. replace (64 - 8 * k) with (8 * (8 - k)) by lia.
    assert (0 <= k < 8) as Hk8 by (pose proof (Z.mod_pos_bound a 8); lia).
    finish_store (merge_below_ok f D (dword_at a) k (u64 (irt f c)) s (passed c) (fun v => Z.shiftr (u64 v) (8 * k)) Hs Ha Hk8 (u64_range _) eq_refl).
    cbn [bytes_of]. rewrite be_byte_u64 by lia. f_equal. lia. }
  destruct (eight_cases a) as [E | [E | [E | [E | [E | [E | [E | E]]]]]]]; rewrite E; cbv iota.
  { unfold cpu_now. rewrite bind_assoc, bind_get_l, bind_ret_l, get_put_cpu.
    finish_store (write_ok D (dword_at a) (u64 (irt f (passed c))) s (passed c) Hs Ha).
    cbn [bytes_of]. rewrite be_byte_u64 by lia. unfold irt. cbn [reg passed]. f_equal. lia. }
  all: match type of E with _ = ?k => by apply (Hmerge k (8 * k) (64 - 8 * k)) end.
Qed.

Lemma sdr_ok f s :
  let c := get_cpu s in let a := address_of f c in
  mem_ok s -> ok D (dword_at a) ->
  exists s', SDR f s = Ret (tt, s') /\ stored s s' (passed c) (dword_at a) (a + 1) (fun x => be_byte_of 8 (irt f c) (x - a + 7)).
Proof.
  intros c a Hs Ha. destruct (dword_at_spec a (address_of_range f c)) as [Hk Hw].
  unfold SDR. rewrite with_address_ok. fold c. fold a. rewrite Hk.
  assert (forall k n, a mod 8 = k -> n = 8 * (7 - k) ->
    exists s', merge_mem f D (dword_at a) (fun v => u64 (Z.shiftl v n)) (2 ^ n - 1) (put_cpu (passed c) s) = Ret (tt, s') /\
      stored s s' (passed c) (dword_at a) (a + 1) (fun x => be_byte_of 8 (irt f c) (x - a + 7))) as Hmerge.
  { intros k n E ->. assert (0 <= 7 - k < 8) as Hk8 by (pose proof (Z.mod_pos_bound a 8); lia).
    finish_store (merge_above_ok f D (dword_at a) (7 - k) (irt f c) s (passed c) (fun v => u64 (Z.shiftl v (8 * (7 - k)))) Hs Ha Hk8 eq_refl).
    cbn [bytes_of]. f_equal. lia. }
  destruct (eight_cases a) as [E | [E | [E | [E | [E | [E | [E | E]]]]]]]; rewrite E; cbv iota.
  8: { unfold cpu_now. rewrite bind_assoc, bind_get_l, bind_ret_l, get_put_cpu.
    finish_store (write_ok D (dword_at a) (u64 (irt f (passed c))) s (passed c) Hs Ha).
    cbn [bytes_of]. rewrite be_byte_u64 by lia. unfold irt. cbn [reg passed]. f_equal. lia. }
  { pose proof (Hmerge 0 56 E eq_refl) as R. assert (dword_at a = a) as Ew by lia. rewrite Ew in *. exact R. }
  all: match type of E with _ = ?k => by apply (Hmerge k (8 * (7 - k))) end.
Qed.

(** A store after another: together they fill the bytes from [a] to [z]. *)
Lemma stored_trans s s1 s2 c c2 a b b' z byte :
  stored s s1 c a b byte -> stored s1 s2 c2 b' z byte -> a <= b' <= b -> b <= z -> stored s s2 c2 a z byte.
Proof.
  intros (_ & _ & H1') (Hs2 & Hc2 & H2') Hb Hz. split; [done|]. split; [done|]. intros x Hx.
  rewrite H2', H1' by done. repeat case_cmp; cbn [andb]; (done || lia).
Qed.

Lemma shifted_passed d f c :
  0 <= address_of f c + d < 2 ^ 32 -> address_of (shifted d f) (passed c) = address_of f c + d.
Proof.
  intros Hb. unfold address_of, irs32, irs in *. cbn [rs immediate shifted].
  change (reg (passed c)) with (reg c). set (x := s32 _) in *. unfold u32 in *. change (2 ^ 32) with 4294967296 in Hb.
  Z.div_mod_to_equations. lia.
Qed.

Lemma word_stores f s :
  let c := get_cpu s in let a := address_of f c in
  mem_ok s -> hi <= 2 ^ 32 -> lo <= word_at a -> word_at (a + 3) + 4 <= hi -> a + 3 < 2 ^ 32 ->
  exists s', (SWL f ;;; SWR (shifted 3 f)) s = Ret (tt, s') /\
    stored s s' (passed (passed c)) a (a + 4) (fun x => be_byte_of 4 (irt f c) (x - a)).
Proof.
  intros c a Hs Hhi Hlo Hend Hmax. pose proof (address_of_range f c) as Hu. fold a in Hu. unfold is_u32 in Hu.
  destruct (word_at_spec a Hu) as [_ Hw]. destruct (word_at_spec (a + 3)) as [_ Hw3]; [unfold is_u32; lia|].
  assert (ok W (word_at a)) as Ha by (split_and!; change (width W) with 4; Z.div_mod_to_equations; lia).
  assert (ok W (word_at (a + 3))) as Ha3 by (split_and!; change (width W) with 4; Z.div_mod_to_equations; lia).
  destruct (swl_ok f s Hs Ha) as (s1 & Hrun1 & Hst1). fold c in Hst1. fold a in Hst1.
  rewrite (bind_Ret _ _ _ _ _ Hrun1). pose proof Hst1 as (Hs1 & Hc1 & _).
  assert (address_of (shifted 3 f) (get_cpu s1) = a + 3) as Ea by (rewrite Hc1; apply shifted_passed; fold a; lia).
  pose proof (swr_ok (shifted 3 f) s1) as Hr. cbv zeta in Hr. rewrite Ea in Hr.
  destruct (Hr Hs1 Ha3) as (s2 & Hrun2 & Hst2). exists s2. split; [exact Hrun2|]. rewrite Hc1 in Hst2.
  eapply (stored_trans s s1 s2 _ _ _ _ (word_at (a + 3))); [exact Hst1| |Z.div_mod_to_equations; lia..].
  apply (stored_at _ _ _ _ _ _ _ _ _ Hst2); [reflexivity|lia|]. intros x Hx. f_equal. lia.
Qed.

Lemma dword_stores f s :
  let c := get_cpu s in let a := address_of f c in
  mem_ok s -> hi <= 2 ^ 32 -> lo <= dword_at a -> dword_at (a + 7) + 8 <= hi -> a + 7 < 2 ^ 32 ->
  exists s', (SDL f ;;; SDR (shifted 7 f)) s = Ret (tt, s') /\
    stored s s' (passed (passed c)) a (a + 8) (fun x => be_byte_of 8 (irt f c) (x - a)).
Proof.
  intros c a Hs Hhi Hlo Hend Hmax. pose proof (address_of_range f c) as Hu. fold a in Hu. unfold is_u32 in Hu.
  destruct (dword_at_spec a Hu) as [_ Hw]. destruct (dword_at_spec (a + 7)) as [_ Hw3]; [unfold is_u32; lia|].
  assert (ok D (dword_at a)) as Ha by (split_and!; change (width D) with 8; Z.div_mod_to_equations; lia).
  assert (ok D (dword_at (a + 7))) as Ha3 by (split_and!; change (width D) with 8; Z.div_mod_to_equations; lia).
  destruct (sdl_ok f s Hs Ha) as (s1 & Hrun1 & Hst1). fold c in Hst1. fold a in Hst1.
  rewrite (bind_Ret _ _ _ _ _ Hrun1). pose proof Hst1 as (Hs1 & Hc1 & _).
  assert (address_of (shifted 7 f) (get_cpu s1) = a + 7) as Ea by (rewrite Hc1; apply shifted_passed; fold a; lia).
  pose proof (sdr_ok (shifted 7 f) s1) as Hr. cbv zeta in Hr. rewrite Ea in Hr.
  destruct (Hr Hs1 Ha3) as (s2 & Hrun2 & Hst2). exists s2. split; [exact Hrun2|]. rewrite Hc1 in Hst2.
  eapply (stored_trans s s1 s2 _ _ _ _ (dword_at (a + 7))); [exact Hst1| |Z.div_mod_to_equations; lia..].
  apply (stored_at _ _ _ _ _ _ _ _ _ Hst2); [reflexivity|lia|]. intros x Hx. f_equal. lia.
Qed.

(** An aligned store of the register, cut to the size. *)
Lemma plain_store f sz (cut : Z -> Z) s :
  let c := get_cpu s in let a := address_of f c in
  mem_ok s -> ok sz a -> (forall v i, 0 <= i < width sz -> be_byte_of (bytes_of sz) (cut v) i = be_byte_of (bytes_of sz) v i) ->
  exists s', with_address f (fun a => c <-- cpu_now ;;; bus_write sz a (cut (irt f c))) s = Ret (tt, s') /\
    stored s s' (passed c) a (a + width sz) (fun x => be_byte_of (bytes_of sz) (irt f c) (x - a)).
Proof.
  intros c a Hs Ha Hcut. rewrite with_address_ok. unfold cpu_now. fold c. fold a. rewrite bind_assoc, bind_get_l, bind_ret_l, get_put_cpu.
  destruct (write_ok sz a (cut (irt f (passed c))) s (passed c) Hs Ha) as (s' & Hrun & Hst). exists s'.
  split; [exact Hrun|]. eapply stored_ext; [|exact Hst]. intros x Hx. apply Hcut. lia.
Qed.

Lemma cut_bytes n v i : 0 <= i < Z.of_nat n ->
  be_byte_of n (Z.land v (2 ^ (8 * Z.of_nat n) - 1) mod 2 ^ (8 * Z.of_nat n)) i = be_byte_of n v i.
Proof. intros Hi. rewrite be_byte_mod, land_low by lia. by apply be_byte_mod. Qed.
End Stores.

(** Aligned stores write the low byte, halfword, word or doubleword of the
    register, first byte most significant, and no other byte of memory. *)
Theorem aligned_stores {S} `{CpuState S} `{!CpuLaws S} `{Bus S} {lo hi} `{!BusLaws S lo hi} (s : S) f :
  let c := get_cpu s in let a := address_of f c in
  let stores (m : M S unit) n :=
    exists s', m s = Ret (tt, s') /\
      stored (lo := lo) (hi := hi) s s' (passed c) a (a + Z.of_nat n) (fun x => be_byte_of n (irt f c) (x - a)) in
  mem_ok s ->
  (access_ok (lo := lo) (hi := hi) B a -> stores (SB f) 1%nat) /\
  (access_ok (lo := lo) (hi := hi) Core.H a -> stores (SH f) 2%nat) /\
  (access_ok (lo := lo) (hi := hi) W a -> stores (SW f) 4%nat) /\
  (access_ok (lo := lo) (hi := hi) D a -> stores (SD f) 8%nat).
Proof.
  intros c a stores Hs. split_and!; intros Ha.
  - exact (plain_store f B _ s Hs Ha (cut_bytes 1)).
  - exact (plain_store f Core.H _ s Hs Ha (cut_bytes 2)).
  - exact (plain_store f W _ s Hs Ha (cut_bytes 4)).
  - exact (plain_store f D _ s Hs Ha be_byte_u64).
Qed.

(** C22.  The pairs SWL/SWR and SDL/SDR store the low word or the doubleword of the
    register at any address, aligned or not: exactly the four or eight bytes from
    that address on change. *)
Theorem unaligned_stores {S} `{CpuState S} `{!CpuLaws S} `{Bus S} {lo hi} `{!BusLaws S lo hi} (s : S) f :
  let c := get_cpu s in let a := address_of f c in
  let stores (m : M S unit) n :=
    exists s', m s = Ret (tt, s') /\
      stored (lo := lo) (hi := hi) s s' (passed (passed c)) a (a + Z.of_nat n) (fun x => be_byte_of n (irt f c) (x - a)) in
  mem_ok s -> hi <= 2 ^ 32 ->
  (lo <= word_at a -> word_at (a + 3) + 4 <= hi -> a + 3 < 2 ^ 32 -> stores (SWL f ;;; SWR (shifted 3 f)) 4%nat) /\
  (lo <= dword_at a -> dword_at (a + 7) + 8 <= hi -> a + 7 < 2 ^ 32 -> stores (SDL f ;;; SDR (shifted 7 f)) 8%nat).
Proof.
  intros c a stores Hs Hhi. split; intros H1' H2' H3'; [exact (word_stores f s Hs Hhi H1' H2' H3')|exact (dword_stores f s Hs Hhi H1' H2' H3')].
Qed.

(** ** Examples *)

#[local] Existing Instance silent_devices.

Lemma aligned_stores_witness :
  exists s', SW (Fields 4 4 0 0 8) sample_core = Ret (tt, s') /\
    map (fun i => ram_byte s' (0x107 + i)) [0; 1; 2; 3; 4; 5] = [0x88; 0x80; 0x00; 0x01; 0x00; 0x8D].
Proof.
  destruct (@aligned_stores _ _ _ _ _ _ kseg0_laws sample_core (Fields 4 4 0 0 8) sample_core_ok) as (_ & _ & HW & _).
  destruct HW as (s' & Hrun & _ & _ & Hb); [split_and!; apply Z.leb_le || idtac; reflexivity|].
  exists s'. split; [exact Hrun|]. change (map (fun i => @mem_byte _ _ _ _ _ kseg0_laws s' (0x80000107 + i)) [0; 1; 2; 3; 4; 5] = [0x88; 0x80; 0x00; 0x01; 0x00; 0x8D]).
  cbn [map]. rewrite !Hb by lia. reflexivity.
Defined.

Lemma unaligned_stores_witness :
  exists s', (SWL (Fields 4 4 0 0 3) ;;; SWR (Fields 4 4 0 0 6)) sample_core = Ret (tt, s') /\
    map (fun i => ram_byte s' (0x102 + i)) [0; 1; 2; 3; 4; 5] = [0x83; 0x80; 0x00; 0x01; 0x00; 0x88].
Proof.
  destruct (@unaligned_stores _ _ _ _ _ _ kseg0_laws sample_core (Fields 4 4 0 0 3) sample_core_ok) as [HW _]; [done|].
  destruct HW as (s' & Hrun & _ & _ & Hb); [(apply Z.leb_le || apply Z.ltb_lt); reflexivity..|].
  exists s'. split; [exact Hrun|]. change (map (fun i => @mem_byte _ _ _ _ _ kseg0_laws s' (0x80000102 + i)) [0; 1; 2; 3; 4; 5] = [0x83; 0x80; 0x00; 0x01; 0x00; 0x88]).
  cbn [map]. rewrite !Hb by lia. reflexivity.
Defined.
