(* ===== verification/Cop.v ===== *)
(** * Coprocessor 0 and the registers of coprocessor 1 (pure_interp.cpp)

    Moves to and from the control registers, with what writing them sets off, and
    the moves, loads and stores of the floating-point registers. *)

From S2P Require Import Prelude Queue Machine Exception Alu Core LoadStore.

Open Scope prog_scope.
#[local] Open Scope Z_scope.

Section Cop.
Context {Q : Type} `{EventQueue Q} `{Bus (core Q)}.
#[local] Abbreviation st := (core Q).

Definition on_c0 (g : cop0 -> cop0) : M st unit := on_mach (modify (on_cop0 g)).
Definition on_cop1 (g : cop1 -> cop1) : M st unit := modify (fun s => s <| c_cop1 := g (c_cop1 s) |>).
Definition stop_emu : M st unit := on_mach (modify (fun m => m <| stop := true |>)).

(** [if (next_interrupt <= core_Count) gen_interrupt();] *)
Definition interrupt_if_due : M (machine Q) unit :=
  m <-- get ;;; when (next_interrupt_of m <=? Count m) gen_interrupt.

(** ** Coprocessor 0 *)

(** [reg_cop0[i]]; the registers without a name are never written. *)
Definition reg_cop0 (c : cop0) (i : Z) : Z :=
  match i with
  | 0 => core_Index c | 1 => core_Random c | 2 => core_EntryLo0 c | 3 => core_EntryLo1 c
  | 4 => core_Context c | 5 => core_PageMask c | 6 => core_Wired c | 8 => core_BadVAddr c
  | 9 => core_Count c | 10 => core_EntryHi c | 11 => core_Compare c | 12 => core_Status c
  | 13 => core_Cause c | 14 => core_EPC c | 15 => core_PRevID c | 16 => core_Config_cop0 c
  | 17 => core_LLAddr c | 18 => core_WatchLo c | 19 => core_WatchHi c | 20 => core_XContext c
  | 26 => core_PErr c | 27 => core_CacheErr c | 28 => core_TagLo c | 29 => core_TagHi c
  | 30 => core_ErrorEPC c | _ => 0
  end.

Definition MFC0 (f : fields) : M st unit :=
  let nrd := Z.of_nat (rd f) in
  when (nrd =? 1) stop_emu ;;;
  s <-- get ;;;
  on_cpu (set32 (rt f) (reg_cop0 (m_cop0 (c_mach s)) nrd) ;;; sign_extended (rt f) ;;; next).

(** Where the floating-point registers live after a write of Status with the FR
    bit set or clear. *)
Definition full_registers (c : cop1) : cop1 :=
  c <| reg_cop1_double := seq 0 32 |> <| reg_cop1_simple := map (fun i => (2 * i)%nat) (seq 0 32) |>.
Definition paired_registers (c : cop1) : cop1 :=
  c <| reg_cop1_double := imap (fun i p => if Nat.even i then Nat.div2 i else p) (reg_cop1_double c) |>
    <| reg_cop1_simple := seq 0 32 |>.

Definition write_Status (v : Z) : M st unit :=
  s <-- get ;;;
  when (negb (Z.land v 0x04000000 =? Z.land (Status (c_mach s)) 0x04000000))
    (on_cop1 (if has_bits v 0x04000000 then full_registers else paired_registers)) ;;;
  on_mach (
    modify (set_Status (u32 v)) ;;;
    modify (fun m => m <| interp_addr := u32 (interp_addr m + 4) |>) ;;;
    check_interrupt ;;;
    update_count ;;;
    interrupt_if_due ;;;
    modify (fun m => m <| interp_addr := u32 (interp_addr m - 4) |>)).

Definition write_Count (v : Z) : M (machine Q) unit :=
  update_count ;;;
  interrupt_if_due ;;;
  modify (fun m => m <| debug_count := u64 (debug_count m + Count m) |>) ;;;
  m <-- get ;;;
  on_queue (q_translate (Count m) (core_Compare (m_cop0 m)) (Z.land v 0xFFFFFFFF)) ;;;
  modify (set_Count (Z.land v 0xFFFFFFFF)) ;;;
  modify (fun m => m <| debug_count := u64 (debug_count m - Count m) |>).

Definition write_Compare (v : Z) : M (machine Q) unit :=
  update_count ;;;
  on_queue (q_remove COMPARE_INT) ;;;
  m <-- get ;;;
  on_queue (q_add_count (Count m) COMPARE_INT (u32 v)) ;;;
  modify (on_cop0 (fun c => c <| core_Compare := u32 v |>)) ;;;
  modify (fun m => set_Cause (Z.land (Cause m) 0xFFFF7FFF) m).

Definition MTC0 (f : fields) : M st unit :=
  s <-- get ;;;
  let v := rrt f (get_cpu s) in
  (match Z.of_nat (rd f) with
   | 0 => on_c0 (fun c => c <| core_Index := Z.land v 0x8000003F |>) ;;;
          s <-- get ;;;
          when (31 <? Z.land (core_Index (m_cop0 (c_mach s))) 0x3F) stop_emu
   | 1 => ret tt
   | 2 => on_c0 (fun c => c <| core_EntryLo0 := Z.land v 0x3FFFFFFF |>)
   | 3 => on_c0 (fun c => c <| core_EntryLo1 := Z.land v 0x3FFFFFFF |>)
   | 4 => on_c0 (fun c => c <| core_Context := Z.lor (Z.land v 0xFF800000) (Z.land (core_Context c) 0x007FFFF0) |>)
   | 5 => on_c0 (fun c => c <| core_PageMask := Z.land v 0x01FFE000 |>)
   | 6 => on_c0 (fun c => c <| core_Wired := u32 v |> <| core_Random := 31 |>)
   | 8 => ret tt
   | 9 => on_mach (write_Count v)
   | 10 => on_c0 (fun c => c <| core_EntryHi := Z.land v 0xFFFFE0FF |>)
   | 11 => on_mach (write_Compare v)
   | 12 => write_Status v
   | 13 => if c_true v then stop_emu else on_c0 (fun c => c <| core_Cause := u32 v |>)
   | 14 => on_c0 (fun c => c <| core_EPC := u32 v |>)
   | 15 => ret tt
   | 16 => on_c0 (fun c => c <| core_Config_cop0 := u32 v |>)
   | 18 => on_c0 (fun c => c <| core_WatchLo := Z.land v 0xFFFFFFFF |>)
   | 19 => on_c0 (fun c => c <| core_WatchHi := Z.land v 0xFFFFFFFF |>)
   | 27 => ret tt
   | 28 => on_c0 (fun c => c <| core_TagLo := Z.land v 0x0FFFFFC0 |>)
   | 29 => on_c0 (fun c => c <| core_TagHi := 0 |>)
   | _ => stop_emu
   end) ;;;
  on_cpu next.

Definition SYSCALL : M st unit :=
  on_mach (modify (set_Cause (Z.shiftl 8 2)) ;;; exception_general).

(** ** Coprocessor 1 *)

Definition check_cop1_unusable : M (machine Q) bool :=
  m <-- get ;;;
  if negb (has_bits (Status m) 0x20000000) then
    modify (set_Cause (Z.lor (Z.shiftl 11 2) 0x10000000)) ;;; exception_general ;;; ret true
  else ret false.

Definition usable (k : M st unit) : M st unit :=
  bad <-- on_mach check_cop1_unusable ;;; if bad : bool then ret tt else k.

(** Words and doublewords of the register file: word [2i] is the low half of
    doubleword [i]. *)
Definition word_of (l : list Z) (p : nat) : Z :=
  s32 (Z.shiftr (l !!! Nat.div2 p) (if Nat.odd p then 32 else 0)).
Definition set_word (p : nat) (v : Z) (l : list Z) : list Z :=
  let d := l !!! Nat.div2 p in
  <[Nat.div2 p := s64 (if Nat.odd p then Z.lor (Z.shiftl (u32 v) 32) (Z.land d 0xFFFFFFFF)
                       else Z.lor (Z.land d 0xFFFFFFFF00000000) (u32 v))]> l.

Definition read_simple (r : nat) (c : cop1) : Z := word_of (reg_cop1_fgr_64 c) (reg_cop1_simple c !!! r).
Definition write_simple (r : nat) (v : Z) (c : cop1) : cop1 :=
  c <| reg_cop1_fgr_64 := set_word (reg_cop1_simple c !!! r) v (reg_cop1_fgr_64 c) |>.
Definition read_double (r : nat) (c : cop1) : Z := reg_cop1_fgr_64 c !!! (reg_cop1_double c !!! r).
Definition write_double (r : nat) (v : Z) (c : cop1) : cop1 :=
  c <| reg_cop1_fgr_64 := <[reg_cop1_double c !!! r := s64 v]> (reg_cop1_fgr_64 c) |>.

Definition MFC1 (f : fields) : M st unit :=
  s <-- get ;;; on_cpu (set32 (rt f) (read_simple (rd f) (c_cop1 s)) ;;; sign_extended (rt f) ;;; next).
Definition DMFC1 (f : fields) : M st unit :=
  s <-- get ;;; on_cpu (set_reg (rt f) (read_double (rd f) (c_cop1 s)) ;;; next).
Definition CFC1 (f : fields) : M st unit :=
  s <-- get ;;;
  when (rd f =? 31)%nat (on_cpu (set32 (rt f) (FCR31 (c_cop1 s)) ;;; sign_extended (rt f))) ;;;
  when (rd f =? 0)%nat (on_cpu (set32 (rt f) (FCR0 (c_cop1 s)) ;;; sign_extended (rt f))) ;;;
  on_cpu next.
Definition MTC1 (f : fields) : M st unit :=
  c <-- cpu_now ;;; on_cop1 (write_simple (rd f) (rrt32 f c)) ;;; on_cpu next.
Definition DMTC1 (f : fields) : M st unit :=
  c <-- cpu_now ;;; on_cop1 (write_double (rd f) (rrt f c)) ;;; on_cpu next.

(** The x87 control words of the four rounding modes; [set_rounding] loads the one
    in [rounding_mode] into the host. *)
Definition MUP_ROUND_TRUNC : Z := 0xE3F.
Definition MUP_ROUND_NEAREST : Z := 0x23F.
Definition MUP_ROUND_CEIL : Z := 0xA3F.
Definition MUP_ROUND_FLOOR : Z := 0x63F.
Definition rounding_of (fcr31 : Z) : Z :=
  match Z.land fcr31 3 with
  | 0 => MUP_ROUND_NEAREST | 1 => MUP_ROUND_TRUNC | 2 => MUP_ROUND_CEIL | _ => MUP_ROUND_FLOOR
  end.

Definition CTC1 (f : fields) : M st unit :=
  c <-- cpu_now ;;;
  when (rd f =? 31)%nat (on_cop1 (fun p => p <| FCR31 := rrt32 f c |>)) ;;;
  on_cop1 (fun p => p <| rounding_mode := rounding_of (FCR31 p) |>) ;;;
  on_cpu next.

(** [core_lfoffset + reg[core_lfbase]] *)
Definition lf_address (f : fields) (c : cpu) : Z := u32 (immediate f + reg c !!! rs f).

Definition with_lf_address (f : fields) (k : Z -> M st unit) : M st unit :=
  usable (on_cpu next ;;; c <-- cpu_now ;;; k (lf_address f c)).

(** [temp] is not initialised: after a failed access its value is indeterminate. *)
Definition LWC1 (f : fields) : M st unit :=
  with_lf_address f (fun a =>
    r' <-- bus_read W a ;;;
    match r'.2 with Some v => on_cop1 (write_simple (rt f) v) | None => undef Uninitialized end).
Definition LDC1 (f : fields) : M st unit :=
  with_lf_address f (fun a =>
    r' <-- bus_read D a ;;;
    match r'.2 with Some v => on_cop1 (write_double (rt f) v) | None => ret tt end).
Definition SWC1 (f : fields) : M st unit :=
  with_lf_address f (fun a => s <-- get ;;; bus_write W a (u32 (read_simple (rt f) (c_cop1 s)))).
Definition SDC1 (f : fields) : M st unit :=
  with_lf_address f (fun a => s <-- get ;;; bus_write D a (u64 (read_double (rt f) (c_cop1 s)))).

End Cop.
