(* ===== verification/Registers.v ===== *)
(** * The device registers (memory.cpp)

    The handlers behind the pages of the memory map that are device registers.
    Each device has a table of pointers to its registers, indexed by the low half of
    the address; the pointers are pairs of a getter and a setter here.  Entries
    between the registers are null, those behind them point to [trash], and the
    tables end before index 0xFFFF.  Accesses narrower than a word go to the word's
    pointer at a byte offset.  What a write sets off (transfers, interrupts, tasks
    of the signal processor) is in the handlers; the plugins are the operations of
    [Plugins]. *)

From S2P Require Import Prelude Queue Machine Exception Alu DeviceState Core Dma PifLut Pif SummerCart Bus Cop.

Open Scope prog_scope.
#[local] Open Scope Z_scope.

Class Plugins (Q : Type) := {
  rsp_do_rsp_cycles : M (core Q) unit;
  video_process_rdp_list : M (core Q) unit;
  frame_skipped : M (core Q) bool;  (* [is_frame_skipped()] of the movie engine *)
}.

(** ** Parts of a register *)

(** The [w] bits of [v] from bit [lo] on, and [v] with these bits replaced. *)
Definition get_bits (v lo w : Z) : Z := Z.land (Z.shiftr v lo) (Z.ones w).
Definition put_bits (v lo w x : Z) : Z :=
  Z.lor (Z.ldiff v (Z.shiftl (Z.ones w) lo)) (Z.shiftl (Z.land x (Z.ones w)) lo).

(** Bit offset of the byte or halfword at [low] in its register. *)
Definition part_offset (sz : size) (low : Z) : Z :=
  match sz with B => 8 * Z.lxor (Z.land low 3) 3 | H => 8 * Z.lxor (Z.land low 3) 2 | _ => 0 end.
Definition part_width (sz : size) : Z := match sz with B => 8 | H => 16 | _ => 32 end.

(** A write of size [sz] at [low] changes the register's value [old] to this. *)
Definition merged (sz : size) (low old v : Z) : Z :=
  match sz with
  | B | H => put_bits old (part_offset sz low) (part_width sz) v
  | _ => v
  end.

(** The register the [case] labels of a handler name: all four bytes and both
    halfwords of a register have labels, and words only the register itself. *)
Definition reg_case (sz : size) (low : Z) : Z :=
  match sz with
  | B => Z.land low 0xfffc
  | H => if Z.even low then Z.land low 0xfffc else low
  | _ => low
  end.

Section Registers.
Context {Q : Type} `{EventQueue Q} `{PifHost Q} `{Plugins Q}.
#[local] Abbreviation st := (core Q).

(** ** Pointers and tables *)

Record cell : Type := Cell { cell_get : st -> Z; cell_set : Z -> st -> st }.

Definition mach_cell {R} (get : machine Q -> R) (set : R -> machine Q -> machine Q)
    (field : R -> Z) (upd : Z -> R -> R) : cell :=
  Cell (fun s => field (get (c_mach s))) (fun v s => s <| c_mach := set (upd v (get (c_mach s))) (c_mach s) |>).
Definition dev_cell {R} (get : devices -> R) (set : R -> devices -> devices)
    (field : R -> Z) (upd : Z -> R -> R) : cell :=
  Cell (fun s => field (get (c_dev s))) (fun v s => s <| c_dev := set (upd v (get (c_dev s))) (c_dev s) |>).

#[local] Notation "r '->m' f" := (Some (mach_cell r (fun x m => m <| r := x |>) f (fun v x => x <| f := v |>)))
  (at level 50, f at next level, only parsing).
#[local] Notation "r '->d' f" := (Some (dev_cell r (fun x d => d <| r := x |>) f (fun v x => x <| f := v |>)))
  (at level 50, f at next level, only parsing).
Definition trash_cell : cell :=
  Cell (fun s => trash (c_dev s)) (fun v s => s <| c_dev := (c_dev s) <| trash := v |> |>).

Definition readrdramreg : list (option cell) :=
  [rdram_register ->d rdram_config; rdram_register ->d rdram_device_id; rdram_register ->d rdram_delay;
   rdram_register ->d rdram_mode; rdram_register ->d rdram_ref_interval; rdram_register ->d rdram_ref_row;
   rdram_register ->d rdram_ras_interval; rdram_register ->d rdram_min_interval;
   rdram_register ->d rdram_addr_select; rdram_register ->d rdram_device_manuf].
Definition readrspreg : list (option cell) :=
  [sp_register ->m sp_mem_addr_reg; sp_register ->m sp_dram_addr_reg; sp_register ->m sp_rd_len_reg;
   sp_register ->m sp_wr_len_reg; sp_register ->m sp_status_reg; sp_register ->m sp_dma_full_reg;
   sp_register ->m sp_dma_busy_reg; sp_register ->m sp_semaphore_reg].
Definition readrsp : list (option cell) := [rsp_register ->d rsp_pc; rsp_register ->d rsp_ibist].
Definition readdp : list (option cell) :=
  [dpc_register ->m dpc_start; dpc_register ->m dpc_end; dpc_register ->m dpc_current; dpc_register ->m dpc_status;
   dpc_register ->m dpc_clock; dpc_register ->m dpc_bufbusy; dpc_register ->m dpc_pipebusy; dpc_register ->m dpc_tmem].
Definition readdps : list (option cell) :=
  [dps_register ->d dps_tbist; dps_register ->d dps_test_mode; dps_register ->d dps_buftest_addr;
   dps_register ->d dps_buftest_data].
Definition readmi : list (option cell) :=
  [MI_register ->m mi_init_mode_reg; MI_register ->m mi_version_reg; MI_register ->m mi_intr_reg;
   MI_register ->m mi_intr_mask_reg].
Definition readvi : list (option cell) :=
  [vi_register ->m vi_status; vi_register ->m vi_origin; vi_register ->m vi_width; vi_register ->m vi_v_intr;
   vi_register ->m vi_current; vi_register ->m vi_burst; vi_register ->m vi_v_sync; vi_register ->m vi_h_sync;
   vi_register ->m vi_leap; vi_register ->m vi_h_start; vi_register ->m vi_v_start; vi_register ->m vi_v_burst;
   vi_register ->m vi_x_scale; vi_register ->m vi_y_scale].
Definition readai : list (option cell) :=
  [ai_register ->m ai_dram_addr; ai_register ->m ai_len; ai_register ->m ai_control; ai_register ->m ai_status;
   ai_register ->m ai_dacrate; ai_register ->m ai_bitrate].
Definition readpi : list (option cell) :=
  [pi_register ->m pi_dram_addr_reg; pi_register ->m pi_cart_addr_reg; pi_register ->m pi_rd_len_reg;
   pi_register ->m pi_wr_len_reg; pi_register ->m read_pi_status_reg; pi_register ->m pi_bsd_dom1_lat_reg;
   pi_register ->m pi_bsd_dom1_pwd_reg; pi_register ->m pi_bsd_dom1_pgs_reg; pi_register ->m pi_bsd_dom1_rls_reg;
   pi_register ->m pi_bsd_dom2_lat_reg; pi_register ->m pi_bsd_dom2_pwd_reg; pi_register ->m pi_bsd_dom2_pgs_reg;
   pi_register ->m pi_bsd_dom2_rls_reg].
Definition readri : list (option cell) :=
  [ri_register ->d ri_mode; ri_register ->d ri_config; ri_register ->d ri_current_load; ri_register ->d ri_select;
   ri_register ->d ri_refresh; ri_register ->d ri_latency; ri_register ->d ri_error; ri_register ->d ri_werror].
(** The entry for 0xc is not set. *)
Definition readsi : list (option cell) :=
  [si_register ->m si_dram_addr; si_register ->m si_pif_addr_rd64b; Some trash_cell; None;
   si_register ->m si_pif_addr_wr64b; Some trash_cell; si_register ->m si_status].

(** [table[i]], dereferenced. *)
Definition pointer (table : list (option cell)) (i : Z) : M st cell :=
  if (i <? 0) || (0xFFFF <=? i) then undef OutOfBounds
  else if 4 * Z.of_nat (length table) <=? i then ret trash_cell
  else if negb (i mod 4 =? 0) then undef NullDeref
  else match table !! Z.to_nat (i / 4) with Some (Some c) => ret c | _ => undef NullDeref end.

(** A halfword at an odd offset of 3 reaches behind the register. *)
Definition part_fits (sz : size) (low : Z) : bool := part_offset sz low + part_width sz <=? 32.

Definition read_reg (table : list (option cell)) (sz : size) (low : Z) : M st Z :=
  let load i := c <-- pointer table i ;;; s <-- get ;;; ret (cell_get c s) in
  match sz with
  | W => load low
  | D => h <-- load low ;;; l <-- load (low + 4) ;;; ret (Z.lor (Z.shiftl h 32) l)
  | _ =>
      v <-- load (Z.land low 0xfffc) ;;;
      if part_fits sz low then ret (get_bits v (part_offset sz low) (part_width sz)) else undef OutOfBounds
  end.

Definition write_reg (table : list (option cell)) (sz : size) (low v : Z) : M st unit :=
  let store i x := c <-- pointer table i ;;; modify (cell_set c x) in
  match sz with
  | W => store low v
  | D => store low (Z.shiftr v 32) ;;; store (low + 4) (Z.land v 0xFFFFFFFF)
  | _ =>
      c <-- pointer table (Z.land low 0xfffc) ;;;
      if part_fits sz low then modify (fun s => cell_set c (merged sz low (cell_get c s) v) s) else undef OutOfBounds
  end.

(** ** MIPS interface *)

Definition on_mi (g : core_mips_reg -> core_mips_reg) : M st unit := mod_mach (on_MI g).
Definition clear_intr (mask : Z) : M st unit := on_mi (fun r => r <| mi_intr_reg := Z.land (mi_intr_reg r) mask |>).
Definition set_intr (bits : Z) : M st unit := mod_mach (or_intr bits).
Definition check : M st unit := on_mach check_interrupt.

(** [if (w & clear) f = 0; if (w & set) f = 1;] *)
Definition flag (w clear set old : Z) : Z :=
  let v := if has_bits w clear then 0 else old in if has_bits w set then 1 else v.

Definition update_MI_init_mode_reg : M st unit :=
  on_mi (fun r => let w := w_mi_init_mode_reg r in
    r <| init_length := Z.land w 0x7F |>
      <| init_mode := flag w 0x80 0x100 (init_mode r) |>
      <| ebus_test_mode := flag w 0x200 0x400 (ebus_test_mode r) |>) ;;;
  s <-- get ;;;
  when (has_bits (w_mi_init_mode_reg (MI_register (c_mach s))) 0x800) (clear_intr 0xFFFFFFDF ;;; check) ;;;
  on_mi (fun r => r <| RDRAM_reg_mode := flag (w_mi_init_mode_reg r) 0x1000 0x2000 (RDRAM_reg_mode r) |>) ;;;
  on_mi (fun r => r <| mi_init_mode_reg :=
    Z.lor (init_length r) (Z.lor (Z.shiftl (init_mode r) 7) (Z.lor (Z.shiftl (ebus_test_mode r) 8) (Z.shiftl (RDRAM_reg_mode r) 9))) |>).

Definition update_MI_intr_mask_reg : M st unit :=
  on_mi (fun r => let w := w_mi_intr_mask_reg r in
    r <| SP_intr_mask := flag w 0x1 0x2 (SP_intr_mask r) |>
      <| SI_intr_mask := flag w 0x4 0x8 (SI_intr_mask r) |>
      <| AI_intr_mask := flag w 0x10 0x20 (AI_intr_mask r) |>
      <| VI_intr_mask := flag w 0x40 0x80 (VI_intr_mask r) |>
      <| PI_intr_mask := flag w 0x100 0x200 (PI_intr_mask r) |>
      <| DP_intr_mask := flag w 0x400 0x800 (DP_intr_mask r) |>) ;;;
  on_mi (fun r => r <| mi_intr_mask_reg :=
    Z.lor (SP_intr_mask r) (Z.lor (Z.shiftl (SI_intr_mask r) 1) (Z.lor (Z.shiftl (AI_intr_mask r) 2)
      (Z.lor (Z.shiftl (VI_intr_mask r) 3) (Z.lor (Z.shiftl (PI_intr_mask r) 4) (Z.shiftl (DP_intr_mask r) 5))))) |>).

(** What a write of the interrupt mask sets off. *)
Definition mask_changed : M st unit :=
  update_MI_intr_mask_reg ;;; on_mach (check_interrupt ;;; update_count ;;; interrupt_if_due).

Definition write_mi (sz : size) (low v : Z) : M st unit :=
  match sz with
  | D =>
      if low =? 0 then on_mi (fun r => r <| w_mi_init_mode_reg := Z.shiftr v 32 |>) ;;; update_MI_init_mode_reg
      else when (low =? 8) (on_mi (fun r => r <| w_mi_intr_mask_reg := Z.land v 0xFFFFFFFF |>) ;;; mask_changed)
  | _ =>
      match reg_case sz low with
      | 0x0 => on_mi (fun r => r <| w_mi_init_mode_reg := merged sz low (w_mi_init_mode_reg r) v |>) ;;; update_MI_init_mode_reg
      | 0xc => on_mi (fun r => r <| w_mi_intr_mask_reg := merged sz low (w_mi_intr_mask_reg r) v |>) ;;; mask_changed
      | _ => ret tt
      end
  end.

(** ** Signal processor *)

Definition on_sp (g : core_sp_reg -> core_sp_reg) : M st unit := mod_mach (fun m => m <| sp_register := g (sp_register m) |>).
Definition on_rsp (g : core_rsp_reg -> core_rsp_reg) : M st unit := mod_dev (fun d => d <| rsp_register := g (rsp_register d) |>).
Definition add_event (type delay : Z) : M st unit := on_mach (m <-- get ;;; on_queue (q_add (Count m) type delay)).

Definition sp_status_of (r : core_sp_reg) : Z :=
  Z.lor (halt r) (Z.lor (Z.shiftl (broke r) 1) (Z.lor (Z.shiftl (sp_dma_busy r) 2) (Z.lor (Z.shiftl (dma_full r) 3)
    (Z.lor (Z.shiftl (io_full r) 4) (Z.lor (Z.shiftl (single_step r) 5) (Z.lor (Z.shiftl (intr_break r) 6)
    (Z.lor (Z.shiftl (signal0 r) 7) (Z.lor (Z.shiftl (signal1 r) 8) (Z.lor (Z.shiftl (signal2 r) 9)
    (Z.lor (Z.shiftl (signal3 r) 10) (Z.lor (Z.shiftl (signal4 r) 11) (Z.lor (Z.shiftl (signal5 r) 12)
    (Z.lor (Z.shiftl (signal6 r) 13) (Z.shiftl (signal7 r) 14)))))))))))))).

(** The flags a write of the status register sets and clears. *)
Definition sp_flags1 (r : core_sp_reg) : core_sp_reg :=
  let w := w_sp_status_reg r in
  r <| halt := flag w 0x1 0x2 (halt r) |> <| broke := if has_bits w 0x4 then 0 else broke r |>.
Definition sp_flags2 (r : core_sp_reg) : core_sp_reg :=
  let w := w_sp_status_reg r in
  r <| single_step := flag w 0x20 0x40 (single_step r) |>
    <| intr_break := flag w 0x80 0x100 (intr_break r) |>
    <| signal0 := flag w 0x200 0x400 (signal0 r) |>
    <| signal1 := flag w 0x800 0x1000 (signal1 r) |>
    <| signal2 := flag w 0x2000 0x4000 (signal2 r) |>
    <| signal3 := flag w 0x8000 0x10000 (signal3 r) |>
    <| signal4 := flag w 0x20000 0x40000 (signal4 r) |>
    <| signal5 := flag w 0x80000 0x100000 (signal5 r) |>
    <| signal6 := flag w 0x200000 0x400000 (signal6 r) |>
    <| signal7 := flag w 0x800000 0x1000000 (signal7 r) |>.

(** The plugin runs from the start of the memory; the upper bits of the program
    counter are put back afterwards. *)
Definition rsp_begin : M st Z :=
  d <-- dev ;;;
  on_rsp (fun r => r <| rsp_pc := Z.land (rsp_pc r) 0xFFF |>) ;;;
  ret (Z.ldiff (rsp_pc (rsp_register d)) 0xFFF).
Definition rsp_end (save_pc : Z) : M st unit := on_rsp (fun r => r <| rsp_pc := Z.lor (rsp_pc r) save_pc |>).

Definition task_done (intr sta : Z) : M st unit :=
  on_mi (fun r => r <| mi_intr_reg := Z.ldiff (mi_intr_reg r) intr |>) ;;;
  on_sp (fun r => r <| sp_status_reg := Z.ldiff (sp_status_reg r) sta |>) ;;;
  on_mach update_count.

(** The task whose type is at 0xFC0 of the data memory: 1 a display list, 2 an
    audio list.  The frame buffer extension of video plugins is left out. *)
Definition run_task : M st unit :=
  type <-- get_word sp_array 0xFC0 ;;;
  d <-- dev ;;;
  let audible := negb (g_vr_fast_forward d) || negb (fastforward_silent d) in
  save_pc <-- rsp_begin ;;;
  if type =? 1 then
    mod_dev (fun d => d <| g_total_frames := u64 (g_total_frames d + 1) |> <| total_frames := u64 (total_frames d + 1) |>) ;;;
    skipped <-- frame_skipped ;;;
    mod_mach (fun m => m <| g_vr_frame_skipped := skipped |>) ;;;
    when (negb skipped) rsp_do_rsp_cycles ;;;
    rsp_end save_pc ;;;
    mod_mach (host HTimerNewFrame) ;;;
    task_done 0x21 0x303 ;;;
    add_event SP_INT 1000 ;;; add_event DP_INT 1000
  else
    when audible rsp_do_rsp_cycles ;;;
    rsp_end save_pc ;;;
    if type =? 2 then task_done 0x1 0x303 ;;; add_event SP_INT 4000
    else task_done 0x1 0x203 ;;; add_event SP_INT 0.

Definition update_SP : M st unit :=
  p <-- sp_now ;;;
  let w := w_sp_status_reg p in
  on_sp sp_flags1 ;;;
  when (has_bits w 0x8) (clear_intr 0xFFFFFFFE ;;; check) ;;;
  when (has_bits w 0x10) (set_intr 1 ;;; check) ;;;
  on_sp sp_flags2 ;;;
  on_sp (fun r => r <| sp_status_reg := sp_status_of r |>) ;;;
  if negb (has_bits w 0x1) && negb (has_bits w 0x4) then ret tt
  else
    p <-- sp_now ;;;
    when (negb (c_true (halt p)) && negb (c_true (broke p))) run_task.

Definition read_rsp_reg (sz : size) (low : Z) : M st Z :=
  v <-- read_reg readrspreg sz low ;;;
  when (match sz with D => low =? 0x18 | _ => reg_case sz low =? 0x1c end)
    (on_sp (fun r => r <| sp_semaphore_reg := 1 |>)) ;;;
  ret v.

(** Only the word and doubleword handlers act on a new status. *)
Definition write_rsp_reg (sz : size) (low v : Z) : M st unit :=
  match sz with
  | D =>
      if low =? 0x10 then on_sp (fun r => r <| w_sp_status_reg := Z.shiftr v 32 |>) ;;; update_SP
      else if low =? 0x18 then on_sp (fun r => r <| sp_semaphore_reg := 0 |>)
      else write_reg readrspreg D low v ;;; when (low =? 0x8) (dma_sp_write ;;; dma_sp_read)
  | _ =>
      match reg_case sz low with
      | 0x10 =>
          on_sp (fun r => r <| w_sp_status_reg := merged sz low (w_sp_status_reg r) v |>) ;;;
          match sz with W => update_SP | _ => ret tt end
      | 0x14 | 0x18 => ret tt
      | r =>
          write_reg readrspreg sz low v ;;;
          match r with
          | 0x8 => dma_sp_write
          | 0xc => dma_sp_read
          | 0x1c => on_sp (fun r => r <| sp_semaphore_reg := 0 |>)
          | _ => ret tt
          end
      end
  end.

(** ** Display processor *)

Definition on_dpc (g : core_dpc_reg -> core_dpc_reg) : M st unit := mod_mach (fun m => m <| dpc_register := g (dpc_register m) |>).

Definition update_DPC : M st unit :=
  on_dpc (fun r => let w := w_dpc_status r in
    r <| xbus_dmem_dma := flag w 0x1 0x2 (xbus_dmem_dma r) |>
      <| dpc_freeze := flag w 0x4 0x8 (dpc_freeze r) |>
      <| dpc_flush := flag w 0x10 0x20 (dpc_flush r) |>) ;;;
  on_dpc (fun r => r <| dpc_status :=
    Z.lor (xbus_dmem_dma r) (Z.lor (Z.shiftl (dpc_freeze r) 1) (Z.lor (Z.shiftl (dpc_flush r) 2)
      (Z.lor (Z.shiftl (start_glck r) 3) (Z.lor (Z.shiftl (tmem_busy r) 4) (Z.lor (Z.shiftl (pipe_busy r) 5)
      (Z.lor (Z.shiftl (cmd_busy r) 6) (Z.lor (Z.shiftl (cbuf_busy r) 7) (Z.lor (Z.shiftl (dpc_dma_busy r) 8)
      (Z.lor (Z.shiftl (end_valid r) 9) (Z.shiftl (start_valid r) 10)))))))))) |>).

Definition dp_start : M st unit := on_dpc (fun r => r <| dpc_current := dpc_start r |>).
Definition dp_run : M st unit := video_process_rdp_list ;;; set_intr 0x20 ;;; check.

Definition write_dp (sz : size) (low v : Z) : M st unit :=
  match sz with
  | D =>
      match low with
      | 0x8 => on_dpc (fun r => r <| w_dpc_status := Z.land v 0xFFFFFFFF |>) ;;; update_DPC
      | 0x10 | 0x18 => ret tt
      | _ => write_reg readdp D low v ;;; when (low =? 0x0) (dp_start ;;; dp_run)
      end
  | _ =>
      match reg_case sz low with
      | 0xc => on_dpc (fun r => r <| w_dpc_status := merged sz low (w_dpc_status r) v |>) ;;; update_DPC
      | 0x8 | 0x10 | 0x14 | 0x18 | 0x1c => ret tt
      | r =>
          write_reg readdp sz low v ;;;
          match r with 0x0 => dp_start | 0x4 => dp_run | _ => ret tt end
      end
  end.

(** ** Video interface *)

Definition on_vi (g : core_vi_reg -> core_vi_reg) : M st unit := mod_mach (fun m => m <| vi_register := g (vi_register m) |>).
Definition vi_now : M st core_vi_reg := s <-- get ;;; ret (vi_register (c_mach s)).

(** The line being drawn, from the time left to the next vertical interrupt. *)
Definition update_vi_current : M st unit :=
  on_mach update_count ;;;
  mod_mach (fun m => m <| vi_register := (vi_register m) <| vi_current :=
    let c := u32 (vi_delay (vi_register m) - u32 (next_vi m - Count m)) / 1500 in
    Z.lor (Z.land c 0xFFFFFFFE) (u32 (vi_field m)) |> |>).

Definition read_vi (sz : size) (low : Z) : M st Z :=
  when (reg_case sz low =? 0x10) update_vi_current ;;; read_reg readvi sz low.

Definition set_vi_status (v : Z) : M st unit :=
  r <-- vi_now ;;;
  when (negb (vi_status r =? v)) (on_vi (fun r => r <| vi_status := v |>) ;;; mod_mach (host HViStatusChanged)).
Definition set_vi_width (v : Z) : M st unit :=
  r <-- vi_now ;;;
  when (negb (vi_width r =? v)) (on_vi (fun r => r <| vi_width := v |>) ;;; mod_mach (host HViWidthChanged)).

(** The narrow writes of the width start from the status. *)
Definition write_vi (sz : size) (low v : Z) : M st unit :=
  r <-- vi_now ;;;
  match reg_case sz low with
  | 0x0 =>
      match sz with
      | D => set_vi_status (Z.shiftr v 32) ;;; on_vi (fun r => r <| vi_origin := Z.land v 0xFFFFFFFF |>)
      | _ => set_vi_status (merged sz low (vi_status r) v)
      end
  | 0x8 =>
      match sz with
      | D => set_vi_width (Z.shiftr v 32) ;;; on_vi (fun r => r <| vi_v_intr := Z.land v 0xFFFFFFFF |>)
      | _ => set_vi_width (merged sz low (vi_status r) v)
      end
  | 0x10 =>
      clear_intr 0xFFFFFFF7 ;;; check ;;;
      match sz with D => on_vi (fun r => r <| vi_burst := Z.land v 0xFFFFFFFF |>) | _ => ret tt end
  | _ => write_reg readvi sz low v
  end.

(** ** Audio interface *)

Definition on_ai (g : core_ai_reg -> core_ai_reg) : M st unit := mod_mach (fun m => m <| ai_register := g (ai_register m) |>).
Definition ai_now : M st core_ai_reg := s <-- get ;;; ret (ai_register (c_mach s)).

(** What is left of the buffer being played.  Only the word handler sees an event
    that is overdue. *)
Definition ai_left (sz : size) : M st Z :=
  on_mach update_count ;;;
  ev <-- on_mach (on_queue (q_get AI_INT)) ;;;
  s <-- get ;;;
  let r := ai_register (c_mach s) in
  let left := u32 (ev - Count (c_mach s)) in
  if c_true (current_delay r) && c_true ev && (match sz with W => left <? 0x80000000 | _ => true end)
  then ret (Z.quot (s64 (left * current_len r)) (current_delay r)) else ret 0.

Definition read_ai (sz : size) (low : Z) : M st Z :=
  match sz with
  | D =>
      if low =? 0x0 then len <-- ai_left D ;;; r <-- ai_now ;;; ret (Z.lor (u64 len) (Z.shiftl (ai_dram_addr r) 32))
      else read_reg readai D low
  | _ =>
      if reg_case sz low =? 0x4 then
        len <-- ai_left sz ;;;
        match sz with W => ret (u64 len) | _ => ret (get_bits (u32 len) (part_offset sz low) (part_width sz)) end
      else read_reg readai sz low
  end.

(** PAL and NTSC country codes. *)
Definition is_pal (cc : Z) : bool := bool_decide (cc ∈ [0x44; 0x46; 0x49; 0x50; 0x53; 0x55; 0x58; 0x59]).
Definition is_ntsc (cc : Z) : bool := bool_decide (cc ∈ [0x37; 0x41; 0x45; 0x4a]).

(** The duration of a buffer; the word handler computes it in two steps. *)
Definition ai_delay (sz : size) : M st Z :=
  s <-- get ;;;
  let r := ai_register (c_mach s) in
  let cc := Z.land (Country_code (c_dev s)) 0xFF in
  let vid := vi_delay (vi_register (c_mach s)) in
  let dac := u32 (ai_dacrate r + 1) in
  let duration clock hz :=
    match sz with
    | W =>
        if dac =? 0 then undef DivideByZero
        else
          let f := clock / dac in
          if c_true f then ret (u32 (u64 (u64 (ai_len r * vid) * hz) / u32 (f * 4))) else ret 0
    | _ => ret (u32 (u64 (u64 (u64 (ai_len r * dac) * vid) * hz) / clock))
    end in
  delay <-- (if is_pal cc then duration 49656530 50 else if is_ntsc cc then duration 48681812 60 else ret 0) ;;;
  match sz with
  | B => ret delay
  | _ => ret (if is_audio_delay_enabled (c_dev s) then delay else 0)
  end.

(** A new buffer: queued behind the one being played, or played at once. *)
Definition ai_len_changed (sz : size) : M st unit :=
  mod_mach (host HAiLenChanged) ;;;
  delay <-- ai_delay sz ;;;
  r <-- ai_now ;;;
  if has_bits (ai_status r) 0x40000000 then
    on_ai (fun r => r <| next_delay := delay |> <| next_len := ai_len r |> <| ai_status := Z.lor (ai_status r) 0x80000000 |>)
  else
    on_ai (fun r => r <| current_delay := delay |> <| current_len := ai_len r |>) ;;;
    on_mach update_count ;;;
    add_event AI_INT (match sz with W => delay | _ => delay / 2 end) ;;;
    on_ai (fun r => r <| ai_status := Z.lor (ai_status r) 0x40000000 |>).

Definition set_dacrate (v : Z) : M st unit :=
  r <-- ai_now ;;;
  when (negb (ai_dacrate r =? v)) (on_ai (fun r => r <| ai_dacrate := v |>) ;;; mod_mach (host HAiDacrateChanged)).

Definition write_ai (sz : size) (low v : Z) : M st unit :=
  match sz with
  | D =>
      match low with
      | 0x0 => on_ai (fun r => r <| ai_dram_addr := Z.shiftr v 32 |> <| ai_len := Z.land v 0xFFFFFFFF |>) ;;; ai_len_changed D
      | 0x8 => on_ai (fun r => r <| ai_control := Z.shiftr v 32 |>) ;;; clear_intr 0xFFFFFFFB ;;; check
      | 0x10 => set_dacrate (Z.shiftr v 32) ;;; on_ai (fun r => r <| ai_bitrate := Z.land v 0xFFFFFFFF |>)
      | _ => write_reg readai D low v
      end
  | _ =>
      match reg_case sz low with
      | 0x4 => on_ai (fun r => r <| ai_len := merged sz low (ai_len r) v |>) ;;; ai_len_changed sz
      | 0xc => clear_intr 0xFFFFFFFB ;;; check
      | 0x10 => r <-- ai_now ;;; set_dacrate (merged sz low (ai_dacrate r) v)
      | _ => write_reg readai sz low v
      end
  end.

(** ** Peripheral and serial interface *)

(** The domain registers hold bytes. *)
Definition pi_domain (r : Z) : bool := (0x14 <=? r) && (r <=? 0x30).

(** An acknowledge; the narrow handlers look at the last word stored anywhere. *)
Definition pi_acknowledge (cond : bool) : M st unit := when cond (clear_intr 0xFFFFFFEF) ;;; check.
Definition stale_word : M st bool := d <-- dev ;;; ret (c_true (word d)).

Definition write_pi (sz : size) (low v : Z) : M st unit :=
  match sz with
  | D =>
      match low with
      | 0x8 =>
          on_pi (fun r => r <| pi_rd_len_reg := Z.shiftr v 32 |>) ;;; dma_pi_read ;;;
          on_pi (fun r => r <| pi_wr_len_reg := Z.land v 0xFFFFFFFF |>) ;;; dma_pi_write
      | 0x10 => w <-- stale_word ;;; pi_acknowledge w ;;; write_reg readpi W (low + 4) (Z.land v 0xFF)
      | 0x18 | 0x20 | 0x28 | 0x30 =>
          write_reg readpi W low (Z.land (Z.shiftr v 32) 0xFF) ;;; write_reg readpi W (low + 4) (Z.land v 0xFF)
      | _ => write_reg readpi D low v
      end
  | _ =>
      let r := reg_case sz low in
      match r with
      | 0x8 => on_pi (fun p => p <| pi_rd_len_reg := merged sz low (pi_rd_len_reg p) v |>) ;;; dma_pi_read
      | 0xc => on_pi (fun p => p <| pi_wr_len_reg := merged sz low (pi_wr_len_reg p) v |>) ;;; dma_pi_write
      | 0x10 => match sz with
                | W => pi_acknowledge (has_bits v 2)
                | _ => w <-- stale_word ;;; pi_acknowledge w
                end
      | _ =>
          if pi_domain r then
            match sz with
            | W => if r mod 4 =? 0 then write_reg readpi W low (Z.land v 0xFF) else write_reg readpi W low v
            | H => if Z.odd low then write_reg readpi H low v
                   else when (has_bits low 2) (write_reg readpi H low (Z.land v 0xFF))
            | _ => when (Z.land low 3 =? 3) (write_reg readpi B low v)
            end
          else write_reg readpi sz low v
      end
  end.

Definition on_si (g : core_si_reg -> core_si_reg) : M st unit := mod_mach (fun m => m <| si_register := g (si_register m) |>).
Definition si_acknowledge : M st unit :=
  clear_intr 0xFFFFFFFD ;;; on_si (fun r => r <| si_status := Z.ldiff (si_status r) 0x1000 |>) ;;; check.

Definition write_si (sz : size) (low v : Z) : M st unit :=
  match sz with
  | D =>
      match low with
      | 0x0 => on_si (fun r => r <| si_dram_addr := Z.shiftr v 32 |> <| si_pif_addr_rd64b := Z.land v 0xFFFFFFFF |>) ;;; dma_si_read
      | 0x10 => on_si (fun r => r <| si_pif_addr_wr64b := Z.shiftr v 32 |>) ;;; dma_si_write
      | 0x18 => si_acknowledge
      | _ => ret tt
      end
  | _ =>
      match reg_case sz low with
      | 0x0 => on_si (fun r => r <| si_dram_addr := merged sz low (si_dram_addr r) v |>)
      | 0x4 => on_si (fun r => r <| si_pif_addr_rd64b := merged sz low (si_pif_addr_rd64b r) v |>) ;;; dma_si_read
      | 0x10 => on_si (fun r => r <| si_pif_addr_wr64b := merged sz low (si_pif_addr_wr64b r) v |>) ;;; dma_si_write
      | 0x18 => si_acknowledge
      | _ => ret tt
      end
  end.

(** ** Cartridge *)

(** Only words reach the flash RAM, and only while the game has not used SRAM. *)
Definition flash_ready (sz : size) (low : Z) : M st bool :=
  d <-- dev ;;;
  ret (match sz with W => negb (use_flashram (d_flash d) =? -1) && (low =? 0) | _ => false end).

Definition read_flashram_status (sz : size) (low : Z) : M st (option Z) :=
  ok <-- flash_ready sz low ;;;
  if ok : bool then
    d <-- dev ;;;
    mod_flash (fun f => f <| use_flashram := 1 |>) ;;;
    ret (Some (flashram_status (d_flash d)))
  else ret None.

Definition write_flashram_command (sz : size) (low v : Z) : M st unit :=
  ok <-- flash_ready sz low ;;;
  if ok : bool then flashram_command v ;;; mod_flash (fun f => f <| use_flashram := 1 |>) else ret tt.

(** A word written to the cartridge is what the next word read gives, unless it
    is zero. *)
Definition read_rom (sz : size) (address : Z) : M st Z :=
  s <-- get ;;;
  let load n a := load_from rom (rom_alloc s) n (Z.land a 0x03FFFFFF) in
  match sz with
  | W =>
      if c_true (lastwrite (c_dev s)) then
        mod_dev (fun d => d <| lastwrite := 0 |>) ;;; ret (lastwrite (c_dev s))
      else load 4%nat address
  | B => load 1%nat (Z.lxor address 3)
  | H => load 2%nat (Z.lxor address 2)
  | D => h <-- load 4%nat address ;;; l <-- load 4%nat (address + 4) ;;; ret (Z.lor (Z.shiftl h 32) l)
  end.
Definition write_rom (v : Z) : M st unit := mod_dev (fun d => d <| lastwrite := v |>).

(** ** PIF RAM *)

Definition pif_offset (address : Z) : Z := Z.land address 0x7FF - 0x7C0.
Definition pif_word (address : Z) : M st Z := w <-- pif_bytes 4 (pif_offset address) ;;; ret (sl (le_combine w)).

Definition read_pif (sz : size) (address : Z) : M st Z :=
  match sz with
  | W => pif_word address
  | B => pif (pif_offset address)
  | H => h <-- pif (pif_offset address) ;;; l <-- pif (pif_offset (address + 1)) ;;; ret (Z.lor (Z.shiftl h 8) l)
  | D => h <-- pif_word address ;;; l <-- pif_word (address + 4) ;;; ret (Z.lor (Z.shiftl h 32) l)
  end.

(** A write that reaches the last byte runs the commands. *)
Definition pif_written : M st unit :=
  b <-- pif 0x3F ;;;
  if b =? 0x08 then set_pif 0x3F 0 ;;; si_done else update_pif_write.

(** The doubleword handler stores both words at the same place. *)
Definition write_pif (sz : size) (address v : Z) : M st unit :=
  let off := pif_offset address in
  (match sz with
   | W => set_pif_bytes off (le_split 4 (sl v))
   | B => set_pif off v
   | H => set_pif off (Z.shiftr v 8) ;;; set_pif (pif_offset (address + 1)) (Z.land v 0xFF)
   | D => set_pif_bytes off (le_split 4 (sl (Z.shiftr v 32))) ;;; set_pif_bytes off (le_split 4 (sl (Z.land v 0xFFFFFFFF)))
   end) ;;;
  when (Z.land address 0x7FF =? 0x800 - width sz) pif_written.

(** ** SD card cartridge *)

Definition read_sc_reg (sz : size) (address : Z) : M st (option Z) :=
  match sz with
  | W => v <-- read_summercart address ;;; ret (Some v)
  | B => v <-- read_summercart address ;;; ret (Some (Z.land (Z.shiftr v (Z.shiftl (Z.land address 3) 3)) 0xFF))
  | H => v <-- read_summercart address ;;; ret (Some (Z.land (Z.shiftr v (Z.shiftl (Z.land address 2) 3)) 0xFFFF))
  | D => mod_mach (host HShowDialog) ;;; stop_core ;;; ret None
  end.

Definition write_sc_reg (sz : size) (address v : Z) : M st unit :=
  match sz with
  | W => write_summercart address v
  | B => write_summercart address (u32 (Z.shiftl v (Z.shiftl (Z.land (Z.lnot address) 3) 3)))
  | H => write_summercart address (u32 (Z.shiftl v (Z.shiftl (Z.land (Z.lnot address) 2) 3)))
  | D => write_summercart address (Z.shiftr v 32)
  end.

(** ** Start-up *)

(** The state [init_memory] leaves: memories and registers cleared, the signal
    processor halted.  [vi_delay] keeps its value. *)
Definition sp_reset : core_sp_reg := core_sp_reg_zero <| sp_status_reg := 1 |> <| halt := 1 |>.
Definition mi_reset : core_mips_reg := core_mips_reg_zero <| mi_version_reg := 0x02020102 |>.

Definition init_memory : M st unit :=
  mod_dev (fun d => d <| g_total_frames := 0 |>) ;;;
  mod_mach (fun m => m <| lag_count := 0 |>) ;;;
  modify (fun s => s <| rdram := ∅ |> <| SP_MEM := ∅ |>) ;;;
  mod_dev (fun d => d <| rdram_register := mk_core_rdram_reg 0 0 0 0 0 0 0 0 0 0 |>
    <| rsp_register := mk_core_rsp_reg 0 0 |> <| dps_register := mk_core_dps_reg 0 0 0 0 |>
    <| ri_register := mk_core_ri_reg 0 0 0 0 0 0 0 0 |>) ;;;
  mod_mach (fun m => m <| sp_register := sp_reset |> <| dpc_register := core_dpc_reg_zero |> <| MI_register := mi_reset |>
    <| vi_register := core_vi_reg_zero <| vi_delay := vi_delay (vi_register m) |> |>
    <| ai_register := core_ai_reg_zero |> <| pi_register := core_pi_reg_zero |> <| si_register := core_si_reg_zero |>
    <| PIF_RAMb := replicate 64 0 |>) ;;;
  s <-- get ;;;
  when (cfg_use_summercart s) init_summercart ;;;
  mod_flash (fun f => f <| use_flashram := 0 |>) ;;;
  init_flashram.

(** ** The handlers of the memory map *)

Definition some {A} (m : M st A) : M st (option A) := v <-- m ;;; ret (Some v).

#[export] Instance rcp_devices : Devices Q := {
  dev_read h sz address :=
    let low := address_low address in
    match h with
    | Rdramreg => some (read_reg readrdramreg sz low)
    | RspReg => some (read_rsp_reg sz low)
    | Rsp => some (read_reg readrsp sz low)
    | Dp => some (read_reg readdp sz low)
    | Dps => some (read_reg readdps sz low)
    | Mi => some (read_reg readmi sz low)
    | Vi => some (read_vi sz low)
    | Ai => some (read_ai sz low)
    | Pi => some (read_reg readpi sz low)
    | Ri => some (read_reg readri sz low)
    | Si => some (read_reg readsi sz low)
    | FlashramStatus => read_flashram_status sz low
    | Rom => some (read_rom sz address)
    | Bus.Pif => some (read_pif sz address)
    | Sc => read_sc_reg sz address
    | Nomem | Nothing | Rdram | RspMem | FlashramDummy | FlashramCommand => ret None
    end;
  dev_write h sz address v :=
    let low := address_low address in
    match h with
    | Rdramreg => write_reg readrdramreg sz low v
    | RspReg => write_rsp_reg sz low v
    | Rsp => write_reg readrsp sz low v
    | Dp => write_dp sz low v
    | Dps => write_reg readdps sz low v
    | Mi => write_mi sz low v
    | Vi => write_vi sz low v
    | Ai => write_ai sz low v
    | Pi => write_pi sz low v
    | Ri => write_reg readri sz low v
    | Si => write_si sz low v
    | FlashramDummy => ret tt
    | FlashramCommand => write_flashram_command sz low v
    | Rom => match sz with W => write_rom v | _ => ret tt end
    | Bus.Pif => write_pif sz address v
    | Sc => write_sc_reg sz address v
    | Nomem | Nothing | Rdram | RspMem | FlashramStatus => ret tt
    end
}.

End Registers.
