(* ===== verification/Interp.v ===== *)
(** * The pure interpreter (pure_interp.cpp)

    Jumps and branches with their delay slots, fetching, the dispatch over the
    instruction word and the main loop.  A branch runs the instruction behind it
    by fetching and dispatching once more, so the dispatch is recursive: [exec n]
    allows [n] nested delay slots.  [local_rs] and its kin are globals, which a
    branch in a delay slot overwrites.  The arithmetic of coprocessor 1, inline
    x87 code, is the operation of the class [Fpu]. *)

From S2P Require Import Prelude Machine Exception Alu Tlb Core Bus LoadStore Cop.

Open Scope prog_scope.
#[local] Open Scope Z_scope.

(** The instructions of formats S, D, W and L. *)
Class Fpu (Q : Type) := { fpu_op : Z -> M (core Q) unit }.

Section Interpreter.
Context {Q : Type} `{EventQueue Q} `{Devices Q} `{Fpu Q}.
#[local] Abbreviation st := (core Q).

Definition pc_of (s : st) : Z := interp_addr (c_mach s).
Definition set_pc (g : Z -> Z) : M st unit :=
  on_mach (modify (fun m => m <| interp_addr := u32 (g (interp_addr m)) |>)).

(** ** Fetching *)

(** [prefetch] calls itself with the translated address, or at the exception
    vector when there is no translation; [fuel] bounds that.  The operands it
    leaves in [PC->f] are a function of [vr_op]. *)
Definition fetch (load : M st Z) : M st unit := op <-- load ;;; modify (fun s => s <| vr_op := op |>).

Fixpoint prefetch (fuel : nat) : M st unit :=
  match fuel with
  | O => undef Diverges
  | S fuel =>
      s <-- get ;;;
      let a := pc_of s in
      if (0x80000000 <=? a) && (a <? 0xc0000000) then
        if a <? 0x80800000 then fetch (load_from rdram 0x800000 4 (Z.land a 0xFFFFFF))
        else if (0xa4000000 <=? a) && (a <? 0xa4001000) then fetch (load_from SP_MEM 0x2000 4 (Z.land a 0xFFF / 4 * 4))
        else if 0xb0000000 <? a then fetch (load_from rom (rom_size s) 4 (Z.land a 0xFFFFFFF / 4 * 4))
        else stop_emu
      else
        phys <-- on_mach (virtual_to_physical_address a 2) ;;;
        if c_true phys then set_pc (fun _ => phys) ;;; prefetch fuel ;;; set_pc (fun _ => a)
        else prefetch fuel
  end.

(** [probe_nop]: is the instruction at [address] a NOP? *)
Definition probe_nop (address : Z) : M st bool :=
  s <-- get ;;;
  let e := lut_lookup (tlb_LUT_r (c_mach s)) address in
  let zero_at (load : M st Z) := w <-- load ;;; ret (w =? 0) in
  if ((address <? 0x80000000) || (0xc0000000 <? address)) && negb (c_true e) then ret false
  else
    let a := if (address <? 0x80000000) || (0xc0000000 <? address)
             then page_address e address else address in
    if (0xa4000000 <=? a) && (a <? 0xa4001000) then zero_at (load_from SP_MEM 0x2000 4 (Z.land a 0xFFF / 4 * 4))
    else if (0x80000000 <=? a) && (a <? 0x80800000) then zero_at (load_from rdram 0x800000 4 (Z.land a 0x7FFFFF / 4 * 4))
    else ret false.

(** ** Jumps and branches *)

(** Skip an idle loop: advance Count to the next interrupt and return, or go on
    with [k]. *)
Definition skip_idle (idle : bool) (k : M st unit) : M st unit :=
  if idle then
    s <-- get ;;;
    nop <-- probe_nop (u32 (pc_of s + 4)) ;;;
    if nop : bool then
      on_mach update_count ;;;
      s <-- get ;;;
      let skip := s32 (next_interrupt_of (c_mach s) - Count (c_mach s)) in
      if 3 <? skip then
        on_mach (modify (fun m => set_Count (u32 (Count m + Z.land skip 0xFFFFFFFC)) m))
      else k
    else k
  else k.

(** The instruction in the delay slot, [slot] being the fetch and dispatch. *)
Definition delay (slot : M st unit) : M st unit :=
  set_pc (fun a => a + 4) ;;;
  on_mach (modify (fun m => m <| delay_slot := 1 |>)) ;;;
  slot ;;;
  on_mach update_count ;;;
  on_mach (modify (fun m => m <| delay_slot := 0 |>)).

Definition finish : M st unit :=
  on_mach (modify (fun m => m <| last_addr := interp_addr m |>) ;;; interrupt_if_due).

Definition jump_rel (local_immediate : Z) : M st unit := set_pc (fun a => a + (local_immediate - 1) * 4).

(** [(interp_addr + (local_immediate + 1) * 4) == interp_addr] *)
Definition self_loop (s : st) (local_immediate : Z) : bool :=
  u32 (pc_of s + (local_immediate + 1) * 4) =? pc_of s.

Definition save_rs (f : fields) : M st unit := modify (fun s => s <| local_rs := irs f (get_cpu s) |>).
Definition save_rt (f : fields) : M st unit := modify (fun s => s <| local_rt := irt f (get_cpu s) |>).

(** A branch: the conditions are tested before the delay slot for an idle loop and
    after it for the jump. *)
Definition branch (slot : M st unit) (f : fields) (idle taken : st -> bool) : M st unit :=
  s <-- get ;;;
  skip_idle (self_loop s (immediate f) && idle s)
    (delay slot ;;;
     s <-- get ;;; when (taken s) (jump_rel (immediate f)) ;;;
     finish).

(** A likely branch, which skips its delay slot when not taken; only some then
    update Count. *)
Definition branch_likely (slot : M st unit) (f : fields) (taken : st -> bool) (counts : bool) : M st unit :=
  s <-- get ;;;
  skip_idle (self_loop s (immediate f) && taken s)
    (s <-- get ;;;
     (if taken s then delay slot ;;; jump_rel (immediate f)
      else set_pc (fun a => a + 8) ;;; when counts (on_mach update_count)) ;;;
     finish).

(** The branches that link do so first, and do nothing more when they test the
    link register. *)
Definition link (f : fields) (k : M st unit) : M st unit :=
  s <-- get ;;;
  on_cpu (set_reg 31 (u32 (pc_of s + 8))) ;;;
  if (rs f =? 31)%nat then finish else k.

Definition ltz (s : st) : bool := local_rs s <? 0.
Definition gez (s : st) : bool := 0 <=? local_rs s.
Definition lez (s : st) : bool := local_rs s <=? 0.
Definition gtz (s : st) : bool := 0 <? local_rs s.
Definition equal (s : st) : bool := local_rs s =? local_rt s.
Definition differ (s : st) : bool := negb (equal s).

Section Branches.
Variable slot : M st unit.
Implicit Types f : fields.

Definition BLTZ f := save_rs f ;;; branch slot f ltz ltz.
Definition BGEZ f := save_rs f ;;; branch slot f gez gez.
Definition BLTZL f := save_rs f ;;; branch_likely slot f ltz false.
Definition BGEZL f := save_rs f ;;; branch_likely slot f gez false.
Definition BLTZAL f := save_rs f ;;; link f (branch slot f ltz ltz).
Definition BGEZAL f := save_rs f ;;; link f (branch slot f gez gez).
Definition BLTZALL f := save_rs f ;;; link f (branch_likely slot f ltz false).
Definition BGEZALL f := save_rs f ;;; link f (branch_likely slot f gez false).

Definition BEQ f := save_rs f ;;; save_rt f ;;;
  branch slot f equal (fun s => equal s && negb (g_vr_beq_ignore_jmp s)).
Definition BNE f := save_rs f ;;; save_rt f ;;; branch slot f differ differ.
Definition BLEZ f := save_rs f ;;; branch slot f lez lez.
(** The idle test of BGTZ is that of BLEZ. *)
Definition BGTZ f := save_rs f ;;; branch slot f lez gtz.
Definition BEQL f := save_rs f ;;; save_rt f ;;; branch_likely slot f equal true.
Definition BNEL f := save_rs f ;;; save_rt f ;;; branch_likely slot f differ true.
Definition BLEZL f := save_rs f ;;; branch_likely slot f lez true.
Definition BGTZL f := save_rs f ;;; branch_likely slot f gtz true.

(** The condition bit of coprocessor 1. *)
Definition condition (s : st) : bool := has_bits (FCR31 (c_cop1 s)) 0x800000.
Definition no_condition (s : st) : bool := negb (condition s).
Definition BC1F f := branch slot f no_condition no_condition.
Definition BC1T f := branch slot f condition condition.
Definition BC1FL f := branch_likely slot f no_condition false.
Definition BC1TL f := branch_likely slot f condition false.

Definition JR f : M st unit :=
  modify (fun s => s <| local_rs32 := irs32 f (get_cpu s) |>) ;;;
  delay slot ;;;
  s <-- get ;;; set_pc (fun _ => local_rs32 s) ;;;
  finish.

(** The jump happens, and the link is written, only when no exception has been
    taken in the delay slot. *)
Definition jump_and_link (dest : nat) (target : st -> Z) : M st unit :=
  delay slot ;;;
  s <-- get ;;;
  when (skip_jump (c_mach s) =? 0)
    (on_cpu (set_reg dest (pc_of s) ;;; sign_extended dest) ;;;
     s <-- get ;;; set_pc (fun _ => target s)) ;;;
  finish.

Definition JALR f : M st unit :=
  modify (fun s => s <| local_rs32 := rrs32 f (get_cpu s) |>) ;;;
  jump_and_link (rd f) local_rs32.

(** [(PC->f.j.inst_index << 2) | (interp_addr & 0xF0000000)] *)
Definition naddr (op : Z) (s : st) : Z :=
  Z.lor (Z.shiftl (Z.land op 0x3FFFFFF) 2) (Z.land (pc_of s) 0xF0000000).

Definition J (op : Z) : M st unit :=
  s <-- get ;;;
  let target := naddr op s in
  skip_idle (target =? pc_of s) (delay slot ;;; set_pc (fun _ => target) ;;; finish).

Definition JAL (op : Z) : M st unit :=
  s <-- get ;;;
  let target := naddr op s in
  skip_idle (target =? pc_of s) (jump_and_link 31 (fun _ => target)).

(** ** Dispatch *)

Definition i_type := recompile_standard_i_type.
Definition r_type := recompile_standard_r_type.

Definition interp_regimm (op : Z) : M st unit :=
  let f := i_type op in
  match Z.land (Z.shiftr op 16) 0x1F with
  | 0 => BLTZ f | 1 => BGEZ f | 2 => BLTZL f | 3 => BGEZL f
  | 16 => BLTZAL f | 17 => BGEZAL f | 18 => BLTZALL f | 19 => BGEZALL f
  | _ => on_cpu (NI f)
  end.

Definition interp_tlb (op : Z) : M st unit :=
  match Z.land op 0x3F with
  | 1 => on_mach TLBR | 2 => on_mach TLBWI | 6 => on_mach TLBWR | 8 => on_mach TLBP | 24 => on_mach ERET
  | _ => on_cpu (NI (r_type op))
  end.

Definition interp_cop0 (op : Z) : M st unit :=
  match Z.land (Z.shiftr op 21) 0x1F with
  | 0 => MFC0 (r_type op) | 4 => MTC0 (r_type op) | 16 => interp_tlb op
  | _ => on_cpu (NI (r_type op))
  end.

Definition interp_cop1_bc (op : Z) : M st unit :=
  let f := i_type op in
  match Z.land (Z.shiftr op 16) 3 with
  | 0 => BC1F f | 1 => BC1T f | 2 => BC1FL f | _ => BC1TL f
  end.

Definition interp_cop1 (op : Z) : M st unit :=
  let f := r_type op in
  match Z.land (Z.shiftr op 21) 0x1F with
  | 0 => MFC1 f | 1 => DMFC1 f | 2 => CFC1 f | 4 => MTC1 f | 5 => DMTC1 f | 6 => CTC1 f
  | 8 => interp_cop1_bc op
  | 16 | 17 | 20 | 21 => fpu_op op
  | _ => on_cpu (NI f)
  end.

(** The instructions of [interp_special] and [interp_ops] that are not integer
    arithmetic. *)
Definition control_special (op : Z) : M st unit :=
  match Z.land op 0x3F with
  | 8 => JR (i_type op) | 9 => JALR (r_type op) | 12 => SYSCALL | 15 => on_cpu next
  | _ => on_cpu (NI (r_type op))
  end.

Definition control_ops (op : Z) : M st unit :=
  let f := i_type op in
  match Z.land (Z.shiftr op 26) 0x3F with
  | 0 => control_special op
  | 1 => interp_regimm op
  | 2 => J op | 3 => JAL op
  | 4 => BEQ f | 5 => BNE f | 6 => BLEZ f | 7 => BGTZ f
  | 16 => interp_cop0 op
  | 17 => usable (interp_cop1 op)
  | 20 => BEQL f | 21 => BNEL f | 22 => BLEZL f | 23 => BGTZL f
  | 26 => LDL f | 27 => LDR f
  | 32 => LB f | 33 => LH f | 34 => LWL f | 35 => LW f | 36 => LBU f | 37 => LHU f | 38 => LWR f | 39 => LWU f
  | 40 => SB f | 41 => SH f | 42 => SWL f | 43 => SW f | 44 => SDL f | 45 => SDR f | 46 => SWR f
  | 47 => CACHE f | 48 => LL f | 49 => LWC1 f | 53 => LDC1 f | 55 => LD f
  | 56 => SC f | 57 => SWC1 f | 61 => SDC1 f | 63 => SD f
  | _ => on_cpu (NI f)
  end.

Definition dispatch (op : Z) : M st unit :=
  match pure_step op with
  | Some m => on_cpu m
  | None => control_ops op
  end.
End Branches.

(** ** The main loop *)

(** The address itself, and then the translated address or an exception vector. *)
Definition prefetch_depth : nat := 2.

(** [interp_ops[(vr_op >> 26) & 0x3F]()], with [fuel] nested delay slots. *)
Fixpoint exec (fuel : nat) (op : Z) : M st unit :=
  match fuel with
  | O => undef Diverges
  | S fuel => dispatch (prefetch prefetch_depth ;;; s <-- get ;;; exec fuel (vr_op s)) op
  end.

(** One round of the loop in [pure_interpreter]. *)
Definition step (fuel : nat) : M st unit :=
  prefetch prefetch_depth ;;;
  s <-- get ;;;
  exec fuel (vr_op s) ;;;
  modify (fun s => s <| g_vr_beq_ignore_jmp := false |>).

(** The loop of the interpreter while [go] holds, for at most [n] rounds. *)
Fixpoint run_rounds (go : st -> bool) (round : M st unit) (n : nat) : M st unit :=
  match n with
  | O => ret tt
  | S n => s <-- get ;;; when (go s) (round ;;; run_rounds go round n)
  end.

Definition running (s : st) : bool := negb (stop (c_mach s)).

(** What follows a loop that has ended, because [go] no longer holds. *)
Definition after_loop (go : st -> bool) (m : M st unit) : M st unit := s <-- get ;;; when (negb (go s)) m.
Definition when_stopped : M st unit -> M st unit := after_loop running.

(** [PC->addr = interp_addr;] *)
Definition sync_PC : M st unit := on_mach (modify (fun m => m <| PC_addr := interp_addr m |>)).

(** [n] rounds from the boot code, or fewer when the emulator is stopped. *)
Definition pure_interpreter (fuel n : nat) : M st unit :=
  on_mach (modify (fun m => m <| interp_addr := 0xa4000040 |> <| stop := false |> <| last_addr := 0xa4000040 |>)) ;;;
  run_rounds running (step fuel) n ;;;
  when_stopped sync_PC.

(** The recompiler hands over a page it cannot keep translated. *)
Definition interprete_section (fuel n : nat) (addr : Z) : M st unit :=
  let go (s : st) := running s && (Z.shiftr (u32 addr) 12 =? Z.shiftr (pc_of s) 12) in
  on_mach (modify (fun m => m <| interp_addr := u32 addr |> <| last_addr := u32 addr |>)) ;;;
  run_rounds go (prefetch prefetch_depth ;;; sync_PC ;;; s <-- get ;;; exec fuel (vr_op s)) n ;;;
  after_loop go sync_PC.

End Interpreter.
