(* ===== verification/Boot.v ===== *)
(** * Start-up (core_start of r4300.cpp)

    [emu_thread] clears the devices with [init_memory] and calls [core_start], which
    copies the boot code of the cartridge into the signal processor's memory, puts
    every register to the value the console's own boot ROM leaves, and runs the
    processor; which values depends on the cartridge's security chip, recognised by
    the sum of the boot code, and on the country.  The model is [core_start] with
    [dynacore] 2, the pure interpreter. *)

From S2P Require Import Prelude Queue Machine Exception Alu DeviceState Core Dma PifLut Pif SummerCart Bus Cop Registers Interp.

Open Scope prog_scope.
#[local] Open Scope Z_scope.

(** ** The security chip *)

(** [for (i = 0x40 / 4; i < 0x1000 / 4; i++) CRC += SP_DMEM[i];] *)
Definition boot_crc (sp : gmap Z Z) : Z :=
  fold_left (fun crc i => s64 (crc + le_combine (load_bytes 4 (4 * i) sp))) (seqZ 0x10 0x3F0) 0.

Definition cic_of (crc : Z) : Z :=
  match crc with
  | 0x000000D0027FDF31 | 0x000000CFFB631223 => 1
  | 0x000000D057C85244 => 2
  | 0x000000D6497E414B => 3
  | 0x0000011A49F60E96 => 5
  | 0x000000D6D5BE5580 => 6
  | _ => 2
  end.

(** ** Register values, as assignments in order *)

Definition common_regs : list (Z * Z) :=
  [(6, 0xFFFFFFFFA4001F0C); (7, 0xFFFFFFFFA4001F08); (8, 0xC0); (10, 0x40); (11, 0xFFFFFFFFA4000040);
   (29, 0xFFFFFFFFA4001FF0)].

Definition country_regs (pal : bool) (cic : Z) : list (Z * Z) :=
  if pal then
    match cic with
    | 2 => [(5, 0xFFFFFFFFC0F1D859); (14, 0x2DE108EA)]
    | 3 => [(5, 0xFFFFFFFFD4646273); (14, 0x1AF99984)]
    | 5 => [(5, 0xFFFFFFFFDECAAAD1); (14, 0x0CF85C13); (24, 2)]
    | 6 => [(5, 0xFFFFFFFFB04DC903); (14, 0x1AF99984); (24, 2)]
    | _ => []
    end ++ [(23, 6); (31, 0xFFFFFFFFA4001554)]
  else
    match cic with
    | 2 => [(5, 0xFFFFFFFFC95973D5); (14, 0x2449A366)]
    | 3 => [(5, 0xFFFFFFFF95315A28); (14, 0x5BACA1DF)]
    | 5 => [(5, 0x5493FB9A); (14, 0xFFFFFFFFC2C20384)]
    | 6 => [(5, 0xFFFFFFFFE067221F); (14, 0x5CD2B70F)]
    | _ => []
    end ++ [(20, 1); (24, 3); (31, 0xFFFFFFFFA4001550)].

Definition cic_regs (cic : Z) : list (Z * Z) :=
  match cic with
  | 1 => [(22, 0x3F)]
  | 2 => [(1, 1); (2, 0x0EBDA536); (3, 0x0EBDA536); (4, 0xA536); (12, 0xFFFFFFFFED10D0B3); (13, 0x1402A4CC);
          (15, 0x3103E121); (22, 0x3F); (25, 0xFFFFFFFF9DEBB54F)]
  | 3 => [(1, 1); (2, 0x49A5EE96); (3, 0x49A5EE96); (4, 0xEE96); (12, 0xFFFFFFFFCE9DFBF7); (13, 0xFFFFFFFFCE9DFBF7);
          (15, 0x18B63D28); (22, 0x78); (25, 0xFFFFFFFF825B21C9)]
  | 5 => [(2, 0xFFFFFFFFF58B0FBF); (3, 0xFFFFFFFFF58B0FBF); (4, 0x0FBF); (12, 0xFFFFFFFF9651F81E); (13, 0x2D42AAC5);
          (15, 0x56584D60); (22, 0x91); (25, 0xFFFFFFFFCDCE565F)]
  | 6 => [(2, 0xFFFFFFFFA95930A4); (3, 0xFFFFFFFFA95930A4); (4, 0x30A4); (12, 0xFFFFFFFFBCB59510); (13, 0xFFFFFFFFBCB59510);
          (15, 0x7A3C07F4); (22, 0x85); (25, 0x465E3F72)]
  | _ => []
  end.

(** Words of the instruction memory, with their index. *)
Definition boot_imem (pal : bool) (cic : Z) : list (Z * Z) :=
  if cic =? 5 then
    [(1, if pal then 0xBDA807FC else 0x8DA807FC); (0, 0x3C0DBFC0); (2, 0x25AD07C0); (3, 0x31080080); (4, 0x5500FFFC);
     (5, 0x3C0DBFC0); (6, 0x8DA80024); (7, 0x3C0BB000)]
  else [].

Definition assign (l : list (Z * Z)) (regs : list Z) : list Z := fold_left (fun r '(i, v) => <[Z.to_nat i := s64 v]> r) l regs.
Definition put_imem (l : list (Z * Z)) (sp : gmap Z Z) : gmap Z Z :=
  fold_left (fun m '(i, v) => store_bytes (0x1000 + 4 * i) (le_split 4 v) m) l sp.

Definition boot_cop0 : cop0 :=
  cop0_zero <| core_Random := 31 |> <| core_Status := 0x34000000 |> <| core_Config_cop0 := 0x6e463 |>
    <| core_PRevID := 0xb00 |> <| core_Count := 0x5000 |> <| core_Cause := 0x5C |> <| core_Context := 0x7FFFF0 |>
    <| core_EPC := 0xFFFFFFFF |> <| core_BadVAddr := 0xFFFFFFFF |> <| core_ErrorEPC := 0xFFFFFFFF |>.

Section Boot.
Context {Q : Type} `{EventQueue Q} `{PifHost Q} `{Plugins Q} `{!Fpu Q}.
#[local] Abbreviation st := (core Q).

(** [memcpy((char* )SP_DMEM + 0x40, rom + 0x40, 0xFBC);] *)
Definition copy_boot_code : M st unit :=
  s <-- get ;;;
  if rom_alloc s <? 0x40 + 0xFBC then undef OutOfBounds
  else modify (fun s => s <| SP_MEM := store_bytes 0x40 (load_bytes (Z.to_nat 0xFBC) 0x40 (rom s)) (SP_MEM s) |>).

(** Everything is put to zero but the table of writable pages: the code clears that
    of readable pages twice. *)
Definition clear_registers : M st unit :=
  modify (fun s => s <| c_reg := replicate 32 0 |> <| c_hi := 0 |> <| c_lo := 0 |>
    <| c_cop1 := full_registers ((c_cop1 s) <| FCR0 := 0x511 |> <| FCR31 := 0 |> <| reg_cop1_fgr_64 := replicate 32 0 |>) |>) ;;;
  mod_mach (fun m => m <| delay_slot := 0 |> <| stop := false |> <| m_cop0 := cop0_zero |> <| tlb_e := replicate 32 tlb_zero |>
    <| tlb_LUT_r := ∅ |> <| llbit := 0 |>).

Definition boot_registers : M st unit :=
  modify (fun s => s <| c_reg := assign common_regs (c_reg s) |>) ;;;
  mod_mach (fun m => m <| m_cop0 := boot_cop0 |>) ;;;
  s <-- get ;;;
  let cic := cic_of (boot_crc (SP_MEM s)) in
  let pal := is_pal (Z.land (Country_code (c_dev s)) 0xFF) in
  mod_dev (fun d => d <| CIC_Chip := cic |>) ;;;
  modify (fun s => s <| c_reg := assign (country_regs pal cic ++ cic_regs cic) (c_reg s) |>
                     <| SP_MEM := put_imem (boot_imem pal cic) (SP_MEM s) |>
                     <| c_cop1 := (c_cop1 s) <| rounding_mode := MUP_ROUND_NEAREST |> |>).

(** Everything before the processor runs. *)
Definition start_state : M st unit :=
  mod_mach (fun m => m <| debug_count := 0 |>) ;;;
  copy_boot_code ;;;
  clear_registers ;;;
  boot_registers ;;;
  mod_mach (fun m => m <| last_addr := 0xa4000040 |>) ;;;
  on_mach init_interrupt ;;;
  mod_mach (fun m => m <| dynacore := false |> <| interpcore := true |>).

Definition core_start (fuel n : nat) : M st unit :=
  start_state ;;;
  pure_interpreter fuel n ;;;
  when_stopped (mod_mach (fun m => m <| debug_count := u64 (debug_count m + Count m) |>)).

(** The parts of [emu_thread] that touch the emulated console. *)
Definition emu_thread (fuel n : nat) : M st unit := init_memory ;;; core_start fuel n.

End Boot.
