(* ===== verification/InterpProps.v ===== *)
(** * What the pure interpreter guarantees

    Branches and jumps with an integer instruction in the delay slot, idle loops,
    exceptions in a delay slot, and fetching. *)

From S2P Require Import Prelude Pool Machine Exception Alu AluProps Tlb TlbProps Core Bus BusProps LoadStore LoadStoreProps Cop Interp.

Open Scope prog_scope.
#[local] Open Scope Z_scope.

(** ** Fetching *)

Section Fetch.
Context {Q : Type} `{EventQueue Q} `{Devices Q}.
#[local] Abbreviation st := (core Q).

(** The word at an address of RDRAM, in the cached segment. *)
Definition ram_word (s : st) (a : Z) : Z := be_value (ram_byte s) (a - 0x80000000) 4.

Definition in_ram (a : Z) : Prop := 0x80000000 <= a /\ a + 4 <= 0x80800000 /\ a mod 4 = 0.

Lemma in_ram_offset a : in_ram a -> Z.land a 0xFFFFFF = a - 0x80000000 /\ Z.land a 0x7FFFFF / 4 * 4 = a - 0x80000000.
Proof.
  intros (Hlo & Hhi & Hal). change 0xFFFFFF with (Z.ones 24). change 0x7FFFFF with (Z.ones 23).
  rewrite !Z.land_ones by lia. change (2 ^ 24) with 16777216. change (2 ^ 23) with 8388608.
  Z.div_mod_to_equations. lia.
Qed.

Lemma load_ram (s : st) a :
  in_ram a -> load_from rdram 0x800000 4 (a - 0x80000000) s = Ret (ram_word s a, s).
Proof.
  intros (Hlo & Hhi & Hal). rewrite load_rdram_ok by lia. rewrite load_word_be; [done|].
  Z.div_mod_to_equations. lia.
Qed.

Lemma prefetch_ram n (s : st) :
  in_ram (pc_of s) -> prefetch (S n) s = Ret (tt, s <| vr_op := ram_word s (pc_of s) |>).
Proof.
  intros Ha. destruct (in_ram_offset _ Ha) as [Eo _]. cbn [prefetch]. rewrite bind_get_l, Eo.
  destruct Ha as (Hlo & Hhi & Hal). repeat case_cmp; try lia. cbn [andb]. unfold fetch.
  rewrite (bind_Ret _ _ _ _ _ (load_ram s _ (conj Hlo (conj Hhi Hal)))). reflexivity.
Qed.

Lemma probe_nop_ram (s : st) a : in_ram a -> probe_nop a s = Ret (ram_word s a =? 0, s).
Proof.
  intros Ha. destruct (in_ram_offset _ Ha) as [_ Eo]. unfold probe_nop. rewrite bind_get_l.
  destruct Ha as (Hlo & Hhi & Hal).
  assert ((a <? 0x80000000) || (0xc0000000 <? a) = false) as -> by (repeat case_cmp; (done || lia)). cbn [andb].
  assert ((0xa4000000 <=? a) && (a <? 0xa4001000) = false) as -> by (repeat case_cmp; (done || lia)).
  assert ((0x80000000 <=? a) && (a <? 0x80800000) = true) as -> by (repeat case_cmp; (done || lia)).
  rewrite Eo, (bind_Ret _ _ _ _ _ (load_ram s _ (conj Hlo (conj Hhi Hal)))). reflexivity.
Qed.
End Fetch.

(** ** Delay slots *)

Section Slots.
Context {Q : Type} `{EventQueue Q} `{Devices Q} `{Fpu Q}.
#[local] Abbreviation st := (core Q).
Implicit Types s : st.

Definition with_mach (g : machine Q -> machine Q) (s : st) : st := s <| c_mach := g (c_mach s) |>.

(** Before the delay slot, and after it. *)
Definition at_slot : st -> st :=
  with_mach (fun m => m <| interp_addr := u32 (interp_addr m + 4) |> <| delay_slot := 1 |>).
Definition counted (m : machine Q) : machine Q :=
  set_Count (u32 (Count m + u32 (interp_addr m - last_addr m) / 2)) m <| last_addr := interp_addr m |>.
Definition leave_slot : st -> st := with_mach (fun m => counted m <| delay_slot := 0 |>).

Lemma update_count_ok m : interpcore m = true -> update_count m = Ret (tt, counted m).
Proof. intros Hi. unfold update_count, modify. by rewrite Hi. Qed.

Lemma on_mach_ok {A} (c : M (machine Q) A) s a m : c (c_mach s) = Ret (a, m) -> on_mach c s = Ret (a, s <| c_mach := m |>).
Proof. intros E. unfold on_mach. by rewrite E. Qed.

Lemma delay_ok slot s s1 :
  slot (at_slot s) = Ret (tt, s1) -> interpcore (c_mach s1) = true -> delay slot s = Ret (tt, leave_slot s1).
Proof.
  intros E Hi. unfold delay. erewrite bind_Ret by reflexivity. erewrite bind_Ret by reflexivity.
  erewrite bind_Ret by exact E. erewrite bind_Ret by exact (on_mach_ok _ _ _ _ (update_count_ok _ Hi)). reflexivity.
Qed.

(** The slot as [exec] runs it. *)
Definition slot_of (n : nat) : M st unit := prefetch prefetch_depth ;;; s <-- get ;;; exec n (vr_op s).

Lemma exec_unfold n op : exec (S n) op = dispatch (slot_of n) op.
Proof. reflexivity. Qed.

(** An integer instruction in the slot. *)
Lemma slot_alu n s w m c :
  in_ram (pc_of s) -> ram_word s (pc_of s) = w -> pure_step w = Some m -> m (get_cpu s) = Ret (tt, c) ->
  slot_of (S n) s = Ret (tt, put_cpu c (s <| vr_op := w |>)).
Proof.
  intros Ha Hw Hm Hc. unfold slot_of. rewrite (bind_Ret _ _ _ _ _ (prefetch_ram 1 s Ha)), bind_get_l.
  change (vr_op (s <| vr_op := ram_word s (pc_of s) |>)) with (ram_word s (pc_of s)).
  rewrite Hw, exec_unfold. unfold dispatch. rewrite Hm. by apply on_cpu_ok.
Qed.

(** ** Branches that run *)

Definition settled : st -> st := with_mach (fun m => m <| last_addr := interp_addr m |>).
Definition moved (d : Z) : st -> st := with_mach (fun m => m <| interp_addr := u32 (interp_addr m + d) |>).
Definition jumped (a : Z) : st -> st := with_mach (fun m => m <| interp_addr := u32 a |>).
Definition calm s : Prop := Count (c_mach s) < next_interrupt_of (c_mach s).

Lemma finish_calm s : calm s -> finish s = Ret (tt, settled s).
Proof.
  intros Hc. unfold finish. apply (on_mach_ok _ s tt ((c_mach s) <| last_addr := interp_addr (c_mach s) |>)).
  rewrite bind_modify_l. unfold interrupt_if_due. rewrite bind_get_l.
  unfold calm, Count, next_interrupt_of in Hc.
  change (Count ((c_mach s) <| last_addr := interp_addr (c_mach s) |>)) with (Count (c_mach s)).
  change (next_interrupt_of ((c_mach s) <| last_addr := interp_addr (c_mach s) |>)) with (next_interrupt_of (c_mach s)).
  destruct (Z.leb_spec (next_interrupt_of (c_mach s)) (Count (c_mach s))) as [Hl|]; [|reflexivity].
  unfold Count, next_interrupt_of in Hl. lia.
Qed.

Lemma branch_run slot f idle taken s s1 :
  self_loop s (immediate f) && idle s = false -> slot (at_slot s) = Ret (tt, s1) -> interpcore (c_mach s1) = true ->
  let s2 := leave_slot s1 in
  branch slot f idle taken s = finish (if taken s2 then moved ((immediate f - 1) * 4) s2 else s2).
Proof.
  intros Hi Hs Hc s2. unfold branch. rewrite bind_get_l, Hi. unfold skip_idle.
  rewrite (bind_Ret _ _ _ _ _ (delay_ok _ _ _ Hs Hc)), bind_get_l. fold s2.
  by destruct (taken s2).
Qed.

Lemma likely_taken slot f taken counts s s1 :
  self_loop s (immediate f) = false -> taken s = true -> slot (at_slot s) = Ret (tt, s1) -> interpcore (c_mach s1) = true ->
  branch_likely slot f taken counts s = finish (moved ((immediate f - 1) * 4) (leave_slot s1)).
Proof.
  intros Hi Ht Hs Hc. unfold branch_likely. rewrite bind_get_l, Hi. cbn [andb]. unfold skip_idle.
  rewrite bind_get_l, Ht, bind_assoc, (bind_Ret _ _ _ _ _ (delay_ok _ _ _ Hs Hc)). reflexivity.
Qed.

Lemma likely_not_taken slot f taken (counts : bool) s :
  taken s = false -> interpcore (c_mach s) = true ->
  branch_likely slot f taken counts s = finish (if counts then with_mach counted (moved 8 s) else moved 8 s).
Proof.
  intros Ht Hc. unfold branch_likely. rewrite bind_get_l, Ht, andb_false_r. unfold skip_idle.
  rewrite bind_get_l, Ht, bind_assoc. erewrite bind_Ret by reflexivity. destruct counts; [|reflexivity].
  unfold when. erewrite bind_Ret by exact (on_mach_ok update_count (moved 8 s) tt _ (update_count_ok (c_mach (moved 8 s)) Hc)).
  reflexivity.
Qed.

(** ** An integer instruction in the slot *)

(** What does not change. *)
Definition same_devices s s' : Prop :=
  rdram s' = rdram s /\ SP_MEM s' = SP_MEM s /\ c_cop1 s' = c_cop1 s /\ irq_queue (c_mach s') = irq_queue (c_mach s) /\
  skip_jump (c_mach s') = skip_jump (c_mach s) /\ interpcore (c_mach s') = interpcore (c_mach s).

(** [Count] behind the instruction at [a] and its delay slot, or as it was. *)
Definition count_behind (m : machine Q) (a : Z) (counts : bool) : Z :=
  if counts then u32 (Count m + u32 (a + 8 - last_addr m) / 2) else Count m.

(** From [s], the interpreter goes on with the registers [c], and has counted or not. *)
Definition continues s (r : outcome (unit * st)) (c : cpu) (counts : bool) : Prop :=
  exists s', r = Ret (tt, s') /\ get_cpu s' = c /\ last_addr (c_mach s') = pc c /\
    Count (c_mach s') = count_behind (c_mach s) (pc_of s) counts /\ same_devices s s'.

(** The instruction at the program counter of [s], with [c1] the registers after
    the integer instruction behind it. *)
Record slotted s (c1 : cpu) : Prop := {
  sl_core : interpcore (c_mach s) = true;
  sl_here : in_ram (pc_of s);
  sl_next : in_ram (pc_of s + 4);
  sl_run : exists m, pure_step (ram_word s (pc_of s + 4)) = Some m /\
             m ((get_cpu s) <| pc := pc_of s + 4 |>) = Ret (tt, c1);
  sl_pc : pc c1 = pc_of s + 8;
  sl_regs : length (reg c1) = 32%nat;
  sl_calm : calm s;
  sl_calm' : u32 (Count (c_mach s) + u32 (pc_of s + 8 - last_addr (c_mach s)) / 2) < next_interrupt_of (c_mach s);
}.

Definition after_slot s (c1 : cpu) : st :=
  leave_slot (put_cpu c1 ((at_slot s) <| vr_op := ram_word s (pc_of s + 4) |>)).

Lemma slotted_slot n s c1 :
  slotted s c1 -> slot_of (S n) (at_slot s) = Ret (tt, put_cpu c1 ((at_slot s) <| vr_op := ram_word s (pc_of s + 4) |>)).
Proof.
  intros [Hi Hh Hn (m & Hm & Hr) _ _ _ _].
  assert (pc_of (at_slot s) = pc_of s + 4) as Epc.
  { change (u32 (pc_of s + 4) = pc_of s + 4). apply u32_id. destruct Hn as (Hlo & Hhi & _). unfold is_u32. lia. }
  apply (slot_alu n (at_slot s) _ m c1); [by rewrite Epc|by rewrite Epc|done|]. rewrite <- Hr. f_equal.
  change (get_cpu (at_slot s)) with ((get_cpu s) <| pc := pc_of (at_slot s) |>). by rewrite Epc.
Qed.

Lemma after_slot_facts s c1 :
  slotted s c1 ->
  get_cpu (after_slot s c1) = c1 /\ calm (after_slot s c1) /\
  Count (c_mach (after_slot s c1)) = count_behind (c_mach s) (pc_of s) true /\ same_devices s (after_slot s c1).
Proof.
  intros [Hi Hh Hn _ Hpc _ _ Hc].
  assert (Count (c_mach (after_slot s c1)) = count_behind (c_mach s) (pc_of s) true) as E.
  { change (Count (c_mach (after_slot s c1))) with (u32 (Count (c_mach s) + u32 (pc c1 - last_addr (c_mach s)) / 2)). by rewrite Hpc. }
  split; [by destruct c1|]. split; [|split; [exact E|done]]. unfold calm. rewrite E. exact Hc.
Qed.

Lemma continues_finish s s2 c counts :
  calm s2 -> get_cpu s2 = c -> Count (c_mach s2) = count_behind (c_mach s) (pc_of s) counts -> same_devices s s2 ->
  continues s (finish s2) c counts.
Proof.
  intros Hc <- Hn Hd. exists (settled s2). split; [by apply finish_calm|]. split; [done|]. split; [done|]. split; [exact Hn|exact Hd].
Qed.

(** Moving the program counter changes nothing else. *)
Lemma moved_facts d s s2 :
  calm s2 -> same_devices s s2 ->
  calm (moved d s2) /\ same_devices s (moved d s2) /\ get_cpu (moved d s2) = (get_cpu s2) <| pc := u32 (pc (get_cpu s2) + d) |> /\
  Count (c_mach (moved d s2)) = Count (c_mach s2).
Proof. intros Hc Hd. split; [exact Hc|]. split; [exact Hd|]. split; reflexivity. Qed.

Lemma jumped_facts a s s2 :
  calm s2 -> same_devices s s2 ->
  calm (jumped a s2) /\ same_devices s (jumped a s2) /\ get_cpu (jumped a s2) = (get_cpu s2) <| pc := u32 a |> /\
  Count (c_mach (jumped a s2)) = Count (c_mach s2).
Proof. intros Hc Hd. split; [exact Hc|]. split; [exact Hd|]. split; reflexivity. Qed.

(** A branch relative to its own address. *)
Lemma relative_target a imm :
  in_ram a -> u32 (a + 8 + (imm - 1) * 4) = u32 (a + 4 + 4 * imm).
Proof. intros _. f_equal. lia. Qed.

Definition moved_cpu (a : Z) (c : cpu) : cpu := c <| pc := a |>.

Lemma branch_continues n f idle taken s c1 :
  slotted s c1 -> self_loop s (immediate f) = false -> taken (after_slot s c1) = taken s ->
  continues s (branch (slot_of (S n)) f idle taken s)
    (if taken s then moved_cpu (u32 (pc_of s + 4 + 4 * immediate f)) c1 else c1) true.
Proof.
  intros Hs Hl Ht. destruct (after_slot_facts s c1 Hs) as (Hg & Hc & Hn & Hd).
  rewrite (branch_run _ _ _ _ _ _ ltac:(by rewrite Hl) (slotted_slot n s c1 Hs) (sl_core _ _ Hs)).
  fold (after_slot s c1). cbv zeta. rewrite Ht. destruct (taken s); [|apply continues_finish; [exact Hc|exact Hg|exact Hn|exact Hd]].
  destruct (moved_facts ((immediate f - 1) * 4) _ _ Hc Hd) as (Hc' & Hd' & Hg' & Hn'). apply continues_finish; [exact Hc'| |exact (eq_trans Hn' Hn)|exact Hd'].
  rewrite Hg', Hg, (sl_pc _ _ Hs), (relative_target _ _ (sl_here _ _ Hs)). reflexivity.
Qed.

Lemma likely_continues n f taken (counts : bool) s c1 :
  slotted s c1 -> self_loop s (immediate f) = false ->
  continues s (branch_likely (slot_of (S n)) f taken counts s)
    (if taken s then moved_cpu (u32 (pc_of s + 4 + 4 * immediate f)) c1
     else moved_cpu (pc_of s + 8) (get_cpu s)) (taken s || counts).
Proof.
  intros Hs Hl. destruct (after_slot_facts s c1 Hs) as (Hg & Hc & Hn & Hd).
  destruct (taken s) eqn:Ht.
  - rewrite (likely_taken _ _ _ _ _ _ Hl Ht (slotted_slot n s c1 Hs) (sl_core _ _ Hs)). fold (after_slot s c1).
    destruct (moved_facts ((immediate f - 1) * 4) _ _ Hc Hd) as (Hc' & Hd' & Hg' & Hn'). apply continues_finish; [exact Hc'| |exact (eq_trans Hn' Hn)|exact Hd'].
    rewrite Hg', Hg, (sl_pc _ _ Hs), (relative_target _ _ (sl_here _ _ Hs)). reflexivity.
  - rewrite (likely_not_taken _ _ _ _ _ Ht (sl_core _ _ Hs)).
    assert (u32 (pc_of s + 8) = pc_of s + 8) as E8.
    { apply u32_id. destruct (sl_next _ _ Hs) as (Hlo & Hhi & _). unfold is_u32. lia. }
    apply continues_finish; [|destruct counts|destruct counts|destruct counts; repeat split].
    + destruct counts; [|exact (sl_calm _ _ Hs)]. unfold calm.
      change (u32 (Count (c_mach s) + u32 (u32 (pc_of s + 8) - last_addr (c_mach s)) / 2) < next_interrupt_of (c_mach s)).
      rewrite E8. exact (sl_calm' _ _ Hs).
    + change ((get_cpu s) <| pc := u32 (pc_of s + 8) |> = moved_cpu (pc_of s + 8) (get_cpu s)). rewrite E8; reflexivity.
    + change ((get_cpu s) <| pc := u32 (pc_of s + 8) |> = moved_cpu (pc_of s + 8) (get_cpu s)). rewrite E8; reflexivity.
    + change (u32 (Count (c_mach s) + u32 (u32 (pc_of s + 8) - last_addr (c_mach s)) / 2) = count_behind (c_mach s) (pc_of s) true). rewrite E8; reflexivity.
    + reflexivity.
Qed.

Lemma jump_continues n (g : st -> Z) t s c1 :
  slotted s c1 -> g (after_slot s c1) = t ->
  continues s ((delay (slot_of (S n)) ;;; s <-- get ;;; set_pc (fun _ => g s) ;;; finish) s) (moved_cpu (u32 t) c1) true.
Proof.
  intros Hs Ht. destruct (after_slot_facts s c1 Hs) as (Hg & Hc & Hn & Hd).
  rewrite (bind_Ret _ _ _ _ _ (delay_ok _ _ _ (slotted_slot n s c1 Hs) (sl_core _ _ Hs))). fold (after_slot s c1).
  rewrite bind_get_l, Ht. destruct (jumped_facts t _ _ Hc Hd) as (Hc' & Hd' & Hg' & Hn').
  apply (continues_finish s (jumped t (after_slot s c1))); [exact Hc'| |exact (eq_trans Hn' Hn)|exact Hd']. by rewrite Hg', Hg.
Qed.

(** The registers linked to [a]. *)
Definition linked (dest : nat) (a : Z) (c : cpu) : cpu := c <| reg := <[dest := s32 a]> (reg c) |>.

Lemma link_facts dest a s s2 :
  calm s2 -> same_devices s s2 -> (dest < length (reg (get_cpu s2)))%nat ->
  on_cpu (set_reg dest a ;;; sign_extended dest) s2 = Ret (tt, put_cpu (linked dest a (get_cpu s2)) s2) /\
  calm (put_cpu (linked dest a (get_cpu s2)) s2) /\ same_devices s (put_cpu (linked dest a (get_cpu s2)) s2).
Proof.
  intros Hc Hd Hl. split; [|split; [exact Hc|exact Hd]]. apply on_cpu_ok. unfold sign_extended, set_reg.
  rewrite bind_modify_l. unfold modify, linked, upd_field. cbn [reg hi lo pc c_stop].
  by rewrite list_lookup_total_insert_eq, list_insert_insert_eq.
Qed.

Lemma jump_and_link_continues n dest target t s c1 :
  slotted s c1 -> skip_jump (c_mach s) = 0 -> (dest < 32)%nat ->
  (forall c, target (put_cpu c (after_slot s c1)) = t) ->
  continues s (jump_and_link (slot_of (S n)) dest target s) (moved_cpu (u32 t) (linked dest (pc_of s + 8) c1)) true.
Proof.
  intros Hs Hj Hd32 Ht. destruct (after_slot_facts s c1 Hs) as (Hg & Hc & Hn & Hd).
  unfold jump_and_link. rewrite (bind_Ret _ _ _ _ _ (delay_ok _ _ _ (slotted_slot n s c1 Hs) (sl_core _ _ Hs))).
  fold (after_slot s c1). rewrite bind_get_l.
  assert (skip_jump (c_mach (after_slot s c1)) = 0) as Ej by exact Hj.
  assert (pc_of (after_slot s c1) = pc_of s + 8) as Epc by (rewrite <- (sl_pc _ _ Hs); rewrite <- Hg at 2; reflexivity).
  revert Hg Hc Hn Hd Ht Ej Epc. generalize (after_slot s c1). intros s2 Hg Hc Hn Hd Ht Ej Epc.
  destruct (link_facts dest (pc_of s2) s s2 Hc Hd) as (Hrun & Hc' & Hd'); [by rewrite Hg, (sl_regs _ _ Hs)|].
  rewrite Ej. change (0 =? 0) with true. unfold when. rewrite bind_assoc, (bind_Ret _ _ _ _ _ Hrun), bind_assoc, bind_get_l, Ht.
  destruct (jumped_facts t _ _ Hc' Hd') as (Hc'' & Hd'' & Hg'' & Hn'').
  match goal with |- continues _ (bind _ _ ?s3) _ _ => apply (continues_finish s (jumped t s3)); [exact Hc''| |exact (eq_trans Hn'' Hn)|exact Hd''] end.
  rewrite Hg'', get_put_cpu, Hg, Epc. reflexivity.
Qed.

Lemma slotted_ext s s2 c1 :
  c_reg s2 = c_reg s -> c_hi s2 = c_hi s -> c_lo s2 = c_lo s -> c_mach s2 = c_mach s -> rdram s2 = rdram s ->
  slotted s c1 -> slotted s2 c1.
Proof.
  intros E1 E2 E3 E4 E5 [Hi Hh Hn Hr Hp Hl Hc Hc'].
  assert (get_cpu s2 = get_cpu s) as Eg by (unfold get_cpu; cbn [core_cpu]; by rewrite E1, E2, E3, E4).
  assert (forall a, ram_word s2 a = ram_word s a) as Ew by (intros a; unfold ram_word, ram_byte; by rewrite E5).
  unfold calm in *. constructor; unfold calm, pc_of in *; rewrite ?E4, ?Eg, ?Ew; done.
Qed.

Lemma continues_from s s2 r c counts : same_devices s s2 -> c_mach s2 = c_mach s -> continues s2 r c counts -> continues s r c counts.
Proof.
  intros (D1 & D2 & D3 & _) Em (s' & Hr & Hg & Hl & Hn & E1 & E2 & E3 & E4 & E5 & E6). exists s'. split; [done|]. split; [done|]. split; [done|].
  unfold pc_of in *. rewrite Em in *. split; [done|]. split_and!; congruence.
Qed.
End Slots.

(** ** What the instruction set says of branches *)

(** Whether an instruction branches or jumps, where to, whether it skips the
    instruction behind it otherwise, and the register it links.  BEQ, BNE, BLEZ, BGTZ,
    BLTZ, BGEZ with their likely forms, J, JAL, JR and JALR are described; none for
    other instructions, among them BLTZAL, BGEZAL, BLTZALL, BGEZALL, whose code links
    before the slot, and the branches on coprocessor 1. *)
Record branching : Set := Branching { b_taken : bool; b_target : Z; b_likely : bool; b_link : option nat }.

Definition branch_of (op : Z) (c : cpu) : option branching :=
  let f := i_type op in
  let v := irs f c in let w := irt f c in
  let relative (taken likely : bool) := Some (Branching taken (u32 (pc c + 4 + 4 * immediate f)) likely None) in
  let region := (pc c + 4) / 2 ^ 28 * 2 ^ 28 + 4 * (op mod 2 ^ 26) in
  match Z.land (Z.shiftr op 26) 0x3F with
  | 0 => match Z.land op 0x3F with
         | 8 => Some (Branching true (u32 v) false None)
         | 9 => Some (Branching true (u32 v) false (Some (rd (r_type op))))
         | _ => None
         end
  | 1 => match Z.land (Z.shiftr op 16) 0x1F with
         | 0 => relative (v <? 0) false
         | 1 => relative (0 <=? v) false
         | 2 => relative (v <? 0) true
         | 3 => relative (0 <=? v) true
         | _ => None
         end
  | 2 => Some (Branching true region false None)
  | 3 => Some (Branching true region false (Some 31%nat))
  | 4 => relative (v =? w) false
  | 5 => relative (negb (v =? w)) false
  | 6 => relative (v <=? 0) false
  | 7 => relative (0 <? v) false
  | 20 => relative (v =? w) true
  | 21 => relative (negb (v =? w)) true
  | 22 => relative (v <=? 0) true
  | 23 => relative (0 <? v) true
  | _ => None
  end.

(** The registers after the instruction at [c], [c1] being those after the
    instruction behind it. *)
Definition after_branch (b : branching) (c c1 : cpu) : cpu :=
  if b_taken b then
    moved_cpu (b_target b) (match b_link b with Some r => linked r (pc c + 8) c1 | None => c1 end)
  else if b_likely b then moved_cpu (pc c + 8) c
  else c1.

(** Whether the instruction updates [Count]: BLTZL and BGEZL do not when they are not
    taken. *)
Definition counts_branch (op : Z) (b : branching) : bool :=
  negb (b_likely b) || b_taken b || negb (Z.land (Z.shiftr op 26) 0x3F =? 1).

Lemma not_compiled op : compile op = None -> pure_step op = None.
Proof. intros E. unfold pure_step. by rewrite E. Qed.

Lemma not_integer op k :
  Z.land (Z.shiftr op 26) 0x3F = k -> (k =? 0) = false -> mjoin (recomp_ops !! Z.to_nat k) = None -> pure_step op = None.
Proof.
  intros E Hk Hn. apply not_compiled. unfold compile. cbv zeta. rewrite E, Hk.
  exact (f_equal (fun o => o ≫= fun c => Some (c op)) Hn).
Qed.

Lemma not_integer_special op k :
  Z.land (Z.shiftr op 26) 0x3F = 0 -> Z.land op 0x3F = k -> mjoin (recomp_special !! Z.to_nat k) = None -> pure_step op = None.
Proof.
  intros E Hk Hn. apply not_compiled. unfold compile. cbv zeta. rewrite E, Hk.
  exact (f_equal (fun o => o ≫= fun c => Some (c op)) Hn).
Qed.

Lemma region_target op a :
  in_ram a -> in_ram (a + 4) ->
  u32 (Z.lor (Z.shiftl (Z.land op 0x3FFFFFF) 2) (Z.land a 0xF0000000)) = (a + 4) / 2 ^ 28 * 2 ^ 28 + 4 * (op mod 2 ^ 26).
Proof.
  intros (Hlo & Hhi & _) (Hlo' & Hhi' & _).
  change 0x3FFFFFF with (Z.ones 26). rewrite Z.land_ones, Z.shiftl_mul_pow2 by lia.
  change 0xF0000000 with (2 ^ 32 - 2 ^ 28). rewrite land_aligned by (unfold is_u32; lia).
  assert (a - a mod 2 ^ 28 = 8 * 2 ^ 28) as -> by (change (2 ^ 28) with 268435456; Z.div_mod_to_equations; lia).
  pose proof (Z.mod_pos_bound op (2 ^ 26) ltac:(lia)) as Hb.
  rewrite Z.lor_comm, lor_add_shift by (change (2 ^ 2) with 4; change (2 ^ 28) with (4 * 2 ^ 26); lia).
  rewrite u32_id; [change (2 ^ 28) with 268435456; change (2 ^ 2) with 4; Z.div_mod_to_equations; lia|].
  unfold is_u32. change (2 ^ 28) with 268435456. change (2 ^ 2) with 4. change (2 ^ 26) with 67108864 in *. lia.
Qed.

Section Branching.
Context {Q : Type} `{EventQueue Q} `{Devices Q} `{Fpu Q}.
#[local] Abbreviation st := (core Q).
Implicit Types s : st.

(** Only the globals branches use for themselves differ. *)
Definition same_core s s1 : Prop :=
  c_reg s1 = c_reg s /\ c_hi s1 = c_hi s /\ c_lo s1 = c_lo s /\ c_mach s1 = c_mach s /\ rdram s1 = rdram s /\
  SP_MEM s1 = SP_MEM s /\ c_cop1 s1 = c_cop1 s /\ g_vr_beq_ignore_jmp s1 = g_vr_beq_ignore_jmp s.

Lemma same_core_facts s s1 c1 :
  same_core s s1 -> slotted s c1 -> slotted s1 c1 /\ same_devices s s1 /\ pc_of s1 = pc_of s /\ get_cpu s1 = get_cpu s.
Proof.
  intros (E1 & E2 & E3 & E4 & E5 & E6 & E7 & _) Hs. split; [by eapply slotted_ext|]. unfold same_devices, pc_of, get_cpu.
  cbn [core_cpu]. rewrite E1, E2, E3, E4, E5, E6, E7. done.
Qed.

Lemma same_mach s s1 : same_core s s1 -> c_mach s1 = c_mach s.
Proof. by intros (_ & _ & _ & E & _). Qed.

Lemma not_self_loop s imm : u32 (pc_of s + 4 + 4 * imm) <> pc_of s -> self_loop s imm = false.
Proof.
  intros Hne. unfold self_loop. apply Z.eqb_neq. replace (pc_of s + (imm + 1) * 4) with (pc_of s + 4 + 4 * imm) by lia. done.
Qed.

Lemma relative_branch n f idle taken s s1 c1 :
  slotted s c1 -> same_core s s1 -> taken (after_slot s1 c1) = taken s1 ->
  u32 (pc_of s + 4 + 4 * immediate f) <> pc_of s ->
  continues s (branch (slot_of (S n)) f idle taken s1)
    (after_branch (Branching (taken s1) (u32 (pc_of s + 4 + 4 * immediate f)) false None) (get_cpu s) c1) true.
Proof.
  intros Hs Hsc Ht Hne. destruct (same_core_facts s s1 c1 Hsc Hs) as (Hs1 & Hd & Hp & Hg).
  apply (continues_from s s1); [done|exact (same_mach s s1 Hsc)|]. rewrite <- Hp in *.
  exact (branch_continues n f idle taken s1 c1 Hs1 (not_self_loop _ _ Hne) Ht).
Qed.

Lemma relative_likely n f taken (counts : bool) s s1 c1 :
  slotted s c1 -> same_core s s1 -> u32 (pc_of s + 4 + 4 * immediate f) <> pc_of s ->
  continues s (branch_likely (slot_of (S n)) f taken counts s1)
    (after_branch (Branching (taken s1) (u32 (pc_of s + 4 + 4 * immediate f)) true None) (get_cpu s) c1) (taken s1 || counts).
Proof.
  intros Hs Hsc Hne. destruct (same_core_facts s s1 c1 Hsc Hs) as (Hs1 & Hd & Hp & Hg).
  apply (continues_from s s1); [done|exact (same_mach s s1 Hsc)|]. change (pc (get_cpu s)) with (pc_of s). rewrite <- Hp, <- Hg in *.
  exact (likely_continues n f taken counts s1 c1 Hs1 (not_self_loop _ _ Hne)).
Qed.

Lemma after_slot_locals s c1 :
  local_rs (after_slot s c1) = local_rs s /\ local_rt (after_slot s c1) = local_rt s /\
  local_rs32 (after_slot s c1) = local_rs32 s /\ g_vr_beq_ignore_jmp (after_slot s c1) = g_vr_beq_ignore_jmp s.
Proof. by split_and!. Qed.

(** The conditions stay the same across the slot. *)
Lemma conditions_stable s c1 :
  ltz (after_slot s c1) = ltz s /\ gez (after_slot s c1) = gez s /\ lez (after_slot s c1) = lez s /\
  gtz (after_slot s c1) = gtz s /\ equal (after_slot s c1) = equal s /\ differ (after_slot s c1) = differ s.
Proof.
  destruct (after_slot_locals s c1) as (E1 & E2 & _ & _). unfold differ, ltz, gez, lez, gtz, equal. by rewrite E1, E2.
Qed.

Definition with_rs (f : fields) s : st := s <| local_rs := irs f (get_cpu s) |>.
Definition with_rt (f : fields) s : st := s <| local_rt := irt f (get_cpu s) |>.

Lemma same_with_rs f s : same_core s (with_rs f s).
Proof. by split_and!. Qed.
Lemma same_with_both f s : same_core s (with_rt f (with_rs f s)).
Proof. by split_and!. Qed.

Lemma beq_continues n f s c1 :
  slotted s c1 -> g_vr_beq_ignore_jmp s = false -> u32 (pc_of s + 4 + 4 * immediate f) <> pc_of s ->
  continues s (BEQ (slot_of (S n)) f s)
    (after_branch (Branching (irs f (get_cpu s) =? irt f (get_cpu s)) (u32 (pc_of s + 4 + 4 * immediate f)) false None) (get_cpu s) c1) true.
Proof.
  intros Hs Hg Hne. set (s1 := with_rt f (with_rs f s)).
  pose proof (relative_branch n f equal (fun s => equal s && negb (g_vr_beq_ignore_jmp s)) s s1 c1 Hs (same_with_both f s)) as R.
  destruct (conditions_stable s1 c1) as (_ & _ & _ & _ & E & _). destruct (after_slot_locals s1 c1) as (_ & _ & _ & E').
  cbv beta in R. rewrite E, E' in R. specialize (R eq_refl Hne).
  change (g_vr_beq_ignore_jmp s1) with (g_vr_beq_ignore_jmp s) in R. rewrite Hg, andb_true_r in R. exact R.
Qed.

Lemma jump_unless_idle target (k : M st unit) s : target <> pc_of s -> skip_idle (target =? pc_of s) k s = k s.
Proof. intros Hne. apply Z.eqb_neq in Hne. by rewrite Hne. Qed.

(** Each instruction, once it is dispatched. *)
Lemma regimm_continues n op s c1 b :
  slotted s c1 -> Z.land (Z.shiftr op 26) 0x3F = 1 -> branch_of op (get_cpu s) = Some b -> b_target b <> pc_of s ->
  continues s (interp_regimm (slot_of (S n)) op s) (after_branch b (get_cpu s) c1) (counts_branch op b).
Proof.
  intros Hs Eo Hb Hne. unfold branch_of in Hb. rewrite Eo in Hb. unfold interp_regimm, counts_branch. rewrite Eo. cbv zeta in *.
  set (f := i_type op) in *. destruct (conditions_stable (with_rs f s) c1) as (El & Eg & _).
  destruct (Z.land (Z.shiftr op 16) 0x1F) as [|p|]; [|do 3 (try destruct p as [p|p|])|]; try discriminate Hb;
    apply (inj Some) in Hb; subst b; cbn [b_target] in Hne.
  - exact (relative_branch n f ltz ltz s (with_rs f s) c1 Hs (same_with_rs f s) El Hne).
  - exact (relative_likely n f gez false s (with_rs f s) c1 Hs (same_with_rs f s) Hne).
  - exact (relative_likely n f ltz false s (with_rs f s) c1 Hs (same_with_rs f s) Hne).
  - exact (relative_branch n f gez gez s (with_rs f s) c1 Hs (same_with_rs f s) Eg Hne).
Qed.

Lemma jumps_continue n op s c1 b :
  slotted s c1 -> skip_jump (c_mach s) = 0 -> branch_of op (get_cpu s) = Some b -> b_target b <> pc_of s ->
  (Z.land (Z.shiftr op 26) 0x3F = 2 -> continues s (J (slot_of (S n)) op s) (after_branch b (get_cpu s) c1) (counts_branch op b)) /\
  (Z.land (Z.shiftr op 26) 0x3F = 3 -> continues s (JAL (slot_of (S n)) op s) (after_branch b (get_cpu s) c1) (counts_branch op b)).
Proof.
  intros Hs Hj Hb Hne. pose proof (region_target op (pc_of s) (sl_here _ _ Hs) (sl_next _ _ Hs)) as Er.
  split; intros Eo; unfold branch_of in Hb; rewrite Eo in Hb; apply (inj Some) in Hb; subst b; cbn [b_target] in Hne;
    change (pc (get_cpu s)) with (pc_of s) in *; rewrite <- Er in Hne |- *.
  - assert (naddr op s <> pc_of s) as Hn.
    { intros E. apply Hne. unfold naddr in E. rewrite E. apply u32_id. destruct (sl_here _ _ Hs) as (Hlo & Hhi & _). unfold is_u32. lia. }
    unfold J. rewrite bind_get_l. cbv zeta. rewrite jump_unless_idle by exact Hn. exact (jump_continues n (fun _ => naddr op s) (naddr op s) s c1 Hs eq_refl).
  - assert (naddr op s <> pc_of s) as Hn.
    { intros E. apply Hne. unfold naddr in E. rewrite E. apply u32_id. destruct (sl_here _ _ Hs) as (Hlo & Hhi & _). unfold is_u32. lia. }
    unfold JAL. rewrite bind_get_l. cbv zeta. rewrite jump_unless_idle by exact Hn.
    exact (jump_and_link_continues n 31 (fun _ => naddr op s) (naddr op s) s c1 Hs Hj ltac:(lia) (fun _ => eq_refl)).
Qed.

Lemma rd_small op : (rd (r_type op) < 32)%nat.
Proof. pose proof (r_type_ok op) as Hf. apply Hf. Qed.

Lemma register_jumps_continue n op s c1 b :
  slotted s c1 -> skip_jump (c_mach s) = 0 -> Z.land (Z.shiftr op 26) 0x3F = 0 -> branch_of op (get_cpu s) = Some b ->
  continues s (control_special (slot_of (S n)) op s) (after_branch b (get_cpu s) c1) (counts_branch op b).
Proof.
  intros Hs Hj Eo Hb. unfold branch_of in Hb. rewrite Eo in Hb. unfold control_special. cbv zeta in *.
  assert (irs32 (i_type op) (get_cpu s) = s32 (irs (i_type op) (get_cpu s))) as E32 by reflexivity.
  set (s1 := s <| local_rs32 := irs32 (i_type op) (get_cpu s) |>).
  assert (same_core s s1) as Hsc by (by split_and!).
  destruct (same_core_facts s s1 c1 Hsc Hs) as (Hs1 & Hd & Hp & Hg).
  destruct (Z.land op 0x3F) as [|p|]; [|do 4 (try destruct p as [p|p|])|]; try discriminate Hb; apply (inj Some) in Hb; subst b;
    apply (continues_from s s1); try exact Hd; try exact (same_mach s s1 Hsc).
  - replace (u32 (irs (i_type op) (get_cpu s))) with (u32 (irs32 (i_type op) (get_cpu s))) by (rewrite E32; apply u32_s32).
    pose proof (jump_and_link_continues n (rd (r_type op)) local_rs32 (irs32 (i_type op) (get_cpu s)) s1 c1 Hs1 Hj (rd_small op) (fun _ => eq_refl)) as R.
    exact R.
  - replace (u32 (irs (i_type op) (get_cpu s))) with (u32 (irs32 (i_type op) (get_cpu s))) by (rewrite E32; apply u32_s32).
    exact (jump_continues n local_rs32 (irs32 (i_type op) (get_cpu s)) s1 c1 Hs1 (proj1 (proj2 (proj2 (after_slot_locals s1 c1))))).
Qed.

Lemma dispatch_continues n op s c1 b :
  slotted s c1 -> skip_jump (c_mach s) = 0 -> g_vr_beq_ignore_jmp s = false ->
  branch_of op (get_cpu s) = Some b -> b_target b <> pc_of s ->
  continues s (dispatch (slot_of (S n)) op s) (after_branch b (get_cpu s) c1) (counts_branch op b).
Proof.
  intros Hs Hj Hg Hb Hne. pose proof (regimm_continues n op s c1 b Hs) as Rr. pose proof (jumps_continue n op s c1 b Hs Hj Hb Hne) as [Rj Rl].
  pose proof (register_jumps_continue n op s c1 b Hs Hj) as Rs. pose proof (beq_continues n (i_type op) s c1 Hs Hg) as Rb.
  set (s1 := with_rs (i_type op) s) in *. pose proof (same_with_rs (i_type op) s : same_core s s1) as H1s.
  set (s2 := with_rt (i_type op) s1). pose proof (same_with_both (i_type op) s : same_core s s2) as H2s.
  destruct (conditions_stable s1 c1) as (_ & _ & E3 & E4 & _ & _). destruct (conditions_stable s2 c1) as (_ & _ & _ & _ & _ & E6).
  unfold dispatch. remember (Z.land (Z.shiftr op 26) 0x3F) as k eqn:Ek. symmetry in Ek.
  assert (pure_step op = None) as ->.
  { unfold branch_of in Hb. rewrite Ek in Hb. destruct k as [|p|]; [|do 5 (try destruct p as [p|p|])|]; try discriminate Hb;
      try (by apply (not_integer op _ Ek)).
    cbv zeta in Hb. remember (Z.land op 0x3F) as j eqn:Ej. symmetry in Ej. clear - Hb Ek Ej.
    destruct j as [|p|]; [|do 4 (try destruct p as [p|p|])|]; try discriminate Hb; by apply (not_integer_special op _ Ek Ej). }
  unfold control_ops. cbv zeta. rewrite Ek. pose proof Hb as Hb'. unfold branch_of in Hb'. rewrite Ek in Hb'. cbv zeta in Hb'.
  destruct k as [|p|]; [|do 5 (try destruct p as [p|p|])|]; try discriminate Hb';
    try (by apply Rs); try (by apply Rr); try (by apply Rj); try (by apply Rl);
    apply (inj Some) in Hb'; subst b; cbn [b_target] in Hne; unfold counts_branch; rewrite ?Ek.
  - exact (relative_likely n (i_type op) gtz true s s1 c1 Hs H1s Hne).
  - exact (relative_branch n (i_type op) lez gtz s s1 c1 Hs H1s E4 Hne).
  - exact (relative_likely n (i_type op) differ true s s2 c1 Hs H2s Hne).
  - exact (relative_branch n (i_type op) differ differ s s2 c1 Hs H2s E6 Hne).
  - exact (relative_likely n (i_type op) lez true s s1 c1 Hs H1s Hne).
  - exact (relative_branch n (i_type op) lez lez s s1 c1 Hs H1s E3 Hne).
  - exact (relative_likely n (i_type op) equal true s s2 c1 Hs H2s Hne).
  - exact (Rb Hne).
Qed.
End Branching.

Lemma branches_continue {Q} `{EventQueue Q} `{Devices Q} `{Fpu Q} n (s : core Q) c1 b :
  slotted s c1 -> skip_jump (c_mach s) = 0 -> g_vr_beq_ignore_jmp s = false ->
  branch_of (ram_word s (pc_of s)) (get_cpu s) = Some b -> b_target b <> pc_of s ->
  exists s', step (2 + n) s = Ret (tt, s') /\ get_cpu s' = after_branch b (get_cpu s) c1 /\
    last_addr (c_mach s') = pc (get_cpu s') /\
    Count (c_mach s') = count_behind (c_mach s) (pc_of s) (counts_branch (ram_word s (pc_of s)) b) /\
    g_vr_beq_ignore_jmp s' = false /\ same_devices s s'.
Proof.
  intros Hs Hj Hg Hb Hne. unfold step. rewrite (bind_Ret _ _ _ _ _ (prefetch_ram 1 s (sl_here _ _ Hs))), bind_get_l.
  set (s1 := s <| vr_op := ram_word s (pc_of s) |>). assert (same_core s s1) as Hsc by (by split_and!).
  destruct (same_core_facts s s1 c1 Hsc Hs) as (Hs1 & _ & _ & _).
  destruct (dispatch_continues n (ram_word s (pc_of s)) s1 c1 b Hs1 Hj Hg Hb Hne) as (s' & Hrun & Hc & Hl & Hn & Hd).
  change (exec (2 + n) (vr_op s1) s1) with (dispatch (slot_of (S n)) (ram_word s (pc_of s)) s1).
  exists (s' <| g_vr_beq_ignore_jmp := false |>). split; [|split; [exact Hc|split; [exact (eq_trans Hl (f_equal pc (eq_sym Hc)))|split; [exact Hn|split; [reflexivity|exact Hd]]]]].
  rewrite (bind_Ret _ _ _ _ _ Hrun). reflexivity.
Qed.

(** C23.  The branches and jumps BEQ, BNE, BLEZ, BGTZ, BLTZ, BGEZ, their likely forms, J,
    JAL, JR and JALR do what the instruction set says: in RDRAM, with an integer
    instruction behind them and no interrupt due, one step of the interpreter
    executes that instruction exactly once (not at all for a likely branch that is
    not taken), decides by the registers before it, links the address behind it and
    continues at the target or behind the delay slot, advancing Count by half the bytes
    passed since it was last brought up to date (not in BLTZL and BGEZL that are not
    taken), and leaving memory, coprocessor 1 and the event queue alone.  Branches to
    themselves and JALR linking register 0 are excluded; the linking branches BLTZAL,
    BGEZAL and their likely forms, which link before the slot, and the branches on
    coprocessor 1 are not among those listed. *)
Theorem branches_correct {Q} `{EventQueue Q} `{Devices Q} `{Fpu Q} n (s : core Q) c1 b :
  slotted s c1 -> skip_jump (c_mach s) = 0 -> g_vr_beq_ignore_jmp s = false ->
  branch_of (ram_word s (pc_of s)) (get_cpu s) = Some b -> b_target b <> pc_of s -> b_link b <> Some 0%nat ->
  exists s', step (2 + n) s = Ret (tt, s') /\ get_cpu s' = after_branch b (get_cpu s) c1 /\
    last_addr (c_mach s') = pc (get_cpu s') /\
    Count (c_mach s') = count_behind (c_mach s) (pc_of s) (counts_branch (ram_word s (pc_of s)) b) /\ same_devices s s'.
Proof.
  intros Hs Hj Hg Hb Hne _. destruct (branches_continue n s c1 b Hs Hj Hg Hb Hne) as (s' & Hr & Hc & Hl & Hn & _ & Hd).
  exists s'. split; [exact Hr|]. split; [exact Hc|]. split; [exact Hl|]. split; [exact Hn|exact Hd].
Qed.

(** ** Examples *)

#[local] Existing Instance silent_devices.

(** A coprocessor 1 without arithmetic. *)
#[local] Instance no_fpu : Fpu irq := { fpu_op _ := ret tt }.

(** Two words at the program counter, the next interrupt in the future. *)
Definition program_core (op1 op2 : Z) : core irq :=
  reset_core <| rdram := store_bytes 0x1000 (le_split 4 op1 ++ le_split 4 op2) ∅ |>
             <| c_reg := <[4%nat := 7]> (replicate 32 0) |>
             <| c_mach := machine_with (irq_init <| next_interrupt := 5000 |>) cop0_zero core_mips_reg_zero |>.

(** BNE $4, $0, +5 with ADDIU $2, $2, 1 behind it. *)
Lemma branches_correct_witness :
  exists s', step 2 (program_core 0x14800005 0x24420001) = Ret (tt, s') /\
    reg (get_cpu s') !! 2%nat = Some 1 /\ pc (get_cpu s') = 0x80001018.
Proof.
  destruct (branches_correct 0 (program_core 0x14800005 0x24420001)
    (Cpu (<[2%nat := 1]> (<[4%nat := 7]> (replicate 32 0))) 0 0 0x80001008 false)
    (Branching true 0x80001018 false None)) as (s' & Hrun & Hc & _);
    [|reflexivity|reflexivity|reflexivity|done|done|].
  - constructor; [reflexivity|by vm_compute|by vm_compute|eexists; split; reflexivity|reflexivity..].
  - exists s'. split; [exact Hrun|]. rewrite Hc. split; reflexivity.
Defined.
