(* ===== verification/IdleProps.v ===== *)
(** * Idle loops and delay slots of the pure interpreter

    A branch to itself over a NOP is not executed round by round: Count jumps to
    the next interrupt.  And an exception raised in a delay slot is not lost to the
    branch around it. *)

From S2P Require Import Prelude Queue Pool Machine Exception Alu Core Bus BusProps LoadStore LoadStoreProps Cop Interp InterpProps.

Open Scope prog_scope.
#[local] Open Scope Z_scope.

(** ** Rounds of an idle loop *)

Section Idle.
Context {Q : Type} `{EventQueue Q} `{Devices Q} `{Fpu Q}.
#[local] Abbreviation st := (core Q).
Implicit Types (s : st) (f : fields).

(** A branch as the processor executes it, without the skipping of idle loops. *)
Definition plain_branch (slot : M st unit) f (taken : st -> bool) : M st unit :=
  delay slot ;;; s <-- get ;;; when (taken s) (jump_rel (immediate f)) ;;; finish.

Fixpoint rounds (k : nat) (m : M st unit) : M st unit :=
  match k with O => ret tt | S k => m ;;; rounds k m end.

(** At a branch to itself with a NOP in the delay slot. *)
Record idling s f : Prop := {
  id_core : interpcore (c_mach s) = true;
  id_here : in_ram (pc_of s);
  id_next : in_ram (pc_of s + 4);
  id_nop : ram_word s (pc_of s + 4) = 0;
  id_imm : immediate f = -1;
  id_last : last_addr (c_mach s) = pc_of s;
  id_slot : delay_slot (c_mach s) = 0;
  id_zero : c_reg s !! 0%nat = Some 0;
  id_count : 0 <= Count (c_mach s);
  id_due : next_interrupt_of (c_mach s) < 2 ^ 32;
}.

Definition advance (d : Z) : st -> st := with_mach (fun m => set_Count (Count m + d) m).

Lemma nop_ok c : reg c !! 0%nat = Some 0 -> SLL (r_type 0) c = Ret (tt, c <| pc := u32 (pc c + 4) |>).
Proof.
  intros E. unfold SLL. rewrite bind_get_l. change (rd (r_type 0)) with 0%nat. change (sa (r_type 0)) with 0.
  unfold rrt32, rrt. change (rt (r_type 0)) with 0%nat. rewrite (list_lookup_total_correct _ _ _ E).
  unfold set32, sign_extended. rewrite !bind_modify_l. unfold next, modify, upd_field. cbn [reg hi lo pc c_stop].
  rewrite (list_lookup_total_correct _ _ _ E). change (Z.lor (Z.ldiff 0 0xFFFFFFFF) (u32 (Z.shiftl (u32 (s32 0)) 0))) with 0.
  rewrite list_lookup_total_insert_eq by (by eapply lookup_lt_Some). change (s32 0) with 0.
  rewrite !(list_insert_id _ _ _ E). by destruct c.
Qed.

Lemma idle_slot n s f :
  idling s f ->
  slot_of (S n) (at_slot s) = Ret (tt, with_mach (fun m => m <| interp_addr := pc_of s + 8 |> <| delay_slot := 1 |>) (s <| vr_op := 0 |>)).
Proof.
  intros [Hc Hh Hn Hw _ _ _ Hz _ _].
  assert (u32 (pc_of s + 4) = pc_of s + 4) as E4 by (apply u32_id; destruct Hn as (Hlo & Hhi & _); unfold is_u32; lia).
  assert (u32 (pc_of s + 4 + 4) = pc_of s + 8) as E8.
  { rewrite u32_id; [lia|]. destruct Hn as (Hlo & Hhi & _). unfold is_u32. lia. }
  assert (pc_of (at_slot s) = pc_of s + 4) as Epc by exact E4.
  rewrite (slot_alu n (at_slot s) 0 (SLL (r_type 0)) ((get_cpu (at_slot s)) <| pc := pc_of s + 8 |>)).
  - unfold at_slot, with_mach. cbn -[u32 Z.add]. reflexivity.
  - by rewrite Epc.
  - rewrite Epc. exact Hw.
  - reflexivity.
  - assert (reg (get_cpu (at_slot s)) = c_reg s) as Er by reflexivity.
    rewrite (nop_ok (get_cpu (at_slot s))) by (rewrite Er; exact Hz). change (pc (get_cpu (at_slot s))) with (pc_of (at_slot s)). by rewrite Epc, E8.
Qed.

(** Updates that put back what is there. *)
Lemma machine_back (m : machine Q) :
  delay_slot m = 0 -> last_addr m = interp_addr m ->
  m <| interp_addr := interp_addr m |> <| delay_slot := 0 |> <| last_addr := interp_addr m |> = m.
Proof. destruct m. unfold upd_field. cbn. by intros -> ->. Qed.

Lemma counted_back (m : machine Q) :
  is_u32 (Count m) -> last_addr m = interp_addr m -> counted m = m.
Proof.
  intros Hc Hl. unfold counted. rewrite Hl, Z.sub_diag. change (u32 0 / 2) with 0. rewrite Z.add_0_r, u32_id by done.
  destruct m. unfold Count, set_Count, on_cop0, upd_field in *. cbn in *. rewrite Hl. by destruct m_cop0.
Qed.

(** The machine after a round, before interrupts are looked at. *)
Lemma round_machine (m : machine Q) (a c : Z) :
  interp_addr m = a -> last_addr m = a -> delay_slot m = 0 ->
  u32 (Count m + u32 (a + 8 - a) / 2) = c -> u32 (a + 8 + -8) = a ->
  let m1 := m <| interp_addr := a + 8 |> <| delay_slot := 1 |> in
  let m2 := counted m1 <| delay_slot := 0 |> in
  let m3 := m2 <| interp_addr := u32 (interp_addr m2 + -8) |> in
  m3 <| last_addr := interp_addr m3 |> = set_Count c m.
Proof.
  intros Ha Hl Hd <- E2 m1 m2 m3.
  transitivity ((set_Count (u32 (Count m + u32 (a + 8 - last_addr m) / 2)) m)
    <| interp_addr := u32 (a + 8 + -8) |> <| delay_slot := 0 |> <| last_addr := u32 (a + 8 + -8) |>); [reflexivity|].
  rewrite Hl, E2, <- Ha. exact (machine_back (set_Count _ m) Hd (eq_trans Hl (eq_sym Ha))).
Qed.

Lemma round_state s f :
  idling s f -> Count (c_mach s) + 4 < 2 ^ 32 ->
  settled (moved (-8) (leave_slot (with_mach (fun m => m <| interp_addr := pc_of s + 8 |> <| delay_slot := 1 |>) (s <| vr_op := 0 |>))))
    = advance 4 (s <| vr_op := 0 |>).
Proof.
  intros [_ Hh Hn _ _ Hl Hd _ Hc _] Hc4. destruct Hn as (Hlo & Hhi & _).
  assert (u32 (pc_of s + 8 - pc_of s) / 2 = 4) as E1 by (replace (pc_of s + 8 - pc_of s) with 8 by lia; reflexivity).
  assert (u32 (pc_of s + 8 + -8) = pc_of s) as E2 by (rewrite u32_id; [lia|unfold is_u32; lia]).
  assert (u32 (Count (c_mach s) + 4) = Count (c_mach s) + 4) as E3 by (apply u32_id; unfold is_u32; lia).
  rewrite <- E1 in E3 at 1. pose proof (round_machine (c_mach s) (pc_of s) _ eq_refl Hl Hd E3 E2) as R. cbv zeta in R.
  transitivity (s <| vr_op := 0 |> <| c_mach := set_Count (Count (c_mach s) + 4) (c_mach s) |>); [|reflexivity].
  rewrite <- R. reflexivity.
Qed.

(** Conditions of branches: they look at the saved operands only. *)
Definition on_locals (taken : st -> bool) : Prop :=
  forall s s', local_rs s' = local_rs s -> local_rt s' = local_rt s -> g_vr_beq_ignore_jmp s' = g_vr_beq_ignore_jmp s ->
    taken s' = taken s.

Lemma plain_round n s f taken :
  idling s f -> on_locals taken -> taken s = true -> Count (c_mach s) + 4 < 2 ^ 32 ->
  plain_branch (slot_of (S n)) f taken s = on_mach interrupt_if_due (advance 4 (s <| vr_op := 0 |>)).
Proof.
  intros Hi Hl Ht Hc. unfold plain_branch.
  rewrite (bind_Ret _ _ _ _ _ (delay_ok _ _ _ (idle_slot n s f Hi) (id_core _ _ Hi))), bind_get_l.
  rewrite <- (round_state s f Hi Hc). set (s1 := with_mach _ (s <| vr_op := 0 |>)).
  assert (taken (leave_slot s1) = true) as -> by (rewrite <- Ht; by apply Hl). unfold when.
  rewrite (id_imm _ _ Hi). change ((-1 - 1) * 4) with (-8).
  generalize (leave_slot s1). intros x. reflexivity.
Qed.

Lemma advance_idling d s f : idling s f -> 0 <= d -> idling (advance d (s <| vr_op := 0 |>)) f.
Proof.
  intros [Hc Hh Hn Hw Hi Hl Hd Hz Hp Hu] Hd0.
  constructor; [exact Hc|exact Hh|exact Hn|exact Hw|exact Hi|exact Hl|exact Hd|exact Hz| |exact Hu].
  change (0 <= Count (c_mach s) + d). lia.
Qed.

Lemma advance_advance d e s : advance d (advance e s) = advance (e + d) s.
Proof.
  transitivity (with_mach (fun m => set_Count (Count m + e + d) m) s); [reflexivity|].
  unfold advance, with_mach. by rewrite <- Z.add_assoc.
Qed.

Lemma not_due s : calm s -> on_mach interrupt_if_due s = Ret (tt, s).
Proof.
  intros Hc. assert (interrupt_if_due (c_mach s) = Ret (tt, c_mach s)) as E.
  { unfold interrupt_if_due. rewrite bind_get_l. unfold calm in Hc. apply Z.leb_gt in Hc. by rewrite Hc. }
  rewrite (on_mach_ok _ _ _ _ E). by destruct s.
Qed.

Lemma plain_rounds n f taken k s :
  on_locals taken -> idling s f -> taken s = true ->
  Count (c_mach s) + 4 * Z.of_nat (S k) <= next_interrupt_of (c_mach s) ->
  rounds (S k) (plain_branch (slot_of (S n)) f taken) s = on_mach interrupt_if_due (advance (4 * Z.of_nat (S k)) (s <| vr_op := 0 |>)).
Proof.
  intros Hl. revert s. induction k as [|k IH]; intros s Hi Ht Hk; pose proof (id_due _ _ Hi) as Hu.
  - cbn [rounds]. unfold bind, obind. rewrite (plain_round n s f taken Hi Hl Ht) by lia. change (4 * Z.of_nat 1) with 4.
    by destruct (on_mach interrupt_if_due (advance 4 (s <| vr_op := 0 |>))) as [[[] s']|].
  - change (rounds (S (S k)) ?m) with (m ;;; rounds (S k) m).
    assert (plain_branch (slot_of (S n)) f taken s = Ret (tt, advance 4 (s <| vr_op := 0 |>))) as E.
    { rewrite (plain_round n s f taken Hi Hl Ht) by lia. apply not_due. unfold calm.
      change (Count (c_mach s) + 4 < next_interrupt_of (c_mach s)). lia. }
    rewrite (bind_Ret _ _ _ _ _ E), (IH (advance 4 (s <| vr_op := 0 |>))).
    + f_equal. change ((advance 4 (s <| vr_op := 0 |>)) <| vr_op := 0 |>) with (advance 4 (s <| vr_op := 0 |>)).
      rewrite advance_advance. f_equal. lia.
    + apply advance_idling; [exact Hi|lia].
    + rewrite <- Ht. by apply Hl.
    + change (Count (c_mach s) + 4 + 4 * Z.of_nat (S k) <= next_interrupt_of (c_mach s)). lia.
Qed.

Lemma skip_round s f (k : M st unit) :
  idling s f -> 3 < next_interrupt_of (c_mach s) - Count (c_mach s) < 2 ^ 31 ->
  skip_idle true k s = Ret (tt, advance (4 * ((next_interrupt_of (c_mach s) - Count (c_mach s)) / 4)) s).
Proof.
  intros [Hc Hh Hn Hw Hi Hl Hd Hz Hp Hu] Hr. set (d := next_interrupt_of (c_mach s) - Count (c_mach s)) in *.
  assert (u32 (pc_of s + 4) = pc_of s + 4) as E4 by (apply u32_id; destruct Hn as (Hlo & Hhi & _); unfold is_u32; lia).
  unfold skip_idle. rewrite bind_get_l, E4, (bind_Ret _ _ _ _ _ (probe_nop_ram s _ Hn)), Hw. change (0 =? 0) with true. cbv iota.
  assert (on_mach update_count s = Ret (tt, s)) as Eu.
  { erewrite on_mach_ok by exact (update_count_ok _ Hc). rewrite counted_back; [by destruct s|unfold is_u32; lia|exact Hl]. }
  rewrite (bind_Ret _ _ _ _ _ Eu), bind_get_l. cbv zeta. fold d.
  assert (s32 d = d) as -> by (apply s32_id; unfold is_s32; lia).
  assert ((3 <? d) = true) as -> by (apply Z.ltb_lt; lia).
  assert (Z.land d 0xFFFFFFFC = 4 * (d / 4)) as Ed.
  { change 0xFFFFFFFC with (2 ^ 32 - 2 ^ 2). rewrite land_aligned by (unfold is_u32; lia). change (2 ^ 2) with 4.
    pose proof (Z.div_mod d 4). lia. }
  unfold modify, on_mach. rewrite Ed, u32_id; [reflexivity|]. unfold is_u32. pose proof (Z.mul_div_le d 4 ltac:(lia)). pose proof (Z.div_pos d 4). lia.
Qed.

(** Branches with idle loops, their conditions, and the operands saved.  BGTZ, which
    idles also when it falls through, JAL, which idles without linking, and the idle
    forms of J, the likely and linking branches and those on coprocessor 1 are not
    listed. *)
Definition self_branches (slot : M st unit) f s : list (M st unit * (st -> bool) * st) :=
  [(BLTZ slot f, ltz, with_rs f s); (BGEZ slot f, gez, with_rs f s); (BLEZ slot f, lez, with_rs f s);
   (BEQ slot f, fun s => equal s && negb (g_vr_beq_ignore_jmp s), with_rt f (with_rs f s));
   (BNE slot f, differ, with_rt f (with_rs f s))].

Lemma conditions_on_locals :
  on_locals ltz /\ on_locals gez /\ on_locals lez /\ on_locals gtz /\
  on_locals (fun s => equal s && negb (g_vr_beq_ignore_jmp s)) /\ on_locals differ.
Proof.
  unfold on_locals, differ, ltz, gez, lez, gtz, equal. split_and!; intros s s' E1 E2 E3; by rewrite ?E1, ?E2, ?E3.
Qed.

Lemma idle_branch slot f idle taken s :
  idling s f -> idle s = true -> 3 < next_interrupt_of (c_mach s) - Count (c_mach s) < 2 ^ 31 ->
  branch slot f idle taken s = Ret (tt, advance (4 * ((next_interrupt_of (c_mach s) - Count (c_mach s)) / 4)) s).
Proof.
  intros Hi Hc Hd. unfold branch. rewrite bind_get_l.
  assert (self_loop s (immediate f) = true) as ->.
  { unfold self_loop. rewrite (id_imm _ _ Hi). change ((-1 + 1) * 4) with 0. rewrite Z.add_0_r. apply Z.eqb_eq, u32_id.
    destruct (id_here _ _ Hi) as (Hlo & Hhi & _). unfold is_u32. lia. }
  rewrite Hc. by apply (skip_round s f).
Qed.

Lemma rounds_to_interrupt n f taken s :
  idling s f -> on_locals taken -> taken s = true ->
  let d := next_interrupt_of (c_mach s) - Count (c_mach s) in
  3 < d ->
  rounds (Z.to_nat (d / 4)) (plain_branch (slot_of (S n)) f taken) s =
    (if d mod 4 =? 0 then on_mach gen_interrupt else ret tt) (advance (4 * (d / 4)) (s <| vr_op := 0 |>)).
Proof.
  intros Hi Hl Ht d Hd. pose proof (Z.div_mod d 4 ltac:(lia)) as Edm. pose proof (Z.mod_pos_bound d 4 ltac:(lia)) as Hm.
  destruct (Z.to_nat (d / 4)) as [|k] eqn:Ek; [lia|].
  assert (Z.of_nat (S k) = d / 4) as Ez by lia.
  rewrite (plain_rounds n f taken k s Hl Hi Ht) by (unfold d in *; lia). rewrite Ez.
  set (s' := advance (4 * (d / 4)) (s <| vr_op := 0 |>)).
  assert (Count (c_mach s') = Count (c_mach s) + 4 * (d / 4) /\ next_interrupt_of (c_mach s') = next_interrupt_of (c_mach s)) as [Ec En]
    by (split; reflexivity).
  destruct (Z.eqb_spec (d mod 4) 0) as [E0|E0].
  - unfold interrupt_if_due, on_mach. rewrite bind_get_l, Ec, En.
    assert ((next_interrupt_of (c_mach s) <=? Count (c_mach s) + 4 * (d / 4)) = true) as -> by (apply Z.leb_le; unfold d in *; lia).
    reflexivity.
  - apply not_due. unfold calm. rewrite Ec, En. unfold d in *. lia.
Qed.
End Idle.

(** C29.  Skipping an idle loop of BLTZ, BGEZ, BLEZ, BEQ or BNE is executing it: one step
    at such a branch to itself over a NOP, taken, gives the state that executing the loop
    round by round would reach just before the next interrupt, Count being the only thing
    that changes.  When the distance is a multiple of four the last of these rounds would
    have taken the interrupt, which the skip leaves due.  (For BGTZ and JAL this does not
    hold; the other idle forms are not covered.) *)
Theorem idle_skip_is_iteration {Q} `{EventQueue Q} `{Devices Q} `{Fpu Q} n f (s s1 : core Q) B taken :
  In (B, taken, s1) (self_branches (slot_of (S n)) f s) -> idling s1 f -> taken s1 = true ->
  let d := next_interrupt_of (c_mach s) - Count (c_mach s) in
  3 < d < 2 ^ 31 ->
  let s' := advance (4 * (d / 4)) s1 in
  B s = Ret (tt, s') /\
  rounds (Z.to_nat (d / 4)) (plain_branch (slot_of (S n)) f taken) s1 =
    (if d mod 4 =? 0 then on_mach gen_interrupt else ret tt) (s' <| vr_op := 0 |>).
Proof.
  intros HB Hi Ht d Hd s'. destruct (conditions_on_locals (Q := Q)) as (L1 & L2 & L3 & _ & L5 & L6).
  unfold self_branches in HB. cbn [In] in HB.
  destruct HB as [E | [E | [E | [E | [E | []]]]]]; injection E as <- <- <-;
    (split; [|apply (rounds_to_interrupt n f _ _ Hi); [assumption|exact Ht|exact (proj1 Hd)]]).
  - exact (idle_branch _ f ltz ltz (with_rs f s) Hi Ht Hd).
  - exact (idle_branch _ f gez gez (with_rs f s) Hi Ht Hd).
  - exact (idle_branch _ f lez lez (with_rs f s) Hi Ht Hd).
  - apply andb_true_iff in Ht as [Ht _]. exact (idle_branch _ f equal _ (with_rt f (with_rs f s)) Hi Ht Hd).
  - exact (idle_branch _ f differ differ (with_rt f (with_rs f s)) Hi Ht Hd).
Qed.

(** BGTZ tests the opposite condition: a branch to itself that is not taken waits
    for the next interrupt as if it were. *)
Lemma bgtz_idles_when_not_taken {Q} `{EventQueue Q} `{Devices Q} `{Fpu Q} slot f (s : core Q) :
  idling (with_rs f s) f -> gtz (with_rs f s) = false ->
  let d := next_interrupt_of (c_mach s) - Count (c_mach s) in
  3 < d < 2 ^ 31 -> BGTZ slot f s = Ret (tt, advance (4 * (d / 4)) (with_rs f s)).
Proof.
  intros Hi Hg d Hd. apply (idle_branch slot f lez gtz (with_rs f s) Hi); [|exact Hd].
  unfold gtz, lez in *. apply Z.ltb_ge in Hg. by apply Z.leb_le.
Qed.

(** ** Examples *)

#[local] Existing Instance silent_devices.
#[local] Existing Instance no_fpu.

(** BEQ $0, $0, -1 with the next interrupt 4002 ticks away, which is not a
    multiple of four. *)
Definition idle_core : core irq :=
  (program_core 0x1000FFFF 0) <| c_mach := machine_with (irq_init <| next_interrupt := 4002 |>) cop0_zero core_mips_reg_zero |>.

Lemma idle_skip_is_iteration_witness :
  let f := i_type 0x1000FFFF in
  let s1 := with_rt f (with_rs f idle_core) in
  BEQ (slot_of 1) f idle_core = Ret (tt, advance 4000 s1) /\
  rounds (Z.to_nat 1000) (plain_branch (slot_of 1) f (fun s => equal s && negb (g_vr_beq_ignore_jmp s))) s1 =
    Ret (tt, (advance 4000 s1) <| vr_op := 0 |>).
Proof.
  intros f s1.
  pose proof (idle_skip_is_iteration 0 f idle_core s1 (BEQ (slot_of 1) f) (fun s => equal s && negb (g_vr_beq_ignore_jmp s))) as R.
  cbv zeta in R. change (next_interrupt_of (c_mach idle_core) - Count (c_mach idle_core)) with 4002 in R.
  change (4 * (4002 / 4)) with 4000 in R. change (4002 / 4) with 1000 in R. change (4002 mod 4 =? 0) with false in R. apply R.
  - right. right. right. left. reflexivity.
  - constructor; (reflexivity || by vm_compute).
  - reflexivity.
  - by vm_compute.
Defined.
