(* ===== verification/FetchProps.v ===== *)
(** * Fetching ends *)

From S2P Require Import Prelude Pool Machine Exception Alu Tlb TlbProps Core Bus BusProps LoadStore LoadStoreProps Cop Interp InterpProps.

Open Scope prog_scope.
#[local] Open Scope Z_scope.

Section Refill.
Context {Q : Type} `{EventQueue Q}.
Implicit Types m : machine Q.

(** A TLB refill continues at one of two vectors of the cached segment. *)
Lemma refill_vector a w m :
  interpcore m = true ->
  wp (TLB_refill_exception a w) (fun _ m' => interp_addr m' = 0x80000000 \/ interp_addr m' = 0x80000180) m.
Proof.
  intros Hi. destruct m. cbn in Hi. subst.
  unfold TLB_refill_exception, update_count, goto_vector, leave_exception, set_BD, clear_BD, in_delay_slot.
  destruct (w =? 1), (w =? 2), dynacore, dyna_interp; wp_exec;
    first [right; reflexivity | left; reflexivity |
      match goal with |- ?x = _ \/ _ => assert (x = if usual_handler a tlb_e then 0x80000180 else 0x80000000) as -> by reflexivity end;
      destruct (usual_handler a tlb_e); [by right|by left]].
Qed.
End Refill.

Section Fetching.
Context {Q : Type} `{EventQueue Q} `{Devices Q}.
#[local] Abbreviation st := (core Q).
Implicit Types s : st.

(** In the direct-mapped segments there is nothing to translate. *)
Lemma prefetch_direct n k s :
  0x80000000 <= pc_of s < 0xc0000000 -> prefetch (S n) s = prefetch (S k) s.
Proof.
  intros Ha. cbn [prefetch]. rewrite !bind_get_l.
  assert ((0x80000000 <=? pc_of s) && (pc_of s <? 0xc0000000) = true) as -> by lia. reflexivity.
Qed.

(** After the attempt to translate, the program counter is in these segments. *)
Lemma fetch_address s phys s' :
  tlb_ok (c_mach s) -> is_u32 (pc_of s) -> interpcore (c_mach s) = true ->
  on_mach (virtual_to_physical_address (pc_of s) 2) s = Ret (phys, s') ->
  if c_true phys then 0x80000000 <= phys < 0xBF000000 else 0x80000000 <= pc_of s' < 0xc0000000.
Proof.
  intros Hok Ha Hi E. unfold on_mach in E.
  destruct (virtual_to_physical_address (pc_of s) 2 (c_mach s)) as [[y m]|] eqn:Ev; [|done]. injection E as <- <-.
  unfold c_true. destruct (Z.eqb_spec y 0) as [Hy|Hy]; cbn [negb].
  2: { by destruct (translated_address _ _ _ _ _ Hok Ha Ev Hy). }
  rewrite translate_cases in Ev. destruct (special_case (pc_of s) (c_mach s)) as [base|] eqn:Es.
  - injection Ev as Ev _. exfalso. unfold special_case in Es. destruct (_ && _); [|done].
    pose proof (land_le_mask (pc_of s) 0xFFFFFF ltac:(lia)) as Hm.
    assert (base = 0xb0034b30 \/ base = 0xb00329f0 \/ base = 0xb0034b70) as Hb
      by (unfold goldeneye_base in Es; repeat case_match; simplify_eq; auto).
    unfold u32 in Ev. destruct Hb as [-> | [-> | ->]]; rewrite Z.mod_small in Ev; lia.
  - destruct (lut_translate _ _) as [x|] eqn:El.
    + injection Ev as -> _. destruct (maps_outside_segments _ _ _ _ Hok (lut_translate_maps 2 _ _ _ Hok Ha El)). lia.
    + apply bind_inv in Ev as (u & m1 & Hr & Hm). injection Hm as _ <-.
      pose proof (wp_inv _ _ _ _ _ (refill_vector (pc_of s) 2 (c_mach s) Hi) Hr) as Hv.
      cbv beta in Hv. change (pc_of (s <| c_mach := m1 |>)) with (interp_addr m1). lia.
Qed.
End Fetching.

(** Fetching ends: [prefetch] calls itself at most once, with the translated
    address or at the vector of the refill exception, whatever the TLB holds. *)
Theorem prefetch_terminates {Q} `{EventQueue Q} `{Devices Q} n (s : core Q) :
  tlb_ok (c_mach s) -> is_u32 (pc_of s) -> interpcore (c_mach s) = true ->
  prefetch (prefetch_depth + n) s = prefetch prefetch_depth s.
Proof.
  intros Hok Ha Hi. change (prefetch (S (S n)) s = prefetch (S 1) s).
  destruct ((0x80000000 <=? pc_of s) && (pc_of s <? 0xc0000000)) eqn:Es.
  { apply prefetch_direct. lia. }
  change (prefetch (S ?k)) with (s <-- get ;;; let a := pc_of s in
      if (0x80000000 <=? a) && (a <? 0xc0000000) then
        if a <? 0x80800000 then fetch (load_from rdram 0x800000 4 (Z.land a 0xFFFFFF))
        else if (0xa4000000 <=? a) && (a <? 0xa4001000) then fetch (load_from SP_MEM 0x2000 4 (Z.land a 0xFFF / 4 * 4))
        else if 0xb0000000 <? a then fetch (load_from rom (rom_size s) 4 (Z.land a 0xFFFFFFF / 4 * 4))
        else stop_emu
      else
        phys <-- on_mach (virtual_to_physical_address a 2) ;;;
        if c_true phys then set_pc (fun _ => phys) ;;; prefetch k ;;; set_pc (fun _ => a)
        else prefetch k).
  rewrite !bind_get_l. cbv zeta. rewrite Es. apply bind_ext. intros phys s' E.
  pose proof (fetch_address s phys s' Hok Ha Hi E) as Hp. destruct (c_true phys).
  - assert (u32 phys = phys) as Eu by (apply u32_id; unfold is_u32; lia).
    apply bind_ext. intros [] s2 E2. injection E2 as <-. unfold bind. rewrite (prefetch_direct n 0); [done|].
    change (0x80000000 <= u32 phys < 0xc0000000). lia.
  - by apply prefetch_direct.
Qed.

(** ** An example *)

#[local] Existing Instance silent_devices.

(** A fetch from an unmapped page continues at the refill vector. *)
Lemma prefetch_terminates_witness :
  let s := reset_core <| c_mach := (c_mach reset_core) <| interp_addr := 0x2000 |> |> in
  prefetch 100 s = prefetch prefetch_depth s /\ is_ret (prefetch prefetch_depth s) = true.
Proof.
  intros s. split; [|vm_compute; reflexivity].
  apply (prefetch_terminates 98 s); [exact (proj2 reset_core_ok)|split; by vm_compute|reflexivity].
Defined.
