(* ===== verification/SlotProps.v ===== *)
(** * Exceptions in delay slots, and returning from them *)

From S2P Require Import Prelude Queue Pool PoolRefines Machine Exception ExceptionFacts InterruptProps Alu Tlb Core Bus BusProps LoadStore LoadStoreProps Cop Interp InterpProps.

Open Scope prog_scope.
#[local] Open Scope Z_scope.

Section Slot.
Context {Q : Type} `{EventQueueLaws Q}.
Implicit Types m : machine Q.

(** The pure interpreter in a delay slot. *)
Record in_slot m : Prop := {
  is_core : interpcore m = true;
  is_dyna : dynacore m = false;
  is_slot : delay_slot m = 1;
  is_skip : skip_jump m = 0;
}.

(** [exception_general] there: the vector is remembered in [skip_jump], and the
    branch around the slot is made to look for interrupts. *)
Lemma exception_in_slot m :
  in_slot m ->
  wp exception_general (fun _ m' =>
    skip_jump m' = 0x80000180 /\ irq_queue m' = q_set_next_interrupt 0 (irq_queue m) /\
    interpcore m' = true /\ stop m' = stop m /\ EPC m' = u32 (interp_addr m - 4) /\
    Status m' = Z.lor (Status m) 2 /\ Cause m' = Z.lor (Cause m) 0x80000000 /\
    interp_addr m' = 0x80000180 /\ last_addr m' = 0x80000180 /\
    Count m' = u32 (Count m + u32 (interp_addr m - last_addr m) / 2)) m.
Proof.
  intros [Hi Hd Hs Hj]. destruct m. cbn in Hi, Hd, Hs, Hj. subst.
  unfold exception_general, update_count, goto_vector, jump_to_mapped, leave_exception, set_BD, clear_BD.
  destruct dyna_interp; wp_exec;
    lazymatch goal with E : _ = false |- _ => discriminate E | _ => split_and!; reflexivity end.
Qed.

(** What looking for interrupts does then. *)
Definition resumed (next v : Z) m : machine Q :=
  (set_next_interrupt next m) <| interp_addr := v |> <| last_addr := v |> <| skip_jump := 0 |>.

Lemma skip_jump_taken m e evs :
  rep m (e :: evs) -> interpcore m = true -> stop m = false -> c_true (skip_jump m) = true ->
  next_interrupt_of m <= Count m ->
  interrupt_if_due m = Ret (tt, resumed
    (if (Count m <? ev_count e) || (u32 (Count m - ev_count e) <? 0x80000000) then ev_count e else 0) (skip_jump m) m).
Proof.
  intros R Hi Hs Hj Hd. unfold interrupt_if_due. rewrite bind_get_l. apply Z.leb_le in Hd. rewrite Hd. unfold when, gen_interrupt.
  rewrite bind_get_l, Hs, Hj. unfold take_skip_jump.
  rewrite bind_get_l, (bind_Ret _ _ _ _ _ (on_queue_front m e evs R)), bind_modify_l, bind_get_l.
  match goal with |- context [set_next_interrupt ?v m] => set (v0 := v) end.
  change (interpcore (set_next_interrupt v0 m)) with (interpcore m). rewrite Hi. reflexivity.
Qed.
End Slot.

Section Branches.
Context {Q : Type} `{EventQueueLaws Q} `{Devices Q} `{Fpu Q}.
#[local] Abbreviation st := (core Q).
Implicit Types s : st.

(** At an instruction with SYSCALL in its delay slot. *)
Record before_syscall s (evs : list event) : Prop := {
  bs_core : interpcore (c_mach s) = true;
  bs_dyna : dynacore (c_mach s) = false;
  bs_stop : stop (c_mach s) = false;
  bs_skip : skip_jump (c_mach s) = 0;
  bs_here : in_ram (pc_of s);
  bs_next : in_ram (pc_of s + 4);
  bs_word : ram_word s (pc_of s + 4) = 0x0000000C;
  bs_queue : rep (c_mach s) evs;
  bs_some : evs <> [];
}.

(** The exception has been taken: the handler runs, EPC and Cause tell of the
    branch at [a]. *)
Definition at_vector s (evs : list event) (s' : st) : Prop :=
  pc_of s' = 0x80000180 /\ last_addr (c_mach s') = 0x80000180 /\
  skip_jump (c_mach s') = 0 /\ delay_slot (c_mach s') = 0 /\
  EPC (c_mach s') = pc_of s /\ Cause (c_mach s') = 0x80000020 /\ Status (c_mach s') = Z.lor (Status (c_mach s)) 2 /\
  c_reg s' = c_reg s /\ rep (c_mach s') evs.

(** Between the slot and the end of the branch. *)
Record pending s (evs : list event) (s2 : st) : Prop := {
  pe_skip : skip_jump (c_mach s2) = 0x80000180;
  pe_queue : rep (c_mach s2) evs;
  pe_next : next_interrupt_of (c_mach s2) = 0;
  pe_core : interpcore (c_mach s2) = true;
  pe_stop : stop (c_mach s2) = false;
  pe_slot : delay_slot (c_mach s2) = 0;
  pe_epc : EPC (c_mach s2) = pc_of s;
  pe_status : Status (c_mach s2) = Z.lor (Status (c_mach s)) 2;
  pe_cause : Cause (c_mach s2) = 0x80000020;
  pe_count : 0 <= Count (c_mach s2);
  pe_reg : c_reg s2 = c_reg s;
}.

Lemma slot_syscall n s evs :
  before_syscall s evs -> exists s2, delay (slot_of (S n)) s = Ret (tt, s2) /\ pending s evs s2.
Proof.
  intros [Hi Hd Hst Hj Hh Hn Hw Hq Hne]. destruct Hn as (Hlo & Hhi & Hal).
  assert (pc_of (at_slot s) = pc_of s + 4) as Epc by (change (u32 (pc_of s + 4) = pc_of s + 4); apply u32_id; unfold is_u32; lia).
  set (m0 := set_Cause (Z.shiftl 8 2) (c_mach (at_slot s))).
  assert (in_slot m0) as Hin by (constructor; [exact Hi|exact Hd|reflexivity|exact Hj]).
  destruct (proj1 (wp_exists _ _ _) (exception_in_slot m0 Hin)) as ([] & m1 & Hrun & Ej & Eq & Ei & Es & Ee & Est & Eca & Ea & El & Ec).
  assert (slot_of (S n) (at_slot s) = Ret (tt, (at_slot s) <| vr_op := 0xC |> <| c_mach := m1 |>)) as Hslot.
  { unfold slot_of. rewrite (bind_Ret _ _ _ _ _ (prefetch_ram 1 (at_slot s) ltac:(rewrite Epc; done))), bind_get_l, Epc.
    change (ram_word (at_slot s) (pc_of s + 4)) with (ram_word s (pc_of s + 4)). rewrite Hw.
    change (exec (S n) (vr_op ((at_slot s) <| vr_op := 0xC |>)) ((at_slot s) <| vr_op := 0xC |>)) with
      (SYSCALL ((at_slot s) <| vr_op := 0xC |>)).
    unfold SYSCALL. apply on_mach_ok. rewrite bind_modify_l. exact Hrun. }
  exists (leave_slot ((at_slot s) <| vr_op := 0xC |> <| c_mach := m1 |>)).
  split; [exact (delay_ok _ _ _ Hslot Ei)|].
  assert (EPC m1 = pc_of s) as Ee'.
  { rewrite Ee. change (interp_addr m0) with (pc_of (at_slot s)). rewrite Epc. replace (pc_of s + 4 - 4) with (pc_of s) by lia.
    apply u32_id. destruct Hh as (Hlo' & Hhi' & _). unfold is_u32. lia. }
  clear Hrun Hslot Hin. constructor; [exact Ej| | |exact Ei|etransitivity; [exact Es|exact Hst]|reflexivity|exact Ee'|exact Est|exact Eca| |reflexivity].
  - unfold rep. change (irq_queue (c_mach (leave_slot ((at_slot s) <| vr_op := 0xC |> <| c_mach := m1 |>)))) with (irq_queue m1).
    rewrite Eq. by apply q_set_next_law.
  - unfold next_interrupt_of. change (irq_queue (c_mach (leave_slot ((at_slot s) <| vr_op := 0xC |> <| c_mach := m1 |>)))) with (irq_queue m1).
    rewrite Eq. by apply (q_set_next_law _ evs).
  - change (0 <= u32 (Count m1 + u32 (interp_addr m1 - last_addr m1) / 2)). apply u32_range.
Qed.

Lemma pending_jumped s evs s2 a : pending s evs s2 -> pending s evs (jumped a s2).
Proof. intros [? ? ? ? ? ? ? ? ? ? ?]. constructor; assumption. Qed.

Lemma pending_finish s evs s2 :
  evs <> [] -> pending s evs s2 -> exists s', finish s2 = Ret (tt, s') /\ at_vector s evs s'.
Proof.
  intros Hne [Ej Eq En Ei Es Ed Ee Est Eca Ec Er]. destruct evs as [|e evs]; [done|].
  set (m := (c_mach s2) <| last_addr := interp_addr (c_mach s2) |>).
  pose proof (skip_jump_taken m e evs Eq Ei Es ltac:(change (skip_jump m) with (skip_jump (c_mach s2)); by rewrite Ej)
    ltac:(change (next_interrupt_of m) with (next_interrupt_of (c_mach s2)); change (Count m) with (Count (c_mach s2)); lia)) as Hrun.
  change (skip_jump m) with (skip_jump (c_mach s2)) in Hrun. rewrite Ej in Hrun.
  eexists. split; [unfold finish; apply on_mach_ok; rewrite bind_modify_l; exact Hrun|].
  split_and!; [reflexivity|reflexivity|reflexivity|exact Ed|exact Ee|exact Eca|exact Est|exact Er|].
  unfold rep. match goal with |- q_rep (irq_queue (c_mach (_ <| c_mach := resumed ?v _ m |>))) _ =>
    change (q_rep (q_set_next_interrupt v (irq_queue (c_mach s2))) (e :: evs)) end.
  by apply q_set_next_law.
Qed.

(** What follows the slot moves the program counter at most, and ends. *)
Definition moves_only (k : M st unit) : Prop :=
  forall s2, skip_jump (c_mach s2) = 0x80000180 -> k s2 = finish s2 \/ exists a, k s2 = finish (jumped a s2).

Lemma syscall_in_slot n s evs k :
  before_syscall s evs -> moves_only k -> exists s', (delay (slot_of (S n)) ;;; k) s = Ret (tt, s') /\ at_vector s evs s'.
Proof.
  intros Hb Hk. destruct (slot_syscall n s evs Hb) as (s2 & Hrun & Hp). rewrite (bind_Ret _ _ _ _ _ Hrun).
  destruct (Hk s2 (pe_skip _ _ _ Hp)) as [-> | [a ->]]; apply pending_finish; try exact (bs_some _ _ Hb); [exact Hp|].
  by apply pending_jumped.
Qed.

Lemma no_idle_skip idle (k : M st unit) s evs : before_syscall s evs -> skip_idle idle k s = k s.
Proof.
  intros [_ _ _ _ Hh Hn Hw _ _]. destruct idle; [|done]. unfold skip_idle. rewrite bind_get_l.
  assert (u32 (pc_of s + 4) = pc_of s + 4) as -> by (apply u32_id; destruct Hn as (Hlo & Hhi & _); unfold is_u32; lia).
  by rewrite (bind_Ret _ _ _ _ _ (probe_nop_ram s _ Hn)), Hw.
Qed.

Lemma before_syscall_ext s s1 evs : same_core s s1 -> before_syscall s evs -> before_syscall s1 evs.
Proof.
  intros (_ & _ & _ & E4 & E5 & _) [? ? ? ? Hh Hn Hw ? ?].
  assert (forall a, ram_word s1 a = ram_word s a) as Ew by (intros a; unfold ram_word, ram_byte; by rewrite E5).
  constructor; unfold pc_of in *; rewrite ?E4, ?Ew; done.
Qed.

Lemma branch_in_slot n f idle taken s evs :
  before_syscall s evs -> exists s', branch (slot_of (S n)) f idle taken s = Ret (tt, s') /\ at_vector s evs s'.
Proof.
  intros Hb. unfold branch. rewrite bind_get_l, (no_idle_skip _ _ _ evs Hb). apply syscall_in_slot; [done|].
  intros s2 _. rewrite bind_get_l. destruct (taken s2); [right|by left].
  exists (pc_of s2 + (immediate f - 1) * 4). reflexivity.
Qed.

Lemma link_in_slot n dest target s evs :
  before_syscall s evs -> exists s', jump_and_link (slot_of (S n)) dest target s = Ret (tt, s') /\ at_vector s evs s'.
Proof.
  intros Hb. unfold jump_and_link. apply syscall_in_slot; [done|]. intros s2 Hj. left. rewrite bind_get_l, Hj. reflexivity.
Qed.

Lemma jump_in_slot n (g : st -> Z) s evs :
  before_syscall s evs ->
  exists s', (delay (slot_of (S n)) ;;; s <-- get ;;; set_pc (fun _ => g s) ;;; finish) s = Ret (tt, s') /\ at_vector s evs s'.
Proof. intros Hb. apply syscall_in_slot; [done|]. intros s2 _. right. exists (g s2). reflexivity. Qed.

Lemma at_vector_ext s s1 evs r :
  same_core s s1 -> (exists s', r = Ret (tt, s') /\ at_vector s1 evs s') -> exists s', r = Ret (tt, s') /\ at_vector s evs s'.
Proof.
  intros (E1 & _ & _ & E4 & _) (s' & Hr & Hv). exists s'. split; [done|]. unfold at_vector, pc_of in *. rewrite E1, E4 in Hv. done.
Qed.

(** Branches and jumps that execute their delay slot in any case and link, if they
    do, behind it: without BLTZAL and BGEZAL, which link before it, and the branches on
    coprocessor 1. *)
Definition slot_branches (slot : M st unit) (op : Z) : list (M st unit) :=
  let f := i_type op in
  [BLTZ slot f; BGEZ slot f; BLEZ slot f; BGTZ slot f; BEQ slot f; BNE slot f; JR slot f; JALR slot (r_type op); J slot op; JAL slot op].
End Branches.

(** C28.  An exception in the delay slot of BLTZ, BGEZ, BLEZ, BGTZ, BEQ, BNE, JR, JALR, J
    or JAL is taken whether or not the branch is: a SYSCALL there leads to the exception
    vector with EPC at the branch, the delay-slot bit and the exception level set,
    no link register written, and the events still queued.  (BLTZAL and BGEZAL write the
    link before the slot; likely branches and those on coprocessor 1 are not covered.) *)
Theorem delay_slot_exception {Q} `{EventQueueLaws Q} `{Devices Q} `{Fpu Q} n op (s : core Q) evs B :
  before_syscall s evs -> In B (slot_branches (slot_of (S n)) op) ->
  exists s', B s = Ret (tt, s') /\ at_vector s evs s'.
Proof.
  intros Hb HB. set (f := i_type op) in *.
  pose proof (before_syscall_ext s (with_rs f s) evs (same_with_rs f s) Hb) as H1s.
  pose proof (before_syscall_ext s (with_rt f (with_rs f s)) evs (same_with_both f s) Hb) as H2s.
  assert (forall v, before_syscall (s <| local_rs32 := v |>) evs) as H3s
    by (intros v; apply (before_syscall_ext s); [by split_and!|done]).
  cbn [slot_branches In] in HB. fold f in HB.
  destruct HB as [<- | [<- | [<- | [<- | [<- | [<- | [<- | [<- | [<- | [<- | []]]]]]]]]]].
  - apply (at_vector_ext s (with_rs f s) evs _ (same_with_rs f s)). exact (branch_in_slot n f ltz ltz (with_rs f s) evs H1s).
  - apply (at_vector_ext s (with_rs f s) evs _ (same_with_rs f s)). exact (branch_in_slot n f gez gez (with_rs f s) evs H1s).
  - apply (at_vector_ext s (with_rs f s) evs _ (same_with_rs f s)). exact (branch_in_slot n f lez lez (with_rs f s) evs H1s).
  - apply (at_vector_ext s (with_rs f s) evs _ (same_with_rs f s)). exact (branch_in_slot n f lez gtz (with_rs f s) evs H1s).
  - apply (at_vector_ext s _ evs _ (same_with_both f s)). exact (branch_in_slot n f equal (fun s => equal s && negb (g_vr_beq_ignore_jmp s)) (with_rt f (with_rs f s)) evs H2s).
  - apply (at_vector_ext s _ evs _ (same_with_both f s)). exact (branch_in_slot n f differ differ (with_rt f (with_rs f s)) evs H2s).
  - apply (at_vector_ext s (s <| local_rs32 := irs32 f (get_cpu s) |>) evs); [by split_and!|].
    exact (jump_in_slot n local_rs32 _ evs (H3s (irs32 f (get_cpu s)))).
  - apply (at_vector_ext s (s <| local_rs32 := rrs32 (r_type op) (get_cpu s) |>) evs); [by split_and!|].
    exact (link_in_slot n (rd (r_type op)) local_rs32 _ evs (H3s (rrs32 (r_type op) (get_cpu s)))).
  - unfold J. rewrite bind_get_l. cbv zeta. rewrite (no_idle_skip _ _ _ evs Hb). exact (jump_in_slot n (fun _ => naddr op s) s evs Hb).
  - unfold JAL. rewrite bind_get_l. cbv zeta. rewrite (no_idle_skip _ _ _ evs Hb). exact (link_in_slot n 31 _ s evs Hb).
Qed.

(** ** Returning from exceptions *)

Section Return.
Context {Q : Type} `{EventQueueLaws Q}.
Implicit Types m : machine Q.

Lemma check_interrupt_state m evs :
  rep m evs -> (length evs < POOL_SIZE)%nat ->
  exists q', check_interrupt m = Ret (tt, (set_Cause (checked_cause m) m) <| irq_queue := q' |>) /\
    if waiting (Status m) (checked_cause m)
    then q_rep q' (Event CHECK_INT (Count m) :: evs) /\ q_next_interrupt q' = Count m
    else q_rep q' evs /\ q_next_interrupt q' = next_interrupt_of m.
Proof.
  intros R Hl. unfold check_interrupt, raise_ip2. rewrite bind_get_l.
  assert ((if rcp_pending m then modify (fun m => set_Cause (Z.land (Z.lor (Cause m) 0x400) 0xFFFFFF83) m)
           else modify (fun m => set_Cause (Z.land (Cause m) 0xFFFFFBFF) m)) m = Ret (tt, set_Cause (checked_cause m) m)) as Hrun
    by (unfold checked_cause; by destruct (rcp_pending m)).
  rewrite (bind_Ret _ _ _ _ _ Hrun), bind_get_l. generalize (checked_cause m). intros c. unfold waiting.
  change (irq_enabled (set_Cause c m)) with (irq_enabled m).
  change (irq_unmasked (set_Cause c m)) with (c_true (Z.land (Z.land (Status m) c) 0xFF00)). unfold irq_enabled.
  destruct (_ && _); unfold when.
  - destruct (q_push_check_law (irq_queue m) evs (Count m) R Hl) as (q' & Hp & R' & Hn & _). exists q'.
    split; [by apply on_queue_Ret|done].
  - exists (irq_queue m). split; [by destruct m|done].
Qed.

(** [ERET] up to the check for interrupts. *)
Definition returned m : machine Q :=
  (set_Status (Z.land (Status m) 0xFFFFFFFD) (counted m)) <| interp_addr := EPC m |> <| llbit := 0 |>.

Lemma eret_run m :
  interpcore m = true -> has_bits (Status m) 0x4 = false ->
  ERET m = (check_interrupt ;;; modify (fun m => m <| last_addr := interp_addr m |>) ;;; interrupt_if_due) (returned m).
Proof.
  intros Hi He. unfold ERET. rewrite (bind_Ret _ _ _ _ _ (update_count_ok m Hi)), bind_get_l.
  change (Status (counted m)) with (Status m). rewrite He, bind_assoc, !bind_modify_l. reflexivity.
Qed.

(** The exception for a CHECK event at the head of the queue. *)
Lemma check_event_taken m cnt evs :
  rep m (Event CHECK_INT cnt :: evs) -> next_interrupt_of m <= Count m -> is_u32 (core_Compare (m_cop0 m)) -> is_u32 (Count m) ->
  interpcore m = true -> stop m = false -> skip_jump m = 0 -> delay_slot m = 0 ->
  wp interrupt_if_due (fun _ m' => rep m' evs /\ ExceptionFacts.pc m' = 0x80000180 /\ Status m' = Z.lor (Status m) 2 /\ EPC m' = interp_addr m) m.
Proof.
  intros R Hd Hc Hcnt Hi Hs Hj Hds. unfold interrupt_if_due. wp_go. apply Z.leb_le in Hd. rewrite Hd. unfold when.
  eapply wp_mono; [exact (gen_interrupt_spec m _ evs Hs Hj R Hc Hcnt)|]. intros [] m' ((evs' & R' & _ & Hf) & _ & Hx).
  change (special_early m (Event CHECK_INT cnt)) with false in Hf. change (evs' = evs) in Hf. subst evs'.
  change (interrupt_taken m (Event CHECK_INT cnt)) with true in Hx. destruct Hx as (T1 & T2 & T3).
  unfold in_delay_slot in T3. rewrite Hds in T3. unfold ExceptionFacts.pc in T3. rewrite Hi in T3. done.
Qed.
End Return.

(** C30.  ERET returns to EPC and lowers the exception level, unless an enabled and
    unmasked interrupt has been waiting behind that level: then the interrupt
    exception is taken at once, with EPC still the return address.  Either way the
    events stay queued. *)
Theorem eret_correct {Q} `{EventQueueLaws Q} (m : machine Q) evs :
  rep m evs -> (length evs < POOL_SIZE)%nat -> interpcore m = true -> stop m = false -> skip_jump m = 0 -> delay_slot m = 0 ->
  has_bits (Status m) 0x4 = false -> is_u32 (core_Compare (m_cop0 m)) -> count_after m < next_interrupt_of m ->
  let status := Z.land (Status m) 0xFFFFFFFD in
  exists m', ERET m = Ret (tt, m') /\ rep m' evs /\
    if waiting status (checked_cause m)
    then ExceptionFacts.pc m' = 0x80000180 /\ EPC m' = EPC m /\ Status m' = Z.lor status 2
    else ExceptionFacts.pc m' = EPC m /\ EPC m' = EPC m /\ Status m' = status /\ Cause m' = checked_cause m.
Proof.
  intros R Hl Hi Hs Hj Hd He Hc Hn status. rewrite (eret_run m Hi He).
  destruct (check_interrupt_state (returned m) evs R Hl) as (q' & Hrun & Hq).
  change (checked_cause (returned m)) with (checked_cause m) in *. change (Status (returned m)) with status in Hq.
  set (m2 := (set_Cause (checked_cause m) (returned m)) <| irq_queue := q' |>) in *.
  rewrite (bind_Ret _ _ _ _ _ Hrun), bind_modify_l. set (m3 := m2 <| last_addr := interp_addr m2 |>).
  assert (Count m3 = count_after m) as Ec by (unfold count_after, ExceptionFacts.pc; rewrite Hi; reflexivity).
  assert (Count (returned m) = count_after m) as Er by exact Ec. rewrite Er in Hq.
  destruct (waiting status (checked_cause m)); destruct Hq as [R' Hn'].
  - pose proof (check_event_taken m3 (count_after m) evs) as Ht. rewrite Ec in Ht.
    destruct (proj1 (wp_exists _ _ _) (Ht R' ltac:(change (next_interrupt_of m3) with (q_next_interrupt q'); lia) Hc (u32_range _) Hi Hs Hj Hd))
      as ([] & m' & Hg & Rm & Hp & Hst & Hepc).
    exists m'. split; [exact Hg|]. split; [exact Rm|]. split; [exact Hp|]. split; [exact Hepc|exact Hst].
  - exists m3. split.
    + unfold interrupt_if_due. rewrite bind_get_l, Ec. change (next_interrupt_of m3) with (q_next_interrupt q').
      rewrite Hn'. change (next_interrupt_of (returned m)) with (next_interrupt_of m). apply Z.leb_gt in Hn. rewrite Hn. reflexivity.
    + split; [exact R'|]. split; [|done]. unfold ExceptionFacts.pc. change (interpcore m3) with (interpcore m). by rewrite Hi.
Qed.

(** ** Examples *)

#[local] Existing Instance silent_devices.
#[local] Existing Instance no_fpu.

(** JAL with SYSCALL behind it. *)
Lemma delay_slot_exception_witness :
  exists (q : irq) (s' : core irq),
    let s := (program_core 0x0C000800 0x0000000C) <| c_mach := machine_with q cop0_zero core_mips_reg_zero |> in
    represents q vi_queue /\ JAL (slot_of 1) 0x0C000800 s = Ret (tt, s') /\
    pc_of s' = 0x80000180 /\ EPC (c_mach s') = 0x80001000 /\ c_reg s' !! 31%nat = Some 0.
Proof.
  destruct vi_queue_reached as (q & R & _). exists q.
  destruct (delay_slot_exception 0 0x0C000800
    ((program_core 0x0C000800 0x0000000C) <| c_mach := machine_with q cop0_zero core_mips_reg_zero |>) vi_queue
    (JAL (slot_of 1) 0x0C000800)) as (s' & Hrun & Hpc & _ & _ & _ & He & _ & _ & Hr & _).
  - constructor; [reflexivity|reflexivity|reflexivity|reflexivity|by vm_compute|by vm_compute|reflexivity|exact R|done].
  - do 9 right. left. reflexivity.
  - exists s'. split; [exact R|]. split; [exact Hrun|]. split; [exact Hpc|]. split; [exact He|]. rewrite Hr. reflexivity.
Defined.

(** A handler returning to 0x80002000. *)
Lemma eret_correct_witness :
  exists (q : irq) (m' : machine irq),
    represents q vi_queue /\
    ERET (machine_with q (cop0_zero <| core_EPC := 0x80002000 |> <| core_Status := 0xFF03 |>) core_mips_reg_zero) = Ret (tt, m') /\
    ExceptionFacts.pc m' = 0x80002000 /\ Status m' = 0xFF01.
Proof.
  destruct (queue_after vi_queue_ops (AQ vi_queue false 0x20001388)) as (q & _ & R & _ & Hn); [vm_compute; reflexivity|].
  destruct (eret_correct (machine_with q (cop0_zero <| core_EPC := 0x80002000 |> <| core_Status := 0xFF03 |>) core_mips_reg_zero) vi_queue)
    as (m' & Hrun & _ & Hx); [exact R|apply Nat.ltb_lt; reflexivity|reflexivity|reflexivity|reflexivity|reflexivity|reflexivity|by vm_compute| |].
  - change (next_interrupt_of _) with (next_interrupt q). cbn [a_next] in Hn. rewrite Hn. reflexivity.
  - exists q, m'. split; [exact R|]. split; [exact Hrun|]. split; apply Hx.
Defined.
