(* ===== verification/WfProps.v ===== *)
(** * The interpreter keeps its registers within their widths

    The type invariant of the whole state: general registers and coprocessor 1
    hold 64-bit values, the registers of coprocessor 0 and the program counters
    32-bit ones, memory holds bytes, and the TLB's look-up tables agree with its
    entries.  Every round of the interpreter keeps it, whatever the devices and the
    floating-point unit do, as long as they keep it. *)

From S2P Require Import Prelude Hoare Pool Machine Exception Alu AluProps Tlb TlbProps Core Bus BusProps LoadStore Cop Interp InterpProps.

Open Scope prog_scope.
#[local] Open Scope Z_scope.

(** ** Ranges *)

Lemma is_u32_bits x : is_u32 x <-> Z.shiftr x 32 = 0.
Proof.
  unfold is_u32. rewrite Z.shiftr_div_pow2 by lia. change (2 ^ 32) with 4294967296.
  pose proof (Z.div_mod x 4294967296). pose proof (Z.mod_pos_bound x 4294967296). lia.
Qed.

Lemma is_u32_lor x y : is_u32 x -> is_u32 y -> is_u32 (Z.lor x y).
Proof. rewrite !is_u32_bits, Z.shiftr_lor. by intros -> ->. Qed.

Lemma is_u32_land x m : is_u32 m -> is_u32 (Z.land x m).
Proof. rewrite !is_u32_bits, Z.shiftr_land. intros ->. apply Z.land_0_r. Qed.

Lemma is_u32_shiftr x k : is_u32 x -> 0 <= k -> is_u32 (Z.shiftr x k).
Proof.
  unfold is_u32. intros Hx Hk. rewrite Z.shiftr_div_pow2 by done.
  assert (0 < 2 ^ k) by (apply Z.pow_pos_nonneg; lia).
  split; [apply Z.div_pos; lia|]. apply Z.div_lt_upper_bound; nia.
Qed.

Lemma is_u32_small x : (0 <=? x) && (x <? 4294967296) = true -> is_u32 x.
Proof. unfold is_u32. lia. Qed.

Create HintDb range.

(** Range of a computed 32-bit value, by its outermost operation. *)
Ltac u32_value :=
  repeat lazymatch goal with
  | |- is_u32 (u32 _) => apply u32_range
  | |- is_u32 (Z.lor _ _) => apply is_u32_lor
  | |- is_u32 (Z.land _ _) => apply is_u32_land
  | |- is_u32 (if ?b then _ else _) => destruct b
  | _ => first [assumption | apply is_u32_small; reflexivity | solve [eauto 4 with range]]
  end.

(** ** The control state *)

Record cop0_ok (c : cop0) : Prop := {
  u_Index : is_u32 (core_Index c); u_Random : is_u32 (core_Random c);
  u_EntryLo0 : is_u32 (core_EntryLo0 c); u_EntryLo1 : is_u32 (core_EntryLo1 c);
  u_Context : is_u32 (core_Context c); u_PageMask : is_u32 (core_PageMask c);
  u_Wired : is_u32 (core_Wired c); u_BadVAddr : is_u32 (core_BadVAddr c);
  u_Count : is_u32 (core_Count c); u_EntryHi : is_u32 (core_EntryHi c);
  u_Compare : is_u32 (core_Compare c); u_Status : is_u32 (core_Status c);
  u_Cause : is_u32 (core_Cause c); u_EPC : is_u32 (core_EPC c);
  u_PRevID : is_u32 (core_PRevID c); u_Config : is_u32 (core_Config_cop0 c);
  u_LLAddr : is_u32 (core_LLAddr c); u_WatchLo : is_u32 (core_WatchLo c);
  u_WatchHi : is_u32 (core_WatchHi c); u_XContext : is_u32 (core_XContext c);
  u_PErr : is_u32 (core_PErr c); u_CacheErr : is_u32 (core_CacheErr c);
  u_TagLo : is_u32 (core_TagLo c); u_TagHi : is_u32 (core_TagHi c);
  u_ErrorEPC : is_u32 (core_ErrorEPC c)
}.

Lemma reg_cop0_range c i : cop0_ok c -> is_u32 (reg_cop0 c i).
Proof. intros []. unfold reg_cop0. repeat case_match; first [assumption | by apply is_u32_small]. Qed.

Section Control.
Context {Q : Type} `{EventQueue Q}.
#[local] Abbreviation mach := (machine Q).
Implicit Types m : mach.

Record mach_ok (m : mach) : Prop := {
  mo_cop0 : cop0_ok (m_cop0 m);
  mo_pc : is_u32 (interp_addr m);
  mo_cached_pc : is_u32 (PC_addr m);
  mo_last : is_u32 (last_addr m);
  mo_skip : is_u32 (skip_jump m);
  mo_entries : length (tlb_e m) = 32%nat;
  mo_tlb : tlb_ok m
}.

Lemma on_cop0_ok g m : mach_ok m -> (cop0_ok (m_cop0 m) -> cop0_ok (g (m_cop0 m))) -> mach_ok (on_cop0 g m).
Proof. intros [Hc ? ? ? ? ? ?] Hg. constructor; try assumption. exact (Hg Hc). Qed.

Lemma set_Count_ok v m : mach_ok m -> is_u32 v -> mach_ok (set_Count v m).
Proof. intros Hm Hv. apply on_cop0_ok; [exact Hm|]. intros []. constructor; assumption. Qed.
Lemma set_Cause_ok v m : mach_ok m -> is_u32 v -> mach_ok (set_Cause v m).
Proof. intros Hm Hv. apply on_cop0_ok; [exact Hm|]. intros []. constructor; assumption. Qed.
Lemma set_Status_ok v m : mach_ok m -> is_u32 v -> mach_ok (set_Status v m).
Proof. intros Hm Hv. apply on_cop0_ok; [exact Hm|]. intros []. constructor; assumption. Qed.
Lemma set_EPC_ok v m : mach_ok m -> is_u32 v -> mach_ok (set_EPC v m).
Proof. intros Hm Hv. apply on_cop0_ok; [exact Hm|]. intros []. constructor; assumption. Qed.

Lemma keeps_on_queue {A} (c : M Q A) : keeps mach_ok (on_queue c).
Proof. intros m Hm. unfold on_queue. destruct (c (irq_queue m)) as [[a q]|]; [|done]. destruct Hm. by constructor. Qed.

End Control.

#[export] Hint Resolve mo_cop0 mo_pc mo_cached_pc mo_last mo_skip u_Index u_Count u_Compare u_Status u_Cause u_EPC
  u_EntryHi u_Context u_Wired : range.
#[export] Hint Resolve keeps_on_queue : keeps.

(** An update of the control state: of coprocessor 0, or of other fields. *)
Ltac mach_field Hm :=
  first [exact (mo_cop0 _ Hm) | exact (mo_pc _ Hm) | exact (mo_cached_pc _ Hm) | exact (mo_last _ Hm)
        | exact (mo_skip _ Hm) | exact (mo_entries _ Hm) | exact (mo_tlb _ Hm)
        | solve [u32_value] | unfold upd_field; cbn -[u32 Z.land Z.lor is_u32]; u32_value].
Ltac mach_update :=
  apply keeps_modify; intros ? ?;
  repeat first [apply set_Count_ok | apply set_Cause_ok | apply set_Status_ok | apply set_EPC_ok];
  match goal with
  | Hm : mach_ok ?m |- mach_ok ?m => exact Hm
  | Hm : mach_ok ?m |- mach_ok _ => constructor; mach_field Hm
  | |- is_u32 _ => u32_value
  end.
Ltac keeps_mach := repeat first [solve [eauto 3 with keeps] | keep_step | progress mach_update].

Section Exceptions.
Context {Q : Type} `{EventQueue Q}.

Lemma keeps_update_count : keeps mach_ok (update_count : M (machine Q) unit).
Proof. 
  apply keeps_modify. intros m Hm. destruct (interpcore m).
  - pose proof (set_Count_ok (u32 (Count m + u32 (interp_addr m - last_addr m) / 2)) m Hm (u32_range _)) as Hc.
    constructor; mach_field Hc.
  - pose proof (set_Count_ok (u32 (Count m + u32 (PC_addr m - last_addr m) / 2)) m Hm (u32_range _)) as Hc.
    constructor; mach_field Hc.
Qed.

Lemma keeps_goto_vector a : is_u32 a -> keeps mach_ok (goto_vector a : M (machine Q) unit).
Proof. intros Ha. unfold goto_vector, jump_to_mapped. keeps_mach. Qed.

Lemma keeps_set_next v : keeps mach_ok (modify (set_next_interrupt v) : M (machine Q) unit).
Proof. apply keeps_modify. intros m []. by constructor. Qed.

Lemma keeps_BD : keeps mach_ok (set_BD : M (machine Q) unit) /\ keeps mach_ok (clear_BD : M (machine Q) unit).
Proof. split; unfold set_BD, clear_BD; mach_update. Qed.

Lemma keeps_leave resume :
  (forall m, mach_ok m -> is_u32 (resume m)) -> keeps mach_ok (leave_exception resume : M (machine Q) unit).
Proof.
  intros Hr. unfold leave_exception. pose proof keeps_set_next.
  assert (keeps mach_ok (modify (fun m => m <| skip_jump := resume m |>))) as Hs
    by (apply keeps_modify; intros m Hm; pose proof (Hr m Hm); constructor; mach_field Hm).
  keeps_mach.
Qed.

Lemma keeps_bad_address a :
  is_u32 a -> keeps mach_ok (modify (on_cop0 (fun c =>
    c <| core_BadVAddr := a |>
      <| core_Context := Z.lor (Z.land (core_Context c) 0xFF80000F) (Z.land (Z.shiftr a 9) 0x007FFFF0) |>
      <| core_EntryHi := Z.land a 0xFFFFE000 |>)) : M (machine Q) unit).
Proof.
  intros Ha. apply keeps_modify. intros m Hm. apply on_cop0_ok; [exact Hm|]. intros [].
  assert (is_u32 (Z.lor (Z.land (core_Context (m_cop0 m)) 0xFF80000F) (Z.land (Z.shiftr a 9) 0x007FFFF0))) by u32_value.
  assert (is_u32 (Z.land a 0xFFFFE000)) by u32_value. constructor; assumption.
Qed.

Lemma keeps_refill a w : is_u32 a -> keeps mach_ok (TLB_refill_exception a w : M (machine Q) unit).
Proof.
  intros Ha. unfold TLB_refill_exception. pose proof keeps_update_count. pose proof (keeps_bad_address a Ha).
  pose proof keeps_BD as [? ?].
  assert (forall b : bool, keeps mach_ok (goto_vector (if b then 0x80000180 else 0x80000000) : M (machine Q) unit)) as Hg
    by (intros []; apply keeps_goto_vector; by apply is_u32_small).
  assert (keeps mach_ok (goto_vector 0x80000180 : M (machine Q) unit)) by exact (Hg true).
  assert (keeps mach_ok (leave_exception (fun m => if c_true (interp_addr m) then interp_addr m else PC_addr m) : M (machine Q) unit))
    by (apply keeps_leave; intros; u32_value).
  keeps_mach.
Qed.

Lemma keeps_exception_general : keeps mach_ok (exception_general : M (machine Q) unit).
Proof.
  unfold exception_general. pose proof keeps_update_count. pose proof keeps_BD as [? ?].
  assert (keeps mach_ok (goto_vector 0x80000180 : M (machine Q) unit)) by (apply keeps_goto_vector; by apply is_u32_small).
  assert (keeps mach_ok (leave_exception (fun m => if interpcore m then interp_addr m else PC_addr m) : M (machine Q) unit))
    by (apply keeps_leave; intros; u32_value).
  keeps_mach.
Qed.

Lemma keeps_translate a w : is_u32 a -> keeps mach_ok (virtual_to_physical_address a w : M (machine Q) Z).
Proof. intros Ha. unfold virtual_to_physical_address. pose proof (keeps_refill a w Ha). keeps_mach. Qed.
#[local] Hint Resolve keeps_update_count keeps_exception_general keeps_translate keeps_set_next : keeps.

Lemma keeps_check_interrupt : keeps mach_ok (check_interrupt : M (machine Q) unit).
Proof. unfold check_interrupt, raise_ip2. keeps_mach. Qed.

Lemma keeps_jump_to a : is_u32 a -> keeps mach_ok (jump_to a : M (machine Q) unit).
Proof. intros Ha. unfold jump_to, jump_to_mapped. keeps_mach. Qed.

Lemma keeps_dispatch_event type : keeps mach_ok (dispatch_event type : M (machine Q) bool).
Proof. unfold dispatch_event, vi_frame. keeps_mach. Qed.

Lemma keeps_deliver type : keeps mach_ok (deliver type : M (machine Q) unit).
Proof. unfold deliver, raise_ip2. keeps_mach. Qed.
#[local] Hint Resolve keeps_dispatch_event keeps_deliver : keeps.

Lemma keeps_gen_interrupt : keeps mach_ok (gen_interrupt : M (machine Q) unit).
Proof.
  unfold gen_interrupt, dyna_stop, take_skip_jump.
  assert (forall m : machine Q, mach_ok m -> keeps mach_ok (jump_to (skip_jump m) : M (machine Q) unit))
    by (intros; apply keeps_jump_to, mo_skip; assumption).
  keeps_mach.
Qed.

Lemma keeps_interrupt_if_due : keeps mach_ok (interrupt_if_due : M (machine Q) unit).
Proof. unfold interrupt_if_due. pose proof keeps_gen_interrupt. keeps_mach. Qed.

Lemma translate_range a w :
  is_u32 a -> triple mach_ok (virtual_to_physical_address a w : M (machine Q) Z) (fun p m => mach_ok m /\ is_u32 p).
Proof.
  intros Ha m Hm. pose proof (keeps_translate a w Ha m Hm) as Hk. unfold virtual_to_physical_address in *.
  rewrite bind_get_l in *. destruct (if _ && _ then _ else _) as [base|].
  - split; [exact Hk|]. apply u32_range.
  - cbv zeta in *. destruct (c_true _).
    + split; [exact Hk|]. unfold page_address. u32_value.
    + unfold bind in *. destruct (TLB_refill_exception a w m) as [[? m']|]; [|exact Hk]. split; [exact Hk|]. by apply is_u32_small.
Qed.

(** ** The TLB instructions *)

Lemma keeps_tlb_write k : keeps mach_ok (tlb_write k : M (machine Q) unit).
Proof.
  intros m Hm. destruct (tlb_e m !! k) as [e|] eqn:Hk.
  2: { unfold tlb_write, read_tlb. by rewrite bind_assoc, bind_get_l, Hk. }
  rewrite (tlb_write_ok k e m Hk). cbv zeta. destruct Hm as [? ? ? ? ? Hl (He & Hr & Hw)].
  pose proof (new_entry_ok (m_cop0 m) e) as Hn. constructor; try assumption.
  - refine (eq_trans (length_insert _ _ _) _); assumption.
  - split; [exact (Forall_insert _ _ _ _ He Hn)|].
    split; [exact (lut_replace_sound _ _ _ _ _ _ Hk He Hn Hr)|exact (lut_replace_sound _ _ _ _ _ _ Hk He Hn Hw)].
Qed.
#[local] Hint Resolve keeps_tlb_write keeps_check_interrupt keeps_gen_interrupt : keeps.

Lemma tlb_search_range h es i k : tlb_search h i es = Some k -> i <= k < i + Z.of_nat (length es).
Proof.
  revert i. induction es as [|e es IH]; intros i E; [done|]. cbn [tlb_search length] in *.
  destruct (tlb_matches h e); [injection E as <-; lia|]. apply IH in E. lia.
Qed.

Lemma keeps_TLBP : keeps mach_ok (TLBP : M (machine Q) unit).
Proof.
  unfold TLBP, tlb_probe, step4. apply keeps_bind; [|intros _; mach_update].
  apply keeps_modify. intros m Hm. pose proof (mo_entries _ Hm) as Hl. apply on_cop0_ok; [exact Hm|]. intros [].
  assert (is_u32 (Z.lor (core_Index (m_cop0 m)) 0x80000000)) by u32_value. cbv zeta.
  destruct (tlb_search _ 0 (tlb_e m)) as [i|] eqn:Ei; [|constructor; assumption].
  apply tlb_search_range in Ei. assert (is_u32 i) by (unfold is_u32; lia). constructor; assumption.
Qed.

Lemma keeps_TLBR : keeps mach_ok (TLBR : M (machine Q) unit).
Proof.
  unfold TLBR, tlb_read, step4, read_tlb. apply keeps_bind; [|intros _; mach_update].
  apply keeps_get. intros m0 _. apply keeps_bind; [keeps_mach|]. intros e.
  apply keeps_modify. intros m Hm. apply on_cop0_ok; [exact Hm|]. intros []. 
  constructor; first [assumption | apply u32_range].
Qed.

Lemma keeps_TLBWI : keeps mach_ok (TLBWI : M (machine Q) unit).
Proof. unfold TLBWI, step4. keeps_mach. Qed.

Lemma keeps_TLBWR : keeps mach_ok (TLBWR : M (machine Q) unit).
Proof.
  unfold TLBWR, step4.
  assert (forall v, keeps mach_ok (modify (on_cop0 (fun c => c <| core_Random := u32 v |>)) : M (machine Q) unit)) as Hr.
  { intros v. apply keeps_modify. intros m Hm. apply on_cop0_ok; [exact Hm|]. intros [].
    pose proof (u32_range v). constructor; assumption. }
  cbv zeta. keeps_mach.
Qed.

Lemma keeps_ERET : keeps mach_ok (ERET : M (machine Q) unit).
Proof. unfold ERET. keeps_mach. Qed.

End Exceptions.

#[export] Hint Resolve keeps_update_count keeps_exception_general keeps_translate keeps_set_next keeps_check_interrupt
  keeps_gen_interrupt keeps_interrupt_if_due keeps_TLBP keeps_TLBR keeps_TLBWI keeps_TLBWR keeps_ERET : keeps.

(** ** Coprocessor 1 *)

Record cop1_ok (c : cop1) : Prop := {
  fo_FCR0 : is_s32 (FCR0 c);
  fo_FCR31 : is_s32 (FCR31 c);
  fo_length : length (reg_cop1_fgr_64 c) = 32%nat;
  fo_values : Forall is_s64 (reg_cop1_fgr_64 c);
  fo_simple : length (reg_cop1_simple c) = 32%nat /\ Forall (fun p => p < 64)%nat (reg_cop1_simple c);
  fo_double : length (reg_cop1_double c) = 32%nat /\ Forall (fun p => p < 32)%nat (reg_cop1_double c)
}.

Lemma seq_below (n k : nat) : (n <= k)%nat -> Forall (fun p => p < k)%nat (seq 0 n).
Proof. intros Hn. apply Forall_seq. lia. Qed.

Lemma full_registers_ok c : cop1_ok c -> cop1_ok (full_registers c).
Proof.
  intros []. constructor; try assumption; (split; [reflexivity|]).
  - apply Forall_map. unfold compose. apply Forall_seq. lia.
  - apply seq_below. lia.
Qed.

Lemma paired_registers_ok c : cop1_ok c -> cop1_ok (paired_registers c).
Proof.
  intros [? ? ? ? ? [Hl Hd]]. constructor; try assumption.
  - split; [reflexivity|]. apply seq_below. lia.
  - split; [refine (eq_trans (length_imap _ _) _); assumption|].
    apply Forall_lookup_2. intros i p E. change (imap (fun i p => if Nat.even i then Nat.div2 i else p) (reg_cop1_double c) !! i = Some p) in E.
    rewrite list_lookup_imap in E. destruct (reg_cop1_double c !! i) as [q|] eqn:Eq; [|done]. injection E as <-.
    pose proof (lookup_lt_Some _ _ _ Eq). pose proof (Forall_lookup_1 _ _ _ _ Hd Eq).
    destruct (Nat.even i); [|done]. rewrite Nat.div2_div. apply Nat.Div0.div_lt_upper_bound. lia.
Qed.

Lemma insert_fgr_ok p v c : cop1_ok c -> is_s64 v -> cop1_ok (c <| reg_cop1_fgr_64 := <[p := v]> (reg_cop1_fgr_64 c) |>).
Proof.
  intros [] Hv. constructor; try assumption; [refine (eq_trans (length_insert _ _ _) _); assumption|].
  exact (Forall_insert _ _ _ _ fo_values0 Hv).
Qed.

Lemma write_simple_ok r v c : cop1_ok c -> cop1_ok (write_simple r v c).
Proof. intros Hc. apply insert_fgr_ok; [exact Hc|apply s64_range]. Qed.
Lemma write_double_ok r v c : cop1_ok c -> cop1_ok (write_double r v c).
Proof. intros Hc. apply insert_fgr_ok; [exact Hc|apply s64_range]. Qed.

Lemma read_double_range r c : cop1_ok c -> (r < 32)%nat -> is_s64 (read_double r c).
Proof.
  intros [? ? Hl Hv ? [Hld Hd]] Hr. unfold read_double. rewrite <- Hld in Hr. apply lookup_lt_is_Some_2 in Hr as (p & E).
  rewrite (list_lookup_total_correct _ _ _ E). pose proof (Forall_lookup_1 _ _ _ _ Hd E) as Hp. cbn in Hp. rewrite <- Hl in Hp.
  apply lookup_lt_is_Some_2 in Hp as (v & E2). rewrite (list_lookup_total_correct _ _ _ E2).
  exact (Forall_lookup_1 _ _ _ _ Hv E2).
Qed.

(** ** The whole state *)

Definition bytes_ok (l : gmap Z Z) : Prop := map_Forall (fun _ => is_u8) l.

Definition cpu_ok (c : cpu) : Prop := regs_ok c /\ is_u32 (pc c).

Section Core.
Context {Q : Type} `{EventQueue Q}.
#[local] Abbreviation st := (core Q).
Implicit Types s : st.

Record core_ok (s : st) : Prop := {
  co_length : length (c_reg s) = 32%nat;
  co_values : Forall is_s64 (c_reg s);
  co_hi : is_s64 (c_hi s);
  co_lo : is_s64 (c_lo s);
  co_mach : mach_ok (c_mach s);
  co_cop1 : cop1_ok (c_cop1 s);
  co_op : is_u32 (vr_op s);
  co_rs : is_s64 (local_rs s);
  co_rt : is_s64 (local_rt s);
  co_rs32 : is_s32 (local_rs32 s);
  co_rdram : bytes_ok (rdram s);
  co_sp : bytes_ok (SP_MEM s);
  co_rom : bytes_ok (rom s)
}.

Lemma core_cpu_ok s : core_ok s -> cpu_ok (get_cpu s).
Proof. intros []. split; [by constructor|]. by apply mo_pc. Qed.

Lemma keeps_on_mach {A} (c : M (machine Q) A) : keeps mach_ok c -> keeps core_ok (on_mach c).
Proof.
  intros Hc s Hs. unfold on_mach. pose proof (Hc (c_mach s) (co_mach _ Hs)) as Hm.
  destruct (c (c_mach s)) as [[a m]|]; [|done]. destruct Hs. constructor; assumption.
Qed.

Lemma keeps_on_cpu {A} (c : M cpu A) : keeps cpu_ok c -> keeps core_ok (on_cpu c : M st A).
Proof.
  intros Hc s Hs. unfold on_cpu. pose proof (Hc (get_cpu s) (core_cpu_ok s Hs)) as Hm.
  destruct (c (get_cpu s)) as [[a d]|]; [|done]. destruct Hm as [[] Hpc], Hs as [? ? ? ? Hm]. constructor; try assumption.
  destruct Hm. constructor; assumption.
Qed.

Lemma keeps_cpu_now {A} (k : cpu -> M st A) :
  (forall c, cpu_ok c -> keeps core_ok (k c)) -> keeps core_ok (bind cpu_now k).
Proof. intros Hk s Hs. exact (Hk _ (core_cpu_ok s Hs) s Hs). Qed.

Lemma keeps_on_cop1 g : (forall c, cop1_ok c -> cop1_ok (g c)) -> keeps core_ok (on_cop1 g : M st unit).
Proof. intros Hg. apply keeps_modify. intros s []. constructor; try assumption. by apply Hg. Qed.

End Core.

(** ** Integer instructions *)

Lemma keeps_and {S A} (P R : S -> Prop) (m : M S A) :
  keeps P m -> keeps R m -> keeps (fun s => P s /\ R s) m.
Proof. intros HP HR s [H1 H2]. specialize (HP s H1). specialize (HR s H2). destruct (m s) as [[a s']|]; done. Qed.

Definition pc_ok (c : cpu) : Prop := is_u32 (pc c).

Lemma keeps_pc_next : keeps pc_ok next.
Proof. apply keeps_modify. intros c _. apply u32_range. Qed.

Definition op_keeps_pc (op : instr_fn) : Prop := forall f, fields_ok f -> keeps pc_ok (op f).

Ltac pc_step :=
  intros ? ?; try apply keeps_pc_next;
  match goal with |- keeps _ (?op _) => unfold op end;
  repeat first [apply keeps_pc_next | apply keeps_undef | apply keeps_ret | keep_step
    | apply keeps_modify; intros ? ?; repeat case_match; assumption ].

Lemma rows_keep_pc : Forall (row_all op_keeps_pc) special_rows /\ Forall (row_all op_keeps_pc) op_rows.
Proof.
  split; repeat (apply Forall_cons_2; [first [exact I | cbn [row_all]; pc_step]|]); apply Forall_nil_2.
Qed.

Lemma keeps_integer op m : pure_step op = Some m -> keeps cpu_ok m.
Proof.
  intros E. apply keeps_and; [apply (integer_step_in_range op); by right|].
  apply (integer_step_keeps pc_ok op m rows_keep_pc); [pc_step|pc_step|by right].
Qed.

Lemma keeps_cpu_next : keeps cpu_ok next.
Proof. apply keeps_and; [exact keeps_next|exact keeps_pc_next]. Qed.

Lemma keeps_cpu_NI f : keeps cpu_ok (NI f).
Proof. apply keeps_modify. intros c [[] ?]. split; [by constructor|done]. Qed.

(** A register gets a 64-bit value. *)
Lemma keeps_cpu_insert r (g : cpu -> Z) :
  (forall c, regs_ok c -> is_s64 (g c)) -> keeps cpu_ok (modify (fun c => c <| reg := <[r := g c]> (reg c) |>)).
Proof. intros Hg. apply keeps_modify. intros c [Hc Hp]. split; [|exact Hp]. apply insert_regs_ok; [exact Hc|by apply Hg]. Qed.

Lemma keeps_cpu_set_reg r v : is_s64 v -> keeps cpu_ok (set_reg r v).
Proof. intros Hv. by apply (keeps_cpu_insert r (fun _ => v)). Qed.

Lemma keeps_cpu_set32 r v : (r < 32)%nat -> keeps cpu_ok (set32 r v).
Proof.
  intros Hr. apply (keeps_cpu_insert r (fun c => Z.lor (Z.ldiff (reg c !!! r) 0xFFFFFFFF) (u32 v))). intros c Hc.
  apply is_s64_lor; [rewrite Z.ldiff_land; apply is_s64_land; [by apply reg_range|by apply is_s64_lnot]|].
  pose proof (u32_range v). unfold is_u32, is_s64 in *. lia.
Qed.

Lemma is_s64_s16 x : is_s64 (s16 x) /\ is_s64 (s8 x).
Proof. unfold s16, s8, is_s64. Z.div_mod_to_equations. lia. Qed.

Lemma keeps_sign_extensions r :
  keeps cpu_ok (sign_extended r) /\ keeps cpu_ok (sign_extendedb r) /\ keeps cpu_ok (sign_extendedh r).
Proof.
  split_and!; [apply (keeps_cpu_insert r (fun c => s32 (reg c !!! r)))|apply (keeps_cpu_insert r (fun c => s8 (reg c !!! r)))
    |apply (keeps_cpu_insert r (fun c => s16 (reg c !!! r)))]; intros c _; [apply is_s64_of_s32|apply is_s64_s16|apply is_s64_s16].
Qed.
Definition keeps_sign_extended r := proj1 (keeps_sign_extensions r).
Definition keeps_sign_extendedb r := proj1 (proj2 (keeps_sign_extensions r)).
Definition keeps_sign_extendedh r := proj2 (proj2 (keeps_sign_extensions r)).

#[export] Hint Resolve keeps_on_mach keeps_on_cpu keeps_cpu_next keeps_cpu_NI keeps_cpu_set32 keeps_sign_extended
  keeps_sign_extendedb keeps_sign_extendedh keeps_cpu_set_reg s64_range : keeps.

(** ** Memory *)

Lemma store_bytes_ok off l m : Forall is_u8 l -> bytes_ok m -> bytes_ok (store_bytes off l m).
Proof.
  intros Hl. revert off m. induction Hl as [|b l Hb Hl IH]; intros off m Hm; [done|]. cbn [store_bytes]. apply IH.
  by apply map_Forall_insert_2.
Qed.

Lemma load_bytes_ok n off m : bytes_ok m -> Forall is_u8 (load_bytes n off m).
Proof.
  intros Hm. revert off. induction n as [|n IH]; intros off; [constructor|]. cbn [load_bytes]. constructor; [|apply IH].
  unfold byte_at. destruct (m !! off) as [b|] eqn:E; [exact (map_Forall_lookup_1 _ _ _ _ Hm E)|]. done.
Qed.

Lemma length_load_bytes n off m : length (load_bytes n off m) = n.
Proof. revert off. induction n as [|n IH]; intros off; [done|]. cbn. by rewrite IH. Qed.

Lemma load_word_range off m : bytes_ok m -> is_u32 (le_combine (load_bytes 4 off m)).
Proof.
  intros Hm. pose proof (le_combine_bound _ (load_bytes_ok 4 off m Hm)) as Hr. rewrite length_load_bytes in Hr. exact Hr.
Qed.

(** Devices and the floating-point unit keep the widths. *)
Class TypedDevices (Q : Type) `{EventQueue Q, !Devices Q} : Prop := {
  typed_read h sz a : is_u32 a -> keeps core_ok (dev_read h sz a);
  typed_write h sz a v : is_u32 a -> keeps core_ok (dev_write h sz a v);
}.
Class TypedFpu (Q : Type) `{EventQueue Q, !Fpu Q} : Prop := { typed_fpu op : keeps core_ok (fpu_op op) }.

Section Memory.
Context {Q : Type} `{EventQueue Q, !Devices Q, !TypedDevices Q}.
#[local] Abbreviation st := (core Q).
Implicit Types s : st.

Lemma keeps_load_from arr len n off : keeps core_ok (load_from arr len n off : M st Z).
Proof. unfold load_from. keeps_auto. Qed.
#[local] Hint Resolve keeps_load_from : keeps.

Lemma keeps_store_rdram n off v : keeps core_ok (store_rdram n off v : M st unit).
Proof.
  unfold store_rdram. destruct (_ && _); [|apply keeps_undef]. apply keeps_modify. intros s [].
  constructor; try assumption. by apply store_bytes_ok; [apply le_split_bytes|].
Qed.
Lemma keeps_store_sp n off v : keeps core_ok (store_sp n off v : M st unit).
Proof.
  unfold store_sp. destruct (_ && _); [|apply keeps_undef]. apply keeps_modify. intros s [].
  constructor; try assumption. by apply store_bytes_ok; [apply le_split_bytes|].
Qed.
#[local] Hint Resolve keeps_store_rdram keeps_store_sp : keeps.

Lemma keeps_load_swapped load sz off :
  (forall n o, keeps core_ok (load n o)) -> keeps core_ok (load_swapped load sz off : M st Z).
Proof. intros Hl. unfold load_swapped. keeps_auto. Qed.
Lemma keeps_store_swapped store sz off v :
  (forall n o w, keeps core_ok (store n o w)) -> keeps core_ok (store_swapped store sz off v : M st unit).
Proof. intros Hl. unfold store_swapped. keeps_auto. Qed.
#[local] Hint Resolve keeps_load_swapped keeps_store_swapped : keeps.

(** A computation that keeps the invariant and whose result satisfies [R]. *)
Lemma yield_bind {S A B} (P : S -> Prop) (R : A -> Prop) (m : M S A) (k : A -> M S B) T :
  triple P m (fun a t => P t /\ R a) -> (forall a, R a -> triple P (k a) T) -> triple P (bind m k) T.
Proof. intros Hm Hk. eapply triple_bind; [exact Hm|]. intros a s [Hs Ha]. exact (Hk a Ha s Hs). Qed.

Lemma yield_ret {S A} (P : S -> Prop) (R : A -> Prop) (a : A) : R a -> triple P (ret a : M S A) (fun a t => P t /\ R a).
Proof. intros Ha. by apply triple_ret. Qed.

Lemma translate_typed a w :
  is_u32 a -> triple core_ok (on_mach (virtual_to_physical_address a w) : M st Z) (fun p s => core_ok s /\ is_u32 p).
Proof.
  intros Ha s Hs. unfold on_mach. pose proof (translate_range a w Ha (c_mach s) (co_mach _ Hs)) as Hm.
  destruct (virtual_to_physical_address a w (c_mach s)) as [[p m]|]; [|done]. destruct Hm as [Hm Hp]. split; [|exact Hp].
  destruct Hs. constructor; assumption.
Qed.

Definition typed_result (r : Z * option Z) (s : st) : Prop := core_ok s /\ is_u32 r.1.

Lemma typed_value {A} (m : M st A) a (g : A -> option Z) :
  is_u32 a -> keeps core_ok m -> triple core_ok (v <-- m ;;; ret (a, g v)) typed_result.
Proof. intros Ha Hm. eapply triple_bind; [exact Hm|]. intros v. by apply (yield_ret core_ok (fun r => is_u32 r.1)). Qed.

Lemma read_dispatch_typed again sz a :
  (forall sz b, is_u32 b -> triple core_ok (again sz b) typed_result) ->
  is_u32 a -> triple core_ok (read_dispatch again sz a) typed_result.
Proof.
  intros IH Ha.
  assert (triple core_ok (p <-- on_mach (virtual_to_physical_address a 0) ;;; if p =? 0 then ret (0, None) else again sz p : M st (Z * option Z))
    typed_result) as Hn.
  { eapply yield_bind; [by apply translate_typed|]. intros p Hp. destruct (p =? 0); [|by apply IH].
    apply (yield_ret core_ok (fun r => is_u32 r.1)). by apply is_u32_small. }
  unfold read_dispatch. intros s Hs. rewrite bind_get_l. cbv zeta. destruct (0xFFFF <=? page_of a); [done|].
  revert s Hs. assert (forall h s, core_ok s -> match (v <-- dev_read h sz a ;;; ret (a, v) : M st _) s with
    Ret (r, s') => typed_result r s' | Undef _ => True end) as Hd
    by (intros h; apply (typed_value _ a id Ha), typed_read, Ha).
  intros s Hs. destruct (read_handler s a); try exact (Hd _ s Hs).
  - exact (Hn s Hs).
  - split; [exact Hs|exact Ha].
  - apply (typed_value _ a Some Ha); [|exact Hs]. unfold read_rdram. eauto with keeps.
  - destruct (_ <? 0x2000); [|exact (Hn s Hs)]. apply (typed_value _ a Some Ha); [|exact Hs]. unfold read_sp. keeps_auto.
Qed.

Lemma read_mem_typed n sz a : is_u32 a -> triple core_ok (read_mem n sz a) typed_result.
Proof.
  revert sz a. induction n as [|n IH]; intros sz a Ha; [done|]. exact (read_dispatch_typed (read_mem n) sz a IH Ha).
Qed.

Lemma write_dispatch_typed again sz a v :
  (forall sz b v, is_u32 b -> keeps core_ok (again sz b v)) ->
  is_u32 a -> keeps core_ok (write_dispatch again sz a v : M st unit).
Proof.
  intros IH Ha.
  assert (forall w (k : Z -> M st unit), (forall p, is_u32 p -> keeps core_ok (k p)) ->
    keeps core_ok (p <-- on_mach (virtual_to_physical_address a w) ;;; if p =? 0 then ret tt else k p)) as Hn.
  { intros w k Hk. eapply yield_bind; [by apply translate_typed|]. intros p Hp. destruct (p =? 0); [apply keeps_ret|by apply Hk]. }
  pose proof (Hn 1 (fun p => again sz p v)) as Hn1. pose proof (Hn 0 (fun _ => undef DanglingPointer)) as Hn0.
  specialize (Hn1 (fun p Hp => IH sz p v Hp)). specialize (Hn0 (fun _ _ => keeps_undef _ _)).
  assert (forall h, keeps core_ok (dev_write h sz a v)) as Hd by (intros; by apply typed_write).
  unfold write_dispatch, write_rdram, write_sp. keeps_auto.
Qed.

Lemma write_mem_typed n sz a v : is_u32 a -> keeps core_ok (write_mem n sz a v : M st unit).
Proof.
  revert sz a v. induction n as [|n IH]; intros sz a v Ha; [apply keeps_undef|]. by apply (write_dispatch_typed (write_mem n)).
Qed.

Lemma typed_bus_read sz a : is_u32 a -> triple core_ok (bus_read sz a) typed_result.
Proof. apply read_mem_typed. Qed.
Lemma typed_bus_write sz a v : is_u32 a -> keeps core_ok (bus_write sz a v : M st unit).
Proof.
  intros Ha. apply keeps_bind; [|intros _; by apply write_mem_typed].
  destruct sz; try apply keeps_ret. apply keeps_modify. intros s []. constructor; assumption.
Qed.

End Memory.

(** ** Loads and stores *)

Section Instructions.
Context {Q : Type} `{EventQueue Q, !Devices Q, !TypedDevices Q}.
#[local] Abbreviation st := (core Q).
Implicit Types s : st.

Lemma read_then {A} sz a (k : Z * option Z -> M st A) :
  is_u32 a -> (forall r, is_u32 r.1 -> keeps core_ok (k r)) -> keeps core_ok (bind (bus_read sz a) k).
Proof. intros Ha Hk. exact (yield_bind core_ok (fun r => is_u32 r.1) _ _ _ (typed_bus_read sz a Ha) Hk). Qed.

Lemma keeps_load_reg r sz a : is_u32 a -> keeps core_ok (load_reg r sz a : M st unit).
Proof. intros Ha. apply read_then; [exact Ha|]. intros r' _. keeps_auto. Qed.

Lemma keeps_load_word {A} sz a (k : Z * Z -> M st A) :
  is_u32 a -> (forall r, is_u32 r.1 -> keeps core_ok (k r)) -> keeps core_ok (bind (load_word sz a) k).
Proof.
  intros Ha Hk. unfold load_word. intros s Hs. rewrite bind_assoc. revert s Hs. apply read_then; [exact Ha|].
  intros r Hr s Hs. exact (Hk (r.1, default 0 r.2) Hr s Hs).
Qed.

Lemma keeps_with_address f k : (forall a, is_u32 a -> keeps core_ok (k a)) -> keeps core_ok (with_address f k : M st unit).
Proof.
  intros Hk. apply keeps_cpu_now. intros c _. apply keeps_bind; [auto with keeps|]. intros _. apply Hk, u32_range.
Qed.

Lemma keeps_merge_reg f sz a keep part : is_u32 a -> keeps core_ok (merge_reg f sz a keep part : M st unit).
Proof.
  intros Ha. apply keeps_load_word; [exact Ha|]. intros r _. cbv zeta. apply keeps_on_cpu.
  apply (keeps_cpu_insert (rt f) (fun c => s64 (Z.lor (Z.land (irt f c) keep) (part r.2)))). intros; apply s64_range.
Qed.

Lemma keeps_merge_mem f sz a part keep : is_u32 a -> keeps core_ok (merge_mem f sz a part keep : M st unit).
Proof.
  intros Ha. apply keeps_load_word; [exact Ha|]. intros [a' old] Ha'. apply keeps_cpu_now. intros c _. by apply typed_bus_write.
Qed.

Lemma keeps_write_reg sz a (v : cpu -> Z) : is_u32 a -> keeps core_ok (c <-- cpu_now ;;; bus_write sz a (v c) : M st unit).
Proof. intros Ha. apply keeps_cpu_now. intros c _. by apply typed_bus_write. Qed.

Lemma word_at_range a : is_u32 (word_at a) /\ is_u32 (dword_at a).
Proof. split; unfold word_at, dword_at; u32_value. Qed.

Lemma keeps_llbit v : keeps core_ok (modify (put_llbit v) : M st unit).
Proof. apply keeps_modify. intros s [? ? ? ? []]. constructor; try assumption. constructor; assumption. Qed.

End Instructions.

#[export] Hint Resolve keeps_load_reg keeps_merge_reg keeps_merge_mem keeps_write_reg typed_bus_write keeps_llbit : keeps.
#[export] Hint Extern 2 (is_u32 _) => assumption || apply word_at_range : keeps.
#[export] Hint Extern 2 (is_s64 _) => apply s64_range || done : keeps.

Section MemoryInstructions.
Context {Q : Type} `{EventQueue Q, !Devices Q, !TypedDevices Q}.
#[local] Abbreviation st := (core Q).

Lemma keeps_loads f :
  keeps core_ok (LB f : M st unit) /\ keeps core_ok (LH f : M st unit) /\ keeps core_ok (LW f : M st unit) /\
  keeps core_ok (LBU f : M st unit) /\ keeps core_ok (LHU f : M st unit) /\ keeps core_ok (LWU f : M st unit) /\
  keeps core_ok (LD f : M st unit) /\ keeps core_ok (LL f : M st unit).
Proof. split_and!; apply keeps_with_address; intros a Ha; keeps_auto. Qed.

Lemma keeps_unaligned_loads f :
  keeps core_ok (LWL f : M st unit) /\ keeps core_ok (LWR f : M st unit) /\
  keeps core_ok (LDL f : M st unit) /\ keeps core_ok (LDR f : M st unit).
Proof. split_and!; apply keeps_with_address; intros a Ha; keeps_auto. Qed.

Lemma keeps_stores f :
  keeps core_ok (SB f : M st unit) /\ keeps core_ok (SH f : M st unit) /\ keeps core_ok (SW f : M st unit) /\
  keeps core_ok (SD f : M st unit) /\ keeps core_ok (SC f : M st unit).
Proof. split_and!; apply keeps_with_address; intros a Ha; keeps_auto. Qed.

Lemma keeps_unaligned_stores f :
  keeps core_ok (SWL f : M st unit) /\ keeps core_ok (SWR f : M st unit) /\
  keeps core_ok (SDL f : M st unit) /\ keeps core_ok (SDR f : M st unit).
Proof. split_and!; apply keeps_with_address; intros a Ha; keeps_auto. Qed.

End MemoryInstructions.

(** ** Coprocessors *)

Section Coprocessors.
Context {Q : Type} `{EventQueue Q, !Devices Q, !TypedDevices Q}.
#[local] Abbreviation st := (core Q).
Implicit Types s : st.

Lemma keeps_stop_emu : keeps core_ok (stop_emu : M st unit).
Proof. apply keeps_on_mach, keeps_modify. intros m []. constructor; assumption. Qed.

Lemma keeps_on_c0 g : (forall c, cop0_ok c -> cop0_ok (g c)) -> keeps core_ok (on_c0 g : M st unit).
Proof. intros Hg. apply keeps_on_mach, keeps_modify. intros m Hm. apply on_cop0_ok; [exact Hm|apply Hg]. Qed.

Lemma keeps_MFC0 f : fields_ok f -> keeps core_ok (MFC0 f : M st unit).
Proof.
  intros []. unfold MFC0. pose proof keeps_stop_emu. cbv zeta.
  apply keeps_bind; [by apply keeps_when|]. intros _. apply keeps_get. intros s Hs. apply keeps_on_cpu. keeps_auto.
Qed.

Lemma keeps_write_Count v : keeps mach_ok (write_Count v : M (machine Q) unit).
Proof.
  unfold write_Count. assert (is_u32 (Z.land v 0xFFFFFFFF)) by u32_value. keeps_mach.
Qed.

Lemma keeps_write_Compare v : keeps mach_ok (write_Compare v : M (machine Q) unit).
Proof.
  unfold write_Compare.
  assert (keeps mach_ok (modify (on_cop0 (fun c => c <| core_Compare := u32 v |>)) : M (machine Q) unit)) as Hc.
  { apply keeps_modify. intros m Hm. apply on_cop0_ok; [exact Hm|]. intros []. pose proof (u32_range v). constructor; assumption. }
  keeps_mach.
Qed.

Lemma keeps_write_Status v : keeps core_ok (write_Status v : M st unit).
Proof.
  unfold write_Status. apply keeps_get. intros s Hs. apply keeps_bind.
  - apply keeps_when. destruct (has_bits v _); apply keeps_on_cop1; [apply full_registers_ok|apply paired_registers_ok].
  - intros _. apply keeps_on_mach. keeps_mach.
Qed.

Ltac c0_field :=
  apply keeps_on_c0; intros ? [];
  constructor; first [assumption | unfold upd_field; cbn -[u32 Z.land Z.lor is_u32]; u32_value].

Lemma keeps_MTC0 f : fields_ok f -> keeps core_ok (MTC0 f : M st unit).
Proof.
  intros _. pose proof keeps_stop_emu. pose proof keeps_write_Count. pose proof keeps_write_Compare. pose proof keeps_write_Status.
  unfold MTC0. apply keeps_get. intros s Hs. cbv zeta. generalize (rrt f (get_cpu s)). intros v.
  apply keeps_bind; [|intros _; auto with keeps].
  repeat case_match; try first [apply keeps_ret | by apply keeps_stop_emu | by apply keeps_on_mach | by auto].
  all: try c0_field.
  all: try (apply keeps_bind; [c0_field|intros _; apply keeps_get; intros ? _; by apply keeps_when]).
Qed.

Lemma keeps_SYSCALL : keeps core_ok (SYSCALL : M st unit).
Proof. apply keeps_on_mach. keeps_mach. Qed.

Lemma keeps_usable (k : M st unit) : keeps core_ok k -> keeps core_ok (usable k).
Proof.
  intros Hk. unfold usable, check_cop1_unusable. apply keeps_bind; [apply keeps_on_mach; keeps_mach|]. intros []; auto with keeps.
Qed.

Lemma is_s64_fcr c : cop1_ok c -> is_s32 (FCR31 c) /\ is_s32 (FCR0 c).
Proof. by intros []. Qed.

Lemma keeps_cop1_moves f : fields_ok f ->
  keeps core_ok (MFC1 f : M st unit) /\ keeps core_ok (DMFC1 f : M st unit) /\ keeps core_ok (CFC1 f : M st unit) /\
  keeps core_ok (MTC1 f : M st unit) /\ keeps core_ok (DMTC1 f : M st unit) /\ keeps core_ok (CTC1 f : M st unit).
Proof.
  intros [? ? Hrd ? ?]. split_and!.
  - apply keeps_get. intros s _. apply keeps_on_cpu. keeps_auto.
  - apply keeps_get. intros s Hs. apply keeps_on_cpu, keeps_bind; [|intros; apply keeps_cpu_next].
    apply keeps_cpu_set_reg, read_double_range; [apply co_cop1, Hs|assumption].
  - unfold CFC1. apply keeps_get. intros s _.
    assert (forall v, keeps cpu_ok (set32 (rt f) v ;;; sign_extended (rt f))) by (intros; keeps_auto). keeps_auto.
  - apply keeps_cpu_now. intros c _. apply keeps_bind; [apply keeps_on_cop1; intros ? ?; by apply write_simple_ok|auto with keeps].
  - apply keeps_cpu_now. intros c _. apply keeps_bind; [apply keeps_on_cop1; intros ? ?; by apply write_double_ok|auto with keeps].
  - apply keeps_cpu_now. intros c _. apply keeps_bind; [|intros _; apply keeps_bind; [|auto with keeps]].
    + apply keeps_when, keeps_on_cop1. intros d []. constructor; try assumption. apply s32_range.
    + apply keeps_on_cop1. intros d []. constructor; assumption.
Qed.

Lemma keeps_with_lf f k : (forall a, is_u32 a -> keeps core_ok (k a)) -> keeps core_ok (with_lf_address f k : M st unit).
Proof.
  intros Hk. apply keeps_usable, keeps_bind; [auto with keeps|]. intros _. apply keeps_cpu_now. intros c _. apply Hk, u32_range.
Qed.

Lemma keeps_cop1_memory f :
  keeps core_ok (LWC1 f : M st unit) /\ keeps core_ok (LDC1 f : M st unit) /\
  keeps core_ok (SWC1 f : M st unit) /\ keeps core_ok (SDC1 f : M st unit).
Proof.
  split_and!; apply keeps_with_lf; intros a Ha.
  - apply read_then; [exact Ha|]. intros [? [v|]] _; [|apply keeps_undef]. apply keeps_on_cop1. intros ? ?. by apply write_simple_ok.
  - apply read_then; [exact Ha|]. intros [? [v|]] _; [|apply keeps_ret]. apply keeps_on_cop1. intros ? ?. by apply write_double_ok.
  - apply keeps_get. intros s _. auto with keeps.
  - apply keeps_get. intros s _. auto with keeps.
Qed.

End Coprocessors.

#[export] Hint Resolve keeps_stop_emu keeps_SYSCALL keeps_usable keeps_MFC0 keeps_MTC0 : keeps.

(** ** Fetching and branches *)

Section Control.
Context {Q : Type} `{EventQueue Q, !Devices Q, !TypedDevices Q, !Fpu Q, !TypedFpu Q}.
#[local] Abbreviation st := (core Q).
Implicit Types s : st.

Lemma keeps_set_pc g : keeps core_ok (set_pc g : M st unit).
Proof. apply keeps_on_mach. keeps_mach. Qed.
#[local] Hint Resolve keeps_set_pc : keeps.

Lemma keeps_fetch arr len off :
  (forall s, core_ok s -> bytes_ok (arr s)) -> keeps core_ok (fetch (load_from arr len 4 off) : M st unit).
Proof.
  intros Ha s Hs. unfold fetch, load_from. rewrite bind_assoc, bind_get_l. destruct (_ && _); [|done].
  pose proof (load_word_range off (arr s) (Ha s Hs)) as Hr. rewrite bind_ret_l. destruct Hs. constructor; assumption.
Qed.

Lemma keeps_prefetch n : keeps core_ok (prefetch n : M st unit).
Proof.
  induction n as [|n IH]; [apply keeps_undef|]. cbn [prefetch]. apply keeps_get. intros s Hs. cbv zeta.
  destruct (_ && _).
  - repeat (destruct (_ : bool); [apply keeps_fetch; by intros ? []|]). apply keeps_stop_emu.
  - apply keeps_bind; [apply keeps_on_mach, keeps_translate, mo_pc, co_mach, Hs|]. intros p. keeps_auto.
Qed.

Lemma keeps_flag g : (forall m, mach_ok m -> mach_ok (g m)) -> keeps core_ok (on_mach (modify g) : M st unit).
Proof. intros Hg. apply keeps_on_mach, keeps_modify, Hg. Qed.

Lemma keeps_probe_nop a : keeps core_ok (probe_nop a : M st bool).
Proof.
  unfold probe_nop. assert (forall arr len off, keeps core_ok (load_from arr len 4 off : M st Z)) by (intros; apply keeps_load_from).
  cbv zeta. keeps_auto.
Qed.

Lemma keeps_skip_idle idle (k : M st unit) : keeps core_ok k -> keeps core_ok (skip_idle idle k).
Proof.
  intros Hk. unfold skip_idle. pose proof keeps_probe_nop. cbv zeta.
  assert (forall v, keeps core_ok (on_mach (modify (fun m => set_Count (u32 (Count m + v)) m)) : M st unit)) as Hc
    by (intros v; apply keeps_flag; intros; by apply set_Count_ok, u32_range).
  keeps_auto.
Qed.

Lemma keeps_delay (slot : M st unit) : keeps core_ok slot -> keeps core_ok (delay slot).
Proof.
  intros Hs. unfold delay.
  assert (forall v, keeps core_ok (on_mach (modify (fun m => m <| delay_slot := v |>)) : M st unit)) as Hd
    by (intros v; apply keeps_flag; intros m []; constructor; assumption).
  keeps_auto.
Qed.

Lemma keeps_finish : keeps core_ok (finish : M st unit).
Proof. apply keeps_on_mach. keeps_mach. Qed.
#[local] Hint Resolve keeps_skip_idle keeps_delay keeps_finish : keeps.

Lemma keeps_branch slot f idle taken : keeps core_ok slot -> keeps core_ok (branch slot f idle taken : M st unit).
Proof. intros Hs. unfold branch, jump_rel. apply keeps_get. intros s _. apply keeps_skip_idle. keeps_auto. Qed.

Lemma keeps_branch_likely slot f taken counts : keeps core_ok slot -> keeps core_ok (branch_likely slot f taken counts : M st unit).
Proof. intros Hs. unfold branch_likely, jump_rel. apply keeps_get. intros s _. apply keeps_skip_idle. keeps_auto. Qed.

Lemma keeps_link f (k : M st unit) : keeps core_ok k -> keeps core_ok (link f k).
Proof.
  intros Hk. unfold link. apply keeps_get. intros s _. apply keeps_bind; [|intros _; keeps_auto].
  apply keeps_on_cpu, keeps_cpu_set_reg. pose proof (u32_range (pc_of s + 8)). unfold is_u32, is_s64 in *. lia.
Qed.

Lemma keeps_save_rs f : fields_ok f -> keeps core_ok (save_rs f : M st unit).
Proof.
  intros Hf. apply keeps_modify. intros s Hs. pose proof (core_cpu_ok s Hs) as [Hr _].
  destruct (operands_range f _ Hr Hf) as (_ & _ & Hi). destruct Hs. constructor; assumption.
Qed.
Lemma keeps_save_rt f : fields_ok f -> keeps core_ok (save_rt f : M st unit).
Proof.
  intros Hf. apply keeps_modify. intros s Hs. pose proof (core_cpu_ok s Hs) as [Hr _].
  assert (is_s64 (irt f (get_cpu s))) by (apply reg_range; [exact Hr|by destruct Hf]). destruct Hs. constructor; assumption.
Qed.
Lemma keeps_save_rs32 (g : cpu -> Z) : (forall c, is_s32 (g c)) -> keeps core_ok (modify (fun s => s <| local_rs32 := g (get_cpu s) |>)).
Proof. intros Hg. apply keeps_modify. intros s []. constructor; try assumption. apply Hg. Qed.
#[local] Hint Resolve keeps_branch keeps_branch_likely keeps_link keeps_save_rs keeps_save_rt : keeps.

Lemma keeps_jump_and_link slot dest target :
  keeps core_ok slot -> keeps core_ok (jump_and_link slot dest target : M st unit).
Proof.
  intros Hs. unfold jump_and_link. apply keeps_bind; [auto with keeps|]. intros _. apply keeps_get. intros s Hs'.
  assert (keeps cpu_ok (set_reg dest (pc_of s) ;;; sign_extended dest)) as Hd.
  { apply keeps_bind; [|intros; apply keeps_sign_extended]. apply keeps_cpu_set_reg.
    pose proof (mo_pc _ (co_mach _ Hs')). unfold pc_of, is_u32, is_s64 in *. lia. }
  keeps_auto.
Qed.
#[local] Hint Resolve keeps_jump_and_link : keeps.

Lemma keeps_jumps slot f : fields_ok f -> keeps core_ok slot -> keeps core_ok (JR slot f : M st unit) /\ keeps core_ok (JALR slot f : M st unit).
Proof.
  intros _ Hs. unfold JR, JALR. split.
  - apply keeps_bind; [apply keeps_save_rs32; intros; apply s32_range|]. intros _. keeps_auto.
  - apply keeps_bind; [apply keeps_save_rs32; intros; apply s32_range|]. intros _. keeps_auto.
Qed.

Lemma keeps_target_jumps slot op : keeps core_ok slot -> keeps core_ok (J slot op : M st unit) /\ keeps core_ok (JAL slot op : M st unit).
Proof.
  intros Hs. unfold J, JAL. split; apply keeps_get; intros s _; cbv zeta; apply keeps_skip_idle; keeps_auto.
Qed.

(** ** Dispatch and the main loop *)

Lemma keeps_regimm slot op : keeps core_ok slot -> keeps core_ok (interp_regimm slot op : M st unit).
Proof.
  intros Hs. pose proof (i_type_ok op : fields_ok (i_type op)) as Hf. unfold interp_regimm, BLTZ, BGEZ, BLTZL, BGEZL, BLTZAL, BGEZAL, BLTZALL, BGEZALL.
  cbv zeta. repeat case_match; keeps_auto.
Qed.

Lemma keeps_cop0_ops op : keeps core_ok (interp_cop0 op : M st unit).
Proof.
  pose proof (r_type_ok op : fields_ok (r_type op)) as Hf. unfold interp_cop0, interp_tlb. repeat case_match; auto with keeps.
Qed.

Lemma keeps_cop1_ops slot op : keeps core_ok slot -> keeps core_ok (interp_cop1 slot op : M st unit).
Proof.
  intros Hs. pose proof (r_type_ok op : fields_ok (r_type op)) as Hf. pose proof (keeps_cop1_moves (Q := Q) _ Hf). destruct_and!.
  pose proof (typed_fpu op). unfold interp_cop1, interp_cop1_bc, BC1F, BC1T, BC1FL, BC1TL. cbv zeta.
  repeat case_match; first [assumption | auto with keeps].
Qed.

Lemma keeps_special slot op : keeps core_ok slot -> keeps core_ok (control_special slot op : M st unit).
Proof.
  intros Hs. pose proof (keeps_jumps slot (i_type op) (i_type_ok op) Hs). pose proof (keeps_jumps slot (r_type op) (r_type_ok op) Hs).
  destruct_and!. unfold control_special. repeat case_match; first [assumption | auto with keeps].
Qed.

Lemma keeps_compare_branches slot f : fields_ok f -> keeps core_ok slot ->
  Forall (keeps core_ok) [BEQ slot f : M st unit; BNE slot f; BLEZ slot f; BGTZ slot f; BEQL slot f; BNEL slot f; BLEZL slot f; BGTZL slot f].
Proof.
  intros Hf Hs. unfold BEQ, BNE, BLEZ, BGTZ, BEQL, BNEL, BLEZL, BGTZL.
  repeat (apply Forall_cons_2; [keeps_auto|]). apply Forall_nil_2.
Qed.

Lemma keeps_control slot op : keeps core_ok slot -> keeps core_ok (control_ops slot op : M st unit).
Proof.
  intros Hs. pose proof (i_type_ok op : fields_ok (i_type op)) as Hf.
  pose proof (keeps_special slot op Hs). pose proof (keeps_regimm slot op Hs). pose proof (keeps_target_jumps slot op Hs).
  pose proof (keeps_cop0_ops op). pose proof (keeps_usable _ (keeps_cop1_ops slot op Hs)).
  pose proof (keeps_compare_branches slot _ Hf Hs) as Hb. rewrite !Forall_cons in Hb.
  pose proof (keeps_loads (Q := Q) (i_type op)). pose proof (keeps_unaligned_loads (Q := Q) (i_type op)).
  pose proof (keeps_stores (Q := Q) (i_type op)). pose proof (keeps_unaligned_stores (Q := Q) (i_type op)).
  pose proof (keeps_cop1_memory (Q := Q) (i_type op)).
  assert (keeps core_ok (CACHE (i_type op) : M st unit)) by (unfold CACHE; auto with keeps).
  assert (keeps core_ok (on_cpu (NI (i_type op)) : M st unit)) by auto with keeps.
  destruct_and!. unfold control_ops. cbv zeta. repeat case_match; assumption.
Qed.

Lemma keeps_dispatch slot op : keeps core_ok slot -> keeps core_ok (dispatch slot op : M st unit).
Proof.
  intros Hs. unfold dispatch. destruct (pure_step op) as [m|] eqn:E; [|by apply keeps_control].
  by apply keeps_on_cpu, (keeps_integer op).
Qed.

Lemma keeps_exec n op : keeps core_ok (exec n op : M st unit).
Proof.
  revert op. induction n as [|n IH]; intros op; [apply keeps_undef|]. cbn [exec]. apply keeps_dispatch.
  pose proof (keeps_prefetch prefetch_depth). keeps_auto.
Qed.

Lemma keeps_step n : keeps core_ok (step n : M st unit).
Proof.
  unfold step. pose proof (keeps_prefetch prefetch_depth). pose proof keeps_exec.
  assert (keeps core_ok (modify (fun s => s <| g_vr_beq_ignore_jmp := false |>) : M st unit)) as Hm
    by (apply keeps_modify; intros s []; constructor; assumption).
  keeps_auto.
Qed.

Lemma keeps_rounds go (round : M st unit) n : keeps core_ok round -> keeps core_ok (run_rounds go round n).
Proof. intros Hr. induction n as [|n IH]; [apply keeps_ret|]. cbn [run_rounds]. keeps_auto. Qed.

Lemma keeps_pure_interpreter fuel n : keeps core_ok (pure_interpreter fuel n : M st unit).
Proof.
  unfold pure_interpreter, when_stopped, after_loop, sync_PC.
  apply keeps_bind; [|intros _; apply keeps_bind; [apply keeps_rounds, keeps_step|intros _]].
  - apply keeps_on_mach, keeps_modify. intros m []. constructor; try assumption; by apply is_u32_small.
  - apply keeps_get. intros s0 _. apply keeps_when, keeps_on_mach, keeps_modify. intros m []. constructor; assumption.
Qed.

End Control.

(** ** An example *)

(** Boot code that loads constants with LUI and ORI. *)
Definition boot_core : core irq :=
  reset_core <| SP_MEM := store_bytes 0x40 (le_split 4 0x3C04FFFF ++ le_split 4 0x3485ABCD) ∅ |>.

Lemma reset_mach_ok : mach_ok (c_mach reset_core).
Proof.
  constructor; [constructor; by apply is_u32_small|by apply is_u32_small..|reflexivity|exact (proj2 reset_core_ok)].
Qed.

Lemma boot_core_ok : core_ok boot_core.
Proof.
  constructor; [reflexivity|by apply Forall_replicate|done|done|exact reset_mach_ok| |by apply is_u32_small|done|done|done|..].
  - constructor; [done|done|reflexivity|by apply Forall_replicate|split; [reflexivity|apply seq_below; lia]..].
  - exact (map_Forall_empty _).
  - apply store_bytes_ok; [apply Forall_app; split; apply le_split_bytes|exact (map_Forall_empty _)].
  - exact (map_Forall_empty _).
Qed.
