(* ===== verification/DeviceWf.v ===== *)
(** * The devices keep the type invariant

    Every register handler, transfer and PIF command keeps [core_ok], so that
    [WfProps] holds of the interpreter with the devices of memory.cpp, as long as the
    plugins and the front end keep it. *)

From S2P Require Import Prelude Hoare Pool Controller Queue Machine Exception Alu AluProps Tlb TlbProps DeviceState Core Dma PifLut Pif SummerCart Bus BusProps LoadStore Cop Registers Interp InterpProps WfProps.

Open Scope prog_scope.
#[local] Open Scope Z_scope.

(** A host that keeps the widths: plugins that deliver values of their types, and no
    savestate work that loads a state while the PIF is read ([st_do_work]); loading one
    can leave translations no entry of the TLB supports, as [SaveFaults] shows. *)
Class TypedHost (Q : Type) `{EventQueue Q, !PifHost Q, !Plugins Q} : Prop := {
  th_poll k : keeps core_ok (controller_poll k);
  th_command k c : keeps core_ok (input_controller_command k c);
  th_read k c : keeps core_ok (input_read_controller k c);
  th_input k c : keeps core_ok (input_callback k c);
  th_idle : keeps core_ok vcr_idle;
  th_paused : keeps core_ok paused_now;
  th_wait : keeps core_ok wait_counter;
  th_pause : keeps core_ok pause_emu;
  th_resumed b : keeps core_ok (wait_until_resumed b);
  th_work : keeps core_ok st_do_work;
  th_rsp : keeps core_ok rsp_do_rsp_cycles;
  th_rdp : keeps core_ok video_process_rdp_list;
  th_skipped : keeps core_ok frame_skipped;
}.

#[export] Hint Resolve th_poll th_command th_read th_input th_idle th_paused th_wait th_pause th_resumed th_work th_rsp
  th_rdp th_skipped : keeps.

Section Devices.
Context {Q : Type} `{EventQueue Q, !PifHost Q, !Plugins Q, !TypedHost Q}.
#[local] Abbreviation st := (core Q).
Implicit Types s : st.

(** ** State updates *)

Lemma keeps_mod_dev g : keeps core_ok (mod_dev g : M st unit).
Proof. apply keeps_modify. intros s []. constructor; assumption. Qed.

Lemma keeps_dev : keeps core_ok (dev : M st devices).
Proof. apply keeps_get. intros s _. apply keeps_ret. Qed.

Lemma keeps_mod_mach g : (forall m, mach_ok m -> mach_ok (g m)) -> keeps core_ok (mod_mach g : M st unit).
Proof. intros Hg. apply keeps_on_mach, keeps_modify, Hg. Qed.

Lemma keeps_pi_now : keeps core_ok (pi_now : M st _).
Proof. unfold pi_now. keeps_auto. Qed.
Lemma keeps_sp_now : keeps core_ok (sp_now : M st _).
Proof. unfold sp_now. keeps_auto. Qed.
Lemma keeps_si_now : keeps core_ok (si_now : M st _).
Proof. unfold si_now. keeps_auto. Qed.
Lemma keeps_vi_now : keeps core_ok (vi_now : M st _).
Proof. unfold vi_now. keeps_auto. Qed.
Lemma keeps_ai_now : keeps core_ok (ai_now : M st _).
Proof. unfold ai_now. keeps_auto. Qed.
Lemma keeps_sc_now : keeps core_ok (sc_now : M st _).
Proof. unfold sc_now. pose proof keeps_dev. keeps_auto. Qed.

(** Updates of a device's registers leave the rest of the control state alone. *)
Ltac registers := apply keeps_mod_mach; intros ? []; constructor; assumption.

Lemma keeps_on_pi g : keeps core_ok (on_pi g : M st unit).
Proof. registers. Qed.
Lemma keeps_on_sp g : keeps core_ok (on_sp g : M st unit).
Proof. registers. Qed.
Lemma keeps_on_si g : keeps core_ok (on_si g : M st unit).
Proof. registers. Qed.
Lemma keeps_on_vi g : keeps core_ok (on_vi g : M st unit).
Proof. registers. Qed.
Lemma keeps_on_ai g : keeps core_ok (on_ai g : M st unit).
Proof. registers. Qed.
Lemma keeps_on_mi g : keeps core_ok (on_mi g : M st unit).
Proof. registers. Qed.
Lemma keeps_on_dpc g : keeps core_ok (on_dpc g : M st unit).
Proof. registers. Qed.
Lemma keeps_host h : keeps core_ok (mod_mach (host h) : M st unit).
Proof. registers. Qed.
Lemma keeps_set_intr b : keeps core_ok (set_intr b : M st unit).
Proof. registers. Qed.
Lemma keeps_stop_core : keeps core_ok (stop_core : M st unit).
Proof. registers. Qed.

Definition typed_array (a : @array Q) : Prop :=
  forall s off l, core_ok s -> Forall is_u8 l -> core_ok (arr_set a (store_bytes off l (arr_get a s)) s).

Lemma typed_arrays :
  typed_array rdram_array /\ typed_array sp_array /\ typed_array rom_array /\ typed_array sram_array /\
  typed_array flashram_array /\ typed_array sc_array.
Proof. split_and!; intros s off l [] Hl; constructor; try assumption; by apply store_bytes_ok. Qed.

Lemma keeps_get_byte a i : keeps core_ok (get_byte a i : M st Z).
Proof. unfold get_byte. keeps_auto. Qed.
Lemma keeps_put_byte a i v : typed_array a -> keeps core_ok (put_byte a i v : M st unit).
Proof.
  intros Ha. unfold put_byte. apply keeps_get. intros s0 _. destruct (in_array a i s0); [|apply keeps_undef].
  apply keeps_modify. intros s Hs. apply (Ha s i [u8 v] Hs). constructor; [apply u8_range|constructor].
Qed.
Lemma keeps_get_word a i : keeps core_ok (get_word a i : M st Z).
Proof. unfold get_word. keeps_auto. Qed.
Lemma keeps_put_word a i v : typed_array a -> keeps core_ok (put_word a i v : M st unit).
Proof.
  intros Ha. unfold put_word. apply keeps_get. intros s0 _. destruct (_ && _); [|apply keeps_undef].
  apply keeps_modify. intros s Hs. apply (Ha s i _ Hs), le_split_bytes.
Qed.

Lemma keeps_for_loop n i (body : Z -> M st unit) : (forall k, keeps core_ok (body k)) -> keeps core_ok (for_loop n i body).
Proof. intros Hb. revert i. induction n as [|n IH]; intros i; [apply keeps_ret|]. cbn [for_loop]. keeps_auto. Qed.

Lemma keeps_clamped n i dram cart limit (copy : Z -> Z -> M st unit) :
  (forall a b, keeps core_ok (copy a b)) -> keeps core_ok (clamped_copy n i dram cart limit copy).
Proof. intros Hb. revert i. induction n as [|n IH]; intros i; [apply keeps_ret|]. cbn [clamped_copy]. cbv zeta. keeps_auto. Qed.
End Devices.

#[export] Hint Resolve keeps_mod_dev keeps_dev keeps_get_byte keeps_put_byte keeps_get_word keeps_put_word
  keeps_for_loop keeps_clamped keeps_pi_now keeps_sp_now keeps_si_now keeps_vi_now keeps_ai_now keeps_sc_now
  keeps_on_pi keeps_on_sp keeps_on_si keeps_on_vi keeps_on_ai keeps_on_mi keeps_on_dpc keeps_host keeps_set_intr keeps_stop_core : keeps.
#[export] Hint Extern 1 (typed_array _) => apply typed_arrays : keeps.

(** Follow the code, looking into the small definitions. *)
Ltac keeps_dev := repeat first [
    lazymatch goal with |- keeps _ (match ?x with _ => _ end) => destruct x eqn:? end
  | lazymatch goal with |- keeps _ (ret _) => apply keeps_ret end
  | solve [eauto 4 with keeps] | keep_step | progress cbv zeta
  | match goal with |- keeps _ (mod_mach _) => apply keeps_mod_mach; intros ? []; constructor; assumption end
  | match goal with |- keeps _ (for_loop _ _ _) => apply keeps_for_loop; intros ? end
  | match goal with |- keeps _ (clamped_copy _ _ _ _ _ _) => apply keeps_clamped; intros ? ? end ].

Section Handlers.
Context {Q : Type} `{EventQueue Q, !PifHost Q, !Plugins Q, !TypedHost Q}.
#[local] Abbreviation st := (core Q).
Implicit Types s : st.

(** ** Transfers *)

Lemma keeps_add_event type delay : keeps core_ok (add_event type delay : M st unit).
Proof. apply keeps_on_mach. keeps_mach. Qed.
Lemma keeps_pi_done bits delay : keeps core_ok (pi_done bits delay : M st unit).
Proof. unfold pi_done. apply keeps_bind; [auto with keeps|]. intros _. apply keeps_on_mach. keeps_mach. Qed.
Lemma keeps_si_done : keeps core_ok (si_done : M st unit).
Proof. apply keeps_on_mach. keeps_mach. Qed.
Lemma keeps_check : keeps core_ok (check : M st unit).
Proof. apply keeps_on_mach. auto with keeps. Qed.
#[local] Hint Resolve keeps_add_event keeps_pi_done keeps_si_done keeps_check : keeps.

Lemma keeps_copy_bytes n dst d src o : typed_array dst -> keeps core_ok (copy_bytes n dst d src o : M st unit).
Proof. intros Ha. unfold copy_bytes, copy_byte. keeps_dev. Qed.
Lemma keeps_move_byte dst d src o : typed_array dst -> keeps core_ok (move_byte dst d src o : M st unit).
Proof. intros Ha. unfold move_byte. keeps_dev. Qed.
#[local] Hint Resolve keeps_copy_bytes keeps_move_byte : keeps.

Lemma keeps_mod_flash g : keeps core_ok (mod_flash g : M st unit).
Proof. apply keeps_mod_dev. Qed.
#[local] Hint Resolve keeps_mod_flash : keeps.

Lemma keeps_flashram_command c : keeps core_ok (flashram_command c : M st unit).
Proof.
  assert (keeps core_ok (flash_execute : M st unit)) as Hx by (unfold flash_execute, flash_update; keeps_dev).
  unfold flashram_command. repeat case_match; auto with keeps.
Qed.

Lemma keeps_dma_flash :
  keeps core_ok (dma_read_flashram : M st unit) /\ keeps core_ok (dma_write_flashram : M st unit).
Proof. split; [unfold dma_read_flashram|unfold dma_write_flashram]; keeps_dev. Qed.

Lemma keeps_notify h : keeps core_ok (on_mach (notify_code h) : M st unit).
Proof. apply keeps_on_mach, keeps_modify. intros m Hm. unfold notified. destruct (interpcore m); [done|]. destruct Hm; by constructor. Qed.
#[local] Hint Resolve keeps_notify : keeps.

Lemma keeps_dma_pi : keeps core_ok (dma_pi_read : M st unit) /\ keeps core_ok (dma_pi_write : M st unit).
Proof.
  destruct keeps_dma_flash. split.
  - unfold dma_pi_read, note_sram. keeps_dev.
  - unfold dma_pi_write, note_sram, rom_byte, boot_size. keeps_dev.
Qed.

Lemma keeps_dma_sp : keeps core_ok (dma_sp_read : M st unit) /\ keeps core_ok (dma_sp_write : M st unit).
Proof. split; [unfold dma_sp_read|unfold dma_sp_write]; keeps_dev. Qed.

(** ** PIF *)

Lemma keeps_pif k : keeps core_ok (pif k : M st Z).
Proof. unfold pif. keeps_auto. Qed.
Lemma keeps_set_pif k v : keeps core_ok (set_pif k v : M st unit).
Proof. unfold set_pif. keeps_dev. Qed.
#[local] Hint Resolve keeps_pif keeps_set_pif : keeps.
Lemma keeps_pif_bytes n k : keeps core_ok (pif_bytes n k : M st (list Z)).
Proof. revert k. induction n as [|n IH]; intros k; [apply keeps_ret|]. cbn [pif_bytes]. keeps_auto. Qed.
Lemma keeps_set_pif_bytes k l : keeps core_ok (set_pif_bytes k l : M st unit).
Proof. revert k. induction l as [|b l IH]; intros k; [apply keeps_ret|]. cbn [set_pif_bytes]. keeps_auto. Qed.
Lemma keeps_or_pif k b : keeps core_ok (or_pif k b : M st unit).
Proof. unfold or_pif. keeps_auto. Qed.
Lemma keeps_dev_control k : keeps core_ok (control k : M st _).
Proof. unfold control. keeps_auto. Qed.
#[local] Hint Resolve keeps_pif_bytes keeps_set_pif_bytes keeps_or_pif keeps_dev_control : keeps.

Lemma keeps_EepromCommand c : keeps core_ok (EepromCommand c : M st unit).
Proof. unfold EepromCommand, load_eeprom. keeps_dev. Qed.

Lemma keeps_put_crc c : keeps core_ok (put_crc c : M st unit).
Proof. unfold put_crc. keeps_auto. Qed.
Lemma keeps_pak_address c : keeps core_ok (pak_address c : M st Z).
Proof. unfold pak_address. keeps_auto. Qed.
#[local] Hint Resolve keeps_EepromCommand keeps_put_crc keeps_pak_address : keeps.

Lemma keeps_mempak k c : keeps core_ok (read_mempak k c : M st unit) /\ keeps core_ok (write_mempak k c : M st unit).
Proof. split; [unfold read_mempak, load_mempacks|unfold write_mempak, load_mempacks]; keeps_dev. Qed.

Lemma keeps_ControllerCommand k c : keeps core_ok (internal_ControllerCommand k c : M st unit).
Proof. destruct (keeps_mempak k c). unfold internal_ControllerCommand, raw_command. keeps_dev. Qed.

Lemma keeps_ReadController k c : keeps core_ok (internal_ReadController k c : M st unit).
Proof. unfold internal_ReadController. keeps_dev. Qed.
#[local] Hint Resolve keeps_ControllerCommand keeps_ReadController : keeps.

Lemma keeps_command_end i : keeps core_ok (command_end i : M st Z).
Proof. unfold command_end. keeps_auto. Qed.
#[local] Hint Resolve keeps_command_end : keeps.

Lemma keeps_write_loop n i channel : keeps core_ok (write_loop n i channel : M st unit).
Proof.
  revert i channel. induction n as [|n IH]; intros i channel; cbn [write_loop].
  - destruct (_ <=? i); auto with keeps.
  - unfold run_command. keeps_dev.
Qed.
#[local] Hint Resolve keeps_write_loop : keeps.

Lemma keeps_update_pif_write : keeps core_ok (update_pif_write : M st unit).
Proof. unfold update_pif_write, pif_special. keeps_dev. Qed.

Lemma keeps_read_controller channel i once ok : keeps core_ok (read_controller channel i once ok : M st _).
Proof. unfold read_controller, frame_pause. keeps_dev. Qed.
#[local] Hint Resolve keeps_read_controller : keeps.

Lemma keeps_read_loop n i channel once ok : keeps core_ok (read_loop n i channel once ok : M st bool).
Proof.
  revert i channel once ok. induction n as [|n IH]; intros i channel once ok; cbn [read_loop].
  - destruct (_ <=? i); auto with keeps.
  - keeps_dev.
Qed.
#[local] Hint Resolve keeps_update_pif_write keeps_read_loop : keeps.

Lemma keeps_dma_si : keeps core_ok (dma_si_read : M st unit) /\ keeps core_ok (dma_si_write : M st unit).
Proof. split; [unfold dma_si_read, update_pif_read|unfold dma_si_write]; keeps_dev. Qed.

#[local] Hint Resolve keeps_flashram_command keeps_update_pif_write : keeps.

(** ** SD card *)

Lemma keeps_mod_sc g : keeps core_ok (mod_sc g : M st unit).
Proof. apply keeps_mod_dev. Qed.
#[local] Hint Resolve keeps_mod_sc : keeps.

Lemma typed_target c arr addr : sd_target (Q := Q) c = Some (arr, addr) -> typed_array arr.
Proof. unfold sd_target. intros. repeat case_match; simplify_eq; apply typed_arrays. Qed.

Lemma keeps_sd : keeps core_ok (sd_read : M st unit) /\ keeps core_ok (sd_write : M st unit).
Proof.
  split; [unfold sd_read|unfold sd_write]; unfold sd_seek, sd_error, sc_idle; keeps_dev.
  all: repeat case_match; try apply keeps_undef; try discriminate; keeps_dev.
  all: apply keeps_put_byte; eauto using typed_target.
Qed.

Lemma keeps_read_summercart a : keeps core_ok (read_summercart a : M st Z).
Proof. unfold read_summercart. keeps_dev. Qed.
Lemma keeps_write_summercart a v : keeps core_ok (write_summercart a v : M st unit).
Proof. destruct keeps_sd. unfold write_summercart, sc_command, sc_idle. keeps_dev. Qed.
#[local] Hint Resolve keeps_read_summercart keeps_write_summercart : keeps.

(** ** Registers *)

Definition typed_cell (c : @cell Q) : Prop := forall v s, core_ok s -> core_ok (cell_set c v s).
Definition typed_table (table : list (option (@cell Q))) : Prop := Forall (fun o => forall c, o = Some c -> typed_cell c) table.

Lemma typed_trash : typed_cell trash_cell.
Proof. intros v s []. constructor; assumption. Qed.

Lemma typed_tables :
  typed_table readrdramreg /\ typed_table readrspreg /\ typed_table readrsp /\ typed_table readdp /\
  typed_table readdps /\ typed_table readmi /\ typed_table readvi /\ typed_table readai /\ typed_table readpi /\
  typed_table readri /\ typed_table readsi.
Proof.
  split_and!; unfold typed_table; repeat (constructor; [intros c [= <-]; first [apply typed_trash|
    intros v s []; constructor; try assumption;
    match goal with Hm : mach_ok _ |- _ => destruct Hm; constructor; assumption end]|]); constructor.
Qed.

Lemma typed_pointer table i {A} (k : @cell Q -> M st A) :
  typed_table table -> (forall c, typed_cell c -> keeps core_ok (k c)) -> keeps core_ok (bind (pointer table i) k).
Proof.
  intros Ht Hk s Hs. unfold bind, pointer.
  destruct (_ || _); [done|]. destruct (_ <=? i); [exact (Hk _ typed_trash s Hs)|]. destruct (negb _); [done|].
  destruct (table !! _) as [[c|]|] eqn:E; try done. exact (Hk c (Forall_lookup_1 _ _ _ _ Ht E c eq_refl) s Hs).
Qed.

Lemma keeps_pointer table i : keeps core_ok (pointer table i : M st _).
Proof. unfold pointer. keeps_auto. Qed.

Lemma keeps_read_reg table sz low : keeps core_ok (read_reg table sz low : M st Z).
Proof. pose proof (keeps_pointer table). unfold read_reg. keeps_dev. Qed.

Lemma keeps_write_pointer_reg table sz low v : typed_table table -> keeps core_ok (write_reg table sz low v : M st unit).
Proof.
  intros Ht.
  assert (forall i x, keeps core_ok (c <-- pointer table i ;;; modify (cell_set c x) : M st unit)) as Hs.
  { intros i x. apply typed_pointer; [exact Ht|]. intros c Hc. apply keeps_modify. intros s. apply Hc. }
  unfold write_reg. destruct sz; [| |apply Hs|apply keeps_bind; intros; apply Hs].
  all: apply typed_pointer; [exact Ht|]; intros c Hc; case_match; [|apply keeps_undef].
  all: apply keeps_modify; intros s; apply Hc.
Qed.

Lemma keeps_table_write table sz low v : In table [readrdramreg; readrspreg; readrsp; readdp; readdps; readmi; readvi;
  readai; readpi; readri; readsi] -> keeps core_ok (write_reg table sz low v : M st unit).
Proof. intros Hin. apply keeps_write_pointer_reg. pose proof typed_tables. simpl in Hin. intuition (subst; assumption). Qed.
#[local] Hint Resolve keeps_read_reg : keeps.
#[local] Hint Extern 1 (keeps core_ok (write_reg _ _ _ _)) => apply keeps_table_write; simpl; tauto : keeps.

Lemma keeps_clear_intr mask : keeps core_ok (clear_intr mask : M st unit).
Proof. apply keeps_on_mi. Qed.
Lemma keeps_count : keeps core_ok (on_mach update_count : M st unit).
Proof. apply keeps_on_mach, keeps_update_count. Qed.
#[local] Hint Resolve keeps_clear_intr keeps_count : keeps.

Lemma keeps_write_mi sz low v : keeps core_ok (write_mi sz low v : M st unit).
Proof.
  assert (keeps core_ok (mask_changed : M st unit)).
  { unfold mask_changed, update_MI_intr_mask_reg. keeps_dev. apply keeps_on_mach. keeps_mach. }
  unfold write_mi, update_MI_init_mode_reg. keeps_dev.
Qed.

Lemma keeps_write_rsp_reg sz low v : keeps core_ok (write_rsp_reg sz low v : M st unit).
Proof.
  assert (keeps core_ok (update_SP : M st unit)).
  { unfold update_SP, run_task, task_done, rsp_begin, rsp_end, on_rsp. keeps_dev. }
  destruct keeps_dma_sp. unfold write_rsp_reg. keeps_dev.
Qed.

Lemma keeps_write_dp sz low v : keeps core_ok (write_dp sz low v : M st unit).
Proof. unfold write_dp, update_DPC, dp_start, dp_run. keeps_dev. Qed.

Lemma keeps_vi_reg sz low : keeps core_ok (read_vi sz low : M st Z) /\ forall v, keeps core_ok (write_vi sz low v : M st unit).
Proof.
  split; [unfold read_vi, update_vi_current; keeps_dev|]. intros v.
  unfold write_vi, set_vi_status, set_vi_width. keeps_dev.
Qed.

Lemma keeps_ai sz low : keeps core_ok (read_ai sz low : M st Z) /\ forall v, keeps core_ok (write_ai sz low v : M st unit).
Proof.
  assert (forall c, keeps core_ok (on_mach (on_queue c) : M st Z)) by (intros; apply keeps_on_mach; auto with keeps).
  split; [unfold read_ai, ai_left; keeps_dev|]. intros v.
  assert (keeps core_ok (ai_len_changed sz : M st unit)) by (unfold ai_len_changed, ai_delay; keeps_dev).
  assert (forall x, keeps core_ok (set_dacrate x : M st unit)) by (intros; unfold set_dacrate; keeps_dev).
  unfold write_ai. keeps_dev.
Qed.

Lemma keeps_write_pi sz low v : keeps core_ok (write_pi sz low v : M st unit).
Proof. destruct keeps_dma_pi. unfold write_pi, pi_acknowledge, stale_word. keeps_dev. Qed.

Lemma keeps_write_si sz low v : keeps core_ok (write_si sz low v : M st unit).
Proof. destruct keeps_dma_si. unfold write_si, si_acknowledge. keeps_dev. Qed.

Lemma keeps_cartridge sz a v :
  keeps core_ok (read_flashram_status sz a : M st _) /\ keeps core_ok (write_flashram_command sz a v : M st unit) /\
  keeps core_ok (read_rom sz a : M st Z) /\ keeps core_ok (write_rom v : M st unit).
Proof.
  split_and!; [unfold read_flashram_status, flash_ready|unfold write_flashram_command, flash_ready|unfold read_rom|unfold write_rom];
    keeps_dev; apply keeps_load_from.
Qed.

Lemma keeps_pif_memory sz a v : keeps core_ok (read_pif sz a : M st Z) /\ keeps core_ok (write_pif sz a v : M st unit).
Proof. split; [unfold read_pif, pif_word|unfold write_pif, pif_written]; keeps_dev. Qed.

Lemma keeps_sc sz a v : keeps core_ok (read_sc_reg sz a : M st _) /\ keeps core_ok (write_sc_reg sz a v : M st unit).
Proof. split; [unfold read_sc_reg|unfold write_sc_reg]; keeps_dev. Qed.

Lemma keeps_init_memory : keeps core_ok (init_memory : M st unit).
Proof.
  assert (keeps core_ok (modify (fun s => s <| rdram := ∅ |> <| SP_MEM := ∅ |>) : M st unit)).
  { apply keeps_modify. intros s []. constructor; try assumption; exact (map_Forall_empty _). }
  unfold init_memory, init_summercart, init_flashram. keeps_dev.
Qed.

#[export] Instance rcp_typed : TypedDevices Q.
Proof.
  split.
  - intros h sz a _. unfold dev_read, rcp_devices, read_rsp_reg, some.
    pose proof (keeps_vi_reg sz (address_low a)) as [Hvi _]. pose proof (keeps_ai sz (address_low a)) as [Hai _].
    pose proof (keeps_cartridge sz (address_low a) 0) as [Hfl _]. pose proof (keeps_cartridge sz a 0) as (_ & _ & Hrom & _).
    pose proof (keeps_pif_memory sz a 0) as [Hpif _]. pose proof (keeps_sc sz a 0) as [Hsc _]. keeps_dev.
  - intros h sz a v _. unfold dev_write, rcp_devices.
    pose proof (keeps_vi_reg sz (address_low a)) as [_ Hvi]. pose proof (keeps_ai sz (address_low a)) as [_ Hai].
    pose proof (keeps_cartridge sz (address_low a) v) as (_ & Hfl & _ & Hrom).
    pose proof (keeps_pif_memory sz a v) as [_ Hpif]. pose proof (keeps_sc sz a v) as [_ Hsc].
    pose proof (keeps_write_mi sz (address_low a) v). pose proof (keeps_write_rsp_reg sz (address_low a) v).
    pose proof (keeps_write_dp sz (address_low a) v). pose proof (keeps_write_pi sz (address_low a) v).
    pose proof (keeps_write_si sz (address_low a) v). keeps_dev.
Qed.

End Handlers.
