(* ===== verification/BootProps.v ===== *)
(** * Start-up gives a well-typed console

    [start_state] puts a freshly started emulator into a state that satisfies the
    type invariant, and with the devices of [DeviceWf] everything the interpreter
    does from there keeps it.  Restarting within the same process does not: the
    table of writable pages is not cleared. *)

From S2P Require Import Prelude Hoare Pool Controller Queue Machine Exception Alu AluProps Tlb TlbProps DeviceState Core Dma PifLut Pif SummerCart Bus BusProps LoadStore Cop Registers Interp Boot InterpProps WfProps DeviceWf.

Open Scope prog_scope.
#[local] Open Scope Z_scope.

(** ** Values *)

Lemma assign_ok l regs : length regs = 32%nat -> Forall is_s64 regs -> length (assign l regs) = 32%nat /\ Forall is_s64 (assign l regs).
Proof.
  unfold assign. revert regs. induction l as [|[i v] l IH]; intros regs Hl Hr; [done|]. apply IH.
  - by rewrite length_insert.
  - apply Forall_insert; [exact Hr|apply s64_range].
Qed.

Lemma put_imem_ok l sp : bytes_ok sp -> bytes_ok (put_imem l sp).
Proof.
  unfold put_imem. revert sp. induction l as [|[i v] l IH]; intros sp Hs; [exact Hs|].
  apply IH, store_bytes_ok; [apply le_split_bytes|exact Hs].
Qed.

Lemma boot_cop0_ok : cop0_ok cop0_zero /\ cop0_ok boot_cop0.
Proof. split; constructor; by apply is_u32_small. Qed.

Section Boot.
Context {Q : Type} `{EventQueue Q, !PifHost Q, !Plugins Q, !TypedHost Q, !Fpu Q, !TypedFpu Q}.
#[local] Abbreviation st := (core Q).
Implicit Types s : st.

Definition write_lut (l : gmap Z Z) (s : st) : Prop := tlb_LUT_w (c_mach s) = l.

Lemma init_memory_lut l : keeps (write_lut l) (init_memory : M st unit).
Proof.
  unfold init_memory, init_summercart, init_flashram, mod_flash, mod_sc, mod_dev, mod_mach.
  repeat first [keep_step | apply keeps_modify; intros s Hs; exact Hs | intros s Hs; exact Hs].
Qed.

(** Nothing is mapped after [clear_registers] if nothing was mapped for writing before. *)
Lemma clear_registers_ok : triple (fun s => core_ok s /\ write_lut ∅ s) (clear_registers : M st unit) (fun _ => core_ok).
Proof.
  intros s [[] Hl]. match goal with Hm : mach_ok _, Hf : cop1_ok _ |- _ => destruct Hm, Hf end. constructor; try assumption; try done.
  - by apply Forall_replicate.
  - constructor; try assumption; [apply boot_cop0_ok|reflexivity|]. by apply start_exact.
  - constructor; [done|done|reflexivity|by apply Forall_replicate| |split; [reflexivity|apply seq_below; lia]].
    split; [reflexivity|]. by repeat constructor.
Qed.

Lemma keeps_boot_registers : keeps core_ok (boot_registers : M st unit).
Proof.
  unfold boot_registers. apply keeps_bind; [|intros _; apply keeps_bind; [|intros _; apply keeps_get; intros s0 ?; cbv zeta;
    apply keeps_bind; [apply keeps_mod_dev|intros _]]].
  - apply keeps_modify. intros s [Hl Hv]. constructor; try assumption; by apply assign_ok.
  - apply keeps_mod_mach. intros m []. constructor; try assumption. apply boot_cop0_ok.
  - apply keeps_modify. intros s [Hl Hv]. constructor; try assumption; try by apply assign_ok.
    + destruct co_cop1. constructor; assumption.
    + by apply put_imem_ok.
Qed.

Lemma start_state_ok : triple (fun s => core_ok s /\ write_lut ∅ s) (start_state : M st unit) (fun _ => core_ok).
Proof.
  unfold start_state.
  eapply triple_bind with (R := fun _ s => core_ok s /\ write_lut ∅ s); [|intros _].
  { apply keeps_and; [|intros s Hs; exact Hs]. apply keeps_mod_mach. intros m []. constructor; assumption. }
  eapply triple_bind with (R := fun _ s => core_ok s /\ write_lut ∅ s); [|intros _].
  { apply keeps_and; unfold copy_boot_code; keep_step; (case_match; [apply keeps_undef|]); apply keeps_modify; [|done].
    intros s []. constructor; try assumption. apply store_bytes_ok; [by apply load_bytes_ok|assumption]. }
  eapply triple_bind with (R := fun _ => core_ok); [exact clear_registers_ok|intros _].
  apply keeps_bind; [apply keeps_boot_registers|intros _].
  apply keeps_bind; [|intros _; apply keeps_bind; [apply keeps_on_mach; unfold init_interrupt; keeps_mach|intros _]].
  - apply keeps_mod_mach. intros m []. constructor; try assumption. by apply is_u32_small.
  - apply keeps_mod_mach. intros m []. constructor; assumption.
Qed.
End Boot.

(** ** Restarting *)

Section Restart.
Context {Q : Type} `{EventQueue Q, !PifHost Q, !Plugins Q, !Fpu Q}.
#[local] Abbreviation st := (core Q).
Implicit Types s : st.

Definition cleared (l : gmap Z Z) (m : machine Q) : Prop := tlb_e m = replicate 32 tlb_zero /\ tlb_LUT_r m = ∅ /\ tlb_LUT_w m = l.

Lemma keeps_cleared_queue {A} l (c : M Q A) : keeps (cleared l) (on_queue c).
Proof. intros m Hm. unfold on_queue. by destruct (c (irq_queue m)) as [[a q]|]. Qed.

Lemma keeps_on_machine {A} (P : machine Q -> Prop) (c : M (machine Q) A) : keeps P c -> keeps (fun s => P (c_mach s)) (on_mach c : M st A).
Proof. intros Hc s Hs. unfold on_mach. specialize (Hc (c_mach s) Hs). by destruct (c (c_mach s)) as [[a m]|]. Qed.

Lemma start_state_cleared l : triple (write_lut l) (start_state : M st unit) (fun _ s => cleared l (c_mach s)).
Proof.
  assert (forall f, (forall m, cleared l m -> cleared l (f m)) -> keeps (fun s => cleared l (c_mach s)) (mod_mach f : M st unit)) as Hmod.
  { intros f Hf. apply keeps_on_machine, keeps_modify, Hf. }
  eapply triple_bind with (R := fun _ => write_lut l); [intros s Hs; exact Hs|intros _].
  eapply triple_bind with (R := fun _ => write_lut l); [|intros _].
  { change (keeps (write_lut l) (copy_boot_code : M st unit)). unfold copy_boot_code. keep_step. case_match; [apply keeps_undef|by apply keeps_modify]. }
  eapply triple_bind with (R := fun _ s => cleared l (c_mach s)); [intros s Hs; split_and!; [reflexivity..|exact Hs]|intros _].
  apply keeps_bind; [|intros _; apply keeps_bind; [by apply Hmod|intros _; apply keeps_bind; [|intros _; by apply Hmod]]].
  - unfold boot_registers. apply keeps_bind; [by apply keeps_modify|intros _]. apply keeps_bind; [by apply Hmod|intros _].
    keep_step. by apply keeps_bind; [apply keeps_modify|intros _; apply keeps_modify].
  - apply keeps_on_machine. unfold init_interrupt.
    repeat first [apply keeps_cleared_queue | keep_step | by apply keeps_modify].
Qed.
End Restart.

(** The emulator keeps every register within its width: from a freshly started
    process, after [init_memory], [core_start] and any number of rounds of the
    interpreter, with every device register, transfer and PIF command of the code
    behind the memory map, the 32 general registers, HI, LO and the floating-point
    registers hold 64-bit values, the registers of coprocessor 0 and the program
    counters 32-bit ones, memory holds bytes, the pointers into the floating-point
    registers are within them, and the look-up tables map only what the TLB says, as
    long as the plugins, the front end and the floating-point unit keep all this and no
    savestate is loaded ([TypedHost]). *)
Theorem emulator_well_typed {Q} `{EventQueue Q, !PifHost Q, !Plugins Q, !TypedHost Q, !Fpu Q, !TypedFpu Q}
    fuel n (s s' : core Q) :
  core_ok s -> tlb_LUT_w (c_mach s) = ∅ -> emu_thread fuel n s = Ret (tt, s') -> core_ok s'.
Proof.
  intros Hs Hl E. assert (triple (fun s => core_ok s /\ write_lut ∅ s) (emu_thread (Q := Q) fuel n) (fun _ => core_ok)) as Ht.
  { eapply triple_bind with (R := fun _ s => core_ok s /\ write_lut ∅ s);
      [apply keeps_and; [apply keeps_init_memory|apply init_memory_lut]|intros _].
    eapply triple_bind with (R := fun _ => core_ok); [exact start_state_ok|intros _].
    apply keeps_bind; [apply keeps_pure_interpreter|intros _; unfold when_stopped, after_loop].
    apply keeps_get. intros s0 _. apply keeps_when, keeps_mod_mach. intros m []. constructor; assumption. }
  specialize (Ht s (conj Hs Hl)). by rewrite E in Ht.
Qed.

(** Restarting the console within a process leaves the pages mapped for writing
    mapped: the start-up code clears all TLB entries, but the table of readable pages
    twice and the table of writable pages never, so a page that was writable when the
    console was restarted still translates for writes although no entry maps it. *)
Theorem restart_keeps_write_mappings {Q} `{EventQueue Q, !PifHost Q, !Plugins Q, !Fpu Q} (s s' : core Q) a pa :
  (init_memory ;;; start_state) s = Ret (tt, s') -> ordinary a (c_mach s') ->
  lut_translate (tlb_LUT_w (c_mach s)) a = Some pa ->
  virtual_to_physical_address a 1 (c_mach s') = Ret (pa, c_mach s') /\
  (forall w pa', ~ tlb_maps w (tlb_e (c_mach s')) a pa').
Proof.
  intros E Ho Ha.
  assert (cleared (tlb_LUT_w (c_mach s)) (c_mach s')) as (He & Hr & Hw).
  { assert (triple (write_lut (tlb_LUT_w (c_mach s))) (init_memory ;;; start_state : M (core Q) unit)
      (fun _ s' => cleared (tlb_LUT_w (c_mach s)) (c_mach s'))) as Ht.
    { eapply triple_bind with (R := fun _ => write_lut (tlb_LUT_w (c_mach s))); [apply init_memory_lut|intros _; apply start_state_cleared]. }
    specialize (Ht s eq_refl). by rewrite E in Ht. }
  split.
  - rewrite (translate_ordinary a 1 (c_mach s') Ho). simpl. by rewrite Hw, Ha.
  - rewrite He. apply empty_tlb_maps_nothing.
Qed.

(** ** Examples *)

(** A front end that never pauses, controllers that are never touched, and plugins
    that do nothing. *)
Definition quiet_pif {Q} : PifHost Q := {|
  controller_poll _ := ret 0; input_controller_command _ _ := ret tt; input_read_controller _ _ := ret tt;
  has_controller_command := false; input_callback _ _ := ret tt; vcr_idle := ret true; paused_now := ret false;
  wait_counter := ret 0; pause_emu := ret tt; wait_until_resumed _ := ret tt; st_do_work := ret tt |}.
Definition quiet_plugins {Q} : Plugins Q := {|
  rsp_do_rsp_cycles := ret tt; video_process_rdp_list := ret tt; frame_skipped := ret false |}.

#[local] Existing Instance quiet_pif.
#[local] Existing Instance quiet_plugins.
#[local] Existing Instance no_fpu.
#[local] Instance quiet_typed : TypedHost irq.
Proof. split; intros; apply keeps_ret. Qed.
#[local] Instance no_fpu_typed : TypedFpu irq.
Proof. split. intros op. apply keeps_ret. Qed.

(** A cartridge whose boot code unmasks all interrupts at 0xA430000C and reads the
    mask back into register 10. *)
Definition cartridge : core irq :=
  boot_core <| rom := store_bytes 0x40 (flat_map (le_split 4) [0x3C08A430; 0x24090AAA; 0xAD09000C; 0x8D0A000C]) ∅ |>.

Lemma cartridge_ok : core_ok cartridge.
Proof.
  destruct boot_core_ok. constructor; try assumption.
  apply store_bytes_ok; [|exact (map_Forall_empty _)]. repeat apply Forall_app_2; try apply le_split_bytes. constructor.
Qed.

Lemma emulator_well_typed_witness :
  exists s', emu_thread 1 4 cartridge = Ret (tt, s') /\ core_ok s' /\ c_reg s' !! 10%nat = Some 0x3F.
Proof.
  destruct (emu_thread 1 4 cartridge) as [[[] s']|f] eqn:E.
  - exists s'. split; [reflexivity|].
    split; [exact (emulator_well_typed 1 4 cartridge s' cartridge_ok eq_refl E)|].
    assert (option_map (fun r => c_reg (r.2) !! 10%nat) (match emu_thread 1 4 cartridge with Ret r => Some r | Undef _ => None end)
            = Some (Some 0x3F)) as Hr by (vm_compute; reflexivity).
    rewrite E in Hr. by injection Hr.
  - assert (is_ret (emu_thread 1 4 cartridge) = true) as Hr by (vm_compute; reflexivity). by rewrite E in Hr.
Defined.

(** The page at 0x2000 was mapped to 0x80005000 for writing when the console was
    restarted. *)
Definition restarted : core irq :=
  cartridge <| c_mach := (c_mach cartridge) <| tlb_LUT_w := {[ 2 := 0x80005000 ]} |> |>.

Lemma restart_keeps_write_mappings_witness :
  exists s', (init_memory ;;; start_state) restarted = Ret (tt, s') /\
    virtual_to_physical_address 0x2004 1 (c_mach s') = Ret (0x80005004, c_mach s') /\
    (forall w pa', ~ tlb_maps w (tlb_e (c_mach s')) 0x2004 pa').
Proof.
  destruct ((init_memory ;;; start_state) restarted) as [[[] s']|f] eqn:E.
  - exists s'. split; [reflexivity|]. apply (restart_keeps_write_mappings restarted s'); [exact E|reflexivity|reflexivity].
  - assert (is_ret ((init_memory ;;; start_state) restarted) = true) as Hr by (vm_compute; reflexivity). by rewrite E in Hr.
Defined.
