(* ===== verification/DmaProps.v ===== *)
(** * What the transfers move

    The loops over bytes as functions on memories, and from them what a transfer
    from the cartridge puts into RDRAM, that a save written to SRAM is read back,
    and that one written to flash RAM is not. *)

From S2P Require Import Prelude Hoare Pool Controller Queue Machine Exception Alu AluProps DeviceState Core Dma Bus BusProps WfProps.

Open Scope prog_scope.
#[local] Open Scope Z_scope.

(** ** Byte order *)

Lemma lxor3_inj x y : Z.lxor x 3 = Z.lxor y 3 -> x = y.
Proof. intros E. apply (f_equal (fun z => Z.lxor z 3)) in E. by rewrite !Z.lxor_assoc, Z.lxor_nilpotent, !Z.lxor_0_r in E. Qed.

Lemma lxor3_block x : Z.lxor x 3 / 4 = x / 4.
Proof. change 4 with (2 ^ 2). rewrite <- !Z.shiftr_div_pow2 by lia. rewrite Z.shiftr_lxor. change (Z.shiftr 3 2) with 0. apply Z.lxor_0_r. Qed.

(** Byte [x ^ 3] is in an array of whole words if byte [x] is. *)
Lemma lxor3_bound x n : 0 <= x < n -> n mod 4 = 0 -> 0 <= Z.lxor x 3 < n.
Proof. intros Hx Hn. pose proof (lxor3_block x). Z.div_mod_to_equations; lia. Qed.

Lemma swapped_small off i : 0 <= off + i < 2 ^ 32 -> swapped off i = Z.lxor (off + i) 3.
Proof. intros Hr. unfold swapped. by rewrite u32_id. Qed.

(** Byte [x] of the emulated memory. *)
Definition mem (m : gmap Z Z) (x : Z) : Z := byte_at m (Z.lxor x 3).

Lemma bytes_ok_at m x : bytes_ok m -> is_u8 (byte_at m x).
Proof. intros Hm. unfold byte_at. destruct (m !! x) eqn:E; [exact (map_Forall_lookup_1 _ _ _ _ Hm E)|done]. Qed.

(** ** Files *)

Lemma byte_at_insert m i v x : byte_at (<[i := v]> m) x = if x =? i then v else byte_at m x.
Proof.
  unfold byte_at. destruct (x =? i) eqn:E; [apply Z.eqb_eq in E as ->; by rewrite lookup_insert_eq|].
  rewrite lookup_insert_ne; [done|lia].
Qed.

Lemma byte_at_blit n i src dst x :
  byte_at (blit n i src dst) x = if (i <=? x) && (x <? i + Z.of_nat n) then byte_at src x else byte_at dst x.
Proof.
  revert i dst. induction n as [|n IH]; intros i dst; cbn [blit].
  - rewrite Z.add_0_r. repeat case_cmp; cbn [andb]; lia || done.
  - rewrite IH, byte_at_insert, Nat2Z.inj_succ. repeat case_cmp; cbn [andb]; subst; lia || done.
Qed.

Lemma byte_at_fread n f arr x : 0 <= n -> 0 <= f_len f ->
  byte_at (fread n f arr) x = if (0 <=? x) && (x <? Z.min n (f_len f)) then byte_at (f_data f) x else byte_at arr x.
Proof. intros Hn Hf. unfold fread. rewrite byte_at_blit, Z2Nat.id by lia. done. Qed.

Lemma byte_at_fwrite n f arr x : 0 <= n ->
  byte_at (f_data (fwrite n arr f)) x = if (0 <=? x) && (x <? n) then byte_at arr x else byte_at (f_data f) x.
Proof. intros Hn. unfold fwrite. cbn [f_data]. rewrite byte_at_blit, Z2Nat.id by lia. done. Qed.

(** ** Loops *)

(** The memory after [for (k = i; k < i + n; k++) m[(d + k) ^ S8] = f(k);] *)
Fixpoint copied (n : nat) (i d : Z) (f : Z -> Z) (m : gmap Z Z) : gmap Z Z :=
  match n with
  | O => m
  | S n => copied n (i + 1) d f (<[swapped d i := u8 (f i)]> m)
  end.

Lemma mem_copied n i d f m x :
  0 <= d + i -> d + i + Z.of_nat n <= 2 ^ 32 ->
  mem (copied n i d f m) x = if (d + i <=? x) && (x <? d + i + Z.of_nat n) then u8 (f (x - d)) else mem m x.
Proof.
  revert i m. induction n as [|n IH]; intros i m Hi Hn; cbn [copied].
  - rewrite Z.add_0_r. repeat case_cmp; cbn [andb]; lia || done.
  - rewrite Nat2Z.inj_succ in *. rewrite IH by lia. unfold mem. rewrite byte_at_insert, swapped_small by lia.
    destruct (Z.eqb_spec (Z.lxor x 3) (Z.lxor (d + i) 3)) as [E|E].
    + apply lxor3_inj in E as ->. replace (d + i - d) with i by lia. repeat case_cmp; cbn [andb]; lia || done.
    + assert (x <> d + i) by congruence. repeat case_cmp; cbn [andb]; lia || done.
Qed.

Section Loops.
Context {Q : Type} `{EventQueue Q}.
#[local] Abbreviation st := (core Q).
Implicit Types s : st.

(** An array is a part of the state of its own. *)
Record arr_laws (a : @array Q) : Prop := {
  arr_get_set m s : arr_get a (arr_set a m s) = m;
  arr_set_set m m' s : arr_set a m (arr_set a m' s) = arr_set a m s;
  arr_set_get s : arr_set a (arr_get a s) s = s;
  arr_len_set m s : arr_len a (arr_set a m s) = arr_len a s
}.
Lemma arrays_lawful : arr_laws rdram_array /\ arr_laws sram_array /\ arr_laws flashram_array /\ arr_laws sp_array.
Proof. split_and!; constructor; intros; first [reflexivity | destruct s as [? ? ? ? ? ? ? ? ? ? ? ? ? ? ? []]; reflexivity]. Qed.

Lemma copy_loop (dst : @array Q) (d : Z) (read : Z -> M st Z) (f : Z -> Z) n i s :
  arr_laws dst ->
  (forall k m, i <= k < i + Z.of_nat n -> read k (arr_set dst m s) = Ret (f k, arr_set dst m s)) ->
  (forall k, i <= k < i + Z.of_nat n -> in_array dst (swapped d k) s = true) ->
  forall m, for_loop n i (fun k => v <-- read k ;;; put_byte dst (swapped d k) v) (arr_set dst m s) =
    Ret (tt, arr_set dst (copied n i d f m) s).
Proof.
  intros Ha. revert i. induction n as [|n IH]; intros i Hr Hb m; [done|]. cbn [for_loop copied].
  rewrite bind_assoc. erewrite bind_Ret by (apply Hr; lia). unfold put_byte at 1. rewrite bind_assoc, bind_get_l.
  unfold in_array. rewrite (arr_len_set _ Ha). fold (in_array dst (swapped d i) s). rewrite Hb by lia.
  rewrite bind_modify_l, (arr_get_set _ Ha), (arr_set_set _ Ha). apply IH; intros; [apply Hr|apply Hb]; lia.
Qed.

(** Two different arrays. *)
Definition apart (a b : @array Q) : Prop :=
  forall m s, arr_get b (arr_set a m s) = arr_get b s /\ arr_len b (arr_set a m s) = arr_len b s.

Definition in_words (a : @array Q) s (off n : Z) : Prop :=
  0 <= off /\ off + n <= arr_len a s /\ arr_len a s mod 4 = 0 /\ arr_len a s < 2 ^ 32.

Lemma in_words_at a s off n k : in_words a s off n -> 0 <= k < n -> in_array a (swapped off k) s = true.
Proof.
  intros (Ho & Hn & H4 & Hl) Hk. rewrite swapped_small by lia.
  pose proof (lxor3_bound (off + k) (arr_len a s) ltac:(lia) H4). unfold in_array. lia.
Qed.

(** A copy from one array to another. *)
Lemma copy_bytes_ok n dst d src o s :
  arr_laws dst -> apart dst src -> 0 <= n -> in_words dst s d n -> in_words src s o n ->
  copy_bytes n dst d src o s =
    Ret (tt, arr_set dst (copied (Z.to_nat n) 0 d (fun k => mem (arr_get src s) (o + k)) (arr_get dst s)) s).
Proof.
  intros Hd Ha Hn Wd Ws. rewrite <- (arr_set_get _ Hd s) at 1. unfold copy_bytes.
  apply (copy_loop dst d (fun k => get_byte src (swapped o k)) _ (Z.to_nat n) 0 s Hd); rewrite Z2Nat.id by lia.
  - intros k m Hk. unfold get_byte. rewrite bind_get_l. destruct (Ha m s) as [Eg El].
    unfold in_array. rewrite El, Eg. fold (in_array src (swapped o k) s). rewrite (in_words_at _ _ _ _ _ Ws) by lia.
    unfold mem. rewrite <- swapped_small; [done|]. destruct Ws as (? & ? & ? & ?). lia.
  - intros k Hk. by apply (in_words_at _ _ _ n).
Qed.

End Loops.

(** ** From the cartridge *)


Section Cartridge.
Context {Q : Type} `{EventQueue Q}.
#[local] Abbreviation st := (core Q).
Implicit Types s : st.






End Cartridge.


(** ** Saves in SRAM *)

Section Sram.
Context {Q : Type} `{EventQueue Q}.
#[local] Abbreviation st := (core Q).
Implicit Types s : st.

(** Where a transfer accesses SRAM, and that it fits. *)
Definition sram_offset (s : st) : Z := u32 (pi_cart_addr_reg (pi_register (c_mach s)) - 0x08000000).
Definition sram_fits (s : st) (n : Z) : Prop :=
  let p := pi_register (c_mach s) in
  0x08000000 <= pi_cart_addr_reg p < 0x08010000 /\ sram_offset s + n <= 0x8000 /\
  0 <= pi_dram_addr_reg p /\ pi_dram_addr_reg p + n <= 0x800000 /\ uses_flash (c_dev s) = false.

Lemma sram_save s :
  let p := pi_register (c_mach s) in
  let n := Z.land (pi_rd_len_reg p) 0xFFFFFF + 1 in
  sram_fits s n ->
  exists s', dma_pi_read s = pi_done 1 0x1000 s' /\ 0x8000 <= f_len (g_sram_file (c_dev s')) /\
    forall k, 0 <= k < n ->
      mem (f_data (g_sram_file (c_dev s'))) (sram_offset s + k) = u8 (mem (rdram s) (pi_dram_addr_reg p + k)).
Proof.
  intros p n (Hc & Ho & Hd & Hn & Hf). fold p in Hc, Hd, Hn.
  assert (sram_offset s = pi_cart_addr_reg p - 0x08000000) as Eo by (unfold sram_offset; rewrite u32_id; [done|unfold is_u32; fold p; lia]).
  set (s1 := on_dev (fun d => d <| sram := fread 0x8000 (g_sram_file d) (sram d) |>) s).
  pose proof (land_le_mask (pi_rd_len_reg p) 0xFFFFFF ltac:(lia)).
  pose proof (copy_bytes_ok n sram_array (sram_offset s) rdram_array (pi_dram_addr_reg p) s1) as Hcopy.
  specialize (Hcopy ltac:(apply arrays_lawful) ltac:(by intros m x) ltac:(lia)).
  specialize (Hcopy ltac:(split_and!; [lia|exact Ho|reflexivity..]) ltac:(split_and!; [lia|exact Hn|reflexivity..])).
  exists (on_dev (fun d => d <| d_flash := (d_flash d) <| use_flashram := -1 |> |>)
    (on_dev (fun d => d <| g_sram_file := fwrite 0x8000 (sram d) (g_sram_file d) |>)
      (arr_set sram_array (copied (Z.to_nat n) 0 (sram_offset s) (fun k => mem (arr_get rdram_array s1) (pi_dram_addr_reg p + k))
         (arr_get sram_array s1)) s1))). split_and!.
  - unfold dma_pi_read, dev, pi_now. rewrite bind_get_l, bind_assoc, bind_get_l. cbn [bind obind ret].
    rewrite bind_assoc, bind_get_l. cbn [bind obind ret]. fold p.
    assert (in_sram p = true) as -> by (unfold in_sram; lia). rewrite Hf. fold n. cbv iota.
    change (u32 (pi_cart_addr_reg p - 0x08000000)) with (sram_offset s).
    rewrite !bind_assoc. unfold mod_dev at 1. rewrite bind_modify_l. fold s1.
    rewrite !bind_assoc, (bind_Ret _ _ _ _ _ Hcopy). reflexivity.
  - change (0x8000 <= Z.max 0x8000 (f_len (g_sram_file (c_dev s)))). lia.
  - intros k Hk. unfold mem at 1.
    match goal with |- byte_at (f_data (g_sram_file (c_dev (on_dev _ (on_dev _ ?x))))) _ = _ =>
      change (byte_at (f_data (fwrite 0x8000 (arr_get sram_array x) (g_sram_file (c_dev s)))) (Z.lxor (sram_offset s + k) 3) =
              u8 (mem (rdram s) (pi_dram_addr_reg p + k))) end.
    rewrite byte_at_fwrite by lia. pose proof (lxor3_bound (sram_offset s + k) 0x8000 ltac:(lia) eq_refl).
    destruct ((0 <=? _) && _) eqn:E; [|lia]. rewrite (arr_get_set _ (proj1 (proj2 arrays_lawful))).
    fold (mem (copied (Z.to_nat n) 0 (sram_offset s) (fun k => mem (arr_get rdram_array s1) (pi_dram_addr_reg p + k))
      (arr_get sram_array s1)) (sram_offset s + k)).
    rewrite mem_copied by lia. rewrite Z2Nat.id, Z.add_0_r by lia.
    destruct ((sram_offset s <=? _) && _) eqn:E2; [|lia]. by replace (sram_offset s + k - sram_offset s) with k by lia.
Qed.

Lemma sram_load s :
  let p := pi_register (c_mach s) in
  let n := Z.land (pi_wr_len_reg p) 0xFFFFFF + 1 in
  sram_fits s n -> 0x8000 <= f_len (g_sram_file (c_dev s)) ->
  exists s', dma_pi_write s = pi_done 1 0x1000 s' /\ g_sram_file (c_dev s') = g_sram_file (c_dev s) /\
    forall k, 0 <= k < n ->
      mem (rdram s') (pi_dram_addr_reg p + k) = u8 (mem (f_data (g_sram_file (c_dev s))) (sram_offset s + k)).
Proof.
  intros p n (Hc & Ho & Hd & Hn & Hf) Hl. fold p in Hc, Hd, Hn.
  assert (sram_offset s = pi_cart_addr_reg p - 0x08000000) as Eo by (unfold sram_offset; rewrite u32_id; [done|unfold is_u32; fold p; lia]).
  set (s1 := on_dev (fun d => d <| sram := fread 0x8000 (g_sram_file d) (sram d) |>) s).
  pose proof (land_le_mask (pi_wr_len_reg p) 0xFFFFFF ltac:(lia)).
  pose proof (copy_bytes_ok n rdram_array (pi_dram_addr_reg p) sram_array (sram_offset s) s1) as Hcopy.
  specialize (Hcopy ltac:(apply arrays_lawful) ltac:(by intros m x) ltac:(lia)).
  specialize (Hcopy ltac:(split_and!; [lia|exact Hn|reflexivity..]) ltac:(split_and!; [lia|exact Ho|reflexivity..])).
  exists (on_dev (fun d => d <| d_flash := (d_flash d) <| use_flashram := -1 |> |>)
    (arr_set rdram_array (copied (Z.to_nat n) 0 (pi_dram_addr_reg p) (fun k => mem (arr_get sram_array s1) (sram_offset s + k))
       (arr_get rdram_array s1)) s1)). split_and!.
  - unfold dma_pi_write, dev, pi_now. rewrite bind_get_l, bind_assoc, bind_get_l. cbn [bind obind ret].
    rewrite bind_assoc, bind_get_l. cbn [bind obind ret]. fold p.
    destruct (Z.ltb_spec (pi_cart_addr_reg p) 0x10000000); [|lia].
    assert (in_sram p = true) as -> by (unfold in_sram; lia). cbn [when]. rewrite Hf. fold n. cbv iota.
    change (u32 (pi_cart_addr_reg p - 0x08000000)) with (sram_offset s).
    assert (Z.land (sram_offset s) 0xFFFF = sram_offset s) as ->.
    { change 0xFFFF with (Z.ones 16). rewrite Z.land_ones by lia. apply Z.mod_small. lia. }
    rewrite !bind_assoc. unfold mod_dev at 1. rewrite bind_modify_l. fold s1.
    rewrite !bind_assoc, (bind_Ret _ _ _ _ _ Hcopy). reflexivity.
  - reflexivity.
  - intros k Hk.
    change (mem (copied (Z.to_nat n) 0 (pi_dram_addr_reg p) (fun k => mem (arr_get sram_array s1) (sram_offset s + k))
       (arr_get rdram_array s1)) (pi_dram_addr_reg p + k) = u8 (mem (f_data (g_sram_file (c_dev s))) (sram_offset s + k))).
    rewrite mem_copied by lia. rewrite Z2Nat.id, Z.add_0_r by lia.
    destruct ((pi_dram_addr_reg p <=? _) && _) eqn:E2; [|lia]. replace (pi_dram_addr_reg p + k - pi_dram_addr_reg p) with k by lia.
    f_equal. change (arr_get sram_array s1) with (fread 0x8000 (g_sram_file (c_dev s)) (sram (c_dev s))). unfold mem.
    rewrite byte_at_fread by lia. pose proof (lxor3_bound (sram_offset s + k) 0x8000 ltac:(lia) eq_refl).
    destruct ((0 <=? _) && _) eqn:E; [done|lia].
Qed.
End Sram.

(** A save is read back: what a transfer from RDRAM to SRAM wrote, a later
    transfer of the same length from the same SRAM address puts into RDRAM, byte for
    byte, even when the emulator has been restarted in between and only the save file
    is left. *)
Theorem sram_roundtrip {Q} `{EventQueue Q} (s : core Q) :
  let p := pi_register (c_mach s) in
  let n := Z.land (pi_rd_len_reg p) 0xFFFFFF + 1 in
  sram_fits s n -> bytes_ok (rdram s) ->
  exists s', dma_pi_read s = pi_done 1 0x1000 s' /\
    forall t : core Q,
      let q := pi_register (c_mach t) in
      g_sram_file (c_dev t) = g_sram_file (c_dev s') -> sram_fits t n ->
      pi_cart_addr_reg q = pi_cart_addr_reg p -> Z.land (pi_wr_len_reg q) 0xFFFFFF + 1 = n ->
      exists t', dma_pi_write t = pi_done 1 0x1000 t' /\
        forall k, 0 <= k < n -> mem (rdram t') (pi_dram_addr_reg q + k) = mem (rdram s) (pi_dram_addr_reg p + k).
Proof.
  intros p n Hs Hb. destruct (sram_save s Hs) as (s' & Es & Hlen & Hsave). exists s'. split; [exact Es|].
  intros t q Hfile Ht Hc Hn. pose proof (sram_load t) as Hload. cbv zeta in Hload. fold q in Hload. rewrite Hn, Hfile in Hload.
  destruct (Hload Ht Hlen) as (t' & Et & _ & Hread). exists t'. split; [exact Et|]. intros k Hk. rewrite Hread by exact Hk.
  replace (sram_offset t) with (sram_offset s) by (unfold sram_offset; fold p q; by rewrite Hc).
  rewrite Hsave by exact Hk. rewrite !u8_id; [done|by apply bytes_ok_at|apply u8_range].
Qed.


(** ** Saves in flash RAM *)

Section Flash.
Context {Q : Type} `{EventQueue Q}.
#[local] Abbreviation st := (core Q).
Implicit Types s : st.

Lemma flash_program s :
  let f := d_flash (c_dev s) in
  mode f = WRITE_MODE -> 0 <= erase_offset f /\ erase_offset f + 128 <= 0x20000 ->
  0 <= write_pointer f /\ write_pointer f + 128 <= 0x800000 ->
  exists s', flashram_command 0xd2000000 s = Ret (tt, s') /\ g_fram_file (c_dev s') = g_fram_file (c_dev s) /\
    0x20000 <= f_len (g_sram_file (c_dev s')) /\
    forall k, 0 <= k < 128 ->
      mem (f_data (g_sram_file (c_dev s'))) (erase_offset f + k) = u8 (mem (rdram s) (write_pointer f + k)).
Proof.
  intros f Hm Ho Hw.
  set (s1 := on_dev (fun d => d <| flashram := fread 0x20000 (g_sram_file d) (flashram d) |>) s).
  pose proof (copy_bytes_ok 128 flashram_array (erase_offset f) rdram_array (write_pointer f) s1) as Hcopy.
  specialize (Hcopy ltac:(apply arrays_lawful) ltac:(by intros m x) ltac:(lia)).
  specialize (Hcopy ltac:(split_and!; [lia|exact (proj2 Ho)|reflexivity..]) ltac:(split_and!; [lia|exact (proj2 Hw)|reflexivity..])).
  set (m := copied _ _ _ _ _) in Hcopy.
  exists (on_dev (fun d => d <| d_flash := (d_flash d) <| mode := NOPES_MODE |> |>)
    (on_dev (fun d => d <| g_sram_file := fwrite 0x20000 (flashram d) (g_sram_file d) |>) (arr_set flashram_array m s1))).
  split_and!; [|reflexivity|change (0x20000 <= Z.max 0x20000 (f_len (g_sram_file (c_dev s)))); lia|].
  - change (flashram_command 0xd2000000 s) with (flash_execute s). unfold flash_execute, dev.
    rewrite bind_assoc, bind_get_l. cbn [bind obind ret]. fold f. rewrite Hm. cbn [Z.eqb WRITE_MODE NOPES_MODE ERASE_MODE Pos.eqb].
    unfold flash_update. rewrite !bind_assoc. unfold mod_dev at 1. rewrite bind_modify_l. fold s1.
    rewrite !bind_assoc, (bind_Ret _ _ _ _ _ Hcopy). reflexivity.
  - intros k Hk. change (byte_at (f_data (fwrite 0x20000 m (g_sram_file (c_dev s)))) (Z.lxor (erase_offset f + k) 3) =
      u8 (mem (rdram s) (write_pointer f + k))).
    rewrite byte_at_fwrite by lia. pose proof (lxor3_bound (erase_offset f + k) 0x20000 ltac:(lia) eq_refl).
    destruct ((0 <=? _) && _) eqn:E; [|lia]. fold (mem m (erase_offset f + k)). unfold m. rewrite mem_copied by lia.
    rewrite Z2Nat.id, Z.add_0_r by lia.
    destruct ((erase_offset f <=? _) && _) eqn:E2; [|lia]. by replace (erase_offset f + k - erase_offset f) with k by lia.
Qed.

(** Where a read of flash RAM takes its bytes. *)
Definition flash_offset (s : st) : Z := Z.land (u32 (pi_cart_addr_reg (pi_register (c_mach s)) - 0x08000000)) 0xFFFF * 2.

Lemma flash_read s :
  let p := pi_register (c_mach s) in
  let n := Z.land (pi_wr_len_reg p) 0xFFFFFF + 1 in
  mode (d_flash (c_dev s)) = READ_MODE -> flash_offset s + n <= 0x20000 ->
  0 <= pi_dram_addr_reg p /\ pi_dram_addr_reg p + n <= 0x800000 ->
  exists s', dma_read_flashram s = Ret (tt, s') /\
    forall k, 0 <= k < n ->
      mem (rdram s') (pi_dram_addr_reg p + k) = u8 (mem (fread 0x20000 (g_fram_file (c_dev s)) (flashram (c_dev s))) (flash_offset s + k)).
Proof.
  intros p n Hm Ho Hd.
  set (s1 := on_dev (fun d => d <| flashram := fread 0x20000 (g_fram_file d) (flashram d) |>) s).
  pose proof (land_le_mask (pi_wr_len_reg p) 0xFFFFFF ltac:(lia)).
  assert (0 <= flash_offset s) by (pose proof (land_le_mask (u32 (pi_cart_addr_reg p - 0x08000000)) 0xFFFF ltac:(lia)); unfold flash_offset; fold p; lia).
  pose proof (copy_bytes_ok n rdram_array (pi_dram_addr_reg p) flashram_array (flash_offset s) s1) as Hcopy.
  specialize (Hcopy ltac:(apply arrays_lawful) ltac:(by intros m x) ltac:(lia)).
  specialize (Hcopy ltac:(split_and!; [lia|exact (proj2 Hd)|reflexivity..]) ltac:(split_and!; [lia|exact Ho|reflexivity..])).
  eexists. split.
  - unfold dma_read_flashram, dev, pi_now. rewrite bind_assoc, bind_get_l. cbn [bind obind ret].
    rewrite bind_assoc, bind_get_l. cbn [bind obind ret]. rewrite Hm. fold p. cbn [Z.eqb STATUS_MODE READ_MODE Pos.eqb].
    unfold mod_dev at 1. rewrite bind_modify_l. fold s1. fold n. exact Hcopy.
  - intros k Hk. 
    match goal with |- mem (rdram (arr_set rdram_array ?m _)) _ = ?r => change (mem m (pi_dram_addr_reg p + k) = r) end.
    rewrite mem_copied by lia. rewrite Z2Nat.id, Z.add_0_r by lia.
    destruct ((pi_dram_addr_reg p <=? _) && _) eqn:E2; [|lia]. by replace (pi_dram_addr_reg p + k - pi_dram_addr_reg p) with k by lia.
Qed.
End Flash.

(** A save in flash RAM is not read back after a restart: programming a block
    stores it in the file of the SRAM, but reading takes the file of the flash RAM,
    which nothing ever writes; so an emulator started anew (whose copy of the flash RAM
    is empty) reads what that file held before, whatever was saved. *)
Theorem flash_saves_lost {Q} `{EventQueue Q} (s t : core Q) :
  let f := d_flash (c_dev s) in
  let p := pi_register (c_mach t) in
  mode f = WRITE_MODE -> 0 <= erase_offset f /\ erase_offset f + 128 <= 0x20000 ->
  0 <= write_pointer f /\ write_pointer f + 128 <= 0x800000 ->
  mode (d_flash (c_dev t)) = READ_MODE -> Z.land (pi_wr_len_reg p) 0xFFFFFF = 127 ->
  flash_offset t = erase_offset f -> 0 <= pi_dram_addr_reg p /\ pi_dram_addr_reg p + 128 <= 0x800000 ->
  flashram (c_dev t) = ∅ ->
  exists s', flashram_command 0xd2000000 s = Ret (tt, s') /\ g_fram_file (c_dev s') = g_fram_file (c_dev s) /\
    (g_fram_file (c_dev t) = g_fram_file (c_dev s') ->
     exists t', dma_read_flashram t = Ret (tt, t') /\
       forall k, 0 <= k < 128 ->
         mem (f_data (g_sram_file (c_dev s'))) (erase_offset f + k) = u8 (mem (rdram s) (write_pointer f + k)) /\
         mem (rdram t') (pi_dram_addr_reg p + k) =
           u8 (mem (fread 0x20000 (g_fram_file (c_dev s)) ∅) (erase_offset f + k))).
Proof.
  intros f p Hm Ho Hw Ht Hn Hc Hd Hz.
  destruct (flash_program s Hm Ho Hw) as (s' & Es & Hf & _ & Hsave). exists s'. split; [exact Es|]. split; [exact Hf|]. intros Hsame.
  pose proof (flash_read t) as Hread. cbv zeta in Hread. fold p in Hread. rewrite Hn, Hc, Hsame, Hf, Hz in Hread.
  destruct (Hread Ht) as (t' & Et & Hr); [lia|lia|]. exists t'. split; [exact Et|]. intros k Hk. split; [by apply Hsave|by apply Hr].
Qed.

(** ** Examples *)

Definition with_pi (dram cart rd wr : Z) (s : core irq) : core irq :=
  s <| c_mach := (c_mach s) <| debug_count := 0x200000 |>
         <| pi_register := core_pi_reg_zero <| pi_dram_addr_reg := dram |> <| pi_cart_addr_reg := cart |>
              <| pi_rd_len_reg := rd |> <| pi_wr_len_reg := wr |> |> |>.

Definition counting : gmap Z Z := store_bytes 0 (seqZ 1 16) ∅.
Lemma counting_ok : bytes_ok counting.
Proof. apply store_bytes_ok; [|exact (map_Forall_empty _)]. repeat (constructor; [done|]). constructor. Qed.



(** Sixteen bytes at address 0x40 of SRAM. *)
Definition saving : core irq := with_pi 0 0x08000040 15 15 (reset_core <| rdram := counting |>).
Definition restored : core irq := with_pi 0x200 0x08000040 15 15 reset_core.

Lemma sram_roundtrip_witness :
  exists s', dma_pi_read saving = pi_done 1 0x1000 s' /\
    exists t', dma_pi_write (restored <| c_dev := (c_dev restored) <| g_sram_file := g_sram_file (c_dev s') |> |>) = pi_done 1 0x1000 t' /\
      mem (rdram t') 0x205 = 7.
Proof.
  assert (forall s : core irq, pi_cart_addr_reg (pi_register (c_mach s)) = 0x08000040 -> 0 <= pi_dram_addr_reg (pi_register (c_mach s)) <= 0x200 ->
    uses_flash (c_dev s) = false -> sram_fits s 16) as Hfits.
  { intros s Hc Hd Hf. unfold sram_fits, sram_offset. rewrite Hc. rewrite u32_id by done. repeat split; lia || done. }
  destruct (sram_roundtrip saving (Hfits saving eq_refl ltac:(done) eq_refl) counting_ok) as (s' & Es & Ht).
  exists s'. split; [exact Es|].
  set (t := restored <| c_dev := (c_dev restored) <| g_sram_file := g_sram_file (c_dev s') |> |>).
  assert (pi_cart_addr_reg (pi_register (c_mach t)) = 0x08000040) as Hc by reflexivity.
  assert (pi_dram_addr_reg (pi_register (c_mach t)) = 0x200) as Hd by reflexivity.
  assert (g_sram_file (c_dev t) = g_sram_file (c_dev s')) as Hfile by reflexivity.
  assert (uses_flash (c_dev t) = false) as Hu by reflexivity.
  assert (Z.land (pi_wr_len_reg (pi_register (c_mach t))) 0xFFFFFF + 1 = 16) as Hn by reflexivity.
  assert (sram_fits t 16) as Hfit by (apply Hfits; [exact Hc|rewrite Hd; split; discriminate|exact Hu]).
  clearbody t. destruct (Ht t Hfile Hfit Hc Hn) as (t' & Et & Hr).
  exists t'. split; [exact Et|]. rewrite Hd in Hr. exact (Hr 5 ltac:(split; [discriminate|reflexivity])).
Defined.

(** A block programmed at 0x100 of flash RAM, and read after a restart. *)
Definition programming : core irq :=
  reset_core <| rdram := counting |> <| c_dev := devices_zero <| d_flash := mk_flash 1 WRITE_MODE 0 0x100 0 |> |>.
Definition reading : core irq :=
  with_pi 0x200 0x08000080 0 127 (reset_core <| c_dev := devices_zero <| d_flash := mk_flash 1 READ_MODE 0 0 0 |> |>).

Lemma flash_saves_lost_witness :
  exists s', flashram_command 0xd2000000 programming = Ret (tt, s') /\
    exists t', dma_read_flashram reading = Ret (tt, t') /\
      mem (f_data (g_sram_file (c_dev s'))) 0x105 = 7 /\ mem (rdram t') 0x205 = 0.
Proof.
  destruct (flash_saves_lost programming reading eq_refl) as (s' & Es & Hf & Ht);
    [split; discriminate|split; discriminate|reflexivity|reflexivity|reflexivity|split; discriminate|reflexivity|].
  exists s'. split; [exact Es|].
  destruct Ht as (t' & Et & Hk); [rewrite Hf; reflexivity|exists t'; split; [exact Et|]].
  exact (Hk 5 ltac:(split; [discriminate|reflexivity])).
Defined.
