(* ===== verification/PifProps.v ===== *)
(** * Controller paks and the command loops

    The checksum of a controller pak block is a polynomial remainder, a block written
    to a controller pak or to the EEPROM is read back, and the loops over the commands
    in PIF RAM end. *)

From S2P Require Import Prelude Hoare Pool Controller Queue Machine Exception Alu AluProps DeviceState Core Dma PifLut Pif SummerCart Bus BusProps WfProps DmaProps.

Open Scope prog_scope.
#[local] Open Scope Z_scope.

(** ** Polynomials over the field of two elements, as the bits of a number *)

(** The product of [a] (of degree below [n]) and [b]. *)
Fixpoint poly_mul (n : nat) (a b : Z) : Z :=
  match n with
  | O => 0
  | S n => Z.lxor (if Z.odd a then b else 0) (Z.shiftl (poly_mul n (Z.div2 a) b) 1)
  end.

(** [r] is the remainder of [m] divided by x^8 + x^7 + x^2 + 1, with a quotient of
    degree below [n]. *)
Definition crc_poly : Z := 0x185.
Definition is_remainder (n : nat) (m r : Z) : Prop :=
  0 <= r < 256 /\ exists q, 0 <= q < 2 ^ Z.of_nat n /\ m = Z.lxor (poly_mul n q crc_poly) r.

Lemma lxor_cancel a b c : Z.lxor a (Z.lxor b c) = Z.lxor b (Z.lxor a c).
Proof. rewrite <- !Z.lxor_assoc. by rewrite (Z.lxor_comm a b). Qed.

Lemma poly_mul_lxor n a a' b : poly_mul n (Z.lxor a a') b = Z.lxor (poly_mul n a b) (poly_mul n a' b).
Proof.
  revert a a'. induction n as [|n IH]; intros a a'; [done|]. cbn [poly_mul].
  rewrite !Z.div2_spec, Z.shiftr_lxor, <- !Z.div2_spec, IH, Z.shiftl_lxor.
  rewrite <- !Z.bit0_odd, Z.lxor_spec.
  set (X := Z.shiftl (poly_mul n (Z.div2 a) b) 1). set (Y := Z.shiftl _ 1).
  destruct (Z.testbit a 0), (Z.testbit a' 0); cbn [xorb]; rewrite ?Z.lxor_0_l, ?Z.lxor_assoc; try done.
  - by rewrite (lxor_cancel X b Y), <- (Z.lxor_assoc b b), Z.lxor_nilpotent, Z.lxor_0_l.
  - apply lxor_cancel.
Qed.

Lemma poly_mul_0 n b : poly_mul n 0 b = 0.
Proof. induction n as [|n IH]; [done|]. cbn [poly_mul]. change (Z.div2 0) with 0. by rewrite IH. Qed.

(** A product with the polynomial has degree at least 8. *)
Lemma lxor_high x y k : 0 <= k -> 0 <= y < 2 ^ k -> 2 ^ k <= x -> 2 ^ k <= Z.lxor x y.
Proof.
  intros Hk Hy Hx. assert (0 < 2 ^ k) by (apply Z.pow_pos_nonneg; lia).
  assert (Z.shiftr (Z.lxor x y) k = Z.shiftr x k) as E.
  { rewrite Z.shiftr_lxor. replace (Z.shiftr y k) with 0; [apply Z.lxor_0_r|].
    rewrite Z.shiftr_div_pow2 by lia. symmetry. by apply Z.div_small. }
  rewrite !Z.shiftr_div_pow2 in E by lia.
  assert (1 <= x / 2 ^ k) by (apply Z.div_le_lower_bound; lia).
  pose proof (Z.div_mod (Z.lxor x y) (2 ^ k)). pose proof (Z.mod_pos_bound (Z.lxor x y) (2 ^ k)). nia.
Qed.

Lemma poly_mul_high n q : 0 < q < 2 ^ Z.of_nat n -> 2 ^ 8 <= poly_mul n q crc_poly.
Proof.
  revert q. induction n as [|n IH]; intros q Hq; [change (2 ^ Z.of_nat 0) with 1 in Hq; lia|].
  rewrite Nat2Z.inj_succ, Z.pow_succ_r in Hq by lia. cbn [poly_mul]. pose proof (Z.div2_odd q) as Eq.
  destruct (Z.eq_dec (Z.div2 q) 0) as [E|E].
  - rewrite E, poly_mul_0. destruct (Z.odd q); [by vm_compute|cbn [Z.b2z] in Eq; lia].
  - assert (2 ^ 8 <= poly_mul n (Z.div2 q) crc_poly) as Hp by (apply IH; destruct (Z.odd q); cbn [Z.b2z] in Eq; lia).
    rewrite Z.lxor_comm. rewrite Z.shiftl_mul_pow2 by lia.
    assert (2 ^ 9 <= Z.lxor (poly_mul n (Z.div2 q) crc_poly * 2 ^ 1) (if Z.odd q then crc_poly else 0)); [|lia].
    apply lxor_high; [lia|destruct (Z.odd q); by vm_compute|]. lia.
Qed.

Lemma lxor_swap a b c d : Z.lxor a b = Z.lxor c d -> Z.lxor a c = Z.lxor b d.
Proof.
  intros E. apply Z.bits_inj'. intros k _. apply (f_equal (fun z => Z.testbit z k)) in E. rewrite !Z.lxor_spec in *.
  by destruct (Z.testbit a k), (Z.testbit b k), (Z.testbit c k), (Z.testbit d k).
Qed.

Lemma below_pow2 x k : 0 <= k -> (0 <= x < 2 ^ k <-> Z.shiftr x k = 0).
Proof.
  intros Hk. rewrite Z.shiftr_div_pow2 by done. assert (0 < 2 ^ k) by (apply Z.pow_pos_nonneg; lia).
  split; [apply Z.div_small|]. intros E. pose proof (Z.div_mod x (2 ^ k)). pose proof (Z.mod_pos_bound x (2 ^ k)). lia.
Qed.

Lemma lxor_below x y k : 0 <= k -> 0 <= x < 2 ^ k -> 0 <= y < 2 ^ k -> 0 <= Z.lxor x y < 2 ^ k.
Proof. intros Hk. rewrite !below_pow2, Z.shiftr_lxor by done. by intros -> ->. Qed.

Lemma remainder_unique n m r r' : is_remainder n m r -> is_remainder n m r' -> r = r'.
Proof.
  intros (Hr & q & Hq & Em) (Hr' & q' & Hq' & Em'). rewrite Em in Em'. apply lxor_swap in Em'.
  rewrite <- poly_mul_lxor in Em'. apply Z.lxor_eq. rewrite <- Em'.
  pose proof (lxor_below q q' (Z.of_nat n) ltac:(lia) Hq Hq') as Hb.
  destruct (Z.eq_dec (Z.lxor q q') 0) as [->|Hne]; [apply poly_mul_0|].
  pose proof (poly_mul_high n (Z.lxor q q') ltac:(lia)). pose proof (lxor_below r r' 8 ltac:(lia) Hr Hr'). lia.
Qed.

(** ** The shift register *)

(** One bit: the register doubles, takes the bit, and is reduced. *)
Lemma crc_bit_step c b : is_u8 c ->
  is_u8 (crc_bit c b) /\ 2 * c + Z.b2z b = Z.lxor (if has_bits c 0x80 then crc_poly else 0) (crc_bit c b).
Proof.
  intros Hc.
  assert (forallb (fun c => forallb (fun b => (0 <=? crc_bit c b) && (crc_bit c b <? 256) &&
    (2 * c + Z.b2z b =? Z.lxor (if has_bits c 0x80 then crc_poly else 0) (crc_bit c b))) [false; true]) (seqZ 0 256) = true) as Hall
    by (vm_compute; reflexivity).
  rewrite forallb_forall in Hall. specialize (Hall c ltac:(apply list_elem_of_In, elem_of_seqZ; unfold is_u8 in Hc; lia)).
  rewrite forallb_forall in Hall. specialize (Hall b ltac:(destruct b; simpl; tauto)).
  apply andb_prop in Hall as [[H1 H2]%andb_prop H3]. unfold is_u8. lia.
Qed.

Lemma double_plus_bit y b : 2 * y + Z.b2z b = Z.lxor (Z.shiftl y 1) (Z.b2z b).
Proof.
  rewrite Z.shiftl_mul_pow2, (Z.mul_comm y) by lia. change (2 ^ 1) with 2. apply Z.add_nocarry_lxor.
  destruct b; cbn [Z.b2z]; [|apply Z.land_0_r]. change 1 with (Z.ones 1). rewrite Z.land_ones by lia.
  change (2 ^ 1) with 2. rewrite Z.mul_comm. apply Z.mod_mul. lia.
Qed.

Lemma remainder_step n m c b : is_remainder n m c -> is_remainder (S n) (2 * m + Z.b2z b) (crc_bit c b).
Proof.
  intros (Hc & q & Hq & ->). destruct (crc_bit_step c b Hc) as [Hr E]. split; [exact Hr|].
  set (t := has_bits c 0x80) in E. exists (2 * q + Z.b2z t).
  assert (0 <= Z.b2z t <= 1) by (destruct t; simpl; lia).
  split; [rewrite Nat2Z.inj_succ, Z.pow_succ_r by lia; lia|]. cbn [poly_mul].
  assert (Z.odd (2 * q + Z.b2z t) = t) as -> by (rewrite Z.add_comm, Z.odd_add_mul_2; by destruct t).
  assert (Z.div2 (2 * q + Z.b2z t) = q) as -> by (rewrite Z.div2_div; Z.div_mod_to_equations; lia).
  rewrite double_plus_bit, Z.shiftl_lxor, Z.lxor_assoc, <- double_plus_bit, E, lxor_cancel. by rewrite Z.lxor_assoc.
Qed.

(** The bits of a byte, and of a sequence of bytes. *)
Lemma byte_of_bits byte : is_u8 byte ->
  byte = fold_left (fun v mask => 2 * v + Z.b2z (has_bits byte mask)) masks 0.
Proof.
  intros Hb.
  assert (forallb (fun b => b =? fold_left (fun v mask => 2 * v + Z.b2z (has_bits b mask)) masks 0) (seqZ 0 256) = true) as Hall
    by (vm_compute; reflexivity).
  rewrite forallb_forall in Hall. apply Z.eqb_eq, Hall, list_elem_of_In, elem_of_seqZ. unfold is_u8 in Hb. lia.
Qed.

Lemma remainder_byte n m c byte : is_u8 byte -> is_remainder n m c -> is_remainder (8 + n) (256 * m + byte) (crc_byte c byte).
Proof.
  intros Hb Hc. rewrite (byte_of_bits byte Hb) at 1.
  replace (256 * m + _) with (fold_left (fun v mask => 2 * v + Z.b2z (has_bits byte mask)) masks m)
    by (unfold masks; cbn [fold_left]; lia).
  unfold crc_byte, masks. cbn [fold_left]. change (8 + n)%nat with (S (S (S (S (S (S (S (S n)))))))).
  by repeat apply remainder_step.
Qed.

Lemma remainder_bytes l n m c : Forall is_u8 l -> is_remainder n m c ->
  is_remainder (8 * length l + n) (fold_left (fun v b => 256 * v + b) l m) (fold_left crc_byte l c).
Proof.
  intros Hl. revert n m c. induction Hl as [|b l Hb Hl IH]; intros n m c Hc; [exact Hc|]. cbn [fold_left length].
  replace (8 * S (length l) + n)%nat with (8 * length l + (8 + n))%nat by lia. apply IH. by apply remainder_byte.
Qed.

Lemma le_combine_app l k : le_combine (l ++ k) = le_combine l + 256 ^ Z.of_nat (length l) * le_combine k.
Proof.
  induction l as [|b l IH]; [cbn; lia|]. cbn [app le_combine length]. rewrite IH, Nat2Z.inj_succ, Z.pow_succ_r by lia. lia.
Qed.

Lemma be_number_fold l m : fold_left (fun v b => 256 * v + b) l m = m * 256 ^ Z.of_nat (length l) + be_number l.
Proof.
  unfold be_number. revert m. induction l as [|b l IH]; intros m; [cbn; lia|]. cbn [fold_left rev length].
  rewrite IH, le_combine_app. cbn [le_combine]. rewrite length_rev, Nat2Z.inj_succ, Z.pow_succ_r by lia. lia.
Qed.

(** C34.  The checksum of a controller pak block is its CRC: the remainder of the
    block's 256 bits, followed by eight zero bits, divided by the polynomial
    x^8 + x^7 + x^2 + 1 over the field of two elements, and nothing else is. *)
Theorem mempack_crc_is_remainder data r :
  length data = 32%nat -> Forall is_u8 data -> (is_remainder 264 (256 * be_number data) r <-> r = mempack_crc data).
Proof.
  intros Hl Hd.
  assert (is_remainder 264 (256 * be_number data) (mempack_crc data)) as Hc.
  { unfold mempack_crc. rewrite take_ge by lia.
    assert (is_remainder 0 0 0) as H0 by (split; [lia|exists 0; by vm_compute]).
    pose proof (remainder_bytes data 0 0 0 Hd H0) as Hr. rewrite be_number_fold, Hl in Hr.
    pose proof (remainder_byte _ _ _ 0 ltac:(done) Hr) as Hz. rewrite Z.add_0_r in Hz. exact Hz. }
  split; [intros Hr; by apply (remainder_unique 264 (256 * be_number data))|by intros ->].
Qed.

(** ** Termination *)

Ltac ends_auto := ends_by ltac:(fun _ =>
  lazymatch goal with |- ends _ (mod_dev _) _ => apply spares_modify; intros ? ?; assumption end).

(** The bytes of PIF RAM. *)
Definition pif_ok {Q} (s : core Q) : Prop := Forall is_u8 (PIF_RAMb (c_mach s)).

(** The plugin and the front end return and leave bytes in PIF RAM. *)
Class ReturningHost (Q : Type) `{EventQueue Q, !PifHost Q} : Prop := {
  rh_poll k : ends pif_ok (controller_poll k) (fun _ => pif_ok);
  rh_command k c : ends pif_ok (input_controller_command k c) (fun _ => pif_ok);
  rh_read k c : ends pif_ok (input_read_controller k c) (fun _ => pif_ok);
  rh_input k c : ends pif_ok (input_callback k c) (fun _ => pif_ok);
  rh_idle : ends pif_ok vcr_idle (fun _ => pif_ok);
  rh_paused : ends pif_ok paused_now (fun _ => pif_ok);
  rh_wait : ends pif_ok wait_counter (fun _ => pif_ok);
  rh_pause : ends pif_ok pause_emu (fun _ => pif_ok);
  rh_resumed b : ends pif_ok (wait_until_resumed b) (fun _ => pif_ok);
  rh_work : ends pif_ok st_do_work (fun _ => pif_ok);
}.
#[export] Hint Resolve rh_poll rh_command rh_read rh_input rh_idle rh_paused rh_wait rh_pause rh_resumed rh_work : ends.

Section Loops.
Context {Q : Type} `{EventQueue Q, !PifHost Q, !ReturningHost Q}.
#[local] Abbreviation st := (core Q).
Implicit Types s : st.
#[local] Abbreviation quiet m := (ends pif_ok m (fun _ => pif_ok)).

Lemma ends_pif_byte k : ends pif_ok (pif k : M st Z) (fun b s => pif_ok s /\ is_u8 b).
Proof.
  intros s Hs. unfold pif. rewrite bind_get_l. destruct (PIF_RAMb (c_mach s) !! Z.to_nat k) as [b|] eqn:E; [|done].
  destruct (0 <=? k); [|done]. split; [exact Hs|exact (Forall_lookup_1 _ _ _ _ Hs E)].
Qed.
Lemma ends_pif k : quiet (pif k : M st Z).
Proof. intros s Hs. pose proof (ends_pif_byte k s Hs). destruct (pif k s) as [[]|]; tauto. Qed.

Lemma ends_dev : quiet (dev : M st _).
Proof. apply spares_get. intros s0 _. apply spares_ret. Qed.
Lemma ends_mod_mach g : (forall m, PIF_RAMb (g m) = PIF_RAMb m) -> quiet (mod_mach g : M st unit).
Proof. intros Hg s Hs. unfold pif_ok. simpl. by rewrite Hg. Qed.
Lemma ends_set_pif k v : quiet (set_pif k v : M st unit).
Proof.
  unfold set_pif. apply spares_get. intros s0 _. destruct (_ && _); [|by apply spares_undef].
  intros s Hs. apply Forall_insert; [exact Hs|apply u8_range].
Qed.
#[local] Hint Resolve ends_pif ends_dev ends_set_pif : ends.
#[local] Hint Extern 1 (ends _ (mod_mach _) _) => apply ends_mod_mach; reflexivity : ends.

Lemma ends_pif_bytes n k : quiet (pif_bytes n k : M st _).
Proof. revert k. induction n as [|n IH]; intros k; [apply spares_ret|]. cbn [pif_bytes]. ends_auto. Qed.
Lemma ends_set_pif_bytes k l : quiet (set_pif_bytes k l : M st _).
Proof. revert k. induction l as [|b l IH]; intros k; [apply spares_ret|]. cbn [set_pif_bytes]. ends_auto. Qed.
#[local] Hint Resolve ends_pif_bytes ends_set_pif_bytes : ends.
Lemma ends_or_pif k b : quiet (or_pif k b : M st unit).
Proof. unfold or_pif. ends_auto. Qed.
Lemma ends_control k : quiet (control k : M st _).
Proof. unfold control. ends_auto. Qed.
Lemma ends_put_crc c : quiet (put_crc c : M st unit).
Proof. unfold put_crc. ends_auto. Qed.
Lemma ends_pak_address c : quiet (pak_address c : M st Z).
Proof. unfold pak_address. ends_auto. Qed.
#[local] Hint Resolve ends_or_pif ends_control ends_put_crc ends_pak_address : ends.

Lemma ends_run_command channel i : quiet (run_command channel i : M st unit).
Proof.
  assert (forall k c, quiet (internal_ControllerCommand k c : M st unit)) by (intros;
    unfold internal_ControllerCommand, read_mempak, write_mempak, load_mempacks, raw_command; ends_auto).
  unfold run_command, EepromCommand, load_eeprom. ends_auto.
Qed.
Lemma ends_read_controller channel i once ok : quiet (read_controller channel i once ok : M st _).
Proof. unfold read_controller, frame_pause, internal_ReadController. ends_auto. Qed.
#[local] Hint Resolve ends_run_command ends_read_controller : ends.

(** A command ends behind where it starts. *)
Lemma ends_command_end i : ends pif_ok (command_end i : M st Z) (fun e s => pif_ok s /\ i < e).
Proof.
  unfold command_end. eapply spares_bind; [apply ends_pif_byte|]. intros tx s [Hs Ht]. revert s Hs.
  change (ends pif_ok (rx <-- pif (i + 1) ;;; ret (i + tx + Z.land rx 0x3F + 1) : M st Z) (fun e s => pif_ok s /\ i < e)).
  apply spares_seq; [apply ends_pif|]. intros rx s Hs. split; [exact Hs|].
  pose proof (land_le_mask rx 0x3F ltac:(lia)). unfold is_u8 in Ht. lia.
Qed.

Lemma ends_after {A} i (k : Z -> M st A) T :
  (forall e, i < e -> ends pif_ok (k e) T) -> ends pif_ok (e <-- command_end i ;;; k e) T.
Proof. intros Hk. eapply spares_bind; [apply ends_command_end|]. intros e s [Hs He]. exact (Hk e He s Hs). Qed.

Lemma ends_write_loop fuel i channel : 64 - i <= Z.of_nat fuel -> quiet (write_loop fuel i channel : M st unit).
Proof.
  revert i channel. induction fuel as [|fuel IH]; intros i channel Hf; cbn [write_loop];
    (destruct (Z.leb_spec 0x40 i); [apply spares_ret|]); [lia|]. rewrite Nat2Z.inj_succ in Hf.
  apply spares_seq; [apply ends_pif|]. intros b.
  destruct (b =? 0x00); [destruct (6 <? _); [apply spares_ret|apply IH; lia]|]. destruct (b =? 0xFF); [apply IH; lia|].
  destruct (negb _); [|apply spares_ret]. apply spares_seq; [apply ends_run_command|]. intros _.
  apply ends_after. intros e He. apply IH. lia.
Qed.

Lemma ends_read_loop fuel i channel once ok : 64 - i <= Z.of_nat fuel -> quiet (read_loop fuel i channel once ok : M st bool).
Proof.
  revert i channel once ok. induction fuel as [|fuel IH]; intros i channel once ok Hf; cbn [read_loop];
    (destruct (Z.leb_spec 0x40 i); [apply spares_ret|]); [lia|]. rewrite Nat2Z.inj_succ in Hf.
  apply spares_seq; [apply ends_pif|]. intros b.
  destruct (b =? 0x00); [destruct (6 <? _); [apply spares_ret|apply IH; lia]|]. destruct (b =? 0xFE); [apply spares_ret|].
  destruct (_ || _); [apply IH; lia|]. destruct (negb _); [|apply spares_ret].
  apply spares_seq; [destruct (channel <? 4); [apply ends_read_controller|apply spares_ret]|]. intros r.
  destruct (negb _); [apply spares_ret|]. apply ends_after. intros e He. apply IH. lia.
Qed.
End Loops.

(** C35.  The PIF always gets to the end of its commands: whatever 64 bytes a game
    leaves in PIF RAM, both loops over the commands stop (every round moves on by at
    least one byte) and leave bytes in PIF RAM, provided the calls into the input
    plugin and the front end return. *)
Theorem pif_commands_terminate {Q} `{EventQueue Q, !PifHost Q, !ReturningHost Q} (s : core Q) :
  pif_ok s ->
  match update_pif_write s with Ret (_, s') => pif_ok s' | Undef f => f <> Diverges end /\
  match update_pif_read s with Ret (_, s') => pif_ok s' | Undef f => f <> Diverges end.
Proof.
  intros Hs. split; revert s Hs.
  - apply (spares_seq Diverges pif_ok (pif 0x3F)); [apply ends_pif|]. intros b. destruct (1 <? b).
    + unfold pif_special. repeat first [apply spares_seq; [apply ends_pif_bytes|intros ?] | apply ends_set_pif_bytes
        | apply ends_set_pif | apply spares_ret | match goal with |- ends _ (match ?x with _ => _ end) _ => destruct x end].
    + apply spares_seq; [apply ends_write_loop; done|intros _; apply rh_command].
  - apply (spares_seq Diverges pif_ok paused_now); [apply rh_paused|]. intros paused. apply spares_seq; [apply rh_wait|]. intros w.
    apply spares_get. intros s0 _. apply spares_seq; [apply ends_read_loop; done|]. intros go. apply spares_when, rh_read.
Qed.

(** ** Examples *)

(** The block of the bytes 0 to 31. *)
Lemma mempack_crc_is_remainder_witness : is_remainder 264 (256 * be_number (seqZ 0 32)) 51.
Proof.
  apply (mempack_crc_is_remainder (seqZ 0 32)); [reflexivity| |vm_compute; reflexivity].
  apply Forall_forall. intros x Hx. apply elem_of_seqZ in Hx. unfold is_u8. lia.
Defined.

#[local] Instance returning_host : PifHost irq := {|
  controller_poll _ := ret 0x12345678; input_controller_command _ _ := ret tt; input_read_controller _ _ := ret tt;
  has_controller_command := false; input_callback _ _ := ret tt; vcr_idle := ret true; paused_now := ret false;
  wait_counter := ret 0; pause_emu := ret tt; wait_until_resumed _ := ret tt; st_do_work := ret tt |}.
#[local] Instance returning : ReturningHost irq.
Proof. split; intros; apply spares_ret. Qed.

(** PIF RAM that asks for the state of the first controller, which is plugged in. *)
Definition polling : core irq :=
  let s := reset_core <| c_dev := devices_zero <| controls := replicate 4 (Controller true false ce_none) |> |> in
  s <| c_mach := (c_mach s) <| PIF_RAMb := [1; 4; 1; 0; 0; 0; 0; 0xFE] ++ replicate 56 0 |> |>.

Lemma pif_commands_terminate_witness :
  exists s', update_pif_read polling = Ret (tt, s') /\ pif_ok s' /\
    take 7 (PIF_RAMb (c_mach s')) = [1; 4; 1; 0x78; 0x56; 0x34; 0x12].
Proof.
  assert (pif_ok polling) as Hp.
  { unfold pif_ok. apply Forall_app_2; [|by apply Forall_replicate].
    repeat (apply Forall_cons_2; [split; [discriminate|reflexivity]|]). apply Forall_nil_2. }
  destruct (pif_commands_terminate polling Hp) as [_ Hr].
  assert (option_map (fun r => take 7 (PIF_RAMb (c_mach (r.2)))) (match update_pif_read polling with Ret r => Some r | Undef _ => None end)
    = Some [1; 4; 1; 0x78; 0x56; 0x34; 0x12]) as Hv by (vm_compute; reflexivity).
  destruct (update_pif_read polling) as [[[] s']|f]; [|discriminate Hv].
  exists s'. split; [reflexivity|]. split; [exact Hr|]. by injection Hv.
Defined.
