(* ===== verification/PakProps.v ===== *)
(** * What is written to a controller pak or to the EEPROM is read back *)

From S2P Require Import Prelude Hoare Pool Controller Queue Machine Exception Alu AluProps DeviceState Core Dma PifLut Pif SummerCart Bus BusProps WfProps DmaProps PifProps.

Open Scope prog_scope.
#[local] Open Scope Z_scope.

(** ** Blocks of memory *)

Lemma load_bytes_ext n off m m' :
  (forall x, off <= x < off + Z.of_nat n -> byte_at m x = byte_at m' x) -> load_bytes n off m = load_bytes n off m'.
Proof.
  revert off. induction n as [|n IH]; intros off Hx; [done|]. cbn [load_bytes]. rewrite Nat2Z.inj_succ in Hx.
  rewrite (Hx off) by lia. f_equal. apply IH. intros x Hr. apply Hx. lia.
Qed.

Lemma load_bytes_lookup n off m i : (i < n)%nat -> load_bytes n off m !! i = Some (byte_at m (off + Z.of_nat i)).
Proof.
  revert off i. induction n as [|n IH]; intros off i Hi; [lia|]. cbn [load_bytes]. destruct i as [|i]; [cbn; by rewrite Z.add_0_r|].
  cbn [lookup list_lookup]. rewrite IH by lia. do 2 f_equal. lia.
Qed.

Lemma load_store_bytes off l m : load_bytes (length l) off (store_bytes off l m) = l.
Proof.
  apply list_eq. intros i. destruct (decide (i < length l)%nat) as [Hi|Hi].
  - rewrite load_bytes_lookup by done. rewrite store_bytes_lookup.
    destruct (Z.leb_spec off (off + Z.of_nat i)), (Z.ltb_spec (off + Z.of_nat i) (off + Z.of_nat (length l))); try lia. cbn [andb].
    replace (Z.to_nat (off + Z.of_nat i - off)) with i by lia. rewrite list_lookup_lookup_total_lt by done. done.
  - rewrite !lookup_ge_None_2; [done|lia|rewrite length_load_bytes; lia].
Qed.

(** What a file holds after it was written whole, read into memory again. *)
Lemma reload n m f arr x : 0 <= x < n -> byte_at (fread n (fwrite n m f) arr) x = byte_at m x.
Proof.
  intros Hx. rewrite byte_at_fread by (cbn; lia). cbn [fwrite f_len].
  destruct ((0 <=? x) && (x <? Z.min n (Z.max n (f_len f)))) eqn:E; [|lia].
  fold (fwrite n m f). change (File (n `max` f_len f) (blit (Z.to_nat n) 0 m (f_data f))) with (fwrite n m f).
  rewrite byte_at_fwrite by lia. destruct ((0 <=? x) && (x <? n)) eqn:E2; [done|lia].
Qed.

Section Pak.
Context {Q : Type} `{EventQueue Q, !PifHost Q}.
#[local] Abbreviation st := (core Q).
Implicit Types s : st.

(** ** PIF RAM as a list *)

Definition ram s : list Z := PIF_RAMb (c_mach s).
Definition with_pif (r : list Z) s : st := s <| c_mach := (c_mach s) <| PIF_RAMb := r |> |>.

Lemma pif_at k b s : 0 <= k -> ram s !! Z.to_nat k = Some b -> pif k s = Ret (b, s).
Proof. intros Hk E. unfold pif. rewrite bind_get_l. fold (ram s). rewrite E. destruct (Z.leb_spec 0 k); [done|lia]. Qed.

Lemma pif_bytes_at n k s : 0 <= k -> k + Z.of_nat n <= Z.of_nat (length (ram s)) ->
  pif_bytes n k s = Ret (take n (drop (Z.to_nat k) (ram s)), s).
Proof.
  revert k. induction n as [|n IH]; intros k Hk Hn; [done|]. rewrite Nat2Z.inj_succ in Hn. cbn [pif_bytes].
  destruct (lookup_lt_is_Some_2 (ram s) (Z.to_nat k) ltac:(lia)) as [b Eb].
  rewrite (bind_Ret _ _ _ _ _ (pif_at k b s Hk Eb)), (bind_Ret _ _ _ _ _ (IH (k + 1) ltac:(lia) ltac:(lia))).
  rewrite (drop_S _ b (Z.to_nat k) Eb). cbn [take]. by replace (Z.to_nat (k + 1)) with (S (Z.to_nat k)) by lia.
Qed.

Lemma set_pif_at k v s : 0 <= k < Z.of_nat (length (ram s)) -> set_pif k v s = Ret (tt, with_pif (<[Z.to_nat k := u8 v]> (ram s)) s).
Proof.
  intros Hk. unfold set_pif. rewrite bind_get_l. fold (ram s).
  destruct (Z.leb_spec 0 k), (Nat.ltb_spec (Z.to_nat k) (length (ram s))); try lia. reflexivity.
Qed.

(** [l] in place of what [r] has from [k] on. *)
Definition spliced (k : nat) (l r r' : list Z) : Prop :=
  length r' = length r /\ forall i, r' !! i = if decide (k <= i < k + length l)%nat then l !! (i - k)%nat else r !! i.

Lemma set_pif_bytes_at l k s : Forall is_u8 l -> 0 <= k -> k + Z.of_nat (length l) <= Z.of_nat (length (ram s)) ->
  exists r, set_pif_bytes k l s = Ret (tt, with_pif r s) /\ spliced (Z.to_nat k) l (ram s) r.
Proof.
  intros Hl. revert k s. induction Hl as [|b l Hb Hl IH]; intros k s Hk Hn.
  - exists (ram s). split; [by destruct s as [? ? ? [] ? ? ? ? ? ? ? ? ? ? ? ?]|]. split; [done|]. intros i. case_decide; [simpl in *; lia|done].
  - cbn [length] in Hn. rewrite Nat2Z.inj_succ in Hn.
    destruct (IH (k + 1) (with_pif (<[Z.to_nat k := b]> (ram s)) s)) as (r & E & Hlen & Hr);
      [lia|change (k + 1 + Z.of_nat (length l) <= Z.of_nat (length (<[Z.to_nat k := b]> (ram s)))); rewrite length_insert; lia|].
    exists r. split.
    + cbn [set_pif_bytes]. rewrite (bind_Ret _ _ _ _ _ (set_pif_at k b s ltac:(lia))), u8_id by done. exact E.
    + assert (ram (with_pif (<[Z.to_nat k := b]> (ram s)) s) = <[Z.to_nat k := b]> (ram s)) as Er by done. rewrite Er in Hlen, Hr.
      split; [by rewrite Hlen, length_insert|]. intros i. rewrite Hr. replace (Z.to_nat (k + 1)) with (S (Z.to_nat k)) by lia. cbn [length].
      destruct (decide (i = Z.to_nat k)) as [->|Hi].
      * rewrite decide_False by lia. rewrite decide_True by lia. rewrite list_lookup_insert_eq by lia. by rewrite Nat.sub_diag.
      * case_decide; [rewrite decide_True by lia; by replace (i - Z.to_nat k)%nat with (S (i - S (Z.to_nat k))) by lia|].
        rewrite decide_False by lia. by rewrite list_lookup_insert_ne.
Qed.


(** [n] bytes of PIF RAM from [k] on. *)
Definition at_pif (k : Z) (n : nat) s : list Z := take n (drop (Z.to_nat k) (ram s)).

Lemma at_pif_spliced k l s r : spliced (Z.to_nat k) l (ram s) r -> at_pif k (length l) (with_pif r s) = l.
Proof.
  intros [Hl Hr]. apply list_eq. intros i. unfold at_pif. change (ram (with_pif r s)) with r.
  destruct (decide (i < length l)%nat) as [Hi|Hi].
  - rewrite lookup_take_lt by done. rewrite lookup_drop, Hr, decide_True by lia. f_equal. lia.
  - rewrite lookup_take_ge by lia. by rewrite lookup_ge_None_2 by lia.
Qed.

(** ** Controller paks *)

(** The command at [c]: its code, and the block it addresses. *)
Record pak_command (c cmd a : Z) s : Prop := {
  pc_ram : length (ram s) = 64%nat;
  pc_bytes : Forall is_u8 (ram s);
  pc_fits : 0 <= c /\ c + 0x25 < 64;
  pc_code : ram s !! Z.to_nat (c + 2) = Some cmd;
  pc_block : exists h l, ram s !! Z.to_nat (c + 3) = Some h /\ ram s !! Z.to_nat (c + 4) = Some l /\
    a = Z.land (Z.lor (Z.shiftl h 8) l) 0xFFE0 /\ a <= 0x7FE0
}.
Definition has_mempak (k : Z) s : Prop :=
  exists p, controls (c_dev s) !! Z.to_nat k = Some p /\ Present p = true /\ Plugin p = ce_mempak.

Lemma crc_u8 data : is_u8 (mempack_crc data).
Proof.
  assert (forall l c, is_u8 c -> is_u8 (fold_left (fun c (b : bool) => crc_bit c b) l c)) as Hf.
  { induction l as [|b l IH]; intros c Hc; [exact Hc|]. apply IH. by apply crc_bit_step. }
  assert (forall byte c, is_u8 c -> is_u8 (crc_byte c byte)) as Hb.
  { intros byte c Hc. exact (Hf (map (has_bits byte) masks) c Hc). }
  unfold mempack_crc. apply Hb. generalize (take 0x20 data). intros l.
  assert (forall c, is_u8 c -> is_u8 (fold_left crc_byte l c)) as Hl; [|by apply Hl].
  induction l as [|b l IH]; intros c Hc; [exact Hc|]. apply IH, Hb, Hc.
Qed.

Lemma put_crc_at c s : 0 <= c -> c + 0x25 < Z.of_nat (length (ram s)) ->
  put_crc c s = Ret (tt, with_pif (<[Z.to_nat (c + 0x25) := mempack_crc (at_pif (c + 5) 32 s)]> (ram s)) s).
Proof.
  intros Hc Hn. unfold put_crc. rewrite (bind_Ret _ _ _ _ _ (pif_bytes_at 0x20 (c + 5) s ltac:(lia) ltac:(lia))).
  rewrite set_pif_at by lia. by rewrite u8_id by apply crc_u8.
Qed.

(** The command reaches the pak. *)
Lemma pak_dispatch k c cmd a s : pak_command c cmd a s -> has_mempak k s -> cmd = 2 \/ cmd = 3 ->
  internal_ControllerCommand k c s = (if cmd =? 2 then read_mempak k c else write_mempak k c) s.
Proof.
  intros [] (p & Ep & Hp & Hm) Hcmd. unfold internal_ControllerCommand.
  assert (control k s = Ret (p, s)) as Ec by (unfold control, dev; rewrite bind_assoc, bind_get_l; cbn [bind obind ret]; by rewrite Ep).
  destruct Hcmd as [-> | ->]; rewrite (bind_Ret _ _ _ _ _ (pif_at (c + 2) _ s ltac:(lia) pc_code0)); cbv iota;
    rewrite (bind_Ret _ _ _ _ _ Ec), Hp, Hm; reflexivity.
Qed.

Lemma pak_block c cmd a s : pak_command c cmd a s ->
  exists A, pak_address c s = Ret (A, s) /\ A <> 0x8001 /\ Z.land A 0xFFE0 = a /\ 0 <= a <= 0x7FE0.
Proof.
  intros [? ? ? ? (h & l & Eh & El & -> & Ha)]. exists (Z.lor (Z.shiftl h 8) l).
  unfold pak_address. rewrite (bind_Ret _ _ _ _ _ (pif_at (c + 3) h s ltac:(lia) Eh)), (bind_Ret _ _ _ _ _ (pif_at (c + 4) l s ltac:(lia) El)).
  split_and!; [done| |done|apply land_le_mask; lia|done]. intros E. rewrite E in Ha. by vm_compute in Ha.
Qed.

Lemma write_mempak_at k c a s : pak_command c 3 a s -> has_mempak k s -> 0 <= k < 4 ->
  exists s', internal_ControllerCommand k c s = Ret (tt, s') /\
    g_mpak_file (c_dev s') =
      fwrite 0x20000 (store_bytes (k * 0x8000 + a) (at_pif (c + 5) 32 s)
        (fread 0x20000 (g_mpak_file (c_dev s)) (mempack (c_dev s)))) (g_mpak_file (c_dev s)).
Proof.
  intros Hc Hp Hk. rewrite (pak_dispatch k c 3 a s Hc Hp (or_intror eq_refl)). cbn [Z.eqb Pos.eqb].
  destruct (pak_block c 3 a s Hc) as (A & EA & Hne & Ea & Ha). destruct Hc as [Hl _ [Hc0 Hcn] _ _].
  unfold write_mempak. rewrite (bind_Ret _ _ _ _ _ EA). destruct (Z.eqb_spec A 0x8001); [done|]. cbv zeta. rewrite Ea.
  destruct (Z.leb_spec a 0x7FE0); [|lia]. cbn [when]. unfold load_mempacks. rewrite !bind_assoc. unfold mod_dev at 1.
  rewrite bind_modify_l. set (s1 := on_dev _ s). rewrite !bind_assoc.
  rewrite (bind_Ret _ _ _ _ _ (pif_bytes_at 0x20 (c + 5) s1 ltac:(lia) ltac:(unfold s1, ram in *; cbn; lia))).
  rewrite !bind_assoc. unfold mod_dev at 1. rewrite bind_modify_l. set (s2 := on_dev _ s1).
  unfold mod_dev at 1. rewrite bind_modify_l. set (s3 := on_dev _ s2).
  eexists. split; [apply put_crc_at; [lia|change (ram s3) with (ram s); lia]|reflexivity].
Qed.

Lemma read_mempak_at k c a s data : pak_command c 2 a s -> has_mempak k s -> 0 <= k < 4 ->
  load_bytes 32 (k * 0x8000 + a) (fread 0x20000 (g_mpak_file (c_dev s)) (mempack (c_dev s))) = data -> Forall is_u8 data ->
  exists s', internal_ControllerCommand k c s = Ret (tt, s') /\ at_pif (c + 5) 32 s' = data /\
    ram s' !! Z.to_nat (c + 0x25) = Some (mempack_crc data).
Proof.
  intros Hc Hp Hk Hd Hu. rewrite (pak_dispatch k c 2 a s Hc Hp (or_introl eq_refl)). cbn [Z.eqb Pos.eqb].
  destruct (pak_block c 2 a s Hc) as (A & EA & Hne & Ea & Ha). destruct Hc as [Hl _ [Hc0 Hcn] _ _].
  unfold read_mempak. rewrite (bind_Ret _ _ _ _ _ EA). destruct (Z.eqb_spec A 0x8001); [done|]. cbv zeta. rewrite Ea.
  destruct (Z.leb_spec a 0x7FE0); [|lia]. unfold load_mempacks. rewrite !bind_assoc. unfold mod_dev at 1.
  rewrite bind_modify_l. set (s1 := on_dev _ s). rewrite !bind_assoc. unfold dev at 1. rewrite bind_assoc, bind_get_l. cbn [bind obind ret].
  change (mempack (c_dev s1)) with (fread 0x20000 (g_mpak_file (c_dev s)) (mempack (c_dev s))). rewrite Hd.
  assert (length data = 32%nat) as Hlen by (rewrite <- Hd; apply length_load_bytes).
  destruct (set_pif_bytes_at data (c + 5) s1 Hu ltac:(lia)) as (r & Er & Hr); [change (ram s1) with (ram s); lia|].
  rewrite (bind_Ret _ _ _ _ _ Er). pose proof (at_pif_spliced (c + 5) data s1 r Hr) as Hat. rewrite Hlen in Hat.
  assert (length r = 64%nat) as Hlr by (rewrite (proj1 Hr); exact Hl).
  rewrite put_crc_at; [|lia|change (ram (with_pif r s1)) with r; lia].
  rewrite Hat. eexists. split; [reflexivity|]. change (ram (with_pif r s1)) with r.
  split.
  - unfold at_pif in *. change (ram (with_pif r s1)) with r in Hat. change (ram (with_pif ?x _)) with x.
    rewrite <- Hat at 2. apply list_eq. intros i. destruct (decide (i < 32)%nat); [|by rewrite !lookup_take_ge by lia].
    rewrite !lookup_take_lt, !lookup_drop, list_lookup_insert_ne by lia. done.
  - change (ram (with_pif ?x _)) with x. apply list_lookup_insert_eq. lia.
Qed.

End Pak.

(** C33.  A block written to a controller pak is read back: a game that sends the
    32-byte block of a write command to the pak of a controller, and later a read
    command for the same block, finds the same 32 bytes behind the command and their
    checksum behind them, even when only the pak file has been kept in between. *)
Theorem mempak_roundtrip {Q} `{EventQueue Q, !PifHost Q} k c a (s : core Q) :
  0 <= k < 4 -> pak_command c 3 a s -> has_mempak k s ->
  exists s', internal_ControllerCommand k c s = Ret (tt, s') /\
    forall t c', pak_command c' 2 a t -> has_mempak k t -> g_mpak_file (c_dev t) = g_mpak_file (c_dev s') ->
    exists t', internal_ControllerCommand k c' t = Ret (tt, t') /\ at_pif (c' + 5) 32 t' = at_pif (c + 5) 32 s /\
      ram t' !! Z.to_nat (c' + 0x25) = Some (mempack_crc (at_pif (c + 5) 32 s)).
Proof.
  intros Hk Hc Hp. destruct (write_mempak_at k c a s Hc Hp Hk) as (s' & Es & Hf). exists s'. split; [exact Es|].
  intros t c' Hct Hpt Hft. destruct (pak_block c 3 a s Hc) as (_ & _ & _ & _ & Ha). destruct Hc as [Hl Hu [Hc0 Hcn] _ _].
  assert (length (at_pif (c + 5) 32 s) = 32%nat) as Hlen by (unfold at_pif; rewrite length_take, length_drop; lia).
  apply (read_mempak_at k c' a t _ Hct Hpt Hk); [|by apply Forall_take, Forall_drop].
  rewrite Hft, Hf. rewrite <- (load_store_bytes (k * 0x8000 + a) (at_pif (c + 5) 32 s)
    (fread 0x20000 (g_mpak_file (c_dev s)) (mempack (c_dev s)))) at 2. rewrite Hlen.
  apply load_bytes_ext. intros x Hx. apply reload. lia.
Qed.

(** ** EEPROM *)

Record eeprom_command {Q} (c cmd block : Z) (s : core Q) : Prop := {
  ec_ram : length (ram s) = 64%nat;
  ec_bytes : Forall is_u8 (ram s);
  ec_fits : 0 <= c /\ c + 12 <= 64;
  ec_code : ram s !! Z.to_nat (c + 2) = Some cmd;
  ec_block : ram s !! Z.to_nat (c + 3) = Some block
}.

(** A block written to the EEPROM is read back: the eight bytes of a write
    command are what a later read command for the same block finds, even when only the
    EEPROM's file has been kept in between. *)
Theorem eeprom_roundtrip {Q} `{EventQueue Q, !PifHost Q} c block (s : core Q) :
  eeprom_command c 5 block s ->
  exists s', EepromCommand c s = Ret (tt, s') /\
    forall (t : core Q) c', eeprom_command c' 4 block t -> g_eeprom_file (c_dev t) = g_eeprom_file (c_dev s') ->
    exists t', EepromCommand c' t = Ret (tt, t') /\ at_pif (c' + 4) 8 t' = at_pif (c + 4) 8 s.
Proof.
  intros [Hl Hu [Hc Hcn] Ecmd Eb].
  set (e := fread 0x800 (g_eeprom_file (c_dev s)) (eeprom (c_dev s))).
  set (e' := store_bytes (block * 8) (at_pif (c + 4) 8 s) e).
  exists (on_dev (fun d => d <| g_eeprom_file := fwrite 0x800 (eeprom d) (g_eeprom_file d) |>)
    (on_dev (fun d => d <| eeprom := e' |>) (on_dev (fun d => d <| eeprom := e |>) s))). split.
  - unfold EepromCommand. rewrite (bind_Ret _ _ _ _ _ (pif_at (c + 2) 5 s ltac:(lia) Ecmd)). cbv iota.
    unfold load_eeprom, mod_dev. rewrite bind_modify_l. fold e. set (s1 := on_dev _ s).
    rewrite (bind_Ret _ _ _ _ _ (pif_at (c + 3) block s1 ltac:(lia) Eb)).
    rewrite (bind_Ret _ _ _ _ _ (pif_bytes_at 8 (c + 4) s1 ltac:(lia) ltac:(change (ram s1) with (ram s); lia))).
    reflexivity.
  - intros t c' [Hlt Hut [Hct Hctn] Ecmdt Ebt] Hf. 
    change (g_eeprom_file (c_dev (on_dev _ (on_dev _ (on_dev _ s))))) with (fwrite 0x800 e' (g_eeprom_file (c_dev s))) in Hf.
    assert (is_u8 block) as Hblock by exact (Forall_lookup_1 _ _ _ _ Hut Ebt). unfold is_u8 in Hblock.
    assert (length (at_pif (c + 4) 8 s) = 8%nat) as Hlen by (unfold at_pif; rewrite length_take, length_drop; lia).
    assert (load_bytes 8 (block * 8) (fread 0x800 (g_eeprom_file (c_dev t)) (eeprom (c_dev t))) = at_pif (c + 4) 8 s) as Hd.
    { rewrite Hf. rewrite <- (load_store_bytes (block * 8) (at_pif (c + 4) 8 s) e). fold e'. rewrite Hlen.
      apply load_bytes_ext. intros x Hx. apply reload. lia. }
    unfold EepromCommand. rewrite (bind_Ret _ _ _ _ _ (pif_at (c' + 2) 4 t ltac:(lia) Ecmdt)). cbv iota.
    unfold load_eeprom, mod_dev. rewrite bind_modify_l. set (t1 := on_dev _ t).
    rewrite (bind_Ret _ _ _ _ _ (pif_at (c' + 3) block t1 ltac:(lia) Ebt)).
    unfold dev. rewrite bind_assoc, bind_get_l. cbn [bind obind ret].
    change (eeprom (c_dev t1)) with (fread 0x800 (g_eeprom_file (c_dev t)) (eeprom (c_dev t))). rewrite Hd.
    destruct (set_pif_bytes_at (at_pif (c + 4) 8 s) (c' + 4) t1) as (r & Er & Hr);
      [by apply Forall_take, Forall_drop|lia|change (ram t1) with (ram t); lia|].
    exists (with_pif r t1). split; [exact Er|]. pose proof (at_pif_spliced _ _ _ _ Hr) as Hat. by rewrite Hlen in Hat.
Qed.

(** ** Examples *)

#[local] Definition pif_host : PifHost irq := {|
  controller_poll _ := ret 0; input_controller_command _ _ := ret tt; input_read_controller _ _ := ret tt;
  has_controller_command := false; input_callback _ _ := ret tt; vcr_idle := ret true; paused_now := ret false;
  wait_counter := ret 0; pause_emu := ret tt; wait_until_resumed _ := ret tt; st_do_work := ret tt |}.
#[local] Existing Instance pif_host.

(** A console with a controller pak in the first controller and this in PIF RAM. *)
Definition pif_core (bytes : list Z) : core irq :=
  let s := reset_core <| c_dev := devices_zero <| controls := replicate 4 (Controller true false ce_mempak) |> |> in
  s <| c_mach := (c_mach s) <| PIF_RAMb := bytes ++ replicate (64 - length bytes) 0 |> |>.

Definition pak_writes : core irq := pif_core ([0x23; 1; 3; 0x02; 0x40] ++ seqZ 1 32).
Definition pak_reads : core irq := pif_core [3; 0x21; 2; 0x02; 0x40].

Ltac all_u8 := repeat (apply Forall_cons_2; [split; [discriminate|reflexivity]|]); apply Forall_nil_2.

Lemma seq_u8 : Forall is_u8 (seqZ 1 32).
Proof. apply Forall_forall. intros x Hx. apply elem_of_seqZ in Hx. unfold is_u8. lia. Qed.

Lemma pif_core_command bytes cmd h l : (5 <= length bytes <= 64)%nat -> Forall is_u8 bytes ->
  take 3 (drop 2 bytes) = [cmd; h; l] -> Z.land (Z.lor (Z.shiftl h 8) l) 0xFFE0 <= 0x7FE0 ->
  pak_command 0 cmd (Z.land (Z.lor (Z.shiftl h 8) l) 0xFFE0) (pif_core bytes).
Proof.
  intros Hl Hu Ht Ha. assert (forall i x, [cmd; h; l] !! i = Some x -> ram (pif_core bytes) !! (2 + i)%nat = Some x) as Hi.
  { intros i x Ex. change (ram (pif_core bytes)) with (bytes ++ replicate (64 - length bytes) 0). rewrite <- Ht in Ex.
    apply lookup_take_Some in Ex as [Ex Hi]. rewrite lookup_drop in Ex. by apply lookup_app_l_Some. }
  split; [| |lia|exact (Hi 0%nat cmd eq_refl)|exists h, l; split_and!; [exact (Hi 1%nat h eq_refl)|exact (Hi 2%nat l eq_refl)|done..]].
  - change (ram (pif_core bytes)) with (bytes ++ replicate (64 - length bytes) 0). rewrite length_app, length_replicate. lia.
  - apply Forall_app_2; [exact Hu|by apply Forall_replicate].
Qed.

Lemma pif_core_pak bytes : has_mempak 0 (pif_core bytes).
Proof. by exists (Controller true false ce_mempak). Qed.

Lemma mempak_roundtrip_witness :
  exists s', internal_ControllerCommand 0 0 pak_writes = Ret (tt, s') /\
    let t := pak_reads <| c_dev := (c_dev pak_reads) <| g_mpak_file := g_mpak_file (c_dev s') |> |> in
    exists t', internal_ControllerCommand 0 0 t = Ret (tt, t') /\ at_pif 5 32 t' = seqZ 1 32.
Proof.
  assert (pak_command 0 3 0x240 pak_writes) as Hw.
  { apply (pif_core_command ([0x23; 1; 3; 0x02; 0x40] ++ seqZ 1 32) 3 2 0x40);
      [split; repeat constructor|apply Forall_app_2; [all_u8|exact seq_u8]|reflexivity|discriminate]. }
  assert (pak_command 0 2 0x240 pak_reads) as [R1 R2 R3 R4 R5].
  { apply (pif_core_command [3; 0x21; 2; 0x02; 0x40] 2 2 0x40); [split; repeat constructor|all_u8|reflexivity|discriminate]. }
  destruct (mempak_roundtrip 0 0 0x240 pak_writes) as (s' & Es & Ht); [split; [discriminate|reflexivity]|exact Hw|apply pif_core_pak|].
  exists s'. split; [exact Es|]. cbv zeta. set (t := pak_reads <| c_dev := _ |>).
  destruct (Ht t 0) as (t' & Et & Hd & _); [split; assumption|apply pif_core_pak|reflexivity|].
  exists t'. split; [exact Et|exact Hd].
Defined.

Definition eeprom_writes : core irq := pif_core ([10; 1; 5; 7] ++ seqZ 1 8).
Definition eeprom_reads : core irq := pif_core [2; 8; 4; 7].

Lemma eeprom_roundtrip_witness :
  exists s', EepromCommand 0 eeprom_writes = Ret (tt, s') /\
    let t := eeprom_reads <| c_dev := (c_dev eeprom_reads) <| g_eeprom_file := g_eeprom_file (c_dev s') |> |> in
    exists t', EepromCommand 0 t = Ret (tt, t') /\ at_pif 4 8 t' = seqZ 1 8.
Proof.
  assert (eeprom_command 0 5 7 eeprom_writes) as Hw by (split; [reflexivity|all_u8|split; discriminate|reflexivity|reflexivity]).
  assert (eeprom_command 0 4 7 eeprom_reads) as [R1 R2 R3 R4 R5] by (split; [reflexivity|all_u8|split; discriminate|reflexivity|reflexivity]).
  destruct (eeprom_roundtrip 0 7 eeprom_writes Hw) as (s' & Es & Ht).
  exists s'. split; [exact Es|]. cbv zeta. set (t := eeprom_reads <| c_dev := _ |>).
  destruct (Ht t 0) as (t' & Et & Hd); [split; assumption|reflexivity|].
  exists t'. split; [exact Et|exact Hd].
Defined.
