(* ===== verification/RegisterProps.v ===== *)
(** * What the device registers do

    Registers hold what is written to them, whatever the width of the access; a write
    of the interrupt mask sets and clears the bits it names, and takes a waiting
    interrupt at once. *)

From S2P Require Import Prelude Hoare Queue Pool PoolRefines Controller Machine Exception ExceptionFacts Alu AluProps Tlb DeviceState Core Dma PifLut Pif SummerCart Bus BusProps LoadStore Cop Registers Interp InterpProps InterruptProps SlotProps WfProps.

Open Scope prog_scope.
#[local] Open Scope Z_scope.

(** ** The interrupt mask *)

(** The MI registers after a write of [v] to the mask. *)
Definition masked (v : Z) (r : core_mips_reg) : core_mips_reg :=
  let r := r <| w_mi_intr_mask_reg := v |> in
  let r := r <| SP_intr_mask := flag v 0x1 0x2 (SP_intr_mask r) |> <| SI_intr_mask := flag v 0x4 0x8 (SI_intr_mask r) |>
    <| AI_intr_mask := flag v 0x10 0x20 (AI_intr_mask r) |> <| VI_intr_mask := flag v 0x40 0x80 (VI_intr_mask r) |>
    <| PI_intr_mask := flag v 0x100 0x200 (PI_intr_mask r) |> <| DP_intr_mask := flag v 0x400 0x800 (DP_intr_mask r) |> in
  r <| mi_intr_mask_reg :=
    Z.lor (SP_intr_mask r) (Z.lor (Z.shiftl (SI_intr_mask r) 1) (Z.lor (Z.shiftl (AI_intr_mask r) 2)
      (Z.lor (Z.shiftl (VI_intr_mask r) 3) (Z.lor (Z.shiftl (PI_intr_mask r) 4) (Z.shiftl (DP_intr_mask r) 5))))) |>.

Lemma has_bits_pow2 v k : 0 <= k -> has_bits v (2 ^ k) = Z.testbit v k.
Proof. intros Hk. rewrite <- Z.shiftl_1_l. by apply has_bits_shiftl. Qed.

(** A pair of bits: the upper sets, the lower clears. *)
Definition set_clear (v k : Z) (b : bool) : bool := if Z.testbit v (k + 1) then true else if Z.testbit v k then false else b.

Lemma flag_bit v k b : 0 <= k -> flag v (2 ^ k) (2 ^ (k + 1)) (Z.b2z b) = Z.b2z (set_clear v k b).
Proof. intros Hk. unfold flag, set_clear. rewrite !has_bits_pow2 by lia. by destruct (Z.testbit v (k + 1)), (Z.testbit v k). Qed.

Definition packed (sp si ai vi pi dp : bool) : Z :=
  Z.lor (Z.b2z sp) (Z.lor (Z.shiftl (Z.b2z si) 1) (Z.lor (Z.shiftl (Z.b2z ai) 2)
    (Z.lor (Z.shiftl (Z.b2z vi) 3) (Z.lor (Z.shiftl (Z.b2z pi) 4) (Z.shiftl (Z.b2z dp) 5))))).

(** The mask register is what its six flags say. *)
Definition mask_ok (r : core_mips_reg) : Prop :=
  exists sp si ai vi pi dp : bool,
    SP_intr_mask r = Z.b2z sp /\ SI_intr_mask r = Z.b2z si /\ AI_intr_mask r = Z.b2z ai /\
    VI_intr_mask r = Z.b2z vi /\ PI_intr_mask r = Z.b2z pi /\ DP_intr_mask r = Z.b2z dp /\
    mi_intr_mask_reg r = packed sp si ai vi pi dp.

Lemma masked_bits v r : mask_ok r ->
  mask_ok (masked v r) /\
  forall i, 0 <= i < 6 -> Z.testbit (mi_intr_mask_reg (masked v r)) i = set_clear v (2 * i) (Z.testbit (mi_intr_mask_reg r) i).
Proof.
  intros (sp & si & ai & vi & pi & dp & E1 & E2 & E3 & E4 & E5 & E6 & Em).
  assert (mi_intr_mask_reg (masked v r) = packed (set_clear v 0 sp) (set_clear v 2 si) (set_clear v 4 ai)
    (set_clear v 6 vi) (set_clear v 8 pi) (set_clear v 10 dp)) as E.
  { cbn [masked]. cbn. rewrite E1, E2, E3, E4, E5, E6. unfold packed. rewrite <- !flag_bit by lia. reflexivity. }
  split.
  - exists (set_clear v 0 sp), (set_clear v 2 si), (set_clear v 4 ai), (set_clear v 6 vi), (set_clear v 8 pi), (set_clear v 10 dp).
    split_and!; [..|exact E]; rewrite <- flag_bit by lia;
      [rewrite <- E1|rewrite <- E2|rewrite <- E3|rewrite <- E4|rewrite <- E5|rewrite <- E6]; reflexivity.
  - intros i Hi. rewrite E, Em.
    assert (forall a b c d e f : bool, Z.testbit (packed a b c d e f) i =
      match i with 0 => a | 1 => b | 2 => c | 3 => d | 4 => e | _ => f end) as Hp.
    { intros a b c d e f. assert (i = 0 \/ i = 1 \/ i = 2 \/ i = 3 \/ i = 4 \/ i = 5) as Hc by lia.
      destruct a, b, c, d, e, f; destruct Hc as [-> | [-> | [-> | [-> | [-> | ->]]]]]; reflexivity. }
    rewrite !Hp. assert (i = 0 \/ i = 1 \/ i = 2 \/ i = 3 \/ i = 4 \/ i = 5) as Hc by lia.
    by destruct Hc as [-> | [-> | [-> | [-> | [-> | ->]]]]].
Qed.

Section Mask.
Context {Q : Type} `{EventQueueLaws Q, !PifHost Q, !Plugins Q}.
#[local] Abbreviation st := (core Q).
Implicit Types s : st.

Lemma write_mask v s :
  write_mi W 0xc v s =
    on_mach (check_interrupt ;;; update_count ;;; interrupt_if_due)
      (s <| c_mach := (c_mach s) <| MI_register := masked v (MI_register (c_mach s)) |> |>).
Proof. reflexivity. Qed.

Lemma update_count_run (m : machine Q) c n :
  interpcore m = true -> Count m = c -> u32 (interp_addr m - last_addr m) / 2 = n ->
  update_count m = Ret (tt, (set_Count (u32 (c + n)) m) <| last_addr := interp_addr m |>).
Proof. intros Hi <- <-. unfold update_count, modify. by rewrite Hi. Qed.
End Mask.

(** A write of the interrupt mask acts at once: each of the six mask bits is set,
    cleared or kept as its pair of bits in the written word says; and if then an
    unmasked interrupt waits while interrupts are enabled, the interrupt exception is
    taken with EPC the current address and the events stay queued, otherwise the
    program just continues. *)
Theorem mask_write_correct {Q} `{EventQueueLaws Q, !PifHost Q, !Plugins Q} v evs (s : core Q) :
  let m := c_mach s in
  let r := masked v (MI_register m) in
  let m1 := m <| MI_register := r |> in
  mask_ok (MI_register m) -> rep m evs -> (length evs < POOL_SIZE)%nat -> interpcore m = true -> stop m = false ->
  skip_jump m = 0 -> delay_slot m = 0 -> is_u32 (core_Compare (m_cop0 m)) -> Count m <= count_after m ->
  count_after m < next_interrupt_of m ->
  (forall i, 0 <= i < 6 ->
     Z.testbit (mi_intr_mask_reg r) i = set_clear v (2 * i) (Z.testbit (mi_intr_mask_reg (MI_register m)) i)) /\
  exists s', write_mi W 0xc v s = Ret (tt, s') /\ rep (c_mach s') evs /\
    if waiting (Status m) (checked_cause m1)
    then ExceptionFacts.pc (c_mach s') = 0x80000180 /\ EPC (c_mach s') = interp_addr m /\ Status (c_mach s') = Z.lor (Status m) 2
    else ExceptionFacts.pc (c_mach s') = ExceptionFacts.pc m /\ EPC (c_mach s') = EPC m /\ Status (c_mach s') = Status m /\
         Cause (c_mach s') = checked_cause m1 /\ MI_register (c_mach s') = r.
Proof.
  intros m r m1 Hm R Hl Hi Hs Hj Hd Hc Hcount Hn. split; [by apply masked_bits|]. rewrite write_mask. fold m r m1.
  change (c_mach (s <| c_mach := m1 |>)) with m1.
  destruct (check_interrupt_state m1 evs R Hl) as (q' & Hrun & Hq).
  change (Status m1) with (Status m) in Hq. change (Count m1) with (Count m) in Hq.
  set (m2 := (set_Cause (checked_cause m1) m1) <| irq_queue := q' |>) in *.
  pose proof (update_count_run m2 (Count m) (u32 (interp_addr m - last_addr m) / 2) Hi eq_refl eq_refl) as Hupd.
  assert (u32 (Count m + u32 (interp_addr m - last_addr m) / 2) = count_after m) as Ecount
    by (unfold count_after, ExceptionFacts.pc; by rewrite Hi).
  rewrite Ecount in Hupd.
  set (m3 := (set_Count (count_after m) m2) <| last_addr := interp_addr m2 |>) in *.
  assert ((check_interrupt ;;; update_count ;;; interrupt_if_due) m1 = interrupt_if_due m3) as Hseq
    by (rewrite (bind_Ret _ _ _ _ _ Hrun), (bind_Ret _ _ _ _ _ Hupd); reflexivity).
  unfold on_mach. change (c_mach (s <| c_mach := m1 |>)) with m1. rewrite Hseq.
  destruct (waiting (Status m) (checked_cause m1)); destruct Hq as [R' Hn'].
  - pose proof (check_event_taken m3 (Count m) evs R') as Ht.
    destruct (proj1 (wp_exists _ _ _) (Ht ltac:(change (q_next_interrupt q' <= count_after m); lia) Hc (u32_range _) Hi Hs Hj Hd))
      as ([] & m' & Hg & Rm & Hp & Hst & Hepc).
    rewrite Hg. eexists. split; [reflexivity|]. split; [exact Rm|]. split_and!; [exact Hp|exact Hepc|exact Hst].
  - assert (interrupt_if_due m3 = Ret (tt, m3)) as Hno.
    { unfold interrupt_if_due. rewrite bind_get_l. change (next_interrupt_of m3) with (q_next_interrupt q').
      change (Count m3) with (count_after m). rewrite Hn'. change (next_interrupt_of m1) with (next_interrupt_of m).
      apply Z.leb_gt in Hn. rewrite Hn. reflexivity. }
    rewrite Hno. eexists. split; [reflexivity|]. split; [exact R'|]. split_and!; reflexivity.
Qed.

(** ** Registers as memory *)

Lemma get_put_bits v lo w x : 0 <= lo -> 0 <= w -> get_bits (put_bits v lo w x) lo w = Z.land x (Z.ones w).
Proof.
  intros Hl Hw. unfold get_bits, put_bits. apply Z.bits_inj'. intros k Hk.
  rewrite !Z.land_spec, Z.shiftr_spec, Z.lor_spec, Z.ldiff_spec, !Z.shiftl_spec by lia.
  replace (k + lo - lo) with k by lia. rewrite Z.land_spec.
  destruct (Z.testbit (Z.ones w) k), (Z.testbit x k), (Z.testbit v (k + lo)); done.
Qed.

Lemma join_words v : Z.lor (Z.shiftl (Z.shiftr v 32) 32) (Z.land v 0xFFFFFFFF) = v.
Proof.
  apply Z.bits_inj'. intros k Hk. change 0xFFFFFFFF with (Z.ones 32).
  rewrite Z.lor_spec, Z.shiftl_spec, Z.land_spec by lia. destruct (Z.ltb_spec k 32).
  - rewrite (Z.testbit_neg_r _ (k - 32)), Z.ones_spec_low by lia. apply andb_true_r.
  - rewrite Z.shiftr_spec, Z.ones_spec_high, andb_false_r, orb_false_r by lia. f_equal. lia.
Qed.

Section Tables.
Context {Q : Type} `{EventQueue Q, !PifHost Q, !Plugins Q}.
#[local] Abbreviation st := (core Q).
Implicit Types s : st.

(** Every entry is a register, and no two are the same. *)
Definition plain (table : list (option (@cell Q))) : Prop :=
  Z.of_nat (length table) < 0x1000 /\ Forall is_Some table /\
  forall i j c d v s, table !! i = Some (Some c) -> table !! j = Some (Some d) ->
    cell_get d (cell_set c v s) = if decide (i = j) then v else cell_get d s.

Definition plain_tables : list (list (option (@cell Q))) :=
  [readrdramreg; readrspreg; readrsp; readdp; readdps; readmi; readvi; readai; readpi; readri].

Lemma tables_plain : Forall plain plain_tables.
Proof.
  unfold plain_tables.
  repeat (apply Forall_cons_2; [split; [reflexivity|split; [repeat (constructor; [eexists; reflexivity|]); constructor|]]|]);
    [..|apply Forall_nil_2].
  all: intros i j c d v s Ei Ej.
  all: repeat (destruct i as [|i]; [injection Ei as <-|]); try discriminate Ei.
  all: repeat (destruct j as [|j]; [injection Ej as <-|]); try discriminate Ej; reflexivity.
Qed.

Lemma pointer_at table i s : plain table -> 0 <= i -> i mod 4 = 0 -> i + 4 <= 4 * Z.of_nat (length table) ->
  exists c, table !! Z.to_nat (i / 4) = Some (Some c) /\ pointer table i s = Ret (c, s).
Proof.
  intros (Hn & Hs & _) Hi H4 Hl.
  destruct (lookup_lt_is_Some_2 table (Z.to_nat (i / 4))) as [o Eo]; [Z.div_mod_to_equations; lia|].
  destruct (Forall_lookup_1 _ _ _ _ Hs Eo) as [c ->]. exists c. split; [exact Eo|]. unfold pointer.
  destruct ((i <? 0) || _) eqn:E1; [lia|]. destruct (Z.leb_spec (4 * Z.of_nat (length table)) i); [lia|].
  rewrite H4. cbn [Z.eqb negb]. by rewrite Eo.
Qed.

(** The register of an address, and of the second word of a doubleword. *)
Definition addressed (sz : size) (low : Z) (i : nat) : Prop :=
  i = Z.to_nat (low / 4) \/ sz = D /\ i = S (Z.to_nat (low / 4)).

(** A word written and read. *)
Lemma word_roundtrip table i v s : plain table -> 0 <= i -> i mod 4 = 0 -> i + 4 <= 4 * Z.of_nat (length table) ->
  exists c, table !! Z.to_nat (i / 4) = Some (Some c) /\
    write_reg table W i v s = Ret (tt, cell_set c v s) /\ forall s, read_reg table W i s = Ret (cell_get c s, s).
Proof.
  intros Hp Hi H4 Hl. destruct (pointer_at table i s Hp Hi H4 Hl) as (c & Ec & E). exists c. split; [exact Ec|]. split.
  - unfold write_reg. by rewrite (bind_Ret _ _ _ _ _ E).
  - intros t. destruct (pointer_at table i t Hp Hi H4 Hl) as (c' & Ec' & E'). rewrite Ec in Ec'. injection Ec' as <-.
    unfold read_reg. by rewrite (bind_Ret _ _ _ _ _ E'), bind_get_l.
Qed.

Lemma word_base low : 0 <= low < 0x10000 -> Z.land low 0xfffc = 4 * (low / 4).
Proof.
  intros Hl. change 0xfffc with (Z.shiftl (Z.ones 14) 2). apply Z.bits_inj'. intros k Hk.
  rewrite Z.land_spec, Z.shiftl_spec by lia. replace (4 * (low / 4)) with (Z.shiftl (Z.shiftr low 2) 2)
    by (rewrite Z.shiftl_mul_pow2, Z.shiftr_div_pow2 by lia; change (2 ^ 2) with 4; lia).
  rewrite Z.shiftl_spec by lia. destruct (Z.ltb_spec k 2).
  - rewrite (Z.testbit_neg_r _ (k - 2)), (Z.testbit_neg_r (Z.shiftr low 2) (k - 2)) by lia. apply andb_false_r.
  - rewrite Z.shiftr_spec by lia. replace (k - 2 + 2) with k by lia. destruct (Z.ltb_spec (k - 2) 14).
    + rewrite Z.ones_spec_low by lia. apply andb_true_r.
    + rewrite Z.ones_spec_high by lia. rewrite andb_false_r. symmetry. apply (Z.bits_above_log2 low); [lia|].
      destruct (Z.eq_dec low 0) as [->|Hne]; [cbn; lia|]. apply Z.log2_lt_pow2; [lia|].
      apply Z.lt_le_trans with (2 ^ 16); [lia|]. apply Z.pow_le_mono_r; lia.
Qed.

(** A byte or a halfword of a register. *)
Lemma part_roundtrip table sz low v s : plain table -> sz = B \/ sz = H ->
  0 <= low -> low mod width sz = 0 -> low + width sz <= 4 * Z.of_nat (length table) -> 0 <= v < 2 ^ (8 * width sz) ->
  exists c x, table !! Z.to_nat (low / 4) = Some (Some c) /\
    write_reg table sz low v s = Ret (tt, cell_set c x s) /\ read_reg table sz low (cell_set c x s) = Ret (v, cell_set c x s).
Proof.
  intros Hp Hsz Hlow Hal Hlen Hv. pose proof Hp as (Hn & _ & Hlaw).
  assert (Z.land low 0xfffc = 4 * (low / 4)) as Eb by (apply word_base; clear Hal Hv; unfold width in *; lia).
  assert (0 <= 4 * (low / 4) /\ 4 * (low / 4) mod 4 = 0 /\ 4 * (low / 4) + 4 <= 4 * Z.of_nat (length table) /\ 4 * (low / 4) / 4 = low / 4)
    as (B1 & B2 & B3 & B4).
  { pose proof (Z.div_mod low 4 ltac:(lia)) as Hdm. pose proof (Z.mod_pos_bound low 4 ltac:(lia)) as Hmb.
    split_and!; [lia|rewrite Z.mul_comm; by apply Z.mod_mul| |rewrite Z.mul_comm; by apply Z.div_mul].
    destruct Hsz as [-> | ->]; [change (width B) with 1 in *|change (width H) with 2 in *]; lia. }
  assert (part_fits sz low = true /\ 0 <= part_offset sz low /\ v = Z.land v (Z.ones (part_width sz))) as (Hf & Ho & Ev).
  { assert (0 <= Z.land low 3 <= 3) as Hr by (apply land_le_mask; lia).
    assert (Z.land low 3 = low mod 4) as E3 by (change 3 with (Z.ones 2); by rewrite Z.land_ones).
    unfold part_fits, part_offset, part_width.
    destruct Hsz as [-> | ->]; (split; [|split; [|rewrite Z.land_ones by lia; symmetry; apply Z.mod_small; exact Hv]]).
    1,2: assert (Z.land low 3 = 0 \/ Z.land low 3 = 1 \/ Z.land low 3 = 2 \/ Z.land low 3 = 3) as [E|[E|[E|E]]] by lia; rewrite E; by vm_compute.
    1,2: change (low mod 2 = 0) in Hal;
      assert (Z.land low 3 = 0 \/ Z.land low 3 = 2) as [E|E] by (rewrite E3; Z.div_mod_to_equations; lia); rewrite E; by vm_compute. }
  destruct (pointer_at table (4 * (low / 4)) s Hp B1 B2 B3) as (c & Ec & E). rewrite B4 in Ec.
  exists c, (merged sz low (cell_get c s) v). split; [exact Ec|].
  assert (write_reg table sz low v s = Ret (tt, cell_set c (merged sz low (cell_get c s) v) s)) as Ew.
  { unfold write_reg. destruct Hsz as [-> | ->]; rewrite Eb, (bind_Ret _ _ _ _ _ E), Hf; reflexivity. }
  split; [exact Ew|]. set (s' := cell_set c _ s).
  destruct (pointer_at table (4 * (low / 4)) s' Hp B1 B2 B3) as (c' & Ec' & E'). rewrite B4, Ec in Ec'. injection Ec' as <-.
  assert (cell_get c s' = merged sz low (cell_get c s) v) as Eg by (unfold s'; by rewrite (Hlaw _ _ _ _ _ s Ec Ec), decide_True).
  assert (get_bits (merged sz low (cell_get c s) v) (part_offset sz low) (part_width sz) = v) as Er.
  { rewrite Ev at 2. destruct Hsz as [-> | ->]; (apply get_put_bits; [exact Ho|discriminate]). }
  unfold read_reg. destruct Hsz as [-> | ->]; rewrite Eb, bind_assoc, (bind_Ret _ _ _ _ _ E'), bind_assoc, bind_get_l; cbn [bind obind ret];
    rewrite Hf, Eg, Er; reflexivity.
Qed.
End Tables.

(** The device registers are memory: a byte, halfword, word or doubleword
    written to the registers of a device is what the same access reads back, and all
    other registers of the device keep their values. *)
Theorem registers_are_memory {Q} `{EventQueue Q, !PifHost Q, !Plugins Q} table sz low v (s : core Q) :
  In table plain_tables -> 0 <= low -> low mod width sz = 0 -> low + width sz <= 4 * Z.of_nat (length table) ->
  0 <= v < 2 ^ (8 * width sz) ->
  exists s', write_reg table sz low v s = Ret (tt, s') /\ read_reg table sz low s' = Ret (v, s') /\
    forall i d, table !! i = Some (Some d) -> ~ addressed sz low i -> cell_get d s' = cell_get d s.
Proof.
  intros Hin Hlow Hal Hlen Hv.
  assert (plain table) as Hp by exact (proj1 (List.Forall_forall _ _) tables_plain table Hin).
  pose proof (proj2 (proj2 Hp)) as Hlaw.
  assert (sz = B \/ sz = H -> exists s', write_reg table sz low v s = Ret (tt, s') /\ read_reg table sz low s' = Ret (v, s') /\
    forall i d, table !! i = Some (Some d) -> ~ addressed sz low i -> cell_get d s' = cell_get d s) as Hpart.
  { intros Hsz. destruct (part_roundtrip table sz low v s Hp Hsz Hlow Hal Hlen Hv) as (c & x & Ec & Ew & Er).
    exists (cell_set c x s). split; [exact Ew|]. split; [exact Er|]. intros i d Ei Ha.
    rewrite (Hlaw _ _ _ _ x s Ec Ei), decide_False; [done|]. intros <-. apply Ha. by left. }
  destruct sz; [apply Hpart; by left|apply Hpart; by right| |]; clear Hpart.
  - change (width W) with 4 in *. destruct (word_roundtrip table low v s Hp Hlow Hal Hlen) as (c & Ec & Ew & Er).
    exists (cell_set c v s). split; [exact Ew|]. split; [by rewrite Er, (Hlaw _ _ _ _ v s Ec Ec), decide_True|].
    intros i d Ei Ha. rewrite (Hlaw _ _ _ _ v s Ec Ei), decide_False; [done|]. intros <-. apply Ha. by left.
  - change (width D) with 8 in *.
    destruct (word_roundtrip table low (Z.shiftr v 32) s Hp Hlow ltac:(Z.div_mod_to_equations; lia) ltac:(lia)) as (c & Ec & Ew & Er).
    destruct (word_roundtrip table (low + 4) (Z.land v 0xFFFFFFFF) (cell_set c (Z.shiftr v 32) s) Hp ltac:(lia)
      ltac:(Z.div_mod_to_equations; lia) ltac:(lia)) as (d & Ed & Ew' & Er').
    replace (Z.to_nat ((low + 4) / 4)) with (S (Z.to_nat (low / 4))) in Ed by (Z.div_mod_to_equations; lia).
    exists (cell_set d (Z.land v 0xFFFFFFFF) (cell_set c (Z.shiftr v 32) s)). split_and!.
    + change (write_reg table D low v s) with ((write_reg table W low (Z.shiftr v 32) ;;; write_reg table W (low + 4) (Z.land v 0xFFFFFFFF)) s).
      by rewrite (bind_Ret _ _ _ _ _ Ew).
    + match goal with |- read_reg _ _ _ ?x = _ => set (s' := x) end.
      change (read_reg table D low s') with ((h <-- read_reg table W low ;;; l <-- read_reg table W (low + 4) ;;; ret (Z.lor (Z.shiftl h 32) l)) s').
      rewrite (bind_Ret _ _ _ _ _ (Er s')), (bind_Ret _ _ _ _ _ (Er' s')). unfold s'.
      rewrite (Hlaw _ _ _ _ _ _ Ed Ec), decide_False by lia. rewrite (Hlaw _ _ _ _ _ _ Ec Ec), (Hlaw _ _ _ _ _ _ Ed Ed), !decide_True by done.
      unfold ret. do 3 f_equal. apply join_words.
    + intros i x Ei Ha. rewrite (Hlaw _ _ _ _ _ _ Ed Ei), decide_False by (intros <-; apply Ha; by right).
      rewrite (Hlaw _ _ _ _ _ _ Ec Ei), decide_False; [done|]. intros <-. apply Ha. by left.
Qed.

(** ** Examples *)

#[local] Instance mask_host : PifHost irq := {|
  controller_poll _ := ret 0; input_controller_command _ _ := ret tt; input_read_controller _ _ := ret tt;
  has_controller_command := false; input_callback _ _ := ret tt; vcr_idle := ret true; paused_now := ret false;
  wait_counter := ret 0; pause_emu := ret tt; wait_until_resumed _ := ret tt; st_do_work := ret tt |}.
#[local] Instance mask_plugins : Plugins irq := {|
  rsp_do_rsp_cycles := ret tt; video_process_rdp_list := ret tt; frame_skipped := ret false |}.

(** A vertical interrupt waits behind the mask; 0x80 lets it through. *)
Definition masked_core (q : irq) : core irq :=
  reset_core <| c_mach := machine_with q (cop0_zero <| core_Status := 0xFF01 |>) (core_mips_reg_zero <| mi_intr_reg := 8 |>) |>.

Lemma mask_write_correct_witness :
  exists (q : irq) (s' : core irq), represents q vi_queue /\ write_mi W 0xc 0x80 (masked_core q) = Ret (tt, s') /\
    ExceptionFacts.pc (c_mach s') = 0x80000180 /\ EPC (c_mach s') = 0x80001000.
Proof.
  destruct (queue_after vi_queue_ops (AQ vi_queue false 0x20001388)) as (q & _ & R & _ & Hn); [vm_compute; reflexivity|].
  destruct (mask_write_correct 0x80 vi_queue (masked_core q)) as (_ & s' & Hrun & _ & Hx);
    [by exists false, false, false, false, false, false|exact R|apply Nat.ltb_lt; reflexivity|reflexivity|reflexivity|reflexivity
    |reflexivity|by vm_compute|by vm_compute| |].
  - change (next_interrupt_of _) with (next_interrupt q). cbn [a_next] in Hn. rewrite Hn. reflexivity.
  - exists q, s'. split; [exact R|]. split; [exact Hrun|]. split; apply Hx.
Defined.

(** A halfword of the RDRAM controller's registers, read back as the lower half of the
    second. *)
Lemma registers_are_memory_witness :
  exists s', write_reg readri H 6 0x1234 reset_core = Ret (tt, s') /\ read_reg readri H 6 s' = Ret (0x1234, s').
Proof.
  destruct (registers_are_memory readri H 6 0x1234 reset_core) as (s' & Ew & Er & _);
    [do 9 right; left; reflexivity|discriminate|reflexivity|discriminate|split; [discriminate|reflexivity]|].
  exists s'. split; [exact Ew|exact Er].
Defined.
