(* ===== verification/Rom.v ===== *)
(** * ROM images (rom.cpp)

    [rom_load] takes an image in any of the three byte orders in use, brings it into
    the order of the cartridge, keeps a copy of its header, and finally turns every
    word into host order, the order [Dma] and [Bus] expect.  Images can be compressed;
    the decompressor and the hash are libraries and parameters here, as is the
    contents of the file. *)

From S2P Require Import Prelude DeviceState Registers.

Open Scope prog_scope.
#[local] Open Scope Z_scope.

(** ** Byte orders *)

(** [for (i < rom_size / 2) swap(rom[i * 2], rom[i * 2 + 1])] *)
Fixpoint swap_pairs (l : list Z) : list Z :=
  match l with
  | a :: b :: t => b :: a :: swap_pairs t
  | _ => l
  end.

(** [for (i < rom_size / 4)]: the bytes of a word in reverse; also [roml[i] = sl(roml[i])]. *)
Fixpoint reverse_words (l : list Z) : list Z :=
  match l with
  | a :: b :: c :: d :: t => d :: c :: b :: a :: reverse_words t
  | _ => l
  end.

(** [core_vr_byteswap], on the first 0x40 bytes. *)
Definition core_vr_byteswap (rom : list Z) : list Z :=
  let rom := if bool_decide (rom !! 0%nat = Some 0x37) then swap_pairs (take 0x40 rom) ++ drop 0x40 rom else rom in
  if bool_decide (rom !! 0%nat = Some 0x40) then reverse_words (take 0x40 rom) ++ drop 0x40 rom else rom.

(** ** The header *)

(** [strtrim]: everything from the first two blanks on becomes zero. *)
Fixpoint strtrim (l : list Z) : list Z :=
  match l with
  | a :: ((b :: _) as t) => if (a =? 32) && (b =? 32) then replicate (length l) 0 else a :: strtrim t
  | _ => l
  end.

(** [memset] of [n] bytes from [k] on. *)
Definition zeroed (k n : nat) (l : list Z) : list Z := take k l ++ replicate n 0 ++ drop (k + n) l.

(** The 4096 bytes of [core_rom_header], with the unused fields cleared and the name
    in the 20 bytes from 0x20 on trimmed. *)
Definition header_size : nat := 4096.
Definition fix_header (h : list Z) : list Z :=
  let h := zeroed 0x18 8 (zeroed 0x34 4 h) in
  take 0x20 h ++ strtrim (take 20 (drop 0x20 h)) ++ drop 0x34 h.

Definition Country_code_of (h : list Z) : Z := le_combine (take 2 (drop 0x3E h)).

(** ** Countries *)

Inductive core_system_type : Set := sys_ntsc | sys_pal.

Definition sys_type (country_code : Z) : core_system_type :=
  if is_pal (Z.land country_code 0xFF) then sys_pal
  else if is_ntsc (Z.land country_code 0xFF) then sys_ntsc else sys_pal.

(** ** Loading *)

Record rom_state : Type := mk_rom_state {
  rs_rom : option (list Z);
  rs_taille : Z;
  rs_rom_size : Z;
  rs_header : list Z;
  rs_md5 : list Z;
  rs_sys_type : core_system_type;
  rs_cache : gmap string (list Z * Z);
}.
#[export] Instance rom_state_eta : Eta rom_state := fun r =>
  mk_rom_state (rs_rom r) (rs_taille r) (rs_rom_size r) (rs_header r) (rs_md5 r) (rs_sys_type r) (rs_cache r).

Section Load.
Variables gzip md5 : list Z -> list Z.

(** The data is taken for compressed when either of the two bytes says so. *)
Definition auto_decompress (vec : list Z) : list Z :=
  match vec with
  | a :: b :: _ => if negb (a =? 0x1F) && negb (b =? 0x8B) then vec else gzip vec
  | _ => vec
  end.

(** [rom[i]]; behind the image there is nothing, or nothing defined. *)
Definition rom_at (rom : list Z) (i : nat) : M rom_state Z :=
  match rom !! i with Some b => ret b | None => undef OutOfBounds end.

(** The image in the byte order of the cartridge, and whether it is one. *)
Definition native_order (rom : list Z) : M rom_state (bool * list Z) :=
  b0 <-- rom_at rom 0 ;;;
  let rom := if b0 =? 0x37 then swap_pairs rom else rom in
  b0 <-- rom_at rom 0 ;;;
  if b0 =? 0x40 then ret (true, reverse_words rom)
  else if negb (b0 =? 0x80) then ret (false, rom)
  else
    b1 <-- rom_at rom 1 ;;;
    if negb (b1 =? 0x37) then ret (false, rom)
    else
      b2 <-- rom_at rom 2 ;;;
      if negb (b2 =? 0x12) then ret (false, rom)
      else
        b3 <-- rom_at rom 3 ;;;
        ret (b3 =? 0x40, rom).

Definition rom_load (use_summercart : bool) (rom_cache_size : Z) (path : string) (rom_buf : list Z) : M rom_state bool :=
  modify (fun r => r <| rs_rom := None |>) ;;;
  r <-- get ;;;
  match rs_cache r !! path with
  | Some (data, taille) => modify (fun r => r <| rs_rom := Some data |> <| rs_taille := taille |>) ;;; ret true
  | None =>
      let rom := auto_decompress rom_buf in
      if (length rom =? 0)%nat then ret false
      else
        let rom_size := Z.of_nat (length rom) in
        let taille := if use_summercart && (u32 rom_size <? 0x4000000) then 0x4000000 else u32 rom_size in
        modify (fun r => r <| rs_rom_size := rom_size |> <| rs_taille := taille |>) ;;;
        native <-- native_order rom ;;;
        let rom := native.2 in
        modify (fun r => r <| rs_rom := Some rom |>) ;;;
        if negb native.1 then ret false
        else if (length rom <? header_size)%nat then undef OutOfBounds
        else
          let header := fix_header (take header_size rom) in
          let final := reverse_words rom in
          modify (fun r => r <| rs_header := header |> <| rs_md5 := md5 rom |> <| rs_rom := Some final |>
                             <| rs_sys_type := sys_type (Country_code_of header) |>) ;;;
          r <-- get ;;;
          when (Z.of_nat (size (rs_cache r)) <? u64 rom_cache_size)
            (modify (fun r => r <| rs_cache := <[path := (final, taille)]> (rs_cache r) |>)) ;;;
          ret true
  end.
End Load.
