(* ===== verification/RomProps.v ===== *)
(** * Loading a ROM image

    The three byte orders of an image give the same cartridge, and an image taken
    from the cache comes without its header and size. *)

From S2P Require Import Prelude DeviceState Dma Registers Rom.

Open Scope prog_scope.
#[local] Open Scope Z_scope.

(** ** Byte orders *)

Lemma length_ind (P : list Z -> Prop) :
  (forall l, (forall k, (length k < length l)%nat -> P k) -> P l) -> forall l, P l.
Proof. intros Hs. exact (well_founded_induction (well_founded_ltof _ (@length Z)) P Hs). Qed.

Lemma length_swap_pairs l : length (swap_pairs l) = length l.
Proof.
  induction l as [[|a [|b t]] IH] using length_ind; [done..|]. cbn [swap_pairs length]. rewrite IH; [done|cbn; lia].
Qed.
Lemma length_reverse_words l : length (reverse_words l) = length l.
Proof.
  induction l as [[|a [|b [|c [|d t]]]] IH] using length_ind; [done..|]. cbn [reverse_words length]. rewrite IH; [done|cbn; lia].
Qed.
Lemma swap_pairs_twice l : swap_pairs (swap_pairs l) = l.
Proof. induction l as [[|a [|b t]] IH] using length_ind; [done..|]. cbn [swap_pairs]. rewrite IH; [done|cbn; lia]. Qed.
Lemma reverse_words_twice l : reverse_words (reverse_words l) = l.
Proof.
  induction l as [[|a [|b [|c [|d t]]]] IH] using length_ind; [done..|]. cbn [reverse_words]. rewrite IH; [done|cbn; lia].
Qed.

(** An image in the order of the cartridge. *)
Definition rom_image (img : list Z) : Prop :=
  (header_size <= length img)%nat /\ exists t, img = 0x80 :: 0x37 :: 0x12 :: 0x40 :: t.

Section Load.
Variables gzip md5 : list Z -> list Z.
#[local] Abbreviation load := (rom_load gzip md5).

(** The state after an image has been loaded from its file. *)
Definition loaded (sc : bool) (n : Z) (path : string) (img : list Z) (r : rom_state) : rom_state :=
  let len := Z.of_nat (length img) in
  let taille := if sc && (u32 len <? 0x4000000) then 0x4000000 else u32 len in
  let header := fix_header (take header_size img) in
  let r := r <| rs_rom_size := len |> <| rs_taille := taille |> <| rs_header := header |> <| rs_md5 := md5 img |>
             <| rs_rom := Some (reverse_words img) |> <| rs_sys_type := sys_type (Country_code_of header) |> in
  if Z.of_nat (size (rs_cache r)) <? u64 n
  then r <| rs_cache := <[path := (reverse_words img, taille)]> (rs_cache r) |> else r.

Lemma load_image sc n path img file r :
  rom_image img -> rs_cache r !! path = None -> length file = length img -> auto_decompress gzip file = file ->
  (forall r, native_order file r = Ret ((true, img), r)) -> load sc n path file r = Ret (true, loaded sc n path img r).
Proof.
  intros [Hlen (t & Ei)] Hc Hf Hz Hn. unfold rom_load. rewrite bind_modify_l, bind_get_l.
  change (rs_cache (r <| rs_rom := None |>)) with (rs_cache r). rewrite Hc, Hz. cbv zeta. rewrite Hf.
  destruct (Nat.eqb_spec (length img) 0) as [E|_]; [rewrite Ei in E; discriminate E|].
  rewrite bind_modify_l, (bind_Ret _ _ _ _ _ (Hn _)). cbn [fst snd negb]. rewrite bind_modify_l.
  destruct (Nat.ltb_spec (length img) header_size); [lia|]. rewrite bind_modify_l, bind_get_l.
  unfold loaded. cbv zeta. clear. generalize (fix_header (take header_size img)). intros header.
  generalize (reverse_words img) (if sc && (u32 (Z.of_nat (length img)) <? 0x4000000) then 0x4000000 else u32 (Z.of_nat (length img))) (md5 img).
  intros final taille digest. generalize (Z.of_nat (length img)) (sys_type (Country_code_of header)). intros len sy.
  change (rs_cache (_ <| rs_sys_type := sy |>)) with (rs_cache r). destruct r as [rom ta si he md sy0 ca].
  cbn [rs_cache]. by destruct (_ <? u64 n).
Qed.


Lemma loaded_fields sc n path img r :
  let r' := loaded sc n path img r in
  rs_header r' = fix_header (take header_size img) /\ rs_rom_size r' = Z.of_nat (length img) /\ rs_md5 r' = md5 img /\
  forall p, p <> path -> rs_cache r' !! p = rs_cache r !! p.
Proof.
  unfold loaded. cbv zeta. generalize (fix_header (take header_size img)). intros header.
  generalize (reverse_words img) (if sc && (u32 (Z.of_nat (length img)) <? 0x4000000) then 0x4000000 else u32 (Z.of_nat (length img))) (md5 img).
  intros final taille digest. generalize (Z.of_nat (length img)) (sys_type (Country_code_of header)). intros len sy.
  destruct (_ <? u64 n); (split_and!; [reflexivity..|]); intros p Hp; [by apply lookup_insert_ne|reflexivity].
Qed.

Lemma loaded_cache sc n path img r : rs_cache r = ∅ -> 0 < u64 n ->
  exists ta, rs_cache (loaded sc n path img r) = {[ path := (reverse_words img, ta) ]}.
Proof.
  intros Hc Hn. unfold loaded. cbv zeta. generalize (fix_header (take header_size img)). intros header.
  generalize (reverse_words img) (if sc && (u32 (Z.of_nat (length img)) <? 0x4000000) then 0x4000000 else u32 (Z.of_nat (length img))) (md5 img).
  intros final taille digest. generalize (Z.of_nat (length img)) (sys_type (Country_code_of header)). intros len sy.
  change (rs_cache (_ <| rs_sys_type := _ |>)) with (rs_cache r). rewrite Hc, map_size_empty.
  destruct (Z.ltb_spec (Z.of_nat 0) (u64 n)) as [_|E]; [|change (Z.of_nat 0) with 0 in E; lia]. exists taille. reflexivity.
Qed.

Lemma native_image img r : rom_image img -> native_order img r = Ret ((true, img), r).
Proof. intros [_ (t & ->)]. reflexivity. Qed.
Lemma native_swapped img r : rom_image img -> native_order (swap_pairs img) r = Ret ((true, img), r).
Proof.
  intros [_ (t & ->)]. unfold native_order.
  change (rom_at (swap_pairs (0x80 :: 0x37 :: 0x12 :: 0x40 :: t)) 0) with (ret 0x37 : M rom_state Z). rewrite bind_ret_l. cbn [Z.eqb Pos.eqb].
  rewrite swap_pairs_twice. reflexivity.
Qed.
Lemma native_reversed img r : rom_image img -> native_order (reverse_words img) r = Ret ((true, img), r).
Proof.
  intros [_ (t & ->)]. unfold native_order.
  change (rom_at (reverse_words (0x80 :: 0x37 :: 0x12 :: 0x40 :: t)) 0) with (ret 0x40 : M rom_state Z). rewrite bind_ret_l. cbn [Z.eqb Pos.eqb].
  change (rom_at (reverse_words (0x80 :: 0x37 :: 0x12 :: 0x40 :: t)) 0) with (ret 0x40 : M rom_state Z). rewrite bind_ret_l. cbn [Z.eqb Pos.eqb].
  by rewrite reverse_words_twice.
Qed.

Lemma load_native sc n path img r : rom_image img -> rs_cache r !! path = None -> load sc n path img r = Ret (true, loaded sc n path img r).
Proof.
  intros Hi H0. apply load_image; [exact Hi|exact H0|reflexivity| |intros r0; by apply native_image].
  by destruct Hi as [_ (t & ->)].
Qed.

Lemma load_cached sc n path file data ta r : rs_cache r !! path = Some (data, ta) ->
  exists r', load sc n path file r = Ret (true, r') /\ rs_rom r' = Some data /\ rs_header r' = rs_header r /\
    rs_rom_size r' = rs_rom_size r /\ rs_md5 r' = rs_md5 r.
Proof.
  intros Hc. exists (r <| rs_rom := None |> <| rs_rom := Some data |> <| rs_taille := ta |>).
  split; [|split_and!; reflexivity].
  unfold rom_load. rewrite bind_modify_l, bind_get_l. change (rs_cache (r <| rs_rom := None |>)) with (rs_cache r).
  by rewrite Hc.
Qed.

(** Two loads from files, one after the other. *)
Lemma load_two sc n path other a b r : rom_image a -> rom_image b -> path <> other -> rs_cache r = ∅ -> 0 < u64 n ->
  exists r2 ta, (load sc n path a ;;; load sc n other b) r = Ret (true, r2) /\ rs_cache r2 !! path = Some (reverse_words a, ta) /\
    rs_header r2 = fix_header (take header_size b) /\ rs_rom_size r2 = Z.of_nat (length b) /\ rs_md5 r2 = md5 b.
Proof.
  intros Ha Hb Hne Hc Hn. destruct (loaded_cache sc n path a r Hc Hn) as (ta & H1).
  destruct (loaded_fields sc n other b (loaded sc n path a r)) as (F1 & F2 & F3 & F4).
  exists (loaded sc n other b (loaded sc n path a r)), ta. split; [|split_and!; [rewrite F4, H1 by done; apply lookup_singleton_eq|exact F1|exact F2|exact F3]].
  rewrite (bind_Ret _ _ _ _ _ (load_native sc n path a r Ha ltac:(rewrite Hc; apply lookup_empty))).
  apply load_native; [exact Hb|]. rewrite H1. by apply lookup_singleton_ne.
Qed.
End Load.

(** C36.  The three byte orders of a ROM file give the same cartridge: an image in the
    order of the cartridge, with the bytes of every pair swapped, or with the bytes of
    every word reversed loads into the same memory, header, size and country. *)
Theorem byte_orders_agree gzip md5 sc n path img r :
  rom_image img -> rs_cache r !! path = None ->
  rom_load gzip md5 sc n path img r = Ret (true, loaded md5 sc n path img r) /\
  rom_load gzip md5 sc n path (swap_pairs img) r = Ret (true, loaded md5 sc n path img r) /\
  rom_load gzip md5 sc n path (reverse_words img) r = Ret (true, loaded md5 sc n path img r).
Proof.
  intros Hi Hc. split_and!; apply load_image; try done; intros; auto using native_image, native_swapped, native_reversed,
    length_swap_pairs, length_reverse_words; by destruct Hi as [_ (t & ->)].
Qed.

(** An image taken from the cache comes with the wrong header: after another image
    has been loaded in between, loading the first again puts its bytes into memory but
    leaves the header, the hash, the system type and the size of the other. *)
Theorem cached_image_keeps_header gzip md5 sc n path other a b file r :
  rom_image a -> rom_image b -> path <> other -> rs_cache r = ∅ -> 0 < u64 n ->
  exists r', (rom_load gzip md5 sc n path a ;;; rom_load gzip md5 sc n other b ;;; rom_load gzip md5 sc n path file) r = Ret (true, r') /\
    rs_rom r' = Some (reverse_words a) /\ rs_header r' = fix_header (take header_size b) /\
    rs_rom_size r' = Z.of_nat (length b) /\ rs_md5 r' = md5 b.
Proof.
  intros Ha Hb Hne Hc Hn. destruct (load_two gzip md5 sc n path other a b r Ha Hb Hne Hc Hn) as (r2 & ta & E & H2 & F1 & F2 & F3).
  destruct (load_cached gzip md5 sc n path file _ ta r2 H2) as (r' & E' & G1 & G2 & G3 & G4).
  exists r'. split; [|split_and!; congruence]. rewrite <- bind_assoc. by rewrite (bind_Ret _ _ _ _ _ E).
Qed.

(** ** Examples *)

Definition demo_image (fill : Z) : list Z := [0x80; 0x37; 0x12; 0x40] ++ replicate 4092 fill.
Lemma demo_is_image fill : rom_image (demo_image fill).
Proof. split; [unfold demo_image, header_size; rewrite length_app, length_replicate; apply Nat.leb_le; vm_compute; reflexivity|by eexists]. Qed.

Definition no_rom : rom_state := mk_rom_state None 0 0 [] [] sys_ntsc ∅.

Lemma byte_orders_agree_witness :
  rom_load id id false 0 "a.v64" (swap_pairs (demo_image 1)) no_rom = Ret (true, loaded id false 0 "a.v64" (demo_image 1) no_rom).
Proof. apply (byte_orders_agree id id false 0 "a.v64" (demo_image 1) no_rom); [apply demo_is_image|reflexivity]. Defined.

Lemma cached_image_keeps_header_witness :
  exists r', (rom_load id id false 2 "a.z64" (demo_image 1) ;;; rom_load id id false 2 "b.z64" (demo_image 2) ;;;
              rom_load id id false 2 "a.z64" []) no_rom = Ret (true, r') /\
    rs_rom r' = Some (reverse_words (demo_image 1)) /\ rs_header r' = fix_header (take header_size (demo_image 2)).
Proof.
  destruct (cached_image_keeps_header id id false 2 "a.z64" "b.z64" (demo_image 1) (demo_image 2) [] no_rom)
    as (r' & E & H1 & H2 & _); [apply demo_is_image|apply demo_is_image|discriminate|reflexivity|reflexivity|].
  exists r'. split; [exact E|]. split; [exact H1|exact H2].
Defined.
