(* ===== verification/Path.v ===== *)
(** * Paths and accompanying files

    The path manipulation of [vcr.cpp]: how the name of a movie's savestate and
    cheat file is built when recording ([get_path_for_new_movie]) and searched
    when playing back ([find_accompanying_file_for_movie]), with
    [str_nth_occurence] of lib/IOHelpers.cpp and what the code uses of
    [_splitpath_s] and [std::filesystem::path].  Paths are character strings. *)

From S2P Require Import Prelude.
From Stdlib Require Import Strings.String Strings.Ascii.

#[local] Open Scope string_scope.
#[local] Open Scope nat_scope.

(** ** Strings *)

Definition dot : ascii := "."%char.
Definition is_dot (c : ascii) : bool := Ascii.eqb c dot.
Definition is_sep (c : ascii) : bool := Ascii.eqb c "/" || Ascii.eqb c "\" || Ascii.eqb c ":".

Definition str_take (n : nat) (s : string) : string := String.substring 0 n s.
Definition str_drop (n : nat) (s : string) : string := String.substring n (String.length s - n) s.

(** [s.find(c, pos)] for a one-character string. *)
Fixpoint find_from (f : ascii -> bool) (pos : nat) (s : string) : option nat :=
  match s with
  | EmptyString => None
  | String c t =>
      match pos with
      | O => if f c then Some 0 else S <$> find_from f 0 t
      | S pos => S <$> find_from f pos t
      end
  end.

(** Position of the last character satisfying [f]. *)
Fixpoint rfind (f : ascii -> bool) (s : string) : option nat :=
  match s with
  | EmptyString => None
  | String c t =>
      match rfind f t with
      | Some i => Some (S i)
      | None => if f c then Some 0 else None
      end
  end.

(** [str_nth_occurence(str, ".", nth)] for [nth >= 1]: [count] occurrences are
    still to be found from [pos]. *)
Fixpoint nth_occurence_loop (str : string) (count pos : nat) : option nat :=
  match count with
  | O => Some pos
  | S count' =>
      match find_from is_dot pos str with
      | None => None
      | Some p => match count' with O => Some p | _ => nth_occurence_loop str count' (p + 1) end
      end
  end.

Definition str_nth_occurence (str : string) (nth : nat) : option nat :=
  match nth with O => None | _ => nth_occurence_loop str nth 0 end.

(** ** Path components *)

(** drive + dir: everything up to and including the last separator. *)
Definition directory (p : string) : string :=
  match rfind is_sep p with Some i => str_take (S i) p | None => "" end.

Definition filename (p : string) : string :=
  match rfind is_sep p with Some i => str_drop (S i) p | None => p end.

(** [path::stem] and [path::extension]: a leading dot does not start an
    extension, and neither do the dots of the special names. *)
Definition stem_length (name : string) : nat :=
  if String.eqb name "." || String.eqb name ".." then String.length name
  else match rfind is_dot name with
       | Some (S i) => S i
       | _ => String.length name
       end.
Definition stem (p : string) : string := str_take (stem_length (filename p)) (filename p).
Definition extension (p : string) : string := str_drop (stem_length (filename p)) (filename p).

Definition replace_extension (p ext : string) : string := directory p ++ stem p ++ ext.

(** The components [_splitpath_s] yields: the file name ends at its last dot,
    wherever that is.  A component that does not fit its 260-character buffer
    empties all of them. *)
Definition fname (p : string) : string :=
  match rfind is_dot (filename p) with Some i => str_take i (filename p) | None => filename p end.

Definition splitpath_fits (p : string) : bool :=
  (String.length (directory p) <? 260) && (String.length (fname p) <? 260).

Definition splitpath (p : string) : string * string :=
  if splitpath_fits p then (directory p, fname p) else ("", "").

(** ** The two naming functions *)

Definition get_path_for_new_movie (path ext : string) : string :=
  match str_nth_occurence (stem path) 1 with
  | None => replace_extension path ext
  | Some result => (splitpath path).1 ++ str_take result (stem path) ++ ext
  end.

(** The first candidate that exists, in the order of the extensions. *)
Fixpoint first_existing (exists_ : string -> bool) (prefix : string) (exts : list string)
    : option string :=
  match exts with
  | [] => None
  | ext :: rest =>
      let st := prefix ++ ext in
      if exists_ st then Some st else first_existing exists_ prefix rest
  end.

(** The loop over the dots of the file name, from the [i]-th on; [None] when it
    runs out of fuel. *)
Fixpoint accompanying_loop (fuel : nat) (exists_ : string -> bool) (exts : list string)
    (dir name : string) (i : nat) : option string :=
  match fuel with
  | O => None
  | S fuel =>
      let result := str_nth_occurence name (i + 1) in
      let matched := match result with None => name | Some r => str_take r name end in
      match first_existing exists_ (dir ++ matched) exts with
      | Some st => Some st
      | None =>
          match result with
          | None => Some ""
          | Some _ => accompanying_loop fuel exists_ exts dir name (i + 1)
          end
      end
  end.

(** One round per dot and one for the whole name. *)
Definition find_accompanying_file_for_movie (exists_ : string -> bool) (path : string)
    (exts : list string) : option string :=
  let '(dir, name) := splitpath path in
  accompanying_loop (S (String.length name)) exists_ exts dir name 0.

Definition st_extensions : list string := [".st"; ".savestate"].

(** ** Facts *)

Lemma str_take_all s : str_take (String.length s) s = s.
Proof. unfold str_take. induction s as [|c s IH]; simpl in *; congruence. Qed.

Lemma find_from_bounds f pos s p :
  find_from f pos s = Some p -> pos <= p < String.length s.
Proof.
  revert pos p. induction s as [|c s IH]; intros pos p; simpl; [done|].
  destruct pos as [|pos]; [destruct (f c)|]; intros H.
  - simplify_eq. lia.
  - apply fmap_Some in H as (q & Hq & ->). apply IH in Hq. lia.
  - apply fmap_Some in H as (q & Hq & ->). apply IH in Hq. lia.
Qed.

Lemma nth_occurence_loop_bounds str count pos p :
  0 < count -> nth_occurence_loop str count pos = Some p ->
  pos + count <= S p /\ p < String.length str.
Proof.
  revert pos. induction count as [|count IH]; intros pos Hc; simpl; [lia|].
  destruct (find_from is_dot pos str) as [q|] eqn:E; [|done].
  apply find_from_bounds in E. destruct count as [|count]; intros H; [simplify_eq; lia|].
  apply IH in H; lia.
Qed.

(** There are at most as many dots as characters. *)
Lemma str_nth_occurence_bound str nth p :
  str_nth_occurence str nth = Some p -> nth <= String.length str.
Proof.
  destruct nth as [|nth]; [done|]. intros H.
  apply nth_occurence_loop_bounds in H; lia.
Qed.

Lemma nth_occurence_loop_none str count pos :
  0 < count -> nth_occurence_loop str count pos = None ->
  nth_occurence_loop str (S count) pos = None.
Proof.
  revert pos. induction count as [|count IH]; intros pos Hc; [lia|].
  cbn [nth_occurence_loop]. destruct (find_from is_dot pos str) as [p|]; [|done].
  destruct count as [|count]; [done|]. intros H. apply IH in H; [done|lia].
Qed.

Lemma str_nth_occurence_none str n m :
  0 < n <= m -> str_nth_occurence str n = None -> str_nth_occurence str m = None.
Proof.
  intros [Hn Hm]. induction Hm as [|m Hm IH]; [done|]. intros H. specialize (IH H).
  destruct m as [|m]; [lia|]. apply nth_occurence_loop_none; [lia|done].
Qed.

(** A candidate of the search: the name up to its [i]-th dot, or all of it. *)
Definition candidate (dir name : string) (i : nat) (ext : string) : string :=
  (dir ++ match str_nth_occurence name (i + 1) with None => name | Some r => str_take r name end)
  ++ ext.

Section Search.
Variables (exists_ : string -> bool) (exts : list string) (dir name : string).

Lemma first_existing_spec prefix :
  match first_existing exists_ prefix exts with
  | Some st => exists_ st = true /\ exists ext, ext ∈ exts /\ st = prefix ++ ext
  | None => forall ext, ext ∈ exts -> exists_ (prefix ++ ext) = false
  end.
Proof.
  induction exts as [|ext rest IH]; simpl; [set_solver|].
  destruct (exists_ (prefix ++ ext)) eqn:E.
  - split; [done|]. exists ext. split; [left|done].
  - destruct (first_existing exists_ prefix rest).
    + destruct IH as (H1 & e & H2 & ->). split; [done|]. exists e. split; [by right|done].
    + intros e [->|H]%elem_of_cons; auto.
Qed.

(** The loop ends, with the first existing candidate or with the empty path when
    there is none. *)
Lemma accompanying_loop_spec fuel i :
  i <= String.length name < i + fuel ->
  exists r, accompanying_loop fuel exists_ exts dir name i = Some r /\
    ((exists_ r = true /\ exists j ext, i <= j /\ ext ∈ exts /\ r = candidate dir name j ext /\
        forall k e, i <= k < j -> e ∈ exts -> exists_ (candidate dir name k e) = false) \/
     (r = "" /\ forall j ext, i <= j -> ext ∈ exts -> exists_ (candidate dir name j ext) = false)).
Proof.
  revert i. induction fuel as [|fuel IH]; intros i Hf; [lia|]. cbn [accompanying_loop].
  set (m := match str_nth_occurence name (i + 1) with None => name | Some r => str_take r name end).
  pose proof (first_existing_spec (dir ++ m)) as Hex.
  destruct (first_existing exists_ (dir ++ m) exts) as [st|].
  - destruct Hex as (H1 & ext & H2 & ->). eexists. split; [done|]. left. split; [done|].
    exists i, ext. split_and!; [done|done|done|]. lia.
  - destruct (str_nth_occurence name (i + 1)) as [p|] eqn:E.
    + pose proof (str_nth_occurence_bound _ _ _ E). destruct (IH (i + 1)) as (r & Hr & Hspec); [lia|].
      exists r. split; [done|].
      assert (forall e, e ∈ exts -> exists_ (candidate dir name i e) = false) as Hi.
      { intros e He. unfold candidate. rewrite E. by apply Hex. }
      destruct Hspec as [(H1 & j & ext & Hj & H2 & H3 & H4)|[-> H4]]; [left|right].
      * split; [done|]. exists j, ext. split_and!; [lia|done|done|].
        intros k e Hk He. destruct (decide (k = i)) as [->|]; [by apply Hi|]. apply H4; [lia|done].
      * split; [done|]. intros j ext Hj He.
        destruct (decide (j = i)) as [->|]; [by apply Hi|]. apply H4; [lia|done].
    + exists "". split; [done|]. right. split; [done|]. intros j ext Hj He. unfold candidate.
      rewrite (str_nth_occurence_none name (i + 1) (j + 1)) by (done || lia). by apply Hex.
Qed.
End Search.

(** For a file whose name does not begin with a dot, [_splitpath_s] and
    [std::filesystem] agree on where its extension starts. *)
Definition starts_with_dot (s : string) : bool :=
  match s with String c _ => is_dot c | EmptyString => false end.

Lemma rfind_head f s : rfind f s = Some 0 -> exists c t, s = String c t /\ f c = true.
Proof.
  destruct s as [|c t]; simpl; [done|]. destruct (rfind f t); [done|].
  destruct (f c) eqn:E; [|done]. eauto.
Qed.

Lemma stem_fname p : starts_with_dot (filename p) = false -> stem p = fname p.
Proof.
  unfold stem, fname, stem_length. generalize (filename p) as name. intros name Hd.
  destruct (String.eqb_spec name ".") as [->|]; [done|].
  destruct (String.eqb_spec name "..") as [->|]; [done|]. simpl.
  destruct (rfind is_dot name) as [[|i]|] eqn:E; [|done|apply str_take_all].
  apply rfind_head in E as (c & t & -> & Hc). simpl in Hd. congruence.
Qed.

(** The file named for a new movie is the first candidate of the search. *)
Lemma new_movie_path_candidate p ext :
  starts_with_dot (filename p) = false -> splitpath_fits p = true ->
  get_path_for_new_movie p ext = candidate (directory p) (fname p) 0 ext.
Proof.
  intros Hd Hf. unfold get_path_for_new_movie, candidate, replace_extension, splitpath.
  rewrite Hf, (stem_fname p Hd). simpl (0 + 1).
  destruct (str_nth_occurence (fname p) 1); cbn [fst]; by rewrite str_app_assoc.
Qed.

(** The search for a file beside a movie ends, and gives the first existing
    candidate: candidates are the movie's name up to its first, second, ... dot and
    finally the whole name, each with every extension in turn; the empty path is
    given exactly when no candidate exists. *)
Theorem accompanying_file_correct exists_ path exts :
  let '(dir, name) := splitpath path in
  exists r, find_accompanying_file_for_movie exists_ path exts = Some r /\
    ((exists_ r = true /\ exists j ext, ext ∈ exts /\ r = candidate dir name j ext /\
        forall k e, k < j -> e ∈ exts -> exists_ (candidate dir name k e) = false) \/
     (r = "" /\ forall j ext, ext ∈ exts -> exists_ (candidate dir name j ext) = false)).
Proof.
  unfold find_accompanying_file_for_movie. destruct (splitpath path) as [dir name].
  destruct (accompanying_loop_spec exists_ exts dir name (S (String.length name)) 0) as (r & E & Hr); [lia|].
  exists r. split; [done|]. destruct Hr as [(H1 & j & ext & _ & H2 & H3 & H4)|[H1 H2]]; [left|right].
  - split; [done|]. exists j, ext. split_and!; [done|done|]. intros k e Hk. apply H4. lia.
  - split; [done|]. intros j ext. apply H2. lia.
Qed.

(** What is written beside a new movie is found again: for a path that fits
    [_splitpath_s] and a name that does not start with a dot, the savestate or
    cheat file named by [get_path_for_new_movie] is the first candidate of
    [find_accompanying_file_for_movie], so when it exists the search gives it. *)
Theorem new_movie_file_is_found exists_ p ext rest :
  starts_with_dot (filename p) = false -> splitpath_fits p = true ->
  exists_ (get_path_for_new_movie p ext) = true ->
  find_accompanying_file_for_movie exists_ p (ext :: rest) =
    Some (get_path_for_new_movie p ext).
Proof.
  intros Hd Hf. rewrite (new_movie_path_candidate p ext Hd Hf). intros He.
  unfold find_accompanying_file_for_movie, splitpath. rewrite Hf.
  cbn [accompanying_loop first_existing]. unfold candidate in *.
  simpl (0 + 1) in *. by rewrite He.
Qed.

Lemma new_movie_file_is_found_witness :
  find_accompanying_file_for_movie (String.eqb "tas\sm64.st") "tas\sm64.v2.m64" st_extensions =
    Some "tas\sm64.st".
Proof.
  apply (new_movie_file_is_found (String.eqb "tas\sm64.st") "tas\sm64.v2.m64" ".st" [".savestate"]).
  - reflexivity.
  - reflexivity.
  - reflexivity.
Defined.
