(* ===== verification/Cheats.v ===== *)
(** * Cheats (cheats.cpp)

    The GameShark cheat engine: [core_cht_compile] parses a script into
    instructions, [cht_execute] runs the active list against RDRAM, the override
    stack replaces the host's list during movie playback, and
    [cht_serialize]/[cht_read_from_file] keep the list beside a movie.

    The instructions are the lambdas of the source as data: one constructor per
    lambda, [run_instr] its body.  Wide strings are character strings. *)

From Stdlib Require Import Strings.String Strings.Ascii.
From S2P Require Import Prelude.

Open Scope prog_scope.
#[local] Open Scope Z_scope.

(** ** Data *)

Inductive instr : Set :=
| WriteByte (address val : Z)
| WriteWord (address val : Z)
| WriteByteGS (address val : Z)
| WriteWordGS (address val : Z)
| EqByte (address val : Z)
| EqWord (address val : Z)
| NeByte (address val : Z)
| NeWord (address val : Z).

(** The flag beside an instruction tells whether it is a conditional. *)
Record core_cheat : Set := Cheat {
  name : string;
  code : string;
  active : bool;
  instructions : list (bool * instr)
}.
#[export] Instance core_cheat_eta : Eta core_cheat := fun c =>
  Cheat (name c) (code c) (active c) (instructions c).

(** [core_cheat cheat{}] *)
Definition default_cheat : core_cheat := Cheat "Unnamed Cheat" "" true [].

(** The engine's globals; [rdramb] is RDRAM as bytes in host order, absent
    entries reading zero. *)
Record cheat_state : Type := CheatState {
  host_cheats : list core_cheat;
  cheat_stack : list (list core_cheat);
  rdramb : gmap Z Z;
  gs_button : bool
}.
#[export] Instance cheat_state_eta : Eta cheat_state := fun s =>
  CheatState (host_cheats s) (cheat_stack s) (rdramb s) (gs_button s).

(** ** RDRAM access (core_api.h) *)

Definition CORE_ADDR_MASK : Z := 0x7FFFFF.
Definition RDRAM_SIZE : Z := 0x800000.

Definition to_addr (addr size : Z) : Z :=
  if size =? 4 then addr
  else if size =? 2 then Z.lxor addr 2
  else if size =? 1 then Z.lxor addr 3
  else 0xFFFFFFFF.

Definition rdram_offset (addr size : Z) : Z := Z.land (to_addr addr size) CORE_ADDR_MASK.

Definition rdram_byte (s : cheat_state) (off : Z) : Z := default 0 (rdramb s !! off).

Definition core_rdram_load (size : Z) (addr : Z) : M cheat_state Z :=
  s <-- get ;;;
  let off := rdram_offset addr size in
  if off + size <=? RDRAM_SIZE then
    ret (le_combine (map (fun i => rdram_byte s (off + Z.of_nat i)) (seq 0 (Z.to_nat size))))
  else undef OutOfBounds.

Definition core_rdram_store (size : Z) (addr value : Z) : M cheat_state unit :=
  let off := rdram_offset addr size in
  if off + size <=? RDRAM_SIZE then
    modify (fun s => s <| rdramb := store_bytes off (le_split (Z.to_nat size) value) (rdramb s) |>)
  else undef OutOfBounds.

(** ** Instructions *)

(** The body of an instruction's lambda; a store truncates to its width. *)
Definition run_instr (i : instr) : M cheat_state bool :=
  match i with
  | WriteByte address val => core_rdram_store 1 address val ;;; ret true
  | WriteWord address val => core_rdram_store 2 address val ;;; ret true
  | WriteByteGS address val =>
      s <-- get ;;; when (gs_button s) (core_rdram_store 1 address val) ;;; ret true
  | WriteWordGS address val =>
      s <-- get ;;; when (gs_button s) (core_rdram_store 2 address val) ;;; ret true
  | EqByte address val =>
      x <-- core_rdram_load 1 address ;;; ret (x =? Z.land val 0xFF)
  | EqWord address val => x <-- core_rdram_load 2 address ;;; ret (x =? val)
  | NeByte address val =>
      x <-- core_rdram_load 1 address ;;; ret (negb (x =? Z.land val 0xFF))
  | NeWord address val => x <-- core_rdram_load 2 address ;;; ret (negb (x =? val))
  end.

(** The inner loop of [cht_execute]. *)
Fixpoint run_instructions (execute : bool) (is' : list (bool * instr)) : M cheat_state unit :=
  match is' with
  | [] => ret tt
  | (conditional, i) :: rest =>
      if execute then e <-- run_instr i ;;; run_instructions e rest
      else run_instructions (negb conditional) rest
  end.

Fixpoint execute_cheats (cheats : list core_cheat) : M cheat_state unit :=
  match cheats with
  | [] => ret tt
  | cheat :: rest =>
      if negb (active cheat) then ret tt
      else run_instructions true (instructions cheat) ;;; execute_cheats rest
  end.

Definition core_cht_get_list (s : cheat_state) : list core_cheat :=
  match cheat_stack s with [] => host_cheats s | top :: _ => top end.

Definition cht_execute : M cheat_state unit :=
  s <-- get ;;; execute_cheats (core_cht_get_list s).

(** ** The list and the override stack *)

Definition core_cht_set_list (list : list core_cheat) : M cheat_state unit :=
  s <-- get ;;;
  match cheat_stack s with
  | [] => modify (fun s => s <| host_cheats := list |>)
  | _ => ret tt
  end.

Definition cht_layer_push (cheats : list core_cheat) : M cheat_state unit :=
  modify (fun s => s <| cheat_stack := cheats :: cheat_stack s |>).

(** [std::stack::pop] of an empty stack is undefined. *)
Definition cht_layer_pop : M cheat_state unit :=
  s <-- get ;;;
  match cheat_stack s with
  | [] => undef EmptyContainer
  | _ :: rest => modify (fun s => s <| cheat_stack := rest |>)
  end.

(** ** Compilation *)

(** [std::stoul(s, nullptr, 16)]: white space, a sign, an optional 0x, and hex
    digits; [None] when it throws for lack of digits.  [unsigned long] is 32 bits
    wide and every number parsed has at most six digits. *)
Definition hex_digit (c : ascii) : option Z :=
  let n := Z.of_nat (nat_of_ascii c) in
  if (48 <=? n) && (n <=? 57) then Some (n - 48)
  else if (65 <=? n) && (n <=? 70) then Some (n - 55)
  else if (97 <=? n) && (n <=? 102) then Some (n - 87)
  else None.

Fixpoint hex_digits (acc : Z) (s : string) : Z :=
  match s with
  | EmptyString => acc
  | String c t => match hex_digit c with Some d => hex_digits (16 * acc + d) t | None => acc end
  end.

Definition is_space (c : ascii) : bool :=
  let n := nat_of_ascii c in ((9 <=? n) && (n <=? 13) || (n =? 32))%nat.

Fixpoint skip_space (s : string) : string :=
  match s with
  | String c t => if is_space c then skip_space t else s
  | EmptyString => s
  end.

Definition starts_with_hex (s : string) : bool :=
  match s with String c _ => bool_decide (is_Some (hex_digit c)) | EmptyString => false end.

(** A 0x prefix counts only when a digit follows it. *)
Definition skip_0x (s : string) : string :=
  match s with
  | String "0" (String c t) =>
      if (Ascii.eqb c "x" || Ascii.eqb c "X") && starts_with_hex t then t else s
  | _ => s
  end.

Definition stoul16 (s : string) : option Z :=
  let s := skip_space s in
  let '(neg, s) :=
    match s with
    | String "-" t => (true, t)
    | String "+" t => (false, t)
    | _ => (false, s)
    end in
  let s := skip_0x s in
  if starts_with_hex s then
    let n := hex_digits 0 s in Some (u32 (if neg : bool then - n else n))
  else None.

(** [split_string(s, "\n")] of lib/IOHelpers.cpp. *)
Definition newline : ascii := "010"%char.
Fixpoint split_lines (s : string) : list string :=
  match s with
  | EmptyString => [EmptyString]
  | String c t =>
      if Ascii.eqb c newline then EmptyString :: split_lines t
      else match split_lines t with
           | l :: rest => String c l :: rest
           | [] => [String c EmptyString]
           end
  end.

(** The state of the compile loop. *)
Record serial_mode : Set := Serial { serial_count : Z; serial_offset : Z; serial_diff : Z }.
Record compiling : Set := Compiling {
  serial : option serial_mode;
  emitted : list (bool * instr)
}.

(** A line either continues the loop, makes the compilation fail, or throws out
    of [std::stoul]. *)
Inductive compiled (A : Type) : Type := Ok (a : A) | Illegal | Throws.
Arguments Ok {A} _.
Arguments Illegal {A}.
Arguments Throws {A}.

Definition first_char (line : string) : ascii :=
  match line with String c _ => c | EmptyString => "000"%char end.

Definition skipped (line : string) : bool :=
  Ascii.eqb (first_char line) "$" || Ascii.eqb (first_char line) "-" ||
  (String.length line <? 13)%nat.

Definition serial_writes (m : serial_mode) (address val : Z) : list (bool * instr) :=
  map (fun i => (false, WriteByte (u32 (address + serial_offset m * Z.of_nat i))
                                  (u8 (val + serial_diff m * Z.of_nat i))))
      (seq 0 (Z.to_nat (serial_count m))).

Definition emit (st : compiling) (conditional : bool) (i : instr) : compiled compiling :=
  Ok (Compiling None (emitted st ++ [(conditional, i)])).

Definition compile_opcode (opcode : string) (address val : Z) (st : compiling)
    : compiled compiling :=
  if String.eqb opcode "80" || String.eqb opcode "A0" then
    emit st false (WriteByte address (Z.land val 0xFF))
  else if String.eqb opcode "81" || String.eqb opcode "A1" then
    emit st false (WriteWord address val)
  else if String.eqb opcode "88" then emit st false (WriteByteGS address (Z.land val 0xFF))
  else if String.eqb opcode "89" then emit st false (WriteWordGS address val)
  else if String.eqb opcode "D0" then emit st true (EqByte address val)
  else if String.eqb opcode "D1" then emit st true (EqWord address val)
  else if String.eqb opcode "D2" then emit st true (NeByte address val)
  else if String.eqb opcode "D3" then emit st true (NeWord address val)
  else if String.eqb opcode "50" then
    Ok (Compiling (Some (Serial (Z.shiftr (Z.land address 0xFF00) 8) (Z.land address 0xFF) val))
                  (emitted st))
  else Illegal.

Definition compile_line (line : string) (st : compiling) : compiled compiling :=
  if skipped line then Ok st
  else
    match stoul16 (String.substring 2 6 line),
          stoul16 (if String.eqb (String.substring 8 1 line) " " then String.substring 9 4 line
                   else String.substring 10 4 line) with
    | Some address, Some val =>
        match serial st with
        | Some m => Ok (Compiling None (emitted st ++ serial_writes m address val))
        | None => compile_opcode (String.substring 0 2 line) address val st
        end
    | _, _ => Throws
    end.

Fixpoint compile_lines (lines : list string) (st : compiling) : compiled compiling :=
  match lines with
  | [] => Ok st
  | line :: rest =>
      match compile_line line st with
      | Ok st => compile_lines rest st
      | Illegal => Illegal
      | Throws => Throws
      end
  end.

(** The compiled cheat, or the reason there is none. *)
Definition core_cht_compile (code : string) : compiled core_cheat :=
  match compile_lines (split_lines code) (Compiling None []) with
  | Ok st => Ok (Cheat "Unnamed Cheat" code true (emitted st))
  | Illegal => Illegal
  | Throws => Throws
  end.

(** ** Files *)

Definition str_newline : string := String newline EmptyString.

Definition cht_serialize (s : cheat_state) : string :=
  fold_right (fun cheat str =>
      ("--" ++ name cheat ++ str_newline ++ code cheat ++ str_newline ++ str)%string)
    EmptyString (host_cheats s).

Definition starts_with_dashes (line : string) : bool := String.prefix "--" line.

(** The line loop of [cht_read_from_file]; the cheats read so far, latest first,
    which is the order their [back()] needs.  Reading a cheat's code starts with
    the first name line, so it is on exactly when there is a cheat. *)
Fixpoint read_lines (lines : list string) (cheats : list core_cheat) : list core_cheat :=
  match lines with
  | [] => cheats
  | line :: rest =>
      if String.eqb line EmptyString then read_lines rest cheats
      else
        let cheats :=
          match cheats with
          | cheat :: others =>
              cheat <| code := (code cheat ++ line ++ str_newline)%string |> :: others
          | [] => []
          end in
        let cheats :=
          if starts_with_dashes line then
            default_cheat <| name := String.substring 2 (String.length line - 2) line |> :: cheats
          else cheats in
        read_lines rest cheats
  end.

(** Compile every cheat read, keeping its name; a cheat whose code is illegal is
    left as it was read, and an exception ends the whole read. *)
Fixpoint compile_all (cheats : list core_cheat) : option (list core_cheat) :=
  match cheats with
  | [] => Some []
  | cheat :: rest =>
      c ← match core_cht_compile (code cheat) with
          | Ok c => Some (c <| name := name cheat |>)
          | Illegal => Some cheat
          | Throws => None
          end;
      cs ← compile_all rest;
      Some (c :: cs)
  end.

(** [file] is the text of the file, [None] when it cannot be opened; the text
    ends at its first NUL. *)
Fixpoint until_nul (s : string) : string :=
  match s with
  | EmptyString => EmptyString
  | String c t => if Ascii.eqb c "000" then EmptyString else String c (until_nul t)
  end.

Inductive read_result : Type := ReadFailed | ReadThrows | ReadOk (cheats : list core_cheat).

Definition cht_read_from_file (file : option string) : read_result :=
  match file with
  | None => ReadFailed
  | Some text =>
      match compile_all (rev (read_lines (split_lines (until_nul text)) [])) with
      | Some cheats => ReadOk cheats
      | None => ReadThrows
      end
  end.
