(* ===== verification/CheatsProps.v ===== *)
(** * Properties of the cheat engine

    Serialisation round trip, the grouping semantics of conditionals, the reach of
    [cht_execute], and the bounds of the RDRAM accesses. *)

From Stdlib Require Import Strings.String Strings.Ascii.
From S2P Require Import Prelude Cheats.

Open Scope prog_scope.
#[local] Open Scope Z_scope.

(** ** Lines of text *)

Section Text.
#[local] Open Scope string_scope.
Implicit Types a b s l : string.

Fixpoint str_forall (f : ascii -> bool) (s : string) : bool :=
  match s with EmptyString => true | String c t => f c && str_forall f t end.
Definition no_newline (s : string) : bool := str_forall (fun c => negb (Ascii.eqb c newline)) s.
Definition no_nul (s : string) : bool := str_forall (fun c => negb (Ascii.eqb c "000")) s.

Lemma str_cons_app c a b : String c a ++ b = String c (a ++ b).
Proof. reflexivity. Qed.

Lemma str_forall_app f a b : str_forall f (a ++ b) = str_forall f a && str_forall f b.
Proof.
  induction a as [|c a IH]; [done|]. rewrite str_cons_app. cbn [str_forall].
  by rewrite IH, andb_assoc.
Qed.

Lemma until_nul_id s : no_nul s = true -> until_nul s = s.
Proof.
  unfold no_nul. induction s as [|c s IH]; [done|]. cbn [str_forall until_nul].
  intros [H1 H2]%andb_true_iff. rewrite IH by done. by destruct (Ascii.eqb c "000").
Qed.

Lemma split_lines_cons s : exists l rest, split_lines s = l :: rest.
Proof.
  destruct s as [|c s]; cbn [split_lines]; [eauto|].
  destruct (Ascii.eqb c newline); [eauto|]. destruct (split_lines s); eauto.
Qed.

Lemma split_lines_app a b :
  split_lines (a ++ str_newline ++ b) = (split_lines a ++ split_lines b)%list.
Proof.
  induction a as [|c a IH]; [done|]. rewrite str_cons_app. cbn [split_lines].
  destruct (Ascii.eqb c newline); [by rewrite IH|]. rewrite IH.
  by destruct (split_lines_cons a) as (l & rest & ->).
Qed.

Lemma split_line a : no_newline a = true -> split_lines a = [a].
Proof.
  unfold no_newline. induction a as [|c a IH]; [done|]. cbn [str_forall split_lines].
  intros [H1 H2]%andb_true_iff. rewrite IH by done. by destruct (Ascii.eqb c newline).
Qed.

Lemma split_lines_no_newline s : Forall (fun l => no_newline l = true) (split_lines s).
Proof.
  induction s as [|c s IH]; cbn [split_lines]; [by repeat constructor|].
  destruct (Ascii.eqb c newline) eqn:E; [by constructor|].
  destruct (split_lines_cons s) as (l & rest & Hs). rewrite Hs in *.
  apply Forall_cons in IH as [H1 H2]. constructor; [|done].
  unfold no_newline in *. cbn [str_forall]. by rewrite E, H1.
Qed.

(** Lines written one after the other, each ended by a newline. *)
Fixpoint unlines (ls : list string) : string :=
  match ls with [] => "" | l :: rest => l ++ str_newline ++ unlines rest end.

Lemma split_unlines ls :
  Forall (fun l => no_newline l = true) ls -> split_lines (unlines ls) = (ls ++ [""])%list.
Proof.
  induction 1 as [|l ls Hl Hls IH]; [done|]. cbn [unlines].
  rewrite split_lines_app, split_line, IH by done. done.
Qed.

Lemma unlines_snoc ls l : unlines (ls ++ [l])%list = unlines ls ++ l ++ str_newline.
Proof.
  induction ls as [|x ls IH]; [done|]. cbn [unlines app] in *.
  rewrite IH, !str_app_assoc. done.
Qed.
End Text.

(** ** Reading what was serialised *)

Definition dashes (n : string) : string := ("--" ++ n)%string.
Definition nonempty_lines (c : string) : list string :=
  base.filter (fun l => l <> EmptyString) (split_lines c).

(** The lines of the serialised list. *)
Definition file_lines (hs : list core_cheat) : list string :=
  concat (map (fun h => dashes (name h) :: split_lines (code h)) hs).

Definition cheat_text_ok (h : core_cheat) : bool :=
  no_newline (name h) && no_nul (name h) && no_nul (code h) &&
  forallb (fun l => negb (starts_with_dashes l)) (split_lines (code h)).

Lemma serialize_lines s :
  Forall (fun h => cheat_text_ok h = true) (host_cheats s) ->
  split_lines (cht_serialize s) = file_lines (host_cheats s) ++ [EmptyString].
Proof.
  unfold cht_serialize, file_lines. induction 1 as [|h hs Hh Hhs IH]; [done|].
  cbn [fold_right map concat app].
  unfold cheat_text_ok in Hh. rewrite !andb_true_iff in Hh. destruct Hh as (((H1 & _) & _) & _).
  rewrite <- (str_app_assoc "--"%string). fold (dashes (name h)).
  rewrite !split_lines_app, IH, (split_line (dashes (name h))) by done.
  by rewrite <- app_assoc.
Qed.

Lemma serialize_no_nul s :
  Forall (fun h => cheat_text_ok h = true) (host_cheats s) -> no_nul (cht_serialize s) = true.
Proof.
  unfold cht_serialize, no_nul. induction 1 as [|h hs Hh Hhs IH]; [done|].
  unfold cheat_text_ok, no_nul in Hh. rewrite !andb_true_iff in Hh.
  destruct Hh as (((H1 & H2) & H3) & _). cbn [fold_right].
  by rewrite !str_forall_app, H2, H3, IH.
Qed.

(** The cheats read from a cheat's lines: its code is every line up to and
    including the next name line. *)
Fixpoint read_back (hs : list core_cheat) : list core_cheat :=
  match hs with
  | [] => []
  | h :: rest =>
      default_cheat <| name := name h |>
        <| code := unlines (nonempty_lines (code h) ++
                            match rest with [] => [] | h' :: _ => [dashes (name h')] end) |>
      :: read_back rest
  end.

Lemma read_lines_app l1 l2 cs : read_lines (l1 ++ l2) cs = read_lines l2 (read_lines l1 cs).
Proof.
  revert cs. induction l1 as [|l l1 IH]; intros cs; [done|]. cbn [app read_lines].
  by destruct (String.eqb l EmptyString).
Qed.

Lemma read_code_lines ls c cs :
  forallb (fun l => negb (starts_with_dashes l)) ls = true ->
  read_lines ls (c :: cs) =
    c <| code := (code c ++ unlines (base.filter (fun l => l <> EmptyString) ls))%string |> :: cs.
Proof.
  revert c. induction ls as [|l ls IH]; intros c.
  { intros _. cbn [read_lines unlines]. unfold base.filter, list_filter.
    cbn [list_filter]. rewrite str_app_nil. by destruct c. }
  cbn [forallb]. intros [H1 H2]%andb_true_iff. cbn [read_lines].
  destruct (String.eqb_spec l EmptyString) as [->|Hl].
  - rewrite filter_cons_False by (intros []; done). by apply IH.
  - rewrite filter_cons_True by done. destruct (starts_with_dashes l); [done|].
    rewrite IH by done. destruct c as [n co a i]. unfold upd_field. cbn. by rewrite !str_app_assoc.
Qed.

Lemma substring_dashes n :
  String.substring 2 (String.length (dashes n) - 2) (dashes n) = n.
Proof.
  unfold dashes. change (String.length ("--" ++ n)%string) with (S (S (String.length n))).
  cbn [Nat.sub]. rewrite Nat.sub_0_r.
  change (String.substring 0 (String.length n) n = n).
  induction n as [|c n IH]; [done|]. exact (f_equal (String c) IH).
Qed.

Lemma starts_dashes n : starts_with_dashes (dashes n) = true.
Proof. unfold starts_with_dashes. change (String.prefix EmptyString n = true). by destruct n. Qed.

(** The line naming the next cheat is still added to the previous one's code. *)
Definition bump (hs cs : list core_cheat) : list core_cheat :=
  match hs, cs with
  | h :: _, c :: rest =>
      c <| code := (code c ++ dashes (name h) ++ str_newline)%string |> :: rest
  | _, _ => cs
  end.

Lemma read_file_lines hs cs :
  Forall (fun h => cheat_text_ok h = true) hs ->
  read_lines (file_lines hs) cs = rev (read_back hs) ++ bump hs cs.
Proof.
  intros Hok. revert cs. induction Hok as [|h hs Hh Hhs IH]; intros cs; [by destruct cs|].
  unfold cheat_text_ok in Hh. rewrite !andb_true_iff in Hh. destruct Hh as (_ & Hc).
  unfold file_lines in *. cbn [map concat]. rewrite <- app_comm_cons. cbn [read_lines].
  change (String.eqb (dashes (name h)) EmptyString) with false.
  rewrite starts_dashes. cbv iota. rewrite substring_dashes, read_lines_app.
  replace (match cs with [] => [] | _ => _ end) with (bump (h :: hs) cs) by (by destruct cs).
  rewrite read_code_lines, IH by done.
  cbn [read_back rev]. rewrite <- app_assoc. f_equal. destruct hs as [|h' hs]; cbn [bump app].
  - by rewrite app_nil_r.
  - rewrite unlines_snoc. done.
Qed.

(** ** Compilation ignores blank lines and name lines *)

Lemma compile_skip l ls st : skipped l = true -> compile_lines (l :: ls) st = compile_lines ls st.
Proof. intros H. cbn [compile_lines]. unfold compile_line. by rewrite H. Qed.

Lemma compile_nonempty ls tail st :
  Forall (fun l => skipped l = true) tail ->
  compile_lines (base.filter (fun l => l <> EmptyString) ls ++ tail) st = compile_lines ls st.
Proof.
  intros Ht. revert st. induction ls as [|l ls IH]; intros st.
  - simpl. induction Ht; [done|]. by rewrite compile_skip.
  - destruct (decide (l = EmptyString)) as [->|Hl].
    + rewrite filter_cons_False by (intros []; done). rewrite (compile_skip _ ls) by done. apply IH.
    + rewrite filter_cons_True by done. cbn [app compile_lines].
      destruct (compile_line l st); [apply IH|done|done].
Qed.

Definition next_name (hs : list core_cheat) : list string :=
  match hs with [] => [] | h' :: _ => [dashes (name h')] end.

Lemma compile_read_back c hs :
  Forall (fun h => no_newline (name h) = true) hs ->
  compile_lines (split_lines (unlines (nonempty_lines c ++ next_name hs))) (Compiling None []) =
  compile_lines (split_lines c) (Compiling None []).
Proof.
  intros Hhs. rewrite split_unlines.
  - rewrite <- app_assoc. apply compile_nonempty. destruct Hhs; by repeat constructor.
  - apply Forall_app. split.
    + apply Forall_forall. intros l [_ Hl]%list_elem_of_filter.
      pose proof (split_lines_no_newline c) as H. rewrite Forall_forall in H. by apply H.
    + destruct Hhs; by repeat constructor.
Qed.

(** A cheat as the list stores it: its instructions are those of its code. *)
Definition compiled_from_code (h : core_cheat) : Prop :=
  exists c, core_cht_compile (code h) = Ok c /\ instructions c = instructions h.

Lemma compile_all_read_back hs :
  Forall (fun h => cheat_text_ok h = true) hs -> Forall compiled_from_code hs ->
  exists hs', compile_all (read_back hs) = Some hs' /\
    Forall2 (fun h h' => name h' = name h /\ instructions h' = instructions h /\
                         active h' = true) hs hs'.
Proof.
  induction 1 as [|h hs Hh Hhs IH]; intros Hc; [by exists []|].
  apply Forall_cons in Hc as [(c & Hc & Hi) Hcs]. destruct (IH Hcs) as (hs' & Hall & H2).
  cbn [read_back compile_all].
  assert (Forall (fun h => no_newline (name h) = true) hs) as Hn.
  { eapply Forall_impl; [exact Hhs|]. intros x. unfold cheat_text_ok.
    rewrite !andb_true_iff. tauto. }
  revert Hc. unfold core_cht_compile. cbn [code].
  change (match hs with [] => [] | h' :: _ => [dashes (name h')] end) with (next_name hs).
  unfold upd_field. cbn [code name].
  rewrite compile_read_back by done.
  destruct (compile_lines (split_lines (code h)) (Compiling None [])) as [st| |]; [|done|done].
  intros [= <-]. cbn [mbind option_bind]. rewrite Hall. cbn [mbind option_bind].
  eexists. split; [done|]. constructor; [|done]. done.
Qed.

(** C15.  The cheats saved beside a movie come back: for a list whose names are
    single lines and whose codes hold no line starting with two dashes, writing it
    with [cht_serialize] and reading the text with [cht_read_from_file] yields
    cheats with the same names and the same instructions, in the same order.  The
    codes differ (the next cheat's name line is appended to each) and every cheat
    comes back active, including those that were disabled. *)
Theorem cheat_file_roundtrip s :
  Forall (fun h => cheat_text_ok h = true) (host_cheats s) ->
  Forall compiled_from_code (host_cheats s) ->
  exists cheats, cht_read_from_file (Some (cht_serialize s)) = ReadOk cheats /\
    Forall2 (fun h h' => name h' = name h /\ instructions h' = instructions h /\
                         active h' = true) (host_cheats s) cheats.
Proof.
  intros Hok Hc. destruct (compile_all_read_back _ Hok Hc) as (hs' & Hall & H2).
  exists hs'. split; [|done]. unfold cht_read_from_file.
  rewrite until_nul_id by (by apply serialize_no_nul).
  rewrite serialize_lines, read_lines_app, read_file_lines by done.
  replace (bump (host_cheats s) []) with (@nil core_cheat) by (by destruct (host_cheats s)).
  rewrite app_nil_r. cbn [read_lines]. change (String.eqb EmptyString EmptyString) with true.
  cbv iota. by rewrite rev_involutive, Hall.
Qed.

#[local] Open Scope string_scope.
Definition sample_cheats : list core_cheat :=
  [ Cheat "Moon jump" "D033AFA1 0020" true [(true, EqByte 0x33AFA1 0x20)];
    Cheat "Health" "8133B21E 0008" false [(false, WriteWord 0x33B21E 8)] ].
#[local] Close Scope string_scope.
Definition sample_cheat_state : cheat_state := CheatState sample_cheats [] ∅ false.

Lemma cheat_file_roundtrip_witness :
  exists cheats, cht_read_from_file (Some (cht_serialize sample_cheat_state)) = ReadOk cheats /\
    Forall2 (fun h h' => name h' = name h /\ instructions h' = instructions h /\
                         active h' = true) sample_cheats cheats.
Proof.
  apply (cheat_file_roundtrip sample_cheat_state).
  - repeat constructor.
  - repeat constructor; eexists; (split; [vm_compute; reflexivity|reflexivity]).
Defined.

(** ** Conditionals guard the next write *)

(** The reference reading of a script: a run of conditionals and the write they
    guard form a group; the write happens when all of them hold. *)
Fixpoint groups (cs : list instr) (is' : list (bool * instr)) : list (list instr * option instr) :=
  match is' with
  | [] => match cs with [] => [] | _ => [(cs, None)] end
  | (true, i) :: rest => groups (cs ++ [i]) rest
  | (false, i) :: rest => (cs, Some i) :: groups [] rest
  end.

Fixpoint all_hold (cs : list instr) : M cheat_state bool :=
  match cs with
  | [] => ret true
  | c :: rest => b <-- run_instr c ;;; if b then all_hold rest else ret false
  end.

Definition run_group (g : list instr * option instr) : M cheat_state unit :=
  ok <-- all_hold g.1 ;;;
  match g.2 with
  | Some i => when ok (run_instr i ;;; ret tt)
  | None => ret tt
  end.

Fixpoint run_groups (gs : list (list instr * option instr)) : M cheat_state unit :=
  match gs with [] => ret tt | g :: rest => run_group g ;;; run_groups rest end.

Definition is_conditional (i : instr) : bool :=
  match i with EqByte _ _ | EqWord _ _ | NeByte _ _ | NeWord _ _ => true | _ => false end.

Definition flags_ok (is' : list (bool * instr)) : Prop :=
  Forall (fun x => x.1 = is_conditional x.2) is'.

Lemma run_store_true i s b s' :
  is_conditional i = false -> run_instr i s = Ret (b, s') -> b = true.
Proof.
  destruct i; try done; intros _ H; cbn [run_instr] in H; rewrite ?bind_get_l in H;
    apply bind_inv in H as (? & ? & _ & H); unfold ret in H; congruence.
Qed.

Lemma all_hold_snoc cs i s :
  all_hold (cs ++ [i]) s = bind (all_hold cs) (fun ok => if ok then run_instr i else ret false) s.
Proof.
  revert s. induction cs as [|c cs IH]; intros s; cbn [all_hold app].
  - unfold bind, obind, ret. destruct (run_instr i s) as [[[] ?]|]; reflexivity.
  - rewrite bind_assoc. unfold bind at 1 2. destruct (run_instr c s) as [[[] s1]|]; [|done|done].
    cbn [obind]. apply IH.
Qed.

Lemma groups_run is' cs s :
  flags_ok is' ->
  bind (all_hold cs) (fun ok => run_instructions ok is') s = run_groups (groups cs is') s.
Proof.
  intros Hf. revert cs s. induction Hf as [|[b i] is' Hb Hf IH]; intros cs s; cbn [groups].
  - destruct cs as [|c cs]; [reflexivity|]. cbn [run_groups]. unfold run_group.
    rewrite !bind_assoc. reflexivity.
  - simpl in Hb. destruct b; cbn [run_instructions].
    + rewrite <- IH, (bind_cong _ _ _ _ (all_hold_snoc cs i)), bind_assoc.
      apply bind_ext. intros [] s' _; [done|]. reflexivity.
    + cbn [run_groups]. unfold run_group. rewrite bind_assoc. apply bind_ext.
      intros ok s' _. cbn [fst snd negb].
      assert (forall t, run_instructions true is' t = run_groups (groups [] is') t) as Hr
        by (intros t; rewrite <- IH; reflexivity).
      destruct ok; cbn [when]; [|exact (Hr s')].
      rewrite bind_assoc. apply bind_ext. intros e t He.
      rewrite (run_store_true _ _ _ _ (eq_sym Hb) He). exact (Hr t).
Qed.

(** The compiler flags exactly the comparisons. *)
Lemma compile_opcode_flags op a v st st' :
  flags_ok (emitted st) -> compile_opcode op a v st = Ok st' -> flags_ok (emitted st').
Proof.
  intros Hf. unfold compile_opcode, emit.
  intros H. repeat case_match; simplify_eq; try done;
    apply Forall_app; split; by repeat constructor.
Qed.

Lemma compile_lines_flags ls st st' :
  flags_ok (emitted st) -> compile_lines ls st = Ok st' -> flags_ok (emitted st').
Proof.
  revert st. induction ls as [|l ls IH]; intros st Hf; cbn [compile_lines]; [by intros [= <-]|].
  destruct (compile_line l st) as [st1| |] eqn:E; [|done|done]. apply IH.
  revert E. unfold compile_line. destruct (skipped l); [by intros [= <-]|].
  destruct (stoul16 _) as [a|]; [|done]. destruct (stoul16 _) as [v|]; [|done].
  destruct (serial st) as [m|].
  - intros [= <-]. apply Forall_app. split; [done|]. apply Forall_forall.
    intros x Hx. apply list_elem_of_fmap in Hx as (i & -> & _). done.
  - by apply compile_opcode_flags.
Qed.

(** Conditional codes: in a compiled script every write is executed exactly
    when all the comparisons immediately before it hold (checked in order, up to
    the first that fails), and comparisons with no write after them have no
    effect.  The flag-driven loop of [cht_execute] equals that grouped reading. *)
Theorem conditionals_guard_next_write text c s :
  core_cht_compile text = Ok c ->
  run_instructions true (instructions c) s = run_groups (groups [] (instructions c)) s.
Proof.
  unfold core_cht_compile. destruct (compile_lines _ _) as [st| |] eqn:E; [|done|done].
  intros [= <-]. cbn [instructions]. rewrite <- groups_run; [reflexivity|].
  eapply compile_lines_flags; [|exact E]. constructor.
Qed.

Definition guarded_text : string :=
  unlines ["D033AFA1 0020"; "D233AFA2 0001"; "8133B21E 0008"; "8033B220 0001"]%string.

Lemma conditionals_guard_next_write_witness :
  exists c, core_cht_compile guarded_text = Ok c /\
    groups [] (instructions c) =
      [([EqByte 0x33AFA1 0x20; NeByte 0x33AFA2 1], Some (WriteWord 0x33B21E 8));
       ([], Some (WriteByte 0x33B220 1))] /\
    run_instructions true (instructions c) sample_cheat_state =
      run_groups (groups [] (instructions c)) sample_cheat_state.
Proof.
  eexists. split; [vm_compute; reflexivity|]. split; [vm_compute; reflexivity|].
  apply (conditionals_guard_next_write guarded_text). vm_compute. reflexivity.
Defined.

(** [cht_execute] stops at the first disabled cheat: it runs the cheats of
    the top layer up to the first inactive one and none of those after it, active
    or not. *)
Theorem execute_stops_at_inactive pre c post s :
  Forall (fun h => active h = true) pre -> active c = false ->
  core_cht_get_list s = pre ++ c :: post ->
  cht_execute s = execute_cheats pre s.
Proof.
  intros Hp Hc Hl. unfold cht_execute. rewrite bind_get_l, Hl. clear Hl.
  revert s. induction Hp as [|h pre Hh Hp IH]; intros s; cbn [app execute_cheats].
  - by rewrite Hc.
  - rewrite Hh. cbn [negb]. apply bind_ext. intros [] t _. apply IH.
Qed.

(** A disabled cheat in front of an enabled one: the write of the second never
    happens. *)
Lemma execute_stops_at_inactive_witness :
  let s := CheatState (rev sample_cheats) [] ∅ false in
  core_cht_get_list s = rev sample_cheats /\ cht_execute s = Ret (tt, s).
Proof.
  split; [done|].
  apply (execute_stops_at_inactive [] (Cheat "Health" "8133B21E 0008" false [(false, WriteWord 0x33B21E 8)])
    [Cheat "Moon jump" "D033AFA1 0020" true [(true, EqByte 0x33AFA1 0x20)]]); done.
Defined.

(** ** Bounds of the RDRAM accesses *)

Lemma rdram_offset_range addr size : 0 <= rdram_offset addr size < RDRAM_SIZE.
Proof.
  unfold rdram_offset. change CORE_ADDR_MASK with (Z.ones 23). rewrite Z.land_ones by lia.
  by apply Z.mod_pos_bound.
Qed.

Lemma land_lxor_l a b c : Z.land (Z.lxor a b) c = Z.lxor (Z.land a c) (Z.land b c).
Proof.
  apply Z.bits_inj'. intros n _. rewrite Z.land_spec, !Z.lxor_spec, !Z.land_spec.
  by destruct (Z.testbit a n), (Z.testbit b n), (Z.testbit c n).
Qed.

Lemma word_offset_edge addr :
  rdram_offset addr 2 = 0x7FFFFF <-> Z.land addr 0x7FFFFF = 0x7FFFFD.
Proof.
  unfold rdram_offset, to_addr, CORE_ADDR_MASK. cbn [Z.eqb Pos.eqb].
  rewrite land_lxor_l. change (Z.land 2 0x7FFFFF) with 2. split; intros H.
  - rewrite <- (Z.lxor_0_r (Z.land addr _)), <- (Z.lxor_nilpotent 2), <- Z.lxor_assoc, H. done.
  - rewrite H. done.
Qed.

(** Memory safety of cheat writes: a byte write always lands inside RDRAM and
    changes exactly the addressed byte (addresses are taken modulo the 8 MB of
    RDRAM and byte-swizzled), while a 16-bit write goes one byte past the end of
    RDRAM exactly when the masked address is 0x7FFFFD. *)
Theorem cheat_write_bounds address val s :
  (exists s', run_instr (WriteByte address val) s = Ret (true, s') /\
     forall off, rdram_byte s' off =
       if off =? rdram_offset address 1 then u8 val else rdram_byte s off) /\
  (run_instr (WriteWord address val) s = Undef OutOfBounds <->
     Z.land address 0x7FFFFF = 0x7FFFFD).
Proof.
  pose proof (rdram_offset_range address 1) as H1. pose proof (rdram_offset_range address 2) as H2.
  unfold RDRAM_SIZE in *. split.
  - cbn [run_instr]. unfold core_rdram_store, RDRAM_SIZE.
    rewrite (proj2 (Z.leb_le _ _)) by lia. rewrite bind_modify_l. eexists. split; [done|].
    intros off. unfold rdram_byte, upd_field. cbn [rdramb].
    change (Z.to_nat 1) with 1%nat. cbn [store_bytes le_split].
    destruct (Z.eqb_spec off (rdram_offset address 1)) as [->|Hne].
    + by rewrite lookup_insert_eq.
    + by rewrite lookup_insert_ne by congruence.
  - rewrite <- word_offset_edge. cbn [run_instr]. unfold core_rdram_store, RDRAM_SIZE, bind.
    destruct (Z.leb_spec (rdram_offset address 2 + 2) 0x800000); cbn; split; intros; (lia || done).
Qed.
