(* ===== verification/Movie.v ===== *)
(** * The movie file format (vcr.cpp, core_types.h)

    The .m64 header as the packed C struct [core_vcr_movie_header], its object
    representation (1024 bytes, little endian), [read_movie_header] with the
    recovery of old versions, [write_movie_impl], and the functions that parse
    movie files.  The file system is a map from paths to contents. *)

From Stdlib Require Import Strings.String Strings.Ascii.
From S2P Require Import Prelude Path.

Open Scope prog_scope.
#[local] Open Scope Z_scope.

(** ** Data *)

Definition mup_magic : Z := 0x1a34364d.
Definition mup_version : Z := 3.

Definition MOVIE_START_FROM_SNAPSHOT : Z := 1.
Definition MOVIE_START_FROM_NOTHING : Z := 2.
Definition MOVIE_START_FROM_EEPROM : Z := 4.
Definition MOVIE_START_FROM_EXISTING_SNAPSHOT : Z := 8.

Definition CONTROLLER_X_PRESENT (x : Z) : Z := Z.shiftl 1 x.
Definition CONTROLLER_X_MEMPAK (x : Z) : Z := Z.shiftl 1 (x + 4).
Definition CONTROLLER_X_RUMBLE (x : Z) : Z := Z.shiftl 1 (x + 8).

(** Character arrays are lists of bytes of the array's length. *)
Record t_extended_movie_data : Set := ExtendedMovieData {
  authorship_tag : list Z;
  bruteforce_extra_data : Z;
  ext_rerecord_count : Z;
  unused_1 : Z;
  unused_2 : Z;
  unused_3 : Z
}.
#[export] Instance extended_eta : Eta t_extended_movie_data := fun e =>
  ExtendedMovieData (authorship_tag e) (bruteforce_extra_data e) (ext_rerecord_count e)
    (unused_1 e) (unused_2 e) (unused_3 e).

Record core_vcr_movie_header : Set := MovieHeader {
  magic : Z;
  version : Z;
  uid : Z;
  length_vis : Z;
  rerecord_count : Z;
  vis_per_second : Z;
  num_controllers : Z;
  extended_version : Z;
  extended_flags : Z;
  length_samples : Z;
  startFlags : Z;
  reserved2 : Z;
  controller_flags : Z;
  extended_data : t_extended_movie_data;
  old_author_info : list Z;
  old_description : list Z;
  rom_name : list Z;
  rom_crc1 : Z;
  rom_country : Z;
  reserved_bytes : list Z;
  video_plugin_name : list Z;
  audio_plugin_name : list Z;
  input_plugin_name : list Z;
  rsp_plugin_name : list Z;
  author : list Z;
  description : list Z
}.
#[export] Instance header_eta : Eta core_vcr_movie_header := fun h =>
  MovieHeader (magic h) (version h) (uid h) (length_vis h) (rerecord_count h)
    (vis_per_second h) (num_controllers h) (extended_version h) (extended_flags h)
    (length_samples h) (startFlags h) (reserved2 h) (controller_flags h) (extended_data h)
    (old_author_info h) (old_description h) (rom_name h) (rom_crc1 h) (rom_country h)
    (reserved_bytes h) (video_plugin_name h) (audio_plugin_name h) (input_plugin_name h)
    (rsp_plugin_name h) (author h) (description h).

(** The results the movie code returns. *)
Inductive core_result : Set :=
| Res_Ok
| Res_Cancelled
| VCR_InvalidFormat
| VCR_BadFile
| VCR_InvalidControllers
| VCR_InvalidSavestate
| VCR_InvalidFrame
| VCR_InvalidStartType
| VCR_InvalidVersion
| VCR_InvalidExtendedVersion
| VCR_NeedsPlaybackOrRecording
| VCR_NotFromThisMovie
| VCR_Idle
| VCR_SeekAlreadyRunning
| VCR_SeekSavestateIntervalZero
| VCR_CheatWriteFailed
| VCR_WarpModifyAlreadyRunning
| VCR_WarpModifyNeedsRecordingTask
| VCR_WarpModifyEmptyInputBuffer
| OtherError (code : Z).

#[export] Instance core_result_eq_dec : EqDecision core_result.
Proof. solve_decision. Defined.

Definition is_ok (r : core_result) : bool :=
  match r with Res_Ok => true | _ => false end.

(** ** Object representation *)

Definition zeros (n : nat) : list Z := replicate n 0.

Definition sizeof_header : nat := 1024.

Definition extended_image (e : t_extended_movie_data) : list Z :=
  authorship_tag e ++ le_split 4 (bruteforce_extra_data e) ++
  le_split 4 (ext_rerecord_count e) ++ le_split 8 (unused_1 e) ++
  le_split 8 (unused_2 e) ++ le_split 4 (unused_3 e).

(** The 482 bytes in front of the RSP plugin's name. *)
Definition header_prefix (h : core_vcr_movie_header) : list Z :=
  le_split 4 (magic h) ++ le_split 4 (version h) ++ le_split 4 (uid h) ++
  le_split 4 (length_vis h) ++ le_split 4 (rerecord_count h) ++
  le_split 1 (vis_per_second h) ++ le_split 1 (num_controllers h) ++
  le_split 1 (extended_version h) ++ le_split 1 (extended_flags h) ++
  le_split 4 (length_samples h) ++ le_split 2 (startFlags h) ++ le_split 2 (reserved2 h) ++
  le_split 4 (controller_flags h) ++ extended_image (extended_data h) ++
  old_author_info h ++ old_description h ++ rom_name h ++ le_split 4 (rom_crc1 h) ++
  le_split 2 (rom_country h) ++ reserved_bytes h ++ video_plugin_name h ++
  audio_plugin_name h ++ input_plugin_name h.

Definition header_image (h : core_vcr_movie_header) : list Z :=
  header_prefix h ++ rsp_plugin_name h ++ author h ++ description h.

(** Reading the representation back, member after member. *)
Definition chunk (n : nat) (l : list Z) : list Z * list Z := (take n l, drop n l).
Definition word (n : nat) (l : list Z) : Z * list Z := (le_combine (take n l), drop n l).

Definition extended_of (l : list Z) : t_extended_movie_data :=
  let '(tag, l) := chunk 4 l in
  let '(brute, l) := word 4 l in
  let '(rr, l) := word 4 l in
  let '(u1, l) := word 8 l in
  let '(u2, l) := word 8 l in
  let '(u3, l) := word 4 l in
  ExtendedMovieData tag brute rr u1 u2 u3.

Definition header_of (l : list Z) : core_vcr_movie_header :=
  let '(magic, l) := word 4 l in
  let '(version, l) := word 4 l in
  let '(uid, l) := word 4 l in
  let '(length_vis, l) := word 4 l in
  let '(rerecord_count, l) := word 4 l in
  let '(vis_per_second, l) := word 1 l in
  let '(num_controllers, l) := word 1 l in
  let '(extended_version, l) := word 1 l in
  let '(extended_flags, l) := word 1 l in
  let '(length_samples, l) := word 4 l in
  let '(startFlags, l) := word 2 l in
  let '(reserved2, l) := word 2 l in
  let '(controller_flags, l) := word 4 l in
  let '(ext, l) := chunk 32 l in
  let '(old_author_info, l) := chunk 48 l in
  let '(old_description, l) := chunk 80 l in
  let '(rom_name, l) := chunk 32 l in
  let '(rom_crc1, l) := word 4 l in
  let '(rom_country, l) := word 2 l in
  let '(reserved_bytes, l) := chunk 56 l in
  let '(video, l) := chunk 64 l in
  let '(audio, l) := chunk 64 l in
  let '(input, l) := chunk 64 l in
  let '(rsp, l) := chunk 64 l in
  let '(author, l) := chunk 222 l in
  let '(description, l) := chunk 256 l in
  MovieHeader magic version uid length_vis rerecord_count vis_per_second num_controllers
    extended_version extended_flags length_samples startFlags reserved2 controller_flags
    (extended_of ext) old_author_info old_description rom_name rom_crc1 rom_country
    reserved_bytes video audio input rsp author description.

(** [core_vcr_movie_header hdr{}]: zero but for the member initialisers. *)
Definition default_hdr : core_vcr_movie_header :=
  (header_of (zeros sizeof_header))
    <| extended_version := 1 |>
    <| extended_data := (extended_of (zeros 32)) <| authorship_tag := [0x4D; 0x55; 0x50; 0x4E] |> |>.

(** Offsets of the members [read_movie_header] addresses. *)
Definition off_reserved_bytes : nat := 234.
Definition off_video : nat := 290.
Definition off_audio : nat := 354.
Definition off_input : nat := 418.
Definition off_rsp : nat := 482.
Definition off_author : nat := 546.
Definition off_description : nat := 768.
Definition off_old_author : nat := 68.
Definition off_old_description : nat := 116.

(** ** C string and memory functions on the representation *)

Definition bytes_at (off n : nat) (l : list Z) : list Z := take n (drop off l).
Definition byte_at (off : nat) (l : list Z) : Z := default 0 (l !! off).

(** [memcpy]/[memmove] into the object at offset [off]. *)
Definition put (off : nat) (src l : list Z) : list Z :=
  take off l ++ src ++ drop (off + length src) l.

(** The characters before the terminator. *)
Fixpoint c_str (l : list Z) : list Z :=
  match l with [] => [] | b :: rest => if b =? 0 then [] else b :: c_str rest end.

(** [strncpy_s(dst, size, src, count)] writes the string and a terminator; it
    calls the invalid-parameter handler, which ends the program, when they do not
    fit. *)
Definition strncpy_s (size : nat) (src : list Z) (count : nat) (dst : list Z) : option (list Z) :=
  let d := take count (c_str src) in
  if (length d <? size)%nat then Some (put 0 (d ++ [0]) dst) else None.

Definition unknown_name : list Z := [40; 117; 110; 107; 110; 111; 119; 110; 41].

(** Copies inside [read_movie_header], whose sources always fit. *)
Definition put_string (off : nat) (src : list Z) (count : nat) (l : list Z) : list Z :=
  put off (take count (c_str src) ++ [0]) l.

(** ** Reading a header *)

Definition IS_ALPHA (x : Z) : bool :=
  ((65 <=? x) && (x <=? 90)) || ((97 <=? x) && (x <=? 122)) || (x =? 49).

(** The first of the 120 positions at which [n] consecutive names, 64 bytes apart,
    start with a letter. *)
Definition names_at (img : list Z) (n i : nat) : bool :=
  forallb (fun k => IS_ALPHA (byte_at (off_reserved_bytes + i + 64 * k) img)) (seq 0 n).

Definition find_names (img : list Z) (n : nat) : option nat :=
  fst <$> list_find (fun i => names_at img n i = true) (seq 0 120).

(** Recovery of the plugin names of versions 1 and 2. *)
Definition recover_plugin_names (img : list Z) : list Z :=
  let at_ i n := bytes_at (off_reserved_bytes + i) n img in
  let unknown off img := put_string off unknown_name 64 img in
  match find_names img 4 with
  | Some i => put off_video (at_ i 256%nat) img
  | None =>
      unknown off_video
        match find_names img 3 with
        | Some i => put off_audio (at_ i 192%nat) img
        | None =>
            unknown off_audio
              match find_names img 2 with
              | Some i => put off_input (at_ i 128%nat) img
              | None =>
                  unknown off_input
                    match find_names img 1 with
                    | Some i => put off_rsp (at_ i 64%nat) img
                    | None => unknown off_rsp img
                    end
              end
        end
  end.

Definition recover_author_info (img : list Z) : list Z :=
  let img := put_string off_author (bytes_at off_old_author 48 img) 48 img in
  put_string off_description (bytes_at off_old_description 80 img) 80 img.

Definition old_header_size : nat := 512.

(** Returns the result and the value of [*header]. *)
Definition read_movie_header (buf : list Z) (header : core_vcr_movie_header)
    : core_result * core_vcr_movie_header :=
  if (length buf <? old_header_size)%nat then (VCR_InvalidFormat, header)
  else
    let img := take old_header_size buf ++ zeros (sizeof_header - old_header_size) in
    let h := header_of img in
    if negb (magic h =? mup_magic) then (VCR_InvalidFormat, header)
    else if (version h <=? 0) || (mup_version <? version h) then (VCR_InvalidVersion, header)
    else if extended_version default_hdr <? extended_version h
    then (VCR_InvalidExtendedVersion, header)
    else
      let h :=
        if (version h =? 1) || (version h =? 2)
        then header_of (recover_author_info (recover_plugin_names img)) else h in
      if (version h =? 3) && (length buf <? sizeof_header)%nat then (VCR_InvalidFormat, header)
      else
        let h :=
          if version h =? 3 then
            let actual_sample_count := Z.of_nat (length buf - sizeof_header) / 4 in
            h <| author := bytes_at 0x222 222 buf |>
              <| description := bytes_at 0x300 256 buf |>
              <| length_samples := if actual_sample_count <? length_samples h
                                   then u32 actual_sample_count else length_samples h |>
          else h in
        (Res_Ok, h).

(** ** Movie files *)

Notation files := (gmap string (list Z)).

(** [read_file_buffer] of lib/IOHelpers.cpp: empty when the file cannot be read. *)
Definition read_file_buffer (fs : files) (path : string) : list Z := default [] (fs !! path).

(** "(no ROM)" *)
Definition no_rom : list Z := [40; 110; 111; 32; 82; 79; 77; 41].

Definition core_vcr_parse_header (fs : files) (path : string) (header : core_vcr_movie_header)
    : core_result * core_vcr_movie_header :=
  if negb (String.eqb (extension path) ".m64") then (VCR_InvalidFormat, header)
  else
    let new_header := default_hdr <| rom_country := 0xFFFF |>
                        <| rom_name := put 0 (no_rom ++ [0]) (zeros 32) |> in
    match read_file_buffer fs path with
    | [] => (VCR_BadFile, header)
    | buf => read_movie_header buf new_header
    end.

(** [core_buttons] is the 32-bit [value] of the union. *)
Fixpoint samples_of (n : nat) (l : list Z) : list Z :=
  match n with
  | O => []
  | S n => le_combine (take 4 l) :: samples_of n (drop 4 l)
  end.

Definition core_vcr_read_movie_inputs (fs : files) (path : string) (inputs : list Z)
    : core_result * list Z :=
  let '(result, header) := core_vcr_parse_header fs path default_hdr in
  if negb (is_ok result) then (result, inputs)
  else
    let buf := read_file_buffer fs path in
    if Z.of_nat (length buf) <? 1024 + 4 * length_samples header then (VCR_InvalidFormat, inputs)
    else (Res_Ok, samples_of (Z.to_nat (length_samples header)) (drop sizeof_header buf)).

(** What [write_movie_impl] makes of the header without the extended format: only
    the first byte of the extended data is cleared beside the tag. *)
Definition strip_extended (h : core_vcr_movie_header) : core_vcr_movie_header :=
  h <| extended_version := 0 |> <| extended_flags := 0 |>
    <| extended_data :=
         (extended_data h) <| authorship_tag := put 0 [0] (zeros 4) |> |>.

Definition samples_image (inputs : list Z) : list Z := concat (map (le_split 4) inputs).

Definition write_movie_impl (can_open vcr_write_extended_format : bool)
    (hdr : core_vcr_movie_header) (inputs : list Z) (path : string) : M files bool :=
  if negb can_open then ret false
  else
    let hdr_copy := if vcr_write_extended_format then hdr else strip_extended hdr in
    if Z.of_nat (length inputs) <? length_samples hdr_copy then undef OutOfBounds
    else
      modify (fun fs =>
        <[path := header_image hdr_copy ++
                  samples_image (take (Z.to_nat (length_samples hdr_copy)) inputs)]> fs) ;;;
      ret true.

(** ** Author information *)

(** Does the C string in memory [mem] equal [s]?  [None] when the comparison runs
    off the memory. *)
Fixpoint strcmp_eq (mem s : list Z) : option bool :=
  match mem, s with
  | [], _ => None
  | m :: _, [] => Some (m =? 0)
  | m :: mem, c :: s => if m =? c then strcmp_eq mem s else Some false
  end.

(** Writing into a file at an offset, past the end if need be. *)
Definition file_put (off : nat) (src l : list Z) : list Z :=
  put off src (l ++ zeros (off - length l)).

Definition core_vcr_replace_author_info (can_open : bool) (path : string)
    (new_author new_description : list Z) : M files core_result :=
  fs <-- get ;;;
  match read_file_buffer fs path with
  | [] => ret VCR_BadFile
  | buf =>
      let '(result, hdr) := read_movie_header buf default_hdr in
      if negb (is_ok result) then ret result
      else
        match strcmp_eq (author hdr ++ description hdr) (c_str new_author) with
        | None => undef OutOfBounds
        | Some same_author =>
            match (if same_author : bool then strcmp_eq (description hdr) (c_str new_description)
                   else Some false) with
            | None => undef OutOfBounds
            | Some true => ret Res_Ok
            | Some false =>
                if negb can_open then ret VCR_BadFile
                else if (222 <? length new_author)%nat || (256 <? length new_description)%nat
                then ret VCR_InvalidFormat
                else
                  let buf := file_put 0x222 new_author (file_put 0x222 (zeros 222) buf) in
                  let buf := file_put 0x300 new_description (file_put 0x300 (zeros 256) buf) in
                  modify (fun fs => <[path := buf]> fs) ;;; ret Res_Ok
            end
        end
  end.
