(* ===== verification/MovieProps.v ===== *)
(** * Properties of the movie file format

    The object representation of the header round-trips, reading a header is safe
    on every buffer, a written movie reads back, and the author information can be
    replaced in place. *)

From Stdlib Require Import Strings.String Strings.Ascii.
From S2P Require Import Prelude Path Movie.

Open Scope prog_scope.
#[local] Open Scope Z_scope.

(** ** Well-formed headers *)

Definition bytes (n : nat) (l : list Z) : Prop := length l = n /\ Forall is_u8 l.
Definition fits (n : nat) (z : Z) : Prop := 0 <= z < 256 ^ Z.of_nat n.

Record extended_wf (e : t_extended_movie_data) : Prop := {
  wf_tag : bytes 4 (authorship_tag e);
  wf_brute : fits 4 (bruteforce_extra_data e);
  wf_ext_rerecords : fits 4 (ext_rerecord_count e);
  wf_unused_1 : fits 8 (unused_1 e);
  wf_unused_2 : fits 8 (unused_2 e);
  wf_unused_3 : fits 4 (unused_3 e)
}.

Record header_wf (h : core_vcr_movie_header) : Prop := {
  wf_magic : fits 4 (magic h);
  wf_version : fits 4 (version h);
  wf_uid : fits 4 (uid h);
  wf_length_vis : fits 4 (length_vis h);
  wf_rerecord_count : fits 4 (rerecord_count h);
  wf_vis_per_second : fits 1 (vis_per_second h);
  wf_num_controllers : fits 1 (num_controllers h);
  wf_extended_version : fits 1 (extended_version h);
  wf_extended_flags : fits 1 (extended_flags h);
  wf_length_samples : fits 4 (length_samples h);
  wf_startFlags : fits 2 (startFlags h);
  wf_reserved2 : fits 2 (reserved2 h);
  wf_controller_flags : fits 4 (controller_flags h);
  wf_extended : extended_wf (extended_data h);
  wf_old_author : bytes 48 (old_author_info h);
  wf_old_description : bytes 80 (old_description h);
  wf_rom_name : bytes 32 (rom_name h);
  wf_rom_crc1 : fits 4 (rom_crc1 h);
  wf_rom_country : fits 2 (rom_country h);
  wf_reserved : bytes 56 (reserved_bytes h);
  wf_video : bytes 64 (video_plugin_name h);
  wf_audio : bytes 64 (audio_plugin_name h);
  wf_input : bytes 64 (input_plugin_name h);
  wf_rsp : bytes 64 (rsp_plugin_name h);
  wf_author : bytes 222 (author h);
  wf_description : bytes 256 (description h)
}.

(** ** The representation round-trips *)

Lemma word_split n z l : fits n z -> word n (le_split n z ++ l) = (z, l).
Proof.
  intros H. unfold word. rewrite take_app_length', drop_app_length' by (symmetry; apply length_le_split).
  f_equal. rewrite le_combine_split. by apply Z.mod_small.
Qed.

Lemma chunk_app n a l : length a = n -> chunk n (a ++ l) = (a, l).
Proof. intros H. unfold chunk. by rewrite take_app_length', drop_app_length'. Qed.

Lemma word_last n z : fits n z -> word n (le_split n z) = (z, []).
Proof. intros H. rewrite <- (app_nil_r (le_split n z)). by apply word_split. Qed.

Lemma chunk_last n a : length a = n -> chunk n a = (a, []).
Proof. intros H. rewrite <- (app_nil_r a) at 1. by apply chunk_app. Qed.

Lemma extended_roundtrip e : extended_wf e -> extended_of (extended_image e) = e.
Proof.
  intros [[] ? ? ? ? ?]. unfold extended_of, extended_image.
  rewrite chunk_app, !word_split, word_last by done. by destruct e.
Qed.

Lemma length_extended_image e : extended_wf e -> length (extended_image e) = 32%nat.
Proof. intros [[]]. unfold extended_image. rewrite !length_app, !length_le_split. lia. Qed.

(** Parsing one member after the other. *)
Ltac parse_member :=
  lazymatch goal with
  | |- context [word ?n (le_split ?n ?z ++ ?l)] =>
      rewrite (word_split n z l) by assumption
  | |- context [chunk ?n (?a ++ ?l)] => rewrite (chunk_app n a l) by assumption
  end; cbv iota beta.

Lemma header_roundtrip h rest : header_wf h -> header_of (header_image h ++ rest) = h.
Proof.
  intros []. unfold header_image, header_prefix. rewrite <- !app_assoc. unfold header_of.
  repeat match goal with H : bytes _ _ |- _ => destruct H end.
  pose proof (length_extended_image _ wf_extended0).
  repeat parse_member.
  rewrite extended_roundtrip by done. by destruct h.
Qed.

Lemma length_header_prefix h : header_wf h -> length (header_prefix h) = 482%nat.
Proof.
  intros []. unfold header_prefix. rewrite !length_app, !length_le_split.
  rewrite length_extended_image by done.
  repeat match goal with H : bytes _ _ |- _ => destruct H as [-> _] end. lia.
Qed.

Lemma length_header_image h : header_wf h -> length (header_image h) = 1024%nat.
Proof.
  intros Hw. unfold header_image. rewrite !length_app, length_header_prefix by done. destruct Hw.
  repeat match goal with H : bytes _ _ |- _ => destruct H as [-> _] end. lia.
Qed.

Lemma bytes_zeros n : bytes n (zeros n).
Proof. split; [apply length_replicate|]. apply Forall_replicate. unfold is_u8. lia. Qed.

Lemma bytes_app n m a b : bytes n a -> bytes m b -> bytes (n + m) (a ++ b).
Proof. intros [] []. split; [rewrite length_app; lia|]. by apply Forall_app. Qed.

Lemma bytes_take n m a : bytes m a -> (n <= m)%nat -> bytes n (take n a).
Proof. intros [] ?. split; [rewrite length_take; lia|]. by apply Forall_take. Qed.

(** The part of a header that survives in its first 512 bytes: only 30 characters
    of the RSP plugin's name, and neither author nor description. *)
Definition first_half (h : core_vcr_movie_header) : core_vcr_movie_header :=
  h <| rsp_plugin_name := take 30 (rsp_plugin_name h) ++ zeros 34 |>
    <| author := zeros 222 |> <| description := zeros 256 |>.

Lemma first_half_wf h : header_wf h -> header_wf (first_half h).
Proof.
  intros []. constructor; try done.
  - apply (bytes_app 30 34 (take 30 (rsp_plugin_name h)) (zeros 34)); [|apply bytes_zeros].
    apply (bytes_take 30 64); [done|lia].
  - apply (bytes_zeros 222).
  - apply (bytes_zeros 256).
Qed.

Lemma first_half_image h rest :
  header_wf h ->
  take old_header_size (header_image h ++ rest) ++ zeros (sizeof_header - old_header_size) =
  header_image (first_half h).
Proof.
  intros Hw. unfold header_image, old_header_size, sizeof_header.
  change (header_prefix (first_half h)) with (header_prefix h).
  rewrite <- !app_assoc, take_app, length_header_prefix by done.
  rewrite (take_ge (header_prefix h)) by (rewrite length_header_prefix by done; lia).
  rewrite <- app_assoc. f_equal. change (512 - 482)%nat with 30%nat.
  destruct Hw. destruct wf_rsp0 as [Hr _]. rewrite take_app_le by lia.
  unfold first_half. simpl_upd. by rewrite <- app_assoc.
Qed.

Lemma header_of_first_half h rest :
  header_wf h ->
  header_of (take old_header_size (header_image h ++ rest) ++
             zeros (sizeof_header - old_header_size)) = first_half h.
Proof.
  intros Hw. rewrite first_half_image by done. rewrite <- (app_nil_r (header_image _)).
  by apply header_roundtrip, first_half_wf.
Qed.

Lemma bytes_at_author h rest :
  header_wf h -> bytes_at 0x222 222 (header_image h ++ rest) = author h.
Proof.
  intros Hw. unfold bytes_at, header_image. pose proof (length_header_prefix h Hw). destruct Hw.
  destruct wf_rsp0 as [Hr _], wf_author0 as [Ha _].
  replace ((header_prefix h ++ rsp_plugin_name h ++ author h ++ description h) ++ rest)
    with ((header_prefix h ++ rsp_plugin_name h) ++ author h ++ description h ++ rest)
    by (by rewrite <- !app_assoc).
  rewrite drop_app_length' by (rewrite length_app; lia). by apply take_app_length'.
Qed.

Lemma bytes_at_description h rest :
  header_wf h -> bytes_at 0x300 256 (header_image h ++ rest) = description h.
Proof.
  intros Hw. unfold bytes_at, header_image. pose proof (length_header_prefix h Hw). destruct Hw.
  destruct wf_rsp0 as [Hr _], wf_author0 as [Ha _], wf_description0 as [Hd _].
  replace ((header_prefix h ++ rsp_plugin_name h ++ author h ++ description h) ++ rest)
    with ((header_prefix h ++ rsp_plugin_name h ++ author h) ++ description h ++ rest)
    by (by rewrite <- !app_assoc).
  rewrite drop_app_length' by (rewrite !length_app; lia). by apply take_app_length'.
Qed.

(** A header this version of the program writes. *)
Definition current_format (h : core_vcr_movie_header) : Prop :=
  magic h = mup_magic /\ version h = 3 /\ extended_version h <= 1.

(** What reading returns: the RSP plugin's name is cut, and the number of samples
    is at most what the file holds. *)
Definition stored (h : core_vcr_movie_header) : core_vcr_movie_header :=
  h <| rsp_plugin_name := take 30 (rsp_plugin_name h) ++ zeros 34 |>.

Lemma read_written_header h samples hdr0 :
  header_wf h -> current_format h ->
  length_samples h <= Z.of_nat (length samples) / 4 ->
  read_movie_header (header_image h ++ samples) hdr0 = (Res_Ok, stored h).
Proof.
  intros Hw (Hm & Hv & He) Hn. pose proof (length_header_image h Hw) as Hl.
  unfold read_movie_header. rewrite header_of_first_half by done.
  change (magic (first_half h)) with (magic h). change (version (first_half h)) with (version h).
  change (extended_version (first_half h)) with (extended_version h).
  change (length_samples (first_half h)) with (length_samples h).
  rewrite Hm, Hv, length_app, Hl.
  rewrite (proj2 (Nat.ltb_ge _ _)) by (unfold old_header_size; lia).
  change (extended_version default_hdr) with 1.
  rewrite (proj2 (Z.ltb_ge 1 _)) by lia. change (mup_version <? 3) with false.
  change (negb (mup_magic =? mup_magic)) with false.
  change ((3 <=? 0) || false) with false. change ((3 =? 1) || (3 =? 2)) with false. cbv iota.
  change (version (first_half h)) with (version h). rewrite Hv. change (3 =? 3) with true.
  rewrite (proj2 (Nat.ltb_ge (1024 + length samples) sizeof_header)) by (unfold sizeof_header; lia). cbv iota.
  cbn [andb]. change (length_samples (first_half h)) with (length_samples h).
  replace (1024 + length samples - sizeof_header)%nat with (length samples)
    by (unfold sizeof_header; lia).
  rewrite (proj2 (Z.ltb_ge _ (length_samples h))) by lia.
  rewrite bytes_at_author, bytes_at_description by done.
  reflexivity.
Qed.

Lemma length_samples_image l : length (samples_image l) = (4 * length l)%nat.
Proof.
  unfold samples_image. induction l as [|x l IH]; [done|]. cbn [map concat].
  rewrite length_app, length_le_split, IH. simpl. lia.
Qed.

Lemma samples_roundtrip l rest :
  Forall is_u32 l -> samples_of (length l) (samples_image l ++ rest) = l.
Proof.
  unfold samples_image. induction 1 as [|x l Hx Hl IH]; [done|].
  cbn [map concat samples_of length]. rewrite <- app_assoc.
  rewrite take_app_length', drop_app_length' by (symmetry; apply length_le_split).
  rewrite IH, le_combine_split. f_equal. apply Z.mod_small. exact Hx.
Qed.

(** C6.  A movie written to disk reads back: for a well-formed header of the
    current format and at least as many inputs as the header announces, writing
    succeeds, parsing the file returns the header (the name of the RSP plugin cut
    to its first 30 characters) and reading the inputs returns exactly the
    announced samples. *)
Theorem movie_file_roundtrip h inputs path fs hdr0 inputs0 :
  header_wf h -> current_format h -> Forall is_u32 inputs ->
  length_samples h <= Z.of_nat (length inputs) -> extension path = ".m64"%string ->
  exists fs', write_movie_impl true true h inputs path fs = Ret (true, fs') /\
    core_vcr_parse_header fs' path hdr0 = (Res_Ok, stored h) /\
    core_vcr_read_movie_inputs fs' path inputs0 =
      (Res_Ok, take (Z.to_nat (length_samples h)) inputs).
Proof.
  intros Hw Hc Hi Hn Hp. unfold write_movie_impl. cbn [negb].
  rewrite (proj2 (Z.ltb_ge _ _)) by done. rewrite bind_modify_l. eexists. split; [done|].
  set (n := Z.to_nat (length_samples h)).
  assert (length (take n inputs) = n) as Hlen by (rewrite length_take; lia).
  assert (0 <= length_samples h) as Hpos by (by apply wf_length_samples).
  set (samples := samples_image (take n inputs)).
  assert (length samples = (4 * n)%nat) as Hsl by (unfold samples; rewrite length_samples_image; lia).
  set (fs' := <[path := header_image h ++ samples]> fs).
  assert (read_file_buffer fs' path = header_image h ++ samples) as Hbuf
    by (unfold read_file_buffer, fs'; by rewrite lookup_insert_eq).
  pose proof (length_header_image h Hw) as Hl.
  assert (forall hdr, core_vcr_parse_header fs' path hdr = (Res_Ok, stored h)) as Hparse.
  { intros hdr. unfold core_vcr_parse_header. rewrite Hp, Hbuf. cbn [negb String.eqb].
    destruct (header_image h ++ samples) eqn:E.
    { apply (f_equal length) in E. rewrite length_app in E. simpl in E. lia. }
    rewrite <- E. apply read_written_header; [done..|]. rewrite Hsl.
    replace (Z.of_nat (4 * n)) with (length_samples h * 4) by lia. by rewrite Z.div_mul. }
  split; [apply Hparse|]. unfold core_vcr_read_movie_inputs. rewrite Hparse. cbn [negb is_ok].
  rewrite Hbuf. change (length_samples (stored h)) with (length_samples h).
  rewrite (proj2 (Z.ltb_ge _ _)) by (rewrite length_app; lia).
  rewrite drop_app_length' by (symmetry; exact Hl). f_equal.
  pose proof (samples_roundtrip (take n inputs) []) as Hs. rewrite app_nil_r, Hlen in Hs.
  by apply Hs, Forall_take.
Qed.

(** A three-sample movie with a long RSP plugin name. *)
Definition sample_header : core_vcr_movie_header :=
  default_hdr <| magic := mup_magic |> <| version := 3 |> <| uid := 0x60000000 |>
    <| length_samples := 3 |> <| rerecord_count := 7 |> <| startFlags := MOVIE_START_FROM_NOTHING |>
    <| controller_flags := 1 |> <| rsp_plugin_name := replicate 40 65 ++ zeros 24 |>.

Lemma bytes_check n l :
  Nat.eqb (length l) n = true -> forallb (fun b => (0 <=? b) && (b <? 256)) l = true -> bytes n l.
Proof.
  intros Hn Hf. split; [by apply Nat.eqb_eq|]. apply Forall_forall. intros b Hb.
  rewrite forallb_forall in Hf. apply list_elem_of_In, Hf in Hb. unfold is_u8. lia.
Qed.

Lemma fits_check n z : (0 <=? z) && (z <? 256 ^ Z.of_nat n) = true -> fits n z.
Proof. unfold fits. lia. Qed.

(** Well-formedness of a concrete header, by evaluation. *)
Ltac check_header :=
  repeat first
    [ apply fits_check; vm_compute; reflexivity
    | apply bytes_check; vm_compute; reflexivity
    | constructor ].

Lemma sample_header_wf : header_wf sample_header.
Proof. check_header. Qed.

Lemma movie_file_roundtrip_witness :
  exists fs', write_movie_impl true true sample_header [1; 0x80; 0x7F00] "run.m64" ∅ = Ret (true, fs') /\
    core_vcr_parse_header fs' "run.m64" default_hdr = (Res_Ok, stored sample_header) /\
    core_vcr_read_movie_inputs fs' "run.m64" [] = (Res_Ok, [1; 0x80; 0x7F00]).
Proof.
  apply (movie_file_roundtrip sample_header [1; 0x80; 0x7F00] "run.m64" ∅ default_hdr []).
  - apply sample_header_wf.
  - by repeat split.
  - repeat constructor; unfold is_u32; lia.
  - done.
  - done.
Defined.


(** ** Reading is safe on every buffer *)

Lemma word_bytes n m l :
  bytes (n + m) l -> fits n (word n l).1 /\ bytes m (word n l).2.
Proof.
  intros [Hl Hb]. unfold word. cbn [fst snd]. split.
  - pose proof (le_combine_bound (take n l) (Forall_take _ _ _ Hb)) as H.
    rewrite length_take in H. by replace (n `min` length l)%nat with n in H by lia.
  - split; [rewrite length_drop; lia|by apply Forall_drop].
Qed.

Lemma chunk_bytes n m l :
  bytes (n + m) l -> bytes n (chunk n l).1 /\ bytes m (chunk n l).2.
Proof.
  intros [Hl Hb]. unfold chunk. cbn [fst snd]. split; split.
  - rewrite length_take. lia.
  - by apply Forall_take.
  - rewrite length_drop. lia.
  - by apply Forall_drop.
Qed.

(** Read the next member of a buffer of [total] bytes. *)
Ltac read_member :=
  lazymatch goal with
  | H : bytes ?t ?l |- context [word ?n ?l] =>
      let m := eval cbv in (t - n)%nat in
      destruct (word_bytes n m l H); clear H; destruct (word n l) as [? ?]; cbn [fst snd] in *
  | H : bytes ?t ?l |- context [chunk ?n ?l] =>
      let m := eval cbv in (t - n)%nat in
      destruct (chunk_bytes n m l H); clear H; destruct (chunk n l) as [? ?]; cbn [fst snd] in *
  end.

Lemma extended_of_wf l : bytes 32 l -> extended_wf (extended_of l).
Proof. intros H. unfold extended_of. repeat read_member. by constructor. Qed.

Lemma header_of_wf l : bytes 1024 l -> header_wf (header_of l).
Proof.
  intros H. unfold header_of. repeat read_member.
  constructor; try done. by apply extended_of_wf.
Qed.

Lemma bytes_put n off src l :
  bytes n l -> Forall is_u8 src -> (off + length src <= n)%nat -> bytes n (put off src l).
Proof.
  intros [Hl Hb] Hs Hn. unfold put. split.
  - rewrite !length_app, length_take, length_drop. lia.
  - repeat apply Forall_app_2; auto using Forall_take, Forall_drop.
Qed.

Lemma c_str_bytes l : Forall is_u8 l -> Forall is_u8 (c_str l).
Proof. induction 1; simpl; [done|]. case_match; auto. Qed.

Lemma bytes_put_string n off src count l :
  bytes n l -> Forall is_u8 src -> (off + count < n)%nat -> bytes n (put_string off src count l).
Proof.
  intros Hl Hs Hn. apply bytes_put; [done| |].
  - apply Forall_app. split; [by apply Forall_take, c_str_bytes|]. repeat constructor. done.
  - rewrite length_app, length_take. simpl. lia.
Qed.

Lemma bytes_at_u8 off n l : Forall is_u8 l -> Forall is_u8 (bytes_at off n l).
Proof. intros. by apply Forall_take, Forall_drop. Qed.

Lemma length_bytes_at off n l : (length (bytes_at off n l) <= n)%nat.
Proof. unfold bytes_at. rewrite length_take. lia. Qed.

Lemma image_bytes buf :
  Forall is_u8 buf -> (old_header_size <= length buf)%nat ->
  bytes 1024 (take old_header_size buf ++ zeros (sizeof_header - old_header_size)).
Proof.
  intros Hb Hl. apply (bytes_app 512 512); [|apply bytes_zeros].
  split; [rewrite length_take; unfold old_header_size in *; lia|by apply Forall_take].
Qed.

Lemma take_put k off src l :
  (k <= off <= length l)%nat -> take k (put off src l) = take k l.
Proof.
  intros H. unfold put. rewrite take_app_le by (rewrite length_take; lia). rewrite take_take.
  f_equal. lia.
Qed.

Lemma bytes_at_take off n k l : (off + n <= k)%nat -> bytes_at off n (take k l) = bytes_at off n l.
Proof.
  intros H. unfold bytes_at. rewrite !take_drop_commute, take_take. do 2 f_equal. lia.
Qed.

(** Members in front of the reserved bytes. *)
Lemma header_of_front l l' :
  take 234 l = take 234 l' ->
  magic (header_of l) = magic (header_of l') /\ version (header_of l) = version (header_of l') /\
  extended_version (header_of l) = extended_version (header_of l') /\
  length_samples (header_of l) = length_samples (header_of l').
Proof.
  intros H.
  assert (forall off n, (off + n <= 234)%nat -> bytes_at off n l = bytes_at off n l') as Hb.
  { intros off n Hn. by rewrite <- (bytes_at_take off n 234 l), H, bytes_at_take. }
  split_and!.
  - change (le_combine (bytes_at 0 4 l) = le_combine (bytes_at 0 4 l')). rewrite Hb by lia. done.
  - change (le_combine (bytes_at 4 4 l) = le_combine (bytes_at 4 4 l')). rewrite Hb by lia. done.
  - unfold header_of, word, chunk. cbv beta iota.
    rewrite !drop_drop. change (le_combine (bytes_at 22 1 l) = le_combine (bytes_at 22 1 l')).
    rewrite Hb by lia. done.
  - unfold header_of, word, chunk. cbv beta iota.
    rewrite !drop_drop. change (le_combine (bytes_at 24 4 l) = le_combine (bytes_at 24 4 l')).
    rewrite Hb by lia. done.
Qed.

(** The recovery of old names stays inside the header and leaves its front
    alone. *)
Definition keeps_front (img l : list Z) : Prop := bytes 1024 l /\ take 234 l = take 234 img.

Lemma keeps_put img off src l :
  keeps_front img l -> Forall is_u8 src -> (234 <= off)%nat -> (off + length src <= 1024)%nat ->
  keeps_front img (put off src l).
Proof.
  intros [Hb Ht] Hs Ho Hl. split; [by apply bytes_put|]. destruct Hb as [Hb _].
  by rewrite take_put by lia.
Qed.

Lemma keeps_put_string img off src n l :
  keeps_front img l -> Forall is_u8 src -> (234 <= off)%nat -> (off + n < 1024)%nat ->
  keeps_front img (put_string off src n l).
Proof.
  intros Hk Hs Ho Hl. apply keeps_put; [done| |done|].
  - apply Forall_app. split; [by apply Forall_take, c_str_bytes|]. repeat constructor; done.
  - rewrite length_app, length_take. simpl. lia.
Qed.

Lemma recover_keeps_front img :
  bytes 1024 img -> keeps_front img (recover_author_info (recover_plugin_names img)).
Proof.
  intros Hi. pose proof Hi as [_ Hb]. assert (keeps_front img img) as Hid by done.
  assert (Forall is_u8 unknown_name) as Hu by (repeat constructor; unfold is_u8; lia).
  assert (forall off i n, (234 <= off)%nat -> (off + n <= 1024)%nat ->
            keeps_front img (put off (bytes_at (off_reserved_bytes + i) n img) img)) as Hput.
  { intros off i n Ho Hn. apply keeps_put; [done|by apply bytes_at_u8|done|].
    pose proof (length_bytes_at (off_reserved_bytes + i) n img). lia. }
  assert (keeps_front img (recover_plugin_names img)) as Hr.
  { unfold recover_plugin_names, off_video, off_audio, off_input, off_rsp.
    repeat case_match; repeat (apply keeps_put_string; [|done|lia|lia]); done || (apply Hput; lia). }
  unfold recover_author_info, off_author, off_description. set (img1 := put_string _ _ 48 _).
  assert (keeps_front img img1) as H1
    by (apply keeps_put_string; [done|apply bytes_at_u8, Hr|lia|lia]).
  apply keeps_put_string; [done|apply bytes_at_u8, H1|lia|lia].
Qed.

(** A header accepted from a file of [len] bytes. *)
Definition accepted (h : core_vcr_movie_header) : Prop :=
  header_wf h /\ magic h = mup_magic /\ 1 <= version h <= 3 /\ extended_version h <= 1.

Definition samples_present (h : core_vcr_movie_header) (len : nat) : Prop :=
  1024 + 4 * length_samples h <= Z.of_nat len.

Lemma recovered_accepted img :
  bytes 1024 img -> accepted (header_of img) ->
  accepted (header_of (recover_author_info (recover_plugin_names img))).
Proof.
  intros Hi (_ & Hm & Hv & He). destruct (recover_keeps_front img Hi) as [Hr Hf].
  destruct (header_of_front _ _ Hf) as (E1 & E2 & E3 & _).
  split; [by apply header_of_wf|]. rewrite E1, E2, E3. done.
Qed.

Lemma current_accepted h buf k :
  accepted h -> Forall is_u8 buf -> fits 4 k -> (sizeof_header <= length buf)%nat ->
  accepted (h <| author := bytes_at 0x222 222 buf |> <| description := bytes_at 0x300 256 buf |>
              <| length_samples := k |>).
Proof.
  intros (Hw & Hm & Hv & He) Hb Hk Hs. split; [|done]. unfold sizeof_header in Hs.
  destruct Hw. constructor; try done; (split; [|by apply bytes_at_u8]).
  - change (length (take 222 (drop 546 buf)) = 222%nat). rewrite length_take, length_drop. lia.
  - change (length (take 256 (drop 768 buf)) = 256%nat). rewrite length_take, length_drop. lia.
Qed.

(** Clamping the announced number of samples to what the file holds. *)
Lemma clamp_samples n len :
  fits 4 n -> (sizeof_header <= len)%nat ->
  let actual := Z.of_nat (len - sizeof_header) / 4 in
  let k := if actual <? n then u32 actual else n in
  fits 4 k /\ 1024 + 4 * k <= Z.of_nat len.
Proof.
  unfold fits, sizeof_header. change (256 ^ Z.of_nat 4) with 4294967296.
  intros Hn Hs. cbv zeta. pose proof (Z.mul_div_le (Z.of_nat (len - 1024)) 4).
  assert (0 <= Z.of_nat (len - 1024) / 4) by (apply Z.div_pos; lia).
  destruct (Z.ltb_spec (Z.of_nat (len - 1024) / 4) n); [rewrite u32_id by (unfold is_u32; lia)|]; lia.
Qed.

(** What an accepted header satisfies. *)
Definition header_accepted (buf : list Z) (h : core_vcr_movie_header) : Prop :=
  accepted h /\ (version h = 3 -> samples_present h (length buf)).

Lemma read_header_accepted buf hdr :
  Forall is_u8 buf ->
  let '(result, h) := read_movie_header buf hdr in
  if is_ok result then header_accepted buf h else h = hdr.
Proof.
  intros Hb. unfold read_movie_header.
  destruct (Nat.ltb_spec (length buf) old_header_size) as [|Hl]; [done|].
  set (img := take _ _ ++ _). pose proof (image_bytes buf Hb Hl : bytes 1024 img) as Hi.
  destruct (Z.eqb_spec (magic (header_of img)) mup_magic) as [Hm|]; [|done]. cbn [negb].
  destruct (Z.leb_spec (version (header_of img)) 0) as [|Hv1]; [done|].
  destruct (Z.ltb_spec mup_version (version (header_of img))) as [|Hv2]; [done|]. cbn [orb].
  change (extended_version default_hdr) with 1.
  destruct (Z.ltb_spec 1 (extended_version (header_of img))) as [|He]; [done|].
  assert (accepted (header_of img)) as Ha
    by (unfold mup_version in Hv2; split; [by apply header_of_wf|lia]).
  set (h := if _ || _ then _ else _).
  assert (accepted h) as Hh by (unfold h; case_match; [by apply recovered_accepted|done]).
  clearbody h. destruct (Z.eqb_spec (version h) 3) as [H3|H3]; cbn [andb].
  - destruct (Nat.ltb_spec (length buf) sizeof_header) as [|Hs]; [done|]. cbn [is_ok].
    destruct (clamp_samples (length_samples h) (length buf)) as [Hf Hk];
      [by apply wf_length_samples, Hh|done|].
    split; [exact (current_accepted h buf _ Hh Hb Hf Hs)|]. intros _. exact Hk.
  - cbn [is_ok]. split; [done|]. intros Hv. by destruct H3.
Qed.

(** C13.  Parsing a header is safe on any file contents: it accepts only the known
    magic number and versions; an accepted header is well-formed (every field in
    its range, every character array of its size), and in the current version the
    announced samples are all present in the file; on rejection the caller's header
    is untouched. *)
Theorem read_movie_header_safe buf hdr :
  Forall is_u8 buf ->
  let '(result, h) := read_movie_header buf hdr in
  if is_ok result then
    header_wf h /\ magic h = mup_magic /\ 1 <= version h <= 3 /\ extended_version h <= 1 /\
    (version h = 3 -> samples_present h (length buf))
  else h = hdr.
Proof.
  intros Hb. pose proof (read_header_accepted buf hdr Hb) as Ha.
  destruct (read_movie_header buf hdr) as [r h]. destruct (is_ok r); [|done].
  destruct Ha as [(? & ? & ? & ?) Hp]. do 4 (split; [done|]). exact Hp.
Qed.

(** A file holding fewer samples than it announces: the count is reduced. *)
Definition short_file : list Z :=
  header_image (sample_header <| length_samples := 100 |>) ++ samples_image [1; 2] ++ [0; 0].

Lemma read_movie_header_safe_witness :
  exists h, read_movie_header short_file default_hdr = (Res_Ok, h) /\ length_samples h = 2 /\
    header_wf h /\ samples_present h (length short_file).
Proof.
  destruct (read_movie_header short_file default_hdr) as [r h] eqn:E.
  assert (r = Res_Ok /\ length_samples h = 2 /\ version h = 3) as (-> & Hn & Hv).
  { split; [|split].
    - change r with ((r, h).1). rewrite <- E. vm_compute. reflexivity.
    - change h with ((r, h).2). rewrite <- E. vm_compute. reflexivity.
    - change h with ((r, h).2). rewrite <- E. vm_compute. reflexivity. }
  assert (Forall is_u8 short_file) as Hb.
  { apply (bytes_check (length short_file)); vm_compute; reflexivity. }
  pose proof (read_movie_header_safe short_file default_hdr Hb) as H. rewrite E in H.
  cbn [is_ok] in H. destruct H as (Hw & _ & _ & _ & Hs). exists h. do 3 (split; [done|]). by apply Hs.
Defined.

(** ** The extended format *)

(** With the extended format switched off the file still carries extended
    data: [write_movie_impl] means to zero it, but clears [sizeof(extended_flags)]
    = 1 byte of it, so after the round trip the header announces no extension and
    yet keeps the high word of the rerecord count. *)
Theorem disabled_extension_keeps_data h inputs path fs hdr0 :
  header_wf h -> current_format h ->
  length_samples h <= Z.of_nat (length inputs) -> extension path = ".m64"%string ->
  exists fs' h', write_movie_impl true false h inputs path fs = Ret (true, fs') /\
    core_vcr_parse_header fs' path hdr0 = (Res_Ok, h') /\
    extended_version h' = 0 /\ extended_flags h' = 0 /\
    authorship_tag (extended_data h') = [0; 0; 0; 0] /\
    ext_rerecord_count (extended_data h') = ext_rerecord_count (extended_data h) /\
    bruteforce_extra_data (extended_data h') = bruteforce_extra_data (extended_data h).
Proof.
  intros Hw Hc Hn Hp.
  assert (header_wf (strip_extended h)) as Hw'.
  { destruct Hw. constructor; try done; try (unfold fits; simpl; lia). destruct wf_extended0.
    constructor; try done. apply (bytes_zeros 4). }
  unfold write_movie_impl. cbn [negb]. change (length_samples (strip_extended h)) with (length_samples h).
  rewrite (proj2 (Z.ltb_ge _ _)) by done. rewrite bind_modify_l.
  set (n := Z.to_nat (length_samples h)). eexists. exists (stored (strip_extended h)).
  split; [done|]. split; [|done]. unfold core_vcr_parse_header, read_file_buffer.
  rewrite Hp, lookup_insert_eq. cbn [negb String.eqb default from_option].
  pose proof (length_header_image _ Hw') as Hl.
  destruct (header_image (strip_extended h) ++ samples_image (take n inputs)) eqn:E.
  { apply (f_equal length) in E. rewrite length_app in E. simpl in E. lia. }
  rewrite <- E. apply read_written_header; [done| |].
  - destruct Hc as (? & ? & ?). done.
  - rewrite length_samples_image, length_take.
    change (length_samples (strip_extended h)) with (length_samples h).
    pose proof (wf_length_samples h Hw) as [? _].
    replace (Z.of_nat (4 * (n `min` length inputs))) with (length_samples h * 4) by lia.
    by rewrite Z.div_mul.
Qed.

Definition many_rerecords : core_vcr_movie_header :=
  sample_header <| extended_data := (extended_data sample_header) <| ext_rerecord_count := 5 |> |>.

Lemma disabled_extension_keeps_data_witness :
  exists fs' h', write_movie_impl true false many_rerecords [1; 2; 3] "run.m64" ∅ = Ret (true, fs') /\
    core_vcr_parse_header fs' "run.m64" default_hdr = (Res_Ok, h') /\
    extended_version h' = 0 /\ ext_rerecord_count (extended_data h') = 5.
Proof.
  assert (header_wf many_rerecords) as Hw by check_header.
  destruct (disabled_extension_keeps_data many_rerecords [1; 2; 3] "run.m64" ∅ default_hdr Hw)
    as (fs' & h' & H1 & H2 & H3 & _ & _ & H4 & _).
  - by repeat split.
  - vm_compute. intros [=].
  - done.
  - exists fs', h'. do 3 (split; [done|]). rewrite H4. vm_compute. reflexivity.
Defined.

(** ** Replacing the author information *)

Lemma put_mid off src pre mid post :
  length pre = off -> length mid = length src ->
  file_put off src (pre ++ mid ++ post) = pre ++ src ++ post.
Proof.
  intros Ho Hm. unfold file_put, put. rewrite length_app.
  replace (off - (length pre + length (mid ++ post)))%nat with 0%nat by lia.
  unfold zeros. rewrite app_nil_r, take_app_length' by done.
  f_equal. f_equal. rewrite (app_assoc pre mid post). apply drop_app_length'.
  rewrite length_app. lia.
Qed.

(** Clearing an array and writing a string to it. *)
Definition padded (n : nat) (s : list Z) : list Z := s ++ zeros (n - length s).

Lemma clear_and_put off n s pre mid post :
  length pre = off -> length mid = n -> (length s <= n)%nat ->
  file_put off s (file_put off (zeros n) (pre ++ mid ++ post)) = pre ++ padded n s ++ post.
Proof.
  intros Ho Hm Hs. rewrite put_mid by (unfold zeros; rewrite ?length_replicate; done). unfold padded.
  replace (zeros n) with (zeros (length s) ++ zeros (n - length s)).
  - rewrite <- !app_assoc. apply put_mid; [done|]. apply length_replicate.
  - unfold zeros. rewrite <- replicate_add. f_equal. lia.
Qed.

Lemma length_padded n s : (length s <= n)%nat -> length (padded n s) = n.
Proof. intros H. unfold padded, zeros. rewrite length_app, length_replicate. lia. Qed.

Lemma bytes_padded n s : Forall is_u8 s -> (length s <= n)%nat -> bytes n (padded n s).
Proof.
  intros Hs Hn. split; [by apply length_padded|]. apply Forall_app. split; [done|].
  apply (bytes_zeros (n - length s)).
Qed.

(** The header with the author information of [core_vcr_replace_author_info]. *)
Definition with_author (a d : list Z) (h : core_vcr_movie_header) : core_vcr_movie_header :=
  h <| author := padded 222 a |> <| description := padded 256 d |>.

Lemma replace_author_bytes h samples a d :
  header_wf h -> (length a <= 222)%nat -> (length d <= 256)%nat ->
  file_put 0x300 d (file_put 0x300 (zeros 256)
    (file_put 0x222 a (file_put 0x222 (zeros 222) (header_image h ++ samples)))) =
  header_image (with_author a d h) ++ samples.
Proof.
  intros Hw Ha Hd. pose proof (length_header_prefix h Hw) as Hp. destruct Hw.
  destruct wf_rsp0 as [Hr _], wf_author0 as [Hau _], wf_description0 as [Hde _].
  unfold header_image. change (header_prefix (with_author a d h)) with (header_prefix h).
  replace ((header_prefix h ++ rsp_plugin_name h ++ author h ++ description h) ++ samples)
    with ((header_prefix h ++ rsp_plugin_name h) ++ author h ++ description h ++ samples)
    by (by rewrite <- !app_assoc).
  rewrite clear_and_put by (rewrite ?length_app; lia).
  rewrite app_assoc.
  rewrite clear_and_put by (rewrite ?length_app, ?length_padded by lia; lia).
  rewrite <- !app_assoc. reflexivity.
Qed.

Lemma with_author_wf a d h :
  header_wf h -> Forall is_u8 a -> Forall is_u8 d -> (length a <= 222)%nat ->
  (length d <= 256)%nat -> header_wf (with_author a d h).
Proof.
  intros [] Ha Hd Hla Hld. constructor; try done.
  - by apply (bytes_padded 222 a).
  - by apply (bytes_padded 256 d).
Qed.

Lemma strcmp_eq_spec mem s :
  0 ∈ mem -> 0 ∉ s -> strcmp_eq mem s = Some (bool_decide (c_str mem = s)).
Proof.
  revert s. induction mem as [|m mem IH]; intros s Hm Hs; [by apply elem_of_nil in Hm|].
  cbn [strcmp_eq c_str]. destruct s as [|c s].
  - by destruct (Z.eqb_spec m 0).
  - apply not_elem_of_cons in Hs as [Hc Hs]. destruct (Z.eqb_spec m 0) as [->|H0].
    + destruct (Z.eqb_spec 0 c) as [<-|]; [done|]. by rewrite bool_decide_eq_false_2.
    + destruct (Z.eqb_spec m c) as [->|Hne].
      * apply elem_of_cons in Hm as [?|Hm]; [congruence|]. rewrite IH by done. f_equal.
        apply bool_decide_ext. split; [by intros ->|]. by intros [= ->].
      * rewrite bool_decide_eq_false_2; [done|]. intros [=]. done.
Qed.

Lemma c_str_no_nul l : 0 ∉ c_str l.
Proof.
  induction l as [|b l IH]; cbn [c_str]; [apply not_elem_of_nil|].
  destruct (Z.eqb_spec b 0); [apply not_elem_of_nil|]. by apply not_elem_of_cons.
Qed.

Lemma c_str_padded n s : (length s < n)%nat -> c_str (padded n s) = c_str s.
Proof.
  unfold padded. intros H. revert n H. induction s as [|b s IH]; intros n H.
  - destruct n; [simpl in H; lia|done].
  - cbn [app c_str length] in *. destruct (b =? 0); [done|].
    destruct n as [|n]; [lia|]. f_equal. simpl (S n - S _)%nat. apply IH. lia.
Qed.

Lemma c_str_app_l l1 l2 : 0 ∈ l1 -> c_str (l1 ++ l2) = c_str l1.
Proof.
  induction l1 as [|b l1 IH]; [by intros ?%elem_of_nil|]. cbn [app c_str].
  intros [<-|H]%elem_of_cons; [done|]. by rewrite IH.
Qed.

(** Replacing the author information of a movie file changes nothing else:
    the call succeeds, and the file read afterwards has the new author and
    description as its strings, every other header field and every input sample as
    before. *)
Theorem replace_author_info_correct h samples path fs a d hdr0 :
  header_wf h -> current_format h ->
  length_samples h <= Z.of_nat (length samples) / 4 ->
  0 ∈ author h -> 0 ∈ description h ->
  Forall is_u8 a -> Forall is_u8 d -> (length a < 222)%nat -> (length d < 256)%nat ->
  fs !! path = Some (header_image h ++ samples) ->
  exists fs' h' buf', core_vcr_replace_author_info true path a d fs = Ret (Res_Ok, fs') /\
    fs' !! path = Some buf' /\ read_movie_header buf' hdr0 = (Res_Ok, h') /\
    c_str (author h') = c_str a /\ c_str (description h') = c_str d /\
    h' <| author := author h |> <| description := description h |> = stored h /\
    drop 1024 buf' = samples.
Proof.
  intros Hw Hc Hn Hna Hnd Ha Hd Hla Hld Hfs. pose proof (length_header_image h Hw) as Hl.
  assert (forall h, header_wf h -> drop 1024 (header_image h ++ samples) = samples) as Hdrop.
  { intros h' Hw'. apply drop_app_length'. by rewrite (length_header_image h' Hw'). }
  unfold core_vcr_replace_author_info. rewrite bind_get_l. unfold read_file_buffer.
  rewrite Hfs. cbn [default from_option].
  destruct (header_image h ++ samples) eqn:E.
  { apply (f_equal length) in E. rewrite length_app in E. simpl in E. lia. }
  change (id (z :: l)) with (z :: l). cbv iota.
  rewrite <- E in Hfs |- *. clear E. rewrite read_written_header by done. cbn [is_ok negb].
  change (author (stored h)) with (author h). change (description (stored h)) with (description h).
  rewrite strcmp_eq_spec by (apply c_str_no_nul || set_solver).
  rewrite c_str_app_l by done.
  destruct (bool_decide_reflect (c_str (author h) = c_str a)) as [Ea|Ea].
  1: rewrite strcmp_eq_spec by (apply c_str_no_nul || done);
     destruct (bool_decide_reflect (c_str (description h) = c_str d)) as [Ed|Ed].
  1: { exists fs, (stored h). eexists. split; [done|]. split; [exact Hfs|].
       rewrite read_written_header by done. do 3 (split; [done|]). by rewrite Hdrop. }
  all: rewrite (proj2 (Nat.ltb_ge 222 _)), (proj2 (Nat.ltb_ge 256 _)) by lia; cbn [orb];
    rewrite replace_author_bytes by (done || lia); rewrite bind_modify_l;
    eexists _, (stored (with_author a d h)), _; (split; [done|]);
    (split; [apply lookup_insert_eq|]);
    pose proof (with_author_wf a d h Hw Ha Hd ltac:(lia) ltac:(lia)) as Hw';
    rewrite (read_written_header (with_author a d h)) by done; (split; [done|]);
    (split; [by apply (c_str_padded 222)|]); (split; [by apply (c_str_padded 256)|]);
    (split; [done|by apply Hdrop]).
Qed.

Definition sample_fs : files :=
  {[ "run.m64"%string := header_image sample_header ++ samples_image [1; 2; 3] ]}.

Lemma replace_author_info_correct_witness :
  exists fs' h' buf', core_vcr_replace_author_info true "run.m64" [65; 66] [67] sample_fs =
      Ret (Res_Ok, fs') /\
    fs' !! "run.m64"%string = Some buf' /\
    read_movie_header buf' default_hdr = (Res_Ok, h') /\
    c_str (author h') = [65; 66] /\ c_str (description h') = [67].
Proof.
  destruct (replace_author_info_correct sample_header (samples_image [1; 2; 3]) "run.m64" sample_fs
    [65; 66] [67] default_hdr sample_header_wf) as (fs' & h' & buf' & H1 & H2 & H3 & H4 & H5 & _).
  - by repeat split.
  - vm_compute. intros [=].
  - left.
  - left.
  - repeat constructor; unfold is_u8; lia.
  - repeat constructor; unfold is_u8; lia.
  - simpl. lia.
  - simpl. lia.
  - apply lookup_singleton_eq.
  - exists fs', h', buf'. by do 4 (split; [done|]).
Defined.
