(* ===== verification/VcrState.v ===== *)
(** * The movie engine: state and host interface (vcr.cpp)

    The globals of vcr.cpp as one record, the host services it calls, and the
    small operations every other one uses: callbacks, pausing, task predicates,
    the rerecord counter, and access to the file system and to the cheat layers.

    Work the code hands to the host's task queue or to the savestate engine is
    data ([async]) in the list [pending]; [Vcr.run_async] executes it.  Calls of
    the host's callbacks are recorded, latest first, in [calls]. *)

From Stdlib Require Import Strings.String Strings.Ascii.
From S2P Require Import Prelude Controller Path Cheats Movie.

Open Scope prog_scope.
#[local] Open Scope Z_scope.

(** ** Data *)

Inductive core_vcr_task : Set :=
| task_idle
| task_start_recording_from_reset
| task_start_recording_from_snapshot
| task_start_recording_from_existing_snapshot
| task_recording
| task_start_playback_from_reset
| task_start_playback_from_snapshot
| task_playback.

#[export] Instance core_vcr_task_eq_dec : EqDecision core_vcr_task.
Proof. solve_decision. Defined.

Definition task_eqb (a b : core_vcr_task) : bool := bool_decide (a = b).

Record core_vcr_freeze_info : Set := Freeze {
  freeze_size : Z;
  freeze_uid : Z;
  freeze_current_sample : Z;
  freeze_current_vi : Z;
  freeze_length_samples : Z;
  freeze_input_buffer : list Z
}.

(** A savestate, of which the engine sees only the movie section; [StEmpty] is
    the empty buffer a map access creates. *)
Inductive st_buffer : Set :=
| StEmpty
| StBuf (movie : option core_vcr_freeze_info).

(** The configuration the engine reads and writes. *)
Record core_cfg : Set := Cfg {
  total_rerecords : Z;
  frame_skip_frequency : Z;
  is_movie_loop_enabled : bool;
  wii_vc_emulation : Z;
  seek_savestate_interval : Z;
  seek_savestate_max_count : Z;
  pause_at_frame : Z;
  pause_at_last_frame : bool;
  vcr_readonly : bool;
  vcr_backups : bool;
  vcr_write_extended_format : bool;
  wait_at_movie_end : bool;
  render_throttling : bool
}.
#[export] Instance core_cfg_eta : Eta core_cfg := fun c =>
  Cfg (total_rerecords c) (frame_skip_frequency c) (is_movie_loop_enabled c)
    (wii_vc_emulation c) (seek_savestate_interval c) (seek_savestate_max_count c)
    (pause_at_frame c) (pause_at_last_frame c) (vcr_readonly c) (vcr_backups c)
    (vcr_write_extended_format c) (wait_at_movie_end c) (render_throttling c).

(** Work submitted and not yet executed. *)
Inductive async : Set :=
| AResetForRecording (clear_eeprom : bool)
| AResetForPlayback (clear_eeprom : bool)
| AUserReset
| AMovieReset
| ASaveSnapshot (path : string)
| ALoadForRecording (path : string)
| ALoadForPlayback (path : string)
| ASaveSeek (frame : Z)
| ALoadSeek (key : Z)
| ALoadBuffer (buf : st_buffer).

(** Calls of the host's callbacks and of the input plugin. *)
Inductive vcr_call : Set :=
| CTaskChanged (t : core_vcr_task)
| CCurrentSampleChanged (n : Z)
| CRerecordsChanged (n : Z)
| CReadonlyChanged (b : bool)
| CSeekSavestateChanged (frame : Z)
| CSeekStatusChanged
| CSeekCompleted
| CWarpModifyStatusChanged (b : bool)
| CEmuPausedChanged (b : bool)
| CFrame
| CUnfreezeCompleted
| CPlayMovie
| CStopMovie
| CLoopMovie
| CInput (index value : Z)
| CSetKeys (index value : Z)
| CGetKeys (index : Z)
| CShowDialog.

Record vcr : Type := Vcr {
  g_task : core_vcr_task;
  seek_to_frame : option Z;
  g_seek_pause_at_end : bool;
  g_seek_savestate_loading : bool;
  g_reset_pending : bool;
  g_seek_savestates : gmap Z st_buffer;
  g_warp_modify_active : bool;
  g_warp_modify_first_difference_frame : Z;
  g_header : core_vcr_movie_header;
  g_movie_inputs : list Z;
  g_movie_path : string;
  m_current_sample : Z;
  m_current_vi : Z;
  vcr_reset_requested : bool;
  cfg : core_cfg;
  emu_launched : bool;
  emu_paused : bool;
  core_executing : bool;
  frame_advance_outstanding : Z;
  g_vr_fast_forward : bool;
  g_total_frames : Z;
  controls : list core_controller;
  cheats : cheat_state;
  fs : files;
  now : Z;
  pending : list async;
  calls : list vcr_call
}.
#[export] Instance vcr_eta : Eta vcr := fun s =>
  Vcr (g_task s) (seek_to_frame s) (g_seek_pause_at_end s) (g_seek_savestate_loading s)
    (g_reset_pending s) (g_seek_savestates s) (g_warp_modify_active s)
    (g_warp_modify_first_difference_frame s) (g_header s) (g_movie_inputs s) (g_movie_path s)
    (m_current_sample s) (m_current_vi s) (vcr_reset_requested s) (cfg s) (emu_launched s)
    (emu_paused s) (core_executing s) (frame_advance_outstanding s) (g_vr_fast_forward s)
    (g_total_frames s) (controls s) (cheats s) (fs s) (now s) (pending s) (calls s).

(** The questions the engine asks. *)
Inductive ask_dialog : Set :=
| CORE_DLG_VCR_RAWDATA_WARNING
| CORE_DLG_VCR_WIIVC_WARNING
| CORE_DLG_VCR_ROM_NAME_WARNING
| CORE_DLG_VCR_ROM_CCODE_WARNING
| CORE_DLG_VCR_ROM_CRC_WARNING
| CORE_DLG_VCR_CHEAT_LOAD_ERROR
| CORE_DLG_ST_UNFREEZE_WARNING
| CORE_DLG_ST_NOT_FROM_MOVIE.

(** What the host and the loaded ROM answer.  [rom_nom] is the memory at
    [ROM_HEADER.nom]. *)
Record host : Type := Host {
  show_ask_dialog : ask_dialog -> bool;
  can_open : string -> bool;
  start_rom_result : string -> core_result;
  rom_nom : list Z;
  rom_CRC1 : Z;
  rom_Country_code : Z;
  plugin_names : list Z * list Z * list Z * list Z;
  backups_directory : string;
  savestate_image : list Z;
  movie_section : string -> option core_vcr_freeze_info
}.

(** One controller poll: what the input plugin reports and what the input callback
    makes of the sample it is shown. *)
Record poll : Type := Poll { plugin_keys : Z; input_callback : Z -> Z }.

(** [size_t] is 64 bits wide. *)
Definition SIZE_MAX : Z := 0xFFFFFFFFFFFFFFFF.
Definition UINT32_MAX : Z := 0xFFFFFFFF.

(** ** Small operations *)

Definition call (c : vcr_call) : M vcr unit := modify (fun s => s <| calls := c :: calls s |>).
Definition submit_task (a : async) : M vcr unit :=
  modify (fun s => s <| pending := pending s ++ [a] |>).

Definition on_header (f : core_vcr_movie_header -> core_vcr_movie_header) : M vcr unit :=
  modify (fun s => s <| g_header := f (g_header s) |>).
Definition on_cfg (f : core_cfg -> core_cfg) : M vcr unit :=
  modify (fun s => s <| cfg := f (cfg s) |>).

(** Code of other components on its part of the state. *)
Definition on_cheats {A} (m : M cheat_state A) : M vcr A := fun s =>
  obind (m (cheats s)) (fun '(a, c) => Ret (a, s <| cheats := c |>)).
Definition on_fs {A} (m : M files A) : M vcr A := fun s =>
  obind (m (fs s)) (fun '(a, f) => Ret (a, s <| fs := f |>)).

Definition is_task_playback (task : core_vcr_task) : bool :=
  task_eqb task task_start_playback_from_reset || task_eqb task task_start_playback_from_snapshot ||
  task_eqb task task_playback.

Definition vcr_is_task_recording (task : core_vcr_task) : bool :=
  task_eqb task task_recording || task_eqb task task_start_recording_from_reset ||
  task_eqb task task_start_recording_from_existing_snapshot ||
  task_eqb task task_start_recording_from_snapshot.

Definition vcr_is_playing (s : vcr) : bool := task_eqb (g_task s) task_playback.
Definition core_vcr_is_seeking (s : vcr) : bool :=
  match seek_to_frame s with Some _ => true | None => false end.

Definition get_rerecord_count (h : core_vcr_movie_header) : Z :=
  Z.lor (Z.shiftl (ext_rerecord_count (extended_data h)) 32) (rerecord_count h).

Definition set_rerecord_count (value : Z) (h : core_vcr_movie_header) : core_vcr_movie_header :=
  h <| rerecord_count := Z.land value 0xFFFFFFFF |>
    <| extended_data := (extended_data h) <| ext_rerecord_count := u32 (Z.shiftr value 32) |> |>.

(** [core_vcr_get_seek_completion] *)
Definition core_vcr_get_seek_completion (s : vcr) : Z * Z :=
  match seek_to_frame s with
  | None => (u64 (m_current_sample s), SIZE_MAX)
  | Some f => (u64 (m_current_sample s), f)
  end.

(** Pausing (r4300.cpp), which the engine can veto.  An [int32_t] compared with an
    unsigned value is converted first. *)
Definition vcr_allows_core_pause (s : vcr) : bool :=
  match seek_to_frame s with
  | None => true
  | Some f => (u64 (m_current_sample s) =? u64 (f - 1)) && g_seek_pause_at_end s
  end.

Definition vcr_allows_core_unpause (s : vcr) : bool :=
  negb (wait_at_movie_end (cfg s) && task_eqb (g_task s) task_playback &&
        (u32 (length_samples (g_header s) - 1) <=? u32 (m_current_sample s))).

Definition core_vr_pause_emu : M vcr unit :=
  s <-- get ;;;
  if negb (vcr_allows_core_pause s) then ret tt
  else
    when (emu_launched s) (modify (fun s => s <| emu_paused := true |>)) ;;;
    s <-- get ;;; call (CEmuPausedChanged (emu_paused s)).

Definition core_vr_resume_emu : M vcr unit :=
  s <-- get ;;;
  if negb (vcr_allows_core_unpause s) then ret tt
  else
    when (emu_launched s) (modify (fun s => s <| emu_paused := false |>)) ;;;
    s <-- get ;;; call (CEmuPausedChanged (emu_paused s)).

Definition core_vr_frame_advance (count : Z) : M vcr unit :=
  s <-- get ;;;
  if negb (vcr_allows_core_unpause s) then ret tt
  else modify (fun s => s <| frame_advance_outstanding := count |>) ;;; core_vr_resume_emu.

(** [core_vr_get_vis_per_second] (rom.cpp) *)
Definition core_vr_get_vis_per_second (country_code : Z) : Z :=
  let c := Z.land country_code 0xFF in
  if bool_decide (c ∈ [0x44; 0x46; 0x49; 0x50; 0x53; 0x55; 0x58; 0x59]) then 50 else 60.

(** The broadcast that follows a task change. *)
Definition broadcast_task : M vcr unit :=
  s <-- get ;;;
  call (CTaskChanged (g_task s)) ;;;
  call (CCurrentSampleChanged (m_current_sample s)) ;;;
  call (CRerecordsChanged (get_rerecord_count (g_header s))).
