(* ===== verification/Vcr.v ===== *)
(** * The movie engine: operations (vcr.cpp)

    Every function of vcr.cpp that changes the engine's state, statement by
    statement, over the state of [VcrState].  Each runs under the engine's
    (recursive) mutex, so a call is one atomic step; work given to other threads is
    queued in [pending] and executed by [run_async]. *)

From Stdlib Require Import Strings.String Strings.Ascii.
From stdpp Require Import pretty.
From S2P Require Import Prelude Controller Path Cheats Movie VcrState.

Open Scope prog_scope.
#[local] Open Scope Z_scope.

Section Vcr.
Variable H : host.

(** ** Writing the movie *)

Definition write_movie_to (path : string) : M vcr bool :=
  s <-- get ;;;
  on_fs (write_movie_impl (can_open H path) (vcr_write_extended_format (cfg s))
           (g_header s) (g_movie_inputs s) path).

Definition write_movie : M vcr bool :=
  s <-- get ;;;
  if negb (vcr_is_task_recording (g_task s)) then ret true
  else write_movie_to (g_movie_path s).

Definition backup_path (s : vcr) : string :=
  (backups_directory H ++ stem (g_movie_path s) ++ "." ++ pretty (Z.to_N (now s)) ++ ".m64")%string.

Definition write_backup_impl : M vcr bool := s <-- get ;;; write_movie_to (backup_path s).

Definition core_vcr_write_backup : M vcr core_result :=
  ok <-- write_backup_impl ;;; ret (if ok : bool then Res_Ok else VCR_BadFile).

(** ** ROM information *)

(** The controller flags and count, accumulated over the four controllers. *)
Definition controller_bits (i : Z) (c : core_controller) (acc : Z * Z) : Z * Z :=
  let '(flags, count) := acc in
  let flags := if Plugin c =? ce_mempak then Z.lor flags (CONTROLLER_X_MEMPAK i) else flags in
  let flags := if Plugin c =? ce_rumblepak then Z.lor flags (CONTROLLER_X_RUMBLE i) else flags in
  if Present c then (Z.lor flags (CONTROLLER_X_PRESENT i), u8 (count + 1)) else (flags, count).

Fixpoint rom_controllers (i : Z) (cs : list core_controller) (acc : Z * Z) : Z * Z :=
  match cs with
  | [] => acc
  | c :: rest => rom_controllers (i + 1) rest (controller_bits i c acc)
  end.

Definition set_rom_info (s : vcr) (h : core_vcr_movie_header) : option core_vcr_movie_header :=
  let '(flags, count) := rom_controllers 0 (take 4 (controls s)) (0, 0) in
  let '(video, audio, input, rsp) := plugin_names H in
  let write name arr := put 0 (name ++ [0]) (put 0 [0] arr) in
  name ← strncpy_s 32 (rom_nom H) 32 (rom_name h);
  Some (h <| vis_per_second := u8 (core_vr_get_vis_per_second (rom_Country_code H)) |>
          <| controller_flags := flags |> <| num_controllers := count |>
          <| rom_name := name |> <| rom_crc1 := rom_CRC1 H |> <| rom_country := rom_Country_code H |>
          <| input_plugin_name := write input (input_plugin_name h) |>
          <| video_plugin_name := write video (video_plugin_name h) |>
          <| audio_plugin_name := write audio (audio_plugin_name h) |>
          <| rsp_plugin_name := write rsp (rsp_plugin_name h) |>).

Definition update_rom_info : M vcr unit :=
  s <-- get ;;;
  match set_rom_info s (g_header s) with
  | None => undef InvalidParameter
  | Some h => on_header (fun _ => h)
  end.

(** ** Freezing and unfreezing *)

Definition core_vcr_freeze : M vcr (option core_vcr_freeze_info) :=
  s <-- get ;;;
  if task_eqb (g_task s) task_idle then ret None
  else
    let n := length_samples (g_header s) in
    if Z.of_nat (length (g_movie_inputs s)) <? n then undef OutOfBounds
    else
      write_movie ;;;
      ret (Some (Freeze (u32 (16 + 4 * u32 (n + 1))) (uid (g_header s))
                   (u32 (m_current_sample s)) (u32 (m_current_vi s)) n
                   (take (Z.to_nat n) (g_movie_inputs s) ++ [0]))).

(** Continue the movie from the savestate's inputs. *)
Definition unfreeze_recording (freeze : core_vcr_freeze_info) (last_task : core_vcr_task)
    : M vcr unit :=
  modify (fun s => s <| g_task := task_recording |>) ;;;
  broadcast_task ;;;
  when (task_eqb last_task task_playback) update_rom_info ;;;
  s <-- get ;;;
  on_header (set_rerecord_count (u64 (get_rerecord_count (g_header s) + 1))) ;;;
  on_cfg (fun c => c <| total_rerecords := u64 (total_rerecords c + 1) |>) ;;;
  s <-- get ;;;
  call (CRerecordsChanged (get_rerecord_count (g_header s))) ;;;
  when (negb (g_warp_modify_active s))
    (on_header (fun h => h <| length_samples := freeze_current_sample freeze |>) ;;;
     when (vcr_backups (cfg s)) (write_backup_impl ;;; ret tt) ;;;
     (if Z.of_nat (length (freeze_input_buffer freeze)) <? freeze_current_sample freeze
      then undef OutOfBounds
      else modify (fun s => s <| g_movie_inputs :=
             take (Z.to_nat (freeze_current_sample freeze)) (freeze_input_buffer freeze) |>)) ;;;
     write_movie ;;; ret tt).

Definition unfreeze_playback : M vcr unit :=
  write_movie ;;;
  modify (fun s => s <| g_task := task_playback |>) ;;;
  broadcast_task.

Definition core_vcr_unfreeze (freeze : core_vcr_freeze_info) : M vcr core_result :=
  s <-- get ;;;
  if task_eqb (g_task s) task_idle then ret VCR_NeedsPlaybackOrRecording
  else if freeze_size freeze <? 16 then ret VCR_InvalidFormat
  else if negb (freeze_uid freeze =? uid (g_header s)) then ret VCR_NotFromThisMovie
  else if (freeze_length_samples freeze <? freeze_current_sample freeze) && vcr_readonly (cfg s)
  then ret VCR_InvalidFrame
  else if freeze_size freeze <? u32 (4 * u32 (freeze_length_samples freeze + 1))
  then ret VCR_InvalidFormat
  else
    modify (fun s => s <| m_current_sample := s32 (freeze_current_sample freeze) |>
                       <| m_current_vi := s32 (freeze_current_vi freeze) |>) ;;;
    let last_task := g_task s in
    let is_task_starting_playback :=
      task_eqb last_task task_start_playback_from_reset ||
      task_eqb last_task task_start_playback_from_snapshot in
    (if task_eqb last_task task_recording && core_vcr_is_seeking s then
       s <-- get ;;; call (CCurrentSampleChanged (m_current_sample s))
     else if negb (vcr_readonly (cfg s)) && negb is_task_starting_playback
     then unfreeze_recording freeze last_task
     else unfreeze_playback) ;;;
    call CFrame ;;; call CUnfreezeCompleted ;;;
    ret Res_Ok.

(** ** Stopping *)

Definition core_vcr_stop_seek : M vcr unit :=
  s <-- get ;;;
  if negb (core_vcr_is_seeking s) then ret tt
  else
    modify (fun s => s <| seek_to_frame := None |>) ;;;
    call CSeekStatusChanged ;;;
    call CSeekCompleted ;;;
    when (g_warp_modify_active s)
      (modify (fun s => s <| g_warp_modify_active := false |>) ;;;
       call (CWarpModifyStatusChanged false)).

Definition vcr_stop_record : M vcr core_result :=
  s <-- get ;;;
  if negb (vcr_is_task_recording (g_task s)) then ret Res_Ok
  else
    when (task_eqb (g_task s) task_start_recording_from_reset)
      (modify (fun s => s <| g_task := task_idle |>) ;;;
       on_fs (modify (fun fs => delete (replace_extension (g_movie_path s) ".st")
                                  (delete (replace_extension (g_movie_path s) ".m64") fs)))) ;;;
    when (task_eqb (g_task s) task_recording)
      (write_movie ;;; modify (fun s => s <| g_task := task_idle |>)) ;;;
    s <-- get ;;;
    call (CTaskChanged (g_task s)) ;;;
    ret Res_Ok.

Definition vcr_stop_playback : M vcr core_result :=
  s <-- get ;;;
  if negb (is_task_playback (g_task s)) then ret Res_Ok
  else
    modify (fun s => s <| g_task := task_idle |>) ;;;
    call (CTaskChanged task_idle) ;;;
    call CStopMovie ;;;
    on_cheats cht_layer_pop ;;;
    ret Res_Ok.

Fixpoint call_all (cs : list vcr_call) : M vcr unit :=
  match cs with [] => ret tt | c :: rest => call c ;;; call_all rest end.

(** The order in which the keys of the (unordered) map are visited is left to the
    container; here it is the order of [map_to_list]. *)
Definition savestate_keys (m : gmap Z st_buffer) : list Z := (map_to_list m).*1.

Definition vcr_clear_seek_savestates : M vcr unit :=
  s <-- get ;;;
  modify (fun s => s <| g_seek_savestates := ∅ |>) ;;;
  call_all (map CSeekSavestateChanged (savestate_keys (g_seek_savestates s))).

Definition setkeys_with_zero : M vcr unit :=
  call_all [CSetKeys 0 0; CSetKeys 1 0; CSetKeys 2 0; CSetKeys 3 0].

Definition core_vcr_stop_all : M vcr core_result :=
  vcr_clear_seek_savestates ;;;
  s <-- get ;;;
  match g_task s with
  | task_start_recording_from_reset | task_start_recording_from_snapshot | task_recording =>
      setkeys_with_zero ;;; vcr_stop_record
  | task_start_playback_from_reset | task_start_playback_from_snapshot | task_playback =>
      setkeys_with_zero ;;; vcr_stop_playback
  | _ => ret Res_Ok
  end.

(** ** Seek savestates *)

(** The smallest key in [i, i + n). *)
Fixpoint first_key_from (m : gmap Z st_buffer) (i : Z) (n : nat) : option Z :=
  match n with
  | O => None
  | S n => if bool_decide (is_Some (m !! i)) then Some i else first_key_from m (i + 1) n
  end.

Definition purge_oldest : M vcr unit :=
  s <-- get ;;;
  match first_key_from (g_seek_savestates s) 1 (Z.to_nat (length_samples (g_header s) - 1)) with
  | None => ret tt
  | Some i =>
      modify (fun s => s <| g_seek_savestates := delete i (g_seek_savestates s) |>) ;;;
      call (CSeekSavestateChanged i)
  end.

(** The callback of the seek savestate's save. *)
Definition save_seek_callback (frame : Z) (result : core_result) (buf : st_buffer) : M vcr unit :=
  if negb (is_ok result) then call CShowDialog
  else
    modify (fun s => s <| g_seek_savestates := <[frame := buf]> (g_seek_savestates s) |>) ;;;
    call (CSeekSavestateChanged frame).

Definition ST_CoreNotLaunched : core_result := OtherError 0.

Definition vcr_create_n_frame_savestate (frame : Z) : M vcr unit :=
  s <-- get ;;;
  let '(current, target) := core_vcr_get_seek_completion s in
  let from_end := s32 (seek_savestate_interval (cfg s) * seek_savestate_max_count (cfg s)) in
  if core_vcr_is_seeking s && (u64 from_end <? u64 (target - current)) then ret tt
  else
    when (u64 (seek_savestate_max_count (cfg s)) <? Z.of_nat (size (g_seek_savestates s)))
      purge_oldest ;;;
    if core_executing s then submit_task (ASaveSeek frame)
    else save_seek_callback frame ST_CoreNotLaunched StEmpty.

Definition vcr_create_seek_savestates : M vcr unit :=
  s <-- get ;;;
  if task_eqb (g_task s) task_idle || (seek_savestate_interval (cfg s) =? 0) then ret tt
  else
    when (Z.rem (m_current_sample s) (seek_savestate_interval (cfg s)) =? 0)
      (vcr_create_n_frame_savestate (u64 (m_current_sample s))).

Definition vcr_stop_seek_if_needed : M vcr unit :=
  s <-- get ;;;
  match seek_to_frame s with
  | None => ret tt
  | Some f =>
      if task_eqb (g_task s) task_idle then undef AssertFailed
      else
        when (f <? u64 (m_current_sample s)) (call CShowDialog) ;;;
        when (f <=? u64 (m_current_sample s))
          (core_vcr_stop_seek ;;; when (g_seek_pause_at_end s) core_vr_pause_emu)
  end.

(** Does one string equal the other up to case? ([_stricmp]) *)
Definition lower (b : Z) : Z := if (65 <=? b) && (b <=? 90) then b + 32 else b.
Definition stricmp_eq (a b : list Z) : bool :=
  bool_decide (map lower (c_str a) = map lower (c_str b)).

(** ** Starting a recording *)

Definition bytes_of_string (s : string) : list Z :=
  map (fun c => Z.of_nat (nat_of_ascii c)) (list_ascii_of_string s).
Definition string_of_bytes (l : list Z) : string :=
  string_of_list_ascii (map (fun b => ascii_of_nat (Z.to_nat b)) l).

(** The warning about controllers that accept raw data; false when declined. *)
Definition raw_data_accepted (s : vcr) : bool :=
  if existsb (fun c => Present c && RawData c) (controls s)
  then show_ask_dialog H CORE_DLG_VCR_RAWDATA_WARNING else true.

Definition file_exists (s : vcr) (p : string) : bool := bool_decide (is_Some (fs s !! p)).

(** "(no author)", "(no description)" *)
Definition no_author : list Z := bytes_of_string "(no author)".
Definition no_description : list Z := bytes_of_string "(no description)".

(** [memset] and [strncpy_s] of author or description, cut to [n] bytes. *)
Definition fill_text (n : nat) (text : list Z) : option (list Z) :=
  strncpy_s n (take n text) (length (take n text)) (zeros n).

Definition fresh_header (s : vcr) (flags : Z) : core_vcr_movie_header :=
  set_rerecord_count 0
    ((header_of (zeros sizeof_header))
      <| magic := mup_magic |> <| version := mup_version |>
      <| extended_version := extended_version default_hdr |>
      <| extended_flags := if c_true (wii_vc_emulation (cfg s)) then 1 else 0 |>
      <| extended_data := extended_data default_hdr |>
      <| uid := u32 (now s) |> <| length_vis := 0 |> <| length_samples := 0 |>)
  <| startFlags := flags |>.

(** The cheat list is written beside the movie before anything else happens. *)
Definition write_movie_cheats (path : string) : M vcr bool :=
  s <-- get ;;;
  let cheat_data := cht_serialize (cheats s) in
  if String.eqb cheat_data "" then ret true
  else
    let cheat_path := get_path_for_new_movie path ".cht" in
    if negb (can_open H cheat_path) then ret false
    else on_fs (modify (fun fs => <[cheat_path := bytes_of_string cheat_data]> fs)) ;;; ret true.

(** The callback of the savestate saved or loaded to start a recording. *)
Definition start_recording_callback (result : core_result) : M vcr unit :=
  if negb (is_ok result) then call CShowDialog ;;; core_vcr_stop_all ;;; ret tt
  else modify (fun s => s <| g_task := task_recording |>).

(** The start-type specific part; [None] when it succeeds. *)
Definition begin_recording (flags : Z) : M vcr (option core_result) :=
  s <-- get ;;;
  if has_bits flags MOVIE_START_FROM_SNAPSHOT then
    modify (fun s => s <| g_task := task_start_recording_from_snapshot |>) ;;;
    (if core_executing s
     then submit_task (ASaveSnapshot (get_path_for_new_movie (g_movie_path s) ".st"))
     else start_recording_callback ST_CoreNotLaunched) ;;;
    ret None
  else if has_bits flags MOVIE_START_FROM_EXISTING_SNAPSHOT then
    match find_accompanying_file_for_movie (file_exists s) (g_movie_path s) st_extensions with
    | None => undef Diverges
    | Some st_path =>
        if String.eqb st_path "" then ret (Some VCR_InvalidSavestate)
        else
          on_header (fun h => h <| startFlags := MOVIE_START_FROM_SNAPSHOT |>) ;;;
          modify (fun s => s <| g_task := task_start_recording_from_existing_snapshot |>) ;;;
          submit_task (ALoadForRecording st_path) ;;;
          ret None
    end
  else
    modify (fun s => s <| g_task := task_start_recording_from_reset |>) ;;; ret None.

Definition valid_start_type (flags : Z) : bool :=
  (flags =? MOVIE_START_FROM_SNAPSHOT) || (flags =? MOVIE_START_FROM_NOTHING) ||
  (flags =? MOVIE_START_FROM_EEPROM) || (flags =? MOVIE_START_FROM_EXISTING_SNAPSHOT).

Definition core_vcr_start_record (path : string) (flags : Z) (author_ description_ : list Z)
    : M vcr core_result :=
  if negb (valid_start_type flags) then ret VCR_InvalidStartType
  else
    let author_ := match author_ with [] => no_author | _ => author_ end in
    let description_ := match description_ with [] => no_description | _ => description_ end in
    ok <-- write_movie_cheats path ;;;
    if negb ok then ret VCR_CheatWriteFailed
    else
      core_vcr_stop_all ;;;
      modify (fun s => s <| g_movie_path := path |>) ;;;
      s <-- get ;;;
      if negb (raw_data_accepted s) then ret Res_Cancelled
      else
        on_cfg (fun c => c <| vcr_readonly := false |>) ;;;
        call (CReadonlyChanged false) ;;;
        on_header (fun _ => fresh_header s flags) ;;;
        modify (fun s => s <| g_movie_inputs := [] |>) ;;;
        failed <-- begin_recording flags ;;;
        match failed with
        | Some result => ret result
        | None =>
            update_rom_info ;;;
            match fill_text 222 author_, fill_text 256 description_ with
            | Some a, Some d =>
                on_header (fun h => h <| author := a |> <| description := d |>) ;;;
                modify (fun s => s <| m_current_sample := 0 |> <| m_current_vi := 0 |>) ;;;
                broadcast_task ;;;
                ret Res_Ok
            | _, _ => undef InvalidParameter
            end
        end.

(** ** Starting a playback *)

(** The warnings for one controller; false when playback cannot start. *)
Definition controller_warning (i : Z) (c : core_controller) (flags : Z) : M vcr bool :=
  let present := has_bits flags (CONTROLLER_X_PRESENT i) in
  if negb (Present c) && present then call CShowDialog ;;; ret false
  else if Present c && negb present then call CShowDialog ;;; ret true
  else
    when (Present c && negb (Plugin c =? ce_mempak) && has_bits flags (CONTROLLER_X_MEMPAK i))
      (call CShowDialog) ;;;
    when (Present c && negb (Plugin c =? ce_rumblepak) && has_bits flags (CONTROLLER_X_RUMBLE i))
      (call CShowDialog) ;;;
    when (Present c && negb (Plugin c =? ce_none) &&
          negb (has_bits flags (Z.lor (CONTROLLER_X_MEMPAK i) (CONTROLLER_X_RUMBLE i))))
      (call CShowDialog) ;;;
    ret true.

Fixpoint controller_warnings (i : Z) (cs : list core_controller) (flags : Z) : M vcr bool :=
  match cs with
  | [] => ret true
  | c :: rest =>
      ok <-- controller_warning i c flags ;;;
      if ok then controller_warnings (i + 1) rest flags else ret false
  end.

Definition show_controller_warning (header : core_vcr_movie_header) : M vcr bool :=
  s <-- get ;;; controller_warnings 0 (take 4 (controls s)) (controller_flags header).

(** The questions about the extended format and the ROM; false when the user
    declines one. *)
Definition extended_accepted (s : vcr) (header : core_vcr_movie_header) : M vcr bool :=
  if negb (extended_version header =? 0) then
    if wii_vc_emulation (cfg s) =? Z.land (extended_flags header) 1 then ret true
    else ret (show_ask_dialog H CORE_DLG_VCR_WIIVC_WARNING)
  else
    when (negb (extended_flags header =? 0)) (call CShowDialog) ;;; ret true.

Definition rom_accepted (header : core_vcr_movie_header) : bool :=
  if negb (stricmp_eq (rom_name header) (rom_nom H))
  then show_ask_dialog H CORE_DLG_VCR_ROM_NAME_WARNING
  else if negb (rom_country header =? rom_Country_code H)
  then show_ask_dialog H CORE_DLG_VCR_ROM_CCODE_WARNING
  else if negb (rom_crc1 header =? rom_CRC1 H)
  then show_ask_dialog H CORE_DLG_VCR_ROM_CRC_WARNING
  else true.

(** The movie's cheats override the host's; false when the user gives up. *)
Definition push_movie_cheats (path : string) : M vcr bool :=
  s <-- get ;;;
  match find_accompanying_file_for_movie (file_exists s) path [".cht"%string] with
  | None => undef Diverges
  | Some cht_path =>
      if String.eqb cht_path "" then on_cheats (cht_layer_push []) ;;; ret true
      else
        match cht_read_from_file
                (if can_open H cht_path then string_of_bytes <$> fs s !! cht_path else None) with
        | ReadOk cs => on_cheats (cht_layer_push cs) ;;; ret true
        | ReadFailed => ret (show_ask_dialog H CORE_DLG_VCR_CHEAT_LOAD_ERROR)
        | ReadThrows => undef UncaughtException
        end
  end.

(** [core_vr_start_rom] (r4300.cpp): on success the core runs, unpaused. *)
Definition core_vr_start_rom (path : string) : M vcr core_result :=
  let result := start_rom_result H path in
  when (is_ok result)
    (modify (fun s => s <| emu_paused := false |> <| emu_launched := true |>
                        <| core_executing := true |>)) ;;;
  ret result.

Definition ensure_core_executing (path : string) : M vcr core_result :=
  s <-- get ;;; if core_executing s then ret Res_Ok else core_vr_start_rom path.

(** Installing the movie that was read; the checks are behind. *)
Definition install_movie (path : string) (header : core_vcr_movie_header) (inputs : list Z)
    : M vcr core_result :=
  core_vcr_stop_all ;;;
  modify (fun s => s <| m_current_sample := 0 |> <| m_current_vi := 0 |>
                     <| g_movie_path := path |> <| g_movie_inputs := inputs |>
                     <| g_header := header |>) ;;;
  s <-- get ;;;
  started <--
    (if has_bits (startFlags header) MOVIE_START_FROM_SNAPSHOT then
       match find_accompanying_file_for_movie (file_exists s) path st_extensions with
       | None => undef Diverges
       | Some st_path =>
           if String.eqb st_path "" then ret false
           else
             modify (fun s => s <| g_task := task_start_playback_from_snapshot |>) ;;;
             submit_task (ALoadForPlayback st_path) ;;; ret true
       end
     else modify (fun s => s <| g_task := task_start_playback_from_reset |>) ;;; ret true) ;;;
  if negb started then ret VCR_InvalidSavestate
  else broadcast_task ;;; call CPlayMovie ;;; ret Res_Ok.

Definition core_vcr_start_playback (path : string) : M vcr core_result :=
  s <-- get ;;;
  match read_file_buffer (fs s) path with
  | [] => ret VCR_BadFile
  | movie_buf =>
      result <-- ensure_core_executing path ;;;
      if negb (is_ok result) then ret result
      else
        let '(result, header) := read_movie_header movie_buf default_hdr in
        if negb (is_ok result) then ret result
        else if (Z.of_nat (length movie_buf) <? 1024 + 4 * length_samples header)
                && (0 <? length_samples header)
        then undef OutOfBounds
        else
          let inputs := samples_of (Z.to_nat (length_samples header)) (drop sizeof_header movie_buf) in
          s <-- get ;;;
          if negb (raw_data_accepted s) then ret Res_Cancelled
          else
            ok <-- show_controller_warning header ;;;
            if negb ok then ret VCR_InvalidControllers
            else
              ok <-- extended_accepted s header ;;;
              if negb ok then ret Res_Cancelled
              else if negb (rom_accepted header) then ret Res_Cancelled
              else
                ok <-- push_movie_cheats path ;;;
                if negb ok then ret Res_Cancelled
                else install_movie path header inputs
  end.

(** ** Controller polls *)

(** The input a requested reset is recorded as: reserved_1 and reserved_2. *)
Definition reset_input : Z := 0xC000.

Definition vcr_handle_starting_tasks : M vcr unit :=
  s <-- get ;;;
  let clear_eeprom := negb (has_bits (startFlags (g_header s)) MOVIE_START_FROM_EEPROM) in
  when (task_eqb (g_task s) task_start_recording_from_reset)
    (modify (fun s => s <| g_reset_pending := true |>) ;;;
     submit_task (AResetForRecording clear_eeprom)) ;;;
  when (task_eqb (g_task s) task_start_playback_from_reset)
    (modify (fun s => s <| g_reset_pending := true |>) ;;;
     submit_task (AResetForPlayback clear_eeprom)).

(** The sample at a (converted) index of the input vector. *)
Definition input_at (i : Z) : M vcr Z :=
  s <-- get ;;;
  if i <? 0 then undef OutOfBounds
  else match g_movie_inputs s !! Z.to_nat i with Some v => ret v | None => undef OutOfBounds end.

Definition input_get_keys (p : poll) (index : Z) : M vcr Z :=
  call (CGetKeys index) ;;; ret (plugin_keys p).

Definition vcr_handle_recording (p : poll) (index input : Z) : M vcr Z :=
  s <-- get ;;;
  if negb (task_eqb (g_task s) task_recording) then ret input
  else
    let effective_index := s32 (m_current_sample s + index) in
    let use_inputs_from_buffer :=
      (u64 effective_index <? Z.of_nat (length (g_movie_inputs s))) || g_warp_modify_active s in
    input <--
      (if vcr_reset_requested s then ret reset_input
       else if use_inputs_from_buffer then
         v <-- input_at effective_index ;;;
         call (CInput index v) ;;; ret v
       else
         v <-- input_get_keys p index ;;;
         call (CInput index v) ;;; ret (input_callback p v)) ;;;
    when (negb use_inputs_from_buffer)
      (modify (fun s => s <| g_movie_inputs := g_movie_inputs s ++ [input] |>) ;;;
       on_header (fun h => h <| length_samples := u32 (length_samples h + 1) |>)) ;;;
    modify (fun s => s <| m_current_sample := s32 (m_current_sample s + 1) |>) ;;;
    s' <-- get ;;;
    call (CCurrentSampleChanged (m_current_sample s')) ;;;
    when (vcr_reset_requested s)
      (modify (fun s => s <| vcr_reset_requested := false |> <| g_reset_pending := true |>) ;;;
       submit_task AUserReset) ;;;
    ret input.

Definition vcr_handle_playback (p : poll) (index input : Z) : M vcr Z :=
  s <-- get ;;;
  if negb (task_eqb (g_task s) task_playback) then ret input
  else
    when (wait_at_movie_end (cfg s) &&
          (m_current_sample s =? s32 (s32 (length_samples (g_header s)) - 1)))
      core_vr_pause_emu ;;;
    if s32 (length_samples (g_header s)) <=? m_current_sample s then
      core_vcr_stop_all ;;;
      s <-- get ;;;
      if is_movie_loop_enabled (cfg s) then
        call CLoopMovie ;;; core_vcr_start_playback (g_movie_path s) ;;; ret input
      else
        call (CSetKeys index 0) ;;; input_get_keys p index
    else if negb (has_bits (controller_flags (g_header s)) (CONTROLLER_X_PRESENT index)) then ret 0
    else
      input <-- input_at (s32 (m_current_sample s + index)) ;;;
      call (CSetKeys index input) ;;;
      when (input =? 0xC000)
        (modify (fun s => s <| g_reset_pending := true |>) ;;; submit_task AMovieReset) ;;;
      call (CInput index input) ;;;
      modify (fun s => s <| m_current_sample := s32 (m_current_sample s + 1) |>) ;;;
      s' <-- get ;;;
      call (CCurrentSampleChanged (m_current_sample s')) ;;;
      ret (input_callback p input).

(** Returns the value of [*input] after the poll. *)
Definition vcr_on_controller_poll (p : poll) (index input : Z) : M vcr Z :=
  s <-- get ;;;
  if g_reset_pending s then ret input
  else if g_seek_savestate_loading s then ret input
  else if task_eqb (g_task s) task_idle then
    v <-- input_get_keys p index ;;; call (CInput index v) ;;; ret (input_callback p v)
  else
    vcr_stop_seek_if_needed ;;;
    vcr_handle_starting_tasks ;;;
    vcr_create_seek_savestates ;;;
    input <-- vcr_handle_recording p index input ;;;
    vcr_handle_playback p index input.

(** ** Seeking *)

(** [std::stoi]: white space, a sign and decimal digits; [None] when it throws,
    for lack of digits or out of the range of [int]. *)
Definition dec_digit (c : ascii) : option Z :=
  let n := Z.of_nat (nat_of_ascii c) in
  if (48 <=? n) && (n <=? 57) then Some (n - 48) else None.

Fixpoint dec_digits (acc : Z) (s : string) : Z :=
  match s with
  | EmptyString => acc
  | String c t => match dec_digit c with Some d => dec_digits (10 * acc + d) t | None => acc end
  end.

Definition stoi (s : string) : option Z :=
  let s := skip_space s in
  let '(neg, s) :=
    match s with
    | String "-" t => (true, t)
    | String "+" t => (false, t)
    | _ => (false, s)
    end in
  match s with
  | String c _ =>
      match dec_digit c with
      | None => None
      | Some _ =>
          let n := dec_digits 0 s in
          let n := if neg : bool then - n else n in
          if (-0x80000000 <=? n) && (n <=? 0x7FFFFFFF) then Some n else None
      end
  | EmptyString => None
  end.

Definition compute_sample_from_seek_string (s : vcr) (str : string) : Z :=
  let c := first_char str in
  if Ascii.eqb c "-" || Ascii.eqb c "+" then
    match stoi str with Some n => u64 (s32 (m_current_sample s + n)) | None => SIZE_MAX end
  else if Ascii.eqb c "^" then
    match stoi (String.substring 1 (String.length str - 1) str) with
    | Some n => u32 (length_samples (g_header s) - n)
    | None => SIZE_MAX
    end
  else match stoi str with Some n => u64 n | None => SIZE_MAX end.

Definition can_seek_to (s : vcr) (frame : Z) : bool :=
  (frame <=? length_samples (g_header s)) && (0 <? frame).

Definition INT32_MAX : Z := 0x7FFFFFFF.

(** One round of the search: the best distance and its frame so far. *)
Definition closer (frame : Z) (best : Z * Z) (slot_frame : Z) : Z * Z :=
  if frame <=? slot_frame then best
  else if frame - slot_frame <? best.1 then (frame - slot_frame, slot_frame) else best.

Definition vcr_find_closest_savestate_before_frame (m : gmap Z st_buffer) (frame : Z) : Z :=
  (fold_left (closer frame) (savestate_keys m) (INT32_MAX, 0)).2.

(** Seek savestates from the target on are dropped, since the user is going to
    change the inputs before them. *)
Fixpoint erase_savestates (to_erase : list Z) : M vcr unit :=
  match to_erase with
  | [] => ret tt
  | sample :: rest =>
      modify (fun s => s <| g_seek_savestates := delete sample (g_seek_savestates s) |>) ;;;
      call (CSeekSavestateChanged sample) ;;;
      erase_savestates rest
  end.

Definition erase_from (target : Z) : M vcr unit :=
  s <-- get ;;;
  erase_savestates (base.filter (fun k => target <= k) (savestate_keys (g_seek_savestates s))).

Definition load_closest (target : Z) : M vcr unit :=
  s <-- get ;;;
  modify (fun s => s <| g_seek_savestate_loading := true |>) ;;;
  submit_task (ALoadSeek (vcr_find_closest_savestate_before_frame (g_seek_savestates s) target)).

(** Going back during playback. *)
Definition seek_back_playback (frame : Z) : M vcr core_result :=
  s <-- get ;;;
  if negb (seek_savestate_interval (cfg s) =? 0) then
    on_cfg (fun c => c <| vcr_readonly := true |>) ;;;
    call (CReadonlyChanged true) ;;;
    load_closest frame ;;; ret Res_Ok
  else
    result <-- core_vcr_start_playback (g_movie_path s) ;;;
    if negb (is_ok result) then
      modify (fun s => s <| seek_to_frame := None |>) ;;;
      call CSeekStatusChanged ;;; ret result
    else ret Res_Ok.

(** Going back during recording. *)
Definition seek_back_recording (frame : Z) (warp_modify : bool) : M vcr core_result :=
  s <-- get ;;;
  if seek_savestate_interval (cfg s) =? 0 then call CShowDialog ;;; ret VCR_SeekSavestateIntervalZero
  else
    let target_sample := if warp_modify then g_warp_modify_first_difference_frame s else frame in
    when (negb (vcr_readonly (cfg s))) (erase_from target_sample) ;;;
    load_closest target_sample ;;; ret Res_Ok.

Definition vcr_begin_seek_impl (str : string) (pause_at_end resume warp_modify : bool)
    : M vcr core_result :=
  s <-- get ;;;
  if core_vcr_is_seeking s then ret VCR_SeekAlreadyRunning
  else if g_seek_savestate_loading s then ret VCR_SeekAlreadyRunning
  else if task_eqb (g_task s) task_idle then ret VCR_Idle
  else
    let frame := compute_sample_from_seek_string s str in
    if (frame =? SIZE_MAX) || negb (can_seek_to s frame) then ret VCR_InvalidFrame
    else
      let frame' := if pause_at_end then frame - 1 else frame in
      if pause_at_end && negb (can_seek_to s frame') then ret VCR_InvalidFrame
      else
        modify (fun s => s <| seek_to_frame := Some frame' |> <| g_seek_pause_at_end := pause_at_end |>) ;;;
        call CSeekStatusChanged ;;;
        if negb warp_modify && pause_at_end && (u64 (m_current_sample s) =? frame' + 1) then
          core_vcr_stop_seek ;;; ret Res_Ok
        else
          when resume core_vr_resume_emu ;;;
          if u64 (m_current_sample s) <=? frame' then ret Res_Ok
          else if task_eqb (g_task s) task_playback then seek_back_playback frame'
          else if task_eqb (g_task s) task_recording then seek_back_recording frame' warp_modify
          else ret Res_Ok.

Definition core_vcr_begin_seek (str : string) (pause_at_end : bool) : M vcr core_result :=
  vcr_begin_seek_impl str pause_at_end true false.

(** ** Warp modify *)

(** The loop over the common length; [None] when no sample differs. *)
Fixpoint first_difference (i : Z) (first second : list Z) : option Z :=
  match first, second with
  | a :: first, b :: second => if a =? b then first_difference (i + 1) first second else Some i
  | _, _ => None
  end.

Definition vcr_find_first_input_difference (first second : list Z) : Z :=
  match first_difference 0 first second with
  | Some i => i
  | None =>
      if (length first =? length second)%nat then SIZE_MAX
      else Z.max 0 (Z.of_nat (min (length first) (length second)) - 1)
  end.

Definition set_warp_modify (b : bool) : M vcr unit :=
  modify (fun s => s <| g_warp_modify_active := b |>) ;;; call (CWarpModifyStatusChanged b).

Definition replace_inputs (inputs : list Z) : M vcr unit :=
  modify (fun s => s <| g_movie_inputs := inputs |>) ;;;
  on_header (fun h => h <| length_samples := u32 (Z.of_nat (length inputs)) |>).

Definition core_vcr_begin_warp_modify (inputs : list Z) : M vcr core_result :=
  s <-- get ;;;
  if g_warp_modify_active s then ret VCR_WarpModifyAlreadyRunning
  else if negb (task_eqb (g_task s) task_recording) then ret VCR_WarpModifyNeedsRecordingTask
  else match inputs with
  | [] => ret VCR_WarpModifyEmptyInputBuffer
  | _ =>
      let first_diff := vcr_find_first_input_difference (g_movie_inputs s) inputs in
      modify (fun s => s <| g_warp_modify_first_difference_frame := first_diff |>) ;;;
      if first_diff =? SIZE_MAX then
        set_warp_modify true ;;; set_warp_modify false ;;; ret Res_Ok
      else if u64 (m_current_sample s) <? first_diff then
        replace_inputs inputs ;;;
        set_warp_modify true ;;; set_warp_modify false ;;; ret Res_Ok
      else
        let target_sample := Z.min (Z.of_nat (length inputs)) (u64 (m_current_sample s)) in
        result <-- vcr_begin_seek_impl (pretty (Z.to_N target_sample))
                     (emu_paused s || negb (frame_advance_outstanding s =? 0)) false true ;;;
        if negb (is_ok result) then ret result
        else
          modify (fun s => s <| g_warp_modify_active := true |>) ;;;
          replace_inputs inputs ;;;
          call (CWarpModifyStatusChanged true) ;;;
          core_vr_resume_emu ;;;
          ret Res_Ok
  end.

Definition core_vcr_get_warp_modify_status (s : vcr) : bool := g_warp_modify_active s.

Definition core_vcr_get_warp_modify_first_difference_frame (s : vcr) : Z :=
  if eqb (core_vcr_get_warp_modify_status s) (g_warp_modify_active s)
  then g_warp_modify_first_difference_frame s else SIZE_MAX.

(** ** Vertical interrupts and frame skipping *)

Definition vcr_on_vi : M vcr unit :=
  modify (fun s => s <| m_current_vi := s32 (m_current_vi s + 1) |>) ;;;
  s <-- get ;;;
  when (task_eqb (g_task s) task_recording && negb (g_warp_modify_active s))
    (on_header (fun h => h <| length_vis := u32 (m_current_vi s) |>)) ;;;
  if negb (vcr_is_playing s) then ret tt
  else
    let pausing_at_last :=
      pause_at_last_frame (cfg s) && (u32 (m_current_sample s) =? length_samples (g_header s)) in
    let pausing_at_n :=
      negb (pause_at_frame (cfg s) =? -1) && (pause_at_frame (cfg s) <=? m_current_sample s) in
    when (pausing_at_last || pausing_at_n) core_vr_pause_emu ;;;
    when pausing_at_last (on_cfg (fun c => c <| pause_at_last_frame := false |>)) ;;;
    when pausing_at_n (on_cfg (fun c => c <| pause_at_frame := -1 |>)).

Definition is_frame_skipped (s : vcr) : bool :=
  if 1 <? frame_advance_outstanding s then true
  else if negb (render_throttling (cfg s)) then false
  else if core_vcr_is_seeking s then true
  else if negb (g_vr_fast_forward s) then false
  else if frame_skip_frequency (cfg s) =? 0 then true
  else if frame_skip_frequency (cfg s) =? 1 then false
  else negb (Z.rem (g_total_frames s) (u64 (frame_skip_frequency (cfg s))) =? 0).

(** ** Getters *)

Definition core_vcr_get_length_samples (s : vcr) : Z :=
  if task_eqb (g_task s) task_idle then UINT32_MAX else length_samples (g_header s).
Definition core_vcr_get_length_vis (s : vcr) : Z :=
  if task_eqb (g_task s) task_idle then UINT32_MAX else length_vis (g_header s).
Definition core_vcr_get_current_vi (s : vcr) : Z :=
  if task_eqb (g_task s) task_idle then -1 else m_current_vi s.
Definition core_vcr_has_seek_savestate_at_frame (s : vcr) (frame : Z) : bool :=
  bool_decide (is_Some (g_seek_savestates s !! frame)).

(** A freeze buffer as a movie of its own. *)
Definition core_vcr_convert_freeze_buffer_to_movie (s : vcr) (freeze : core_vcr_freeze_info)
    (header : core_vcr_movie_header) : option (core_vcr_movie_header * list Z) :=
  h ← set_rom_info s
        (header <| magic := mup_magic |> <| version := mup_version |>
                <| uid := freeze_uid freeze |>
                <| length_samples := freeze_length_samples freeze |>
                <| startFlags := MOVIE_START_FROM_NOTHING |> <| length_vis := UINT32_MAX |>);
  Some (h, freeze_input_buffer freeze).

(** ** Work executed later *)

(** Recording or playback begins once the ROM has been reset. *)
Definition reset_callback (result : core_result) (task : core_vcr_task) : M vcr unit :=
  modify (fun s => s <| g_reset_pending := false |>) ;;;
  if negb (is_ok result) then call CShowDialog ;;; core_vcr_stop_all ;;; ret tt
  else
    modify (fun s => s <| m_current_sample := 0 |> <| m_current_vi := 0 |> <| g_task := task |>) ;;;
    broadcast_task.

Definition user_reset_callback (result : core_result) : M vcr unit :=
  modify (fun s => s <| g_reset_pending := false |>) ;;;
  when (negb (is_ok result)) (call CShowDialog).

Definition movie_reset_callback (result : core_result) : M vcr unit :=
  if negb (is_ok result) then
    call CShowDialog ;;; core_vcr_stop_all ;;;
    modify (fun s => s <| g_reset_pending := false |>)
  else modify (fun s => s <| g_reset_pending := false |>).

Definition start_playback_callback (result : core_result) : M vcr unit :=
  if negb (is_ok result) then call CShowDialog ;;; core_vcr_stop_all ;;; ret tt
  else modify (fun s => s <| g_task := task_playback |>) ;;; broadcast_task.

Definition load_seek_callback (result : core_result) : M vcr unit :=
  when (negb (is_ok result))
    (call CShowDialog ;;;
     modify (fun s => s <| g_seek_savestate_loading := false |>) ;;;
     core_vcr_stop_seek) ;;;
  modify (fun s => s <| g_seek_savestate_loading := false |>).

(** The part of a savestate load that concerns the movie (savestates.cpp): the
    movie section is unfrozen, and the user is asked when that fails or when there
    is none during a movie. *)
Definition st_load (movie : option core_vcr_freeze_info) (ignore_warnings : bool) : M vcr core_result :=
  match movie with
  | Some freeze =>
      code <-- core_vcr_unfreeze freeze ;;;
      s <-- get ;;;
      if negb ignore_warnings && negb (is_ok code) && negb (task_eqb (g_task s) task_idle) &&
         negb (show_ask_dialog H CORE_DLG_ST_UNFREEZE_WARNING)
      then ret Res_Cancelled else ret Res_Ok
  | None =>
      s <-- get ;;;
      if negb ignore_warnings &&
         (task_eqb (g_task s) task_recording || task_eqb (g_task s) task_playback) &&
         negb (show_ask_dialog H CORE_DLG_ST_NOT_FROM_MOVIE)
      then ret Res_Cancelled else ret Res_Ok
  end.

(** Execute one piece of submitted work; [outcome] is what the part outside the
    engine (the ROM reset, the file access, the register checks of a load) comes
    to.  The load for a seek is submitted to the executor, which looks the savestate up
    and has the savestate engine load it later, from its own copy. *)
Definition run_async (a : async) (outcome : core_result) : M vcr unit :=
  match a with
  | AResetForRecording _ => reset_callback outcome task_recording
  | AResetForPlayback _ => reset_callback outcome task_playback
  | AUserReset => user_reset_callback outcome
  | AMovieReset => movie_reset_callback outcome
  | ASaveSnapshot path =>
      core_vcr_freeze ;;;
      when (is_ok outcome) (on_fs (modify (fun fs => <[path := savestate_image H]> fs))) ;;;
      start_recording_callback outcome
  | ALoadForRecording path =>
      result <-- (if is_ok outcome then st_load (movie_section H path) true else ret outcome) ;;;
      start_recording_callback result
  | ALoadForPlayback path =>
      result <-- (if is_ok outcome then st_load (movie_section H path) true else ret outcome) ;;;
      start_playback_callback result
  | ASaveSeek frame =>
      freeze <-- core_vcr_freeze ;;;
      save_seek_callback frame outcome (StBuf freeze)
  | ALoadSeek key =>
      s <-- get ;;;
      let buf := default StEmpty (g_seek_savestates s !! key) in
      modify (fun s => s <| g_seek_savestates := <[key := buf]> (g_seek_savestates s) |>) ;;;
      if core_executing s then submit_task (ALoadBuffer buf) else load_seek_callback ST_CoreNotLaunched
  | ALoadBuffer buf =>
      result <--
        match buf with
        | StEmpty => ret (OtherError 1)
        | StBuf movie => if is_ok outcome then st_load movie false else ret outcome
        end ;;;
      load_seek_callback result
  end.

(** The oldest piece of work runs. *)
Definition run_pending (outcome : core_result) : M vcr unit :=
  s <-- get ;;;
  match pending s with
  | [] => ret tt
  | a :: rest => modify (fun s => s <| pending := rest |>) ;;; run_async a outcome
  end.
End Vcr.
