(* ===== verification/VcrFacts.v ===== *)
(** * Facts about the movie engine

    The effect of single controller polls while recording and playing back, and of
    the operations that start, stop and rewind a movie. *)

From Stdlib Require Import Strings.String Strings.Ascii.
From S2P Require Import Prelude Controller Path Cheats Movie MovieProps VcrState Vcr.

Open Scope prog_scope.
#[local] Open Scope Z_scope.

(** ** States in which a poll is answered at once *)

Definition no_seek (s : vcr) : Prop :=
  seek_to_frame s = None /\ seek_savestate_interval (cfg s) = 0.
Definition settled (s : vcr) : Prop :=
  g_reset_pending s = false /\ g_seek_savestate_loading s = false.

(** Recording at the end of the movie, nothing in flight. *)
Record recording (s : vcr) : Prop := {
  rec_task : g_task s = task_recording;
  rec_settled : settled s;
  rec_no_seek : no_seek s;
  rec_no_warp : g_warp_modify_active s = false;
  rec_no_reset : vcr_reset_requested s = false;
  rec_sample : m_current_sample s = Z.of_nat (length (g_movie_inputs s));
  rec_length : length_samples (g_header s) = Z.of_nat (length (g_movie_inputs s));
  rec_bound : Z.of_nat (length (g_movie_inputs s)) < 0x7FFFFFF0
}.

(** The state after recording sample [v]. *)
Definition recorded (v : Z) (cs : list vcr_call) (s : vcr) : vcr :=
  s <| g_movie_inputs := g_movie_inputs s ++ [v] |>
    <| g_header := (g_header s) <| length_samples := u32 (length_samples (g_header s) + 1) |> |>
    <| m_current_sample := s32 (m_current_sample s + 1) |>
    <| calls := cs |>.

(** ** The parts of a poll *)

Lemma stop_seek_if_needed_none s :
  seek_to_frame s = None -> vcr_stop_seek_if_needed s = Ret (tt, s).
Proof. intros E. unfold vcr_stop_seek_if_needed. by rewrite bind_get_l, E. Qed.

Definition is_starting (t : core_vcr_task) : bool :=
  task_eqb t task_start_recording_from_reset || task_eqb t task_start_playback_from_reset.

Lemma handle_starting_tasks_none s :
  is_starting (g_task s) = false -> vcr_handle_starting_tasks s = Ret (tt, s).
Proof.
  unfold is_starting. intros [E1 E2]%orb_false_iff. unfold vcr_handle_starting_tasks.
  by rewrite bind_get_l, E1, E2.
Qed.

Lemma create_seek_savestates_off s :
  seek_savestate_interval (cfg s) = 0 -> vcr_create_seek_savestates s = Ret (tt, s).
Proof.
  intros E. unfold vcr_create_seek_savestates. by rewrite bind_get_l, E, orb_true_r.
Qed.

Lemma handle_recording_other p i v s :
  g_task s <> task_recording -> vcr_handle_recording p i v s = Ret (v, s).
Proof.
  intros E. unfold vcr_handle_recording. rewrite bind_get_l. unfold task_eqb.
  by rewrite bool_decide_eq_false_2.
Qed.

Lemma handle_playback_other H p i v s :
  g_task s <> task_playback -> vcr_handle_playback H p i v s = Ret (v, s).
Proof.
  intros E. unfold vcr_handle_playback. rewrite bind_get_l. unfold task_eqb.
  by rewrite bool_decide_eq_false_2.
Qed.

(** A poll ends a seek that is due, handles the start of a movie, then recording,
    then playback. *)
Lemma poll_unfold H p i v s s0 s1 :
  settled s -> g_task s <> task_idle ->
  vcr_stop_seek_if_needed s = Ret (tt, s0) ->
  vcr_handle_starting_tasks s0 = Ret (tt, s1) -> seek_savestate_interval (cfg s1) = 0 ->
  vcr_on_controller_poll H p i v s =
    bind (vcr_handle_recording p i v) (vcr_handle_playback H p i) s1.
Proof.
  intros [Hr Hl] Hidle Hseek Hst Hint. unfold vcr_on_controller_poll.
  rewrite bind_get_l, Hr, Hl. unfold task_eqb. rewrite bool_decide_eq_false_2 by done.
  rewrite (bind_Ret _ _ _ _ _ Hseek), (bind_Ret _ _ _ _ _ Hst).
  by rewrite (bind_Ret _ _ _ _ _ (create_seek_savestates_off s1 Hint)).
Qed.

Lemma poll_active H p i v s :
  settled s -> no_seek s -> g_task s <> task_idle -> is_starting (g_task s) = false ->
  vcr_on_controller_poll H p i v s =
    bind (vcr_handle_recording p i v) (vcr_handle_playback H p i) s.
Proof.
  intros Hse [Hs Hint] Hidle Hst. eapply poll_unfold; try done.
  - by apply stop_seek_if_needed_none.
  - by apply handle_starting_tasks_none.
Qed.

(** A movie that starts from reset requests one and waits for it. *)
Definition reset_work (t : core_vcr_task) (clear_eeprom : bool) : async :=
  if task_eqb t task_start_recording_from_reset then AResetForRecording clear_eeprom
  else AResetForPlayback clear_eeprom.
Definition started_task (t : core_vcr_task) : core_vcr_task :=
  if task_eqb t task_start_recording_from_reset then task_recording else task_playback.

Definition awaiting_reset (s : vcr) : vcr :=
  s <| g_reset_pending := true |>
    <| pending := pending s ++ [reset_work (g_task s)
         (negb (has_bits (startFlags (g_header s)) MOVIE_START_FROM_EEPROM))] |>.

Lemma handle_starting_tasks_reset s :
  is_starting (g_task s) = true -> vcr_handle_starting_tasks s = Ret (tt, awaiting_reset s).
Proof.
  unfold is_starting, awaiting_reset, vcr_handle_starting_tasks. intros Hst. rewrite bind_get_l.
  destruct (g_task s) eqn:E; try done.
Qed.

Lemma starting_poll H p i v s :
  is_starting (g_task s) = true -> settled s -> no_seek s ->
  vcr_on_controller_poll H p i v s = Ret (v, awaiting_reset s).
Proof.
  intros Hst Hse Hns.
  rewrite (poll_unfold H p i v s s (awaiting_reset s)); [|done| | | |apply Hns].
  - assert (g_task s <> task_recording /\ g_task s <> task_playback) as [H1 H2]
      by (by destruct (g_task s)).
    rewrite (bind_Ret _ _ _ _ _ (handle_recording_other p i v (awaiting_reset s) H1)).
    by apply handle_playback_other.
  - by destruct (g_task s).
  - apply stop_seek_if_needed_none, Hns.
  - by apply handle_starting_tasks_reset.
Qed.

Lemma u64_small z : 0 <= z <= 0x7FFFFFFFFFFFFFFF -> u64 z = z.
Proof. intros. apply u64_id. unfold is_u64. lia. Qed.

(** At the end of the movie the sample comes from the plugin and is appended. *)
Lemma handle_recording_appends p i v0 s :
  recording s -> 0 <= i < 4 ->
  let v := input_callback p (plugin_keys p) in
  exists cs, vcr_handle_recording p i v0 s = Ret (v, recorded v cs s).
Proof.
  intros [Ht _ _ Hw Hreq Hcur Hlen Hb] Hi v. eexists. unfold vcr_handle_recording.
  rewrite bind_get_l, Ht, Hreq, Hw, orb_false_r. change (task_eqb task_recording task_recording) with true.
  replace (u64 _ <? _) with false.
  - reflexivity.
  - symmetry. apply Z.ltb_ge. rewrite s32_id, u64_small; rewrite ?Hcur; unfold is_s32; lia.
Qed.

Lemma recorded_recording v cs s :
  recording s -> Z.of_nat (length (g_movie_inputs s)) < 0x7FFFFFEF -> recording (recorded v cs s).
Proof.
  intros [] Hb. constructor; try done.
  - change (s32 (m_current_sample s + 1) = Z.of_nat (length (g_movie_inputs s ++ [v]))).
    rewrite length_app, rec_sample0. simpl. rewrite s32_id; unfold is_s32; lia.
  - change (u32 (length_samples (g_header s) + 1) = Z.of_nat (length (g_movie_inputs s ++ [v]))).
    rewrite length_app, rec_length0. simpl. rewrite u32_id; unfold is_u32; lia.
  - change (Z.of_nat (length (g_movie_inputs s ++ [v])) < 0x7FFFFFF0).
    rewrite length_app. simpl. lia.
Qed.

Lemma record_poll H p i v0 s :
  recording s -> 0 <= i < 4 ->
  let v := input_callback p (plugin_keys p) in
  exists cs, vcr_on_controller_poll H p i v0 s = Ret (v, recorded v cs s).
Proof.
  intros R Hi v. destruct (handle_recording_appends p i v0 s R Hi) as (cs & E).
  exists cs. destruct R. rewrite poll_active; [|done|done|by rewrite rec_task0|by rewrite rec_task0].
  rewrite (bind_Ret _ _ _ _ _ E). apply handle_playback_other.
  change (g_task (recorded v cs s)) with (g_task s). by rewrite rec_task0.
Qed.

(** ** Playback *)

(** Playing back: the next sample to be given out is [n]. *)
Record playing (s : vcr) (n : nat) : Prop := {
  play_task : g_task s = task_playback;
  play_settled : settled s;
  play_no_wait : wait_at_movie_end (cfg s) = false;
  play_sample : m_current_sample s = Z.of_nat n;
  play_bound : 0 <= length_samples (g_header s) < 0x7FFFFFF0;
  play_inputs : length_samples (g_header s) <= Z.of_nat (length (g_movie_inputs s));
  play_present : has_bits (controller_flags (g_header s)) (CONTROLLER_X_PRESENT 0) = true
}.

(** The state after handing out sample [v]. *)
Definition played (v : Z) (cs : list vcr_call) (s : vcr) : vcr :=
  (if v =? 0xC000 then s <| g_reset_pending := true |> <| pending := pending s ++ [AMovieReset] |> else s)
    <| m_current_sample := s32 (m_current_sample s + 1) |> <| calls := cs |>.

Lemma input_at_ok i v s :
  0 <= i -> g_movie_inputs s !! Z.to_nat i = Some v -> input_at i s = Ret (v, s).
Proof.
  intros Hi E. unfold input_at. rewrite bind_get_l, (proj2 (Z.ltb_ge _ _)) by done. by rewrite E.
Qed.

Lemma input_at_oob i s :
  Z.of_nat (length (g_movie_inputs s)) <= i -> input_at i s = Undef OutOfBounds.
Proof.
  intros Hi. unfold input_at. rewrite bind_get_l. case_cmp; [done|].
  by rewrite lookup_ge_None_2 by lia.
Qed.

(** A poll of controller [i] before the end of the movie. *)
Lemma handle_playback_gives H p i v0 v s n :
  playing s n -> Z.of_nat n < length_samples (g_header s) -> 0 <= i < 4 ->
  has_bits (controller_flags (g_header s)) (CONTROLLER_X_PRESENT i) = true ->
  g_movie_inputs s !! (n + Z.to_nat i)%nat = Some v ->
  exists cs, vcr_handle_playback H p i v0 s = Ret (input_callback p v, played v (cs ++ calls s) s).
Proof.
  intros [Ht _ Hw Hcur Hb _ _] Hn Hi Hpr Hv.
  exists [CCurrentSampleChanged (s32 (m_current_sample s + 1)); CInput i v; CSetKeys i v].
  unfold vcr_handle_playback.
  rewrite bind_get_l, Ht, Hw, Hpr. change (task_eqb task_playback task_playback) with true.
  cbn [negb andb when]. rewrite bind_ret_l.
  rewrite (proj2 (Z.leb_gt (s32 _) _)) by (rewrite s32_id, Hcur; unfold is_s32; lia).
  rewrite s32_id by (unfold is_s32; lia).
  rewrite (bind_Ret _ _ _ _ _ (input_at_ok (m_current_sample s + i) v s ltac:(lia) ltac:(by rewrite Hcur, Z2Nat.inj_add, Nat2Z.id by lia))).
  unfold call, submit_task. rewrite bind_modify_l. unfold played.
  destruct (v =? 0xC000); cbn [when]; rewrite ?bind_assoc, ?bind_ret_l, !bind_modify_l, bind_get_l,
    bind_modify_l; reflexivity.
Qed.

(** Past the end of the input vector the poll is undefined. *)
Lemma handle_playback_oob H p i v0 s n :
  playing s n -> Z.of_nat n < length_samples (g_header s) -> 0 <= i < 4 ->
  has_bits (controller_flags (g_header s)) (CONTROLLER_X_PRESENT i) = true ->
  Z.of_nat (length (g_movie_inputs s)) <= Z.of_nat n + i ->
  vcr_handle_playback H p i v0 s = Undef OutOfBounds.
Proof.
  intros [Ht _ Hw Hcur Hb _ _] Hn Hi Hpr Hoob. unfold vcr_handle_playback.
  rewrite bind_get_l, Ht, Hw, Hpr. change (task_eqb task_playback task_playback) with true.
  cbn [negb andb when]. rewrite bind_ret_l.
  rewrite (proj2 (Z.leb_gt (s32 _) _)) by (rewrite s32_id, Hcur; unfold is_s32; lia).
  rewrite s32_id by (unfold is_s32; lia). unfold bind at 1.
  by rewrite input_at_oob by lia.
Qed.

(** ** Stopping *)

Lemma call_all_ok cs s : call_all cs s = Ret (tt, s <| calls := rev cs ++ calls s |>).
Proof.
  revert s. induction cs as [|c cs IH]; intros s; [by destruct s|].
  cbn [call_all]. unfold call at 1. rewrite bind_modify_l, IH. cbn [rev].
  rewrite <- app_assoc. reflexivity.
Qed.

Lemma clear_seek_savestates_ok s :
  exists cs, vcr_clear_seek_savestates s =
    Ret (tt, s <| g_seek_savestates := ∅ |> <| calls := cs |>).
Proof.
  eexists. unfold vcr_clear_seek_savestates. rewrite bind_get_l, bind_modify_l, call_all_ok.
  reflexivity.
Qed.

Lemma setkeys_with_zero_ok s : exists cs, setkeys_with_zero s = Ret (tt, s <| calls := cs |>).
Proof. eexists. unfold setkeys_with_zero. by rewrite call_all_ok. Qed.

(** The bytes of the movie as it is written. *)
Definition movie_bytes (s : vcr) : list Z :=
  let h := if vcr_write_extended_format (cfg s) then g_header s else strip_extended (g_header s) in
  header_image h ++ samples_image (take (Z.to_nat (length_samples (g_header s))) (g_movie_inputs s)).

Lemma write_movie_to_ok H path s :
  can_open H path = true ->
  length_samples (g_header s) <= Z.of_nat (length (g_movie_inputs s)) ->
  write_movie_to H path s = Ret (true, s <| fs := <[path := movie_bytes s]> (fs s) |>).
Proof.
  intros Ho Hl. unfold write_movie_to. rewrite bind_get_l. unfold on_fs, write_movie_impl.
  rewrite Ho. cbn [negb].
  replace (length_samples (if vcr_write_extended_format (cfg s) then g_header s
            else strip_extended (g_header s))) with (length_samples (g_header s))
    by (by destruct (vcr_write_extended_format (cfg s))).
  rewrite (proj2 (Z.ltb_ge _ _)) by done. reflexivity.
Qed.

Lemma write_movie_ok H s :
  vcr_is_task_recording (g_task s) = true -> can_open H (g_movie_path s) = true ->
  length_samples (g_header s) <= Z.of_nat (length (g_movie_inputs s)) ->
  write_movie H s = Ret (true, s <| fs := <[g_movie_path s := movie_bytes s]> (fs s) |>).
Proof.
  intros Ht Ho Hl. unfold write_movie. rewrite bind_get_l, Ht. by apply write_movie_to_ok.
Qed.

(** Stopping a recording writes the movie. *)
Lemma stop_all_recording H s :
  g_task s = task_recording -> can_open H (g_movie_path s) = true ->
  length_samples (g_header s) <= Z.of_nat (length (g_movie_inputs s)) ->
  exists cs, core_vcr_stop_all H s =
    Ret (Res_Ok, s <| g_seek_savestates := ∅ |> <| g_task := task_idle |>
                   <| fs := <[g_movie_path s := movie_bytes s]> (fs s) |> <| calls := cs |>).
Proof.
  intros Ht Ho Hl. unfold core_vcr_stop_all.
  destruct (clear_seek_savestates_ok s) as (cs & E). rewrite (bind_Ret _ _ _ _ _ E), bind_get_l.
  set (s1 := s <| g_seek_savestates := ∅ |> <| calls := cs |>).
  change (g_task s1) with (g_task s). rewrite Ht.
  destruct (setkeys_with_zero_ok s1) as (cs' & E'). rewrite (bind_Ret _ _ _ _ _ E').
  set (s2 := s1 <| calls := cs' |>). unfold vcr_stop_record. rewrite bind_get_l.
  change (g_task s2) with (g_task s). rewrite Ht.
  change (vcr_is_task_recording task_recording) with true.
  change (task_eqb task_recording task_start_recording_from_reset) with false.
  change (task_eqb task_recording task_recording) with true. cbn [negb when].
  rewrite bind_ret_l, bind_assoc.
  rewrite (bind_Ret _ _ _ _ _ (write_movie_ok H s2 ltac:(change (g_task s2) with (g_task s); by rewrite Ht) Ho Hl)).
  eexists. reflexivity.
Qed.

Lemma on_cheats_pop s layer rest :
  cheat_stack (cheats s) = layer :: rest ->
  on_cheats cht_layer_pop s =
    Ret (tt, s <| cheats := (cheats s) <| cheat_stack := rest |> |>).
Proof. intros E. unfold on_cheats, cht_layer_pop. rewrite bind_get_l, E. reflexivity. Qed.

(** Stopping a playback drops the movie's cheats. *)
Lemma stop_all_playback H s layer rest :
  is_task_playback (g_task s) = true -> cheat_stack (cheats s) = layer :: rest ->
  exists cs, core_vcr_stop_all H s =
    Ret (Res_Ok, s <| g_seek_savestates := ∅ |> <| g_task := task_idle |>
                   <| cheats := (cheats s) <| cheat_stack := rest |> |> <| calls := cs |>).
Proof.
  intros Ht Hc. unfold core_vcr_stop_all.
  destruct (clear_seek_savestates_ok s) as (cs & E). rewrite (bind_Ret _ _ _ _ _ E), bind_get_l.
  set (s1 := s <| g_seek_savestates := ∅ |> <| calls := cs |>).
  change (g_task s1) with (g_task s).
  destruct (setkeys_with_zero_ok s1) as (cs' & E').
  set (s2 := s1 <| calls := cs' |>) in E'.
  assert (exists cs, vcr_stop_playback s2 =
    Ret (Res_Ok, s <| g_seek_savestates := ∅ |> <| g_task := task_idle |>
                   <| cheats := (cheats s) <| cheat_stack := rest |> |> <| calls := cs |>)) as (cs2 & E2).
  { eexists. unfold vcr_stop_playback. rewrite bind_get_l. change (g_task s2) with (g_task s).
    rewrite Ht. cbn [negb]. rewrite bind_modify_l. unfold call. rewrite !bind_modify_l.
    erewrite bind_Ret; [|eapply on_cheats_pop; exact Hc]. reflexivity. }
  exists cs2. destruct (g_task s); try done; by rewrite (bind_Ret _ _ _ _ _ E').
Qed.

(** ** Sequences of polls *)

Lemma broadcast_task_ok s : exists cs, broadcast_task s = Ret (tt, s <| calls := cs |>).
Proof. eexists. reflexivity. Qed.

Section Runs.
Variable H : host.

(** Polls with their controller, the values the game reads collected. *)
Fixpoint poll_all (ps : list (poll * Z)) : M vcr (list Z) :=
  match ps with
  | [] => ret []
  | (p, i) :: rest =>
      v <-- vcr_on_controller_poll H p i 0 ;;;
      vs <-- poll_all rest ;;;
      ret (v :: vs)
  end.

Definition sampled (p : poll) : Z := input_callback p (plugin_keys p).

(** The state after recording the samples [vs]. *)
Definition recorded_all (vs : list Z) (cs : list vcr_call) (s : vcr) : vcr :=
  s <| g_movie_inputs := g_movie_inputs s ++ vs |>
    <| g_header := (g_header s) <| length_samples := length_samples (g_header s) + Z.of_nat (length vs) |> |>
    <| m_current_sample := m_current_sample s + Z.of_nat (length vs) |>
    <| calls := cs |>.

Lemma recorded_all_cons v vs cs cs' s :
  recording s -> Z.of_nat (length (g_movie_inputs s)) < 0x7FFFFFEF ->
  recorded_all vs cs (recorded v cs' s) = recorded_all (v :: vs) cs s.
Proof.
  intros [] Hb.
  transitivity (s <| g_movie_inputs := (g_movie_inputs s ++ [v]) ++ vs |>
    <| g_header := (g_header s) <| length_samples :=
         u32 (length_samples (g_header s) + 1) + Z.of_nat (length vs) |> |>
    <| m_current_sample := s32 (m_current_sample s + 1) + Z.of_nat (length vs) |> <| calls := cs |>).
  { reflexivity. }
  rewrite <- app_assoc. unfold recorded_all. cbn [length].
  rewrite u32_id, s32_id by (rewrite ?rec_length0, ?rec_sample0; unfold is_u32, is_s32; lia).
  replace (length_samples (g_header s) + Z.of_nat (S (length vs)))
    with (length_samples (g_header s) + 1 + Z.of_nat (length vs)) by lia.
  replace (m_current_sample s + Z.of_nat (S (length vs)))
    with (m_current_sample s + 1 + Z.of_nat (length vs)) by lia.
  reflexivity.
Qed.

Lemma record_all_polls ps s :
  recording s -> Forall (fun pi => 0 <= pi.2 < 4) ps ->
  Z.of_nat (length (g_movie_inputs s)) + Z.of_nat (length ps) < 0x7FFFFFF0 ->
  exists cs, let vs := map (fun pi => sampled pi.1) ps in
    poll_all ps s = Ret (vs, recorded_all vs cs s) /\ recording (recorded_all vs cs s).
Proof.
  intros R Hi. revert s R. induction Hi as [|[p i] ps Hi Hps IH]; intros s R Hb.
  { exists (calls s). cbn. unfold recorded_all. rewrite app_nil_r, !Z.add_0_r.
    assert (forall h : core_vcr_movie_header, h <| length_samples := length_samples h |> = h) as Hh
      by (by intros []).
    assert (s <| g_movie_inputs := g_movie_inputs s |> <| g_header := g_header s |>
              <| m_current_sample := m_current_sample s |> <| calls := calls s |> = s) as E
      by (by destruct s).
    rewrite Hh, E. done. }
  cbn [length] in Hb. destruct (record_poll H p i 0 s R Hi) as (cs & E).
  set (v := input_callback p (plugin_keys p)) in E.
  assert (recording (recorded v cs s)) as R' by (apply recorded_recording; [done|lia]).
  destruct (IH _ R') as (cs' & Hrun & R'').
  { change (g_movie_inputs (recorded v cs s)) with (g_movie_inputs s ++ [v]).
    rewrite length_app. cbn [length]. lia. }
  rewrite recorded_all_cons in Hrun, R'' by (done || lia).
  exists cs'. cbn [map fst poll_all]. split; [|done].
  rewrite (bind_Ret _ _ _ _ _ E), (bind_Ret _ _ _ _ _ Hrun). reflexivity.
Qed.

(** A poll followed by the reset it may have requested. *)
Definition poll_settled (p : poll) : M vcr Z :=
  v <-- vcr_on_controller_poll H p 0 0 ;;;
  s <-- get ;;;
  when (g_reset_pending s) (run_pending H Res_Ok) ;;;
  ret v.

Fixpoint play_all (ps : list poll) : M vcr (list Z) :=
  match ps with
  | [] => ret []
  | p :: rest => v <-- poll_settled p ;;; vs <-- play_all rest ;;; ret (v :: vs)
  end.

(** The first poll of a movie that starts from reset requests the reset; once it
    has happened recording or playback begins at the first sample. *)
Definition movie_started (cs : list vcr_call) (s : vcr) : vcr :=
  s <| m_current_sample := 0 |> <| m_current_vi := 0 |> <| g_task := started_task (g_task s) |>
    <| calls := cs |>.

Lemma reset_callback_ok t s :
  exists cs, reset_callback H Res_Ok t s =
    Ret (tt, s <| g_reset_pending := false |> <| m_current_sample := 0 |> <| m_current_vi := 0 |>
               <| g_task := t |> <| calls := cs |>).
Proof.
  unfold reset_callback. rewrite bind_modify_l. cbn [is_ok negb]. rewrite bind_modify_l.
  match goal with |- context [broadcast_task ?x] => destruct (broadcast_task_ok x) as (cs & E) end.
  exists cs. rewrite E. reflexivity.
Qed.

Lemma first_poll p s :
  is_starting (g_task s) = true -> settled s -> no_seek s -> pending s = [] ->
  exists cs, poll_settled p s = Ret (0, movie_started cs s).
Proof.
  intros Hst Hse Hns Hp. unfold poll_settled.
  rewrite (bind_Ret _ _ _ _ _ (starting_poll H p 0 0 s Hst Hse Hns)), bind_get_l.
  change (g_reset_pending (awaiting_reset s)) with true. cbn [when]. unfold run_pending.
  rewrite bind_assoc, bind_get_l.
  set (a := reset_work (g_task s) (negb (has_bits (startFlags (g_header s)) MOVIE_START_FROM_EEPROM))).
  assert (pending (awaiting_reset s) = [a]) as -> by (by unfold awaiting_reset; cbn; rewrite Hp).
  rewrite bind_assoc, bind_modify_l.
  set (s1 := (awaiting_reset s) <| pending := [] |>).
  destruct (reset_callback_ok (started_task (g_task s)) s1) as (cs & E).
  assert (run_async H a Res_Ok s1 = reset_callback H Res_Ok (started_task (g_task s)) s1) as Ea
    by (by unfold a; destruct (g_task s)).
  rewrite (bind_Ret _ _ _ _ _ (eq_trans Ea E)). exists cs.
  unfold ret, movie_started, s1, awaiting_reset. clear - Hp Hse. destruct Hse as [Hr _].
  destruct s. cbn in *. by subst.
Qed.

Definition at_sample (n : nat) (cs : list vcr_call) (s : vcr) : vcr :=
  s <| m_current_sample := Z.of_nat n |> <| calls := cs |>.

(** A poll hands out sample [n], whether or not it also ends a seek. *)
Lemma play_poll_seek p s s0 n v :
  settled s -> g_task s = task_playback -> vcr_stop_seek_if_needed s = Ret (tt, s0) ->
  playing s0 n -> seek_savestate_interval (cfg s0) = 0 ->
  Z.of_nat n < length_samples (g_header s0) -> pending s0 = [] ->
  g_movie_inputs s0 !! n = Some v ->
  exists cs, poll_settled p s = Ret (input_callback p v, at_sample (S n) (cs ++ calls s0) s0).
Proof.
  intros Hse Htask Hseek P Hint Hn Hp Hv. pose proof P as [Ht Hst _ Hcur Hb _ Hpr].
  destruct (handle_playback_gives H p 0 0 v s0 n P Hn ltac:(lia) Hpr) as (cs & E).
  { by rewrite Nat.add_0_r. }
  exists cs. unfold poll_settled.
  assert (vcr_on_controller_poll H p 0 0 s = Ret (input_callback p v, played v (cs ++ calls s0) s0)) as Ep.
  { rewrite (poll_unfold H p 0 0 s s0 s0); [|done|by rewrite Htask|done| |done].
    - rewrite (bind_Ret _ _ _ _ _ (handle_recording_other p 0 0 s0 ltac:(by rewrite Ht))). exact E.
    - apply handle_starting_tasks_none. by rewrite Ht. }
  rewrite (bind_Ret _ _ _ _ _ Ep), bind_get_l. destruct Hst as [Hr _].
  assert (s32 (m_current_sample s0 + 1) = Z.of_nat (S n)) as Es
    by (rewrite Hcur, s32_id; unfold is_s32; lia).
  unfold played. rewrite Es. clear - Hp Hr. destruct (v =? 0xC000); destruct s0; cbn in *; by subst.
Qed.

Lemma play_poll p s n v :
  playing s n -> no_seek s -> Z.of_nat n < length_samples (g_header s) -> pending s = [] ->
  g_movie_inputs s !! n = Some v ->
  exists cs, poll_settled p s = Ret (input_callback p v, at_sample (S n) cs s).
Proof.
  intros P [Hs Hint] Hn Hp Hv.
  destruct (play_poll_seek p s s n v) as (cs & E); try done; try apply P; [|by eexists].
  by apply stop_seek_if_needed_none.
Qed.

Lemma at_sample_playing s n m cs : playing s n -> Z.of_nat m < 0x7FFFFFF0 -> playing (at_sample m cs s) m.
Proof. intros [] Hm. by constructor. Qed.

Lemma play_all_polls ps s n :
  playing s n -> no_seek s -> pending s = [] ->
  Z.of_nat n + Z.of_nat (length ps) <= length_samples (g_header s) ->
  exists cs, play_all ps s =
    Ret (zip_with input_callback ps (drop n (g_movie_inputs s)),
         at_sample (n + length ps) cs s).
Proof.
  revert s n. induction ps as [|p ps IH]; intros s n P Hns Hp Hn.
  { exists (calls s). cbn. rewrite Nat.add_0_r. unfold at_sample.
    rewrite <- (play_sample s n P). by destruct s. }
  cbn [length] in Hn. pose proof (play_inputs s n P) as Hl. pose proof (play_bound s n P) as Hb.
  destruct (lookup_lt_is_Some_2 (g_movie_inputs s) n) as (v & Hv); [lia|].
  destruct (play_poll p s n v P Hns ltac:(lia) Hp Hv) as (cs & E).
  destruct (IH (at_sample (S n) cs s) (S n)) as (cs' & E').
  - eapply at_sample_playing; [exact P|lia].
  - done.
  - done.
  - change (length_samples (g_header (at_sample (S n) cs s))) with (length_samples (g_header s)). lia.
  - exists cs'. cbn [play_all]. rewrite (bind_Ret _ _ _ _ _ E), (bind_Ret _ _ _ _ _ E').
    change (g_movie_inputs (at_sample (S n) cs s)) with (g_movie_inputs s).
    rewrite (drop_S _ v n Hv). cbn [zip_with length]. rewrite Nat.add_succ_r. reflexivity.
Qed.
End Runs.

(** ** Starting a playback *)

Lemma call_ok c s : call c s = Ret (tt, s <| calls := c :: calls s |>).
Proof. reflexivity. Qed.

Lemma when_call_ok b c s : exists cs, when b (call c) s = Ret (tt, s <| calls := cs |>).
Proof. destruct b; [by eexists|]. exists (calls s). by destruct s. Qed.

(** Every controller the movie uses is plugged in. *)
Fixpoint controllers_plugged (i : Z) (cs : list core_controller) (flags : Z) : Prop :=
  match cs with
  | [] => True
  | c :: rest =>
      (Present c = false -> has_bits flags (CONTROLLER_X_PRESENT i) = false) /\
      controllers_plugged (i + 1) rest flags
  end.

Lemma controller_warning_ok i c flags s :
  (Present c = false -> has_bits flags (CONTROLLER_X_PRESENT i) = false) ->
  exists cs, controller_warning i c flags s = Ret (true, s <| calls := cs |>).
Proof.
  intros Hp. unfold controller_warning.
  destruct (Present c), (has_bits flags (CONTROLLER_X_PRESENT i)); try (by discriminate Hp);
    cbn [negb andb]; try (eexists; reflexivity).
  all: try match goal with |- context [when ?b1 (call CShowDialog) ;;; when ?b2 _ ;;; when ?b3 _ ;;; _] =>
    destruct (when_call_ok b1 CShowDialog s) as (c1 & E1);
    destruct (when_call_ok b2 CShowDialog (s <| calls := c1 |>)) as (c2 & E2);
    destruct (when_call_ok b3 CShowDialog (s <| calls := c2 |>)) as (c3 & E3);
    exists c3; rewrite (bind_Ret _ _ _ _ _ E1), (bind_Ret _ _ _ _ _ E2), (bind_Ret _ _ _ _ _ E3);
    reflexivity end.
  all: specialize (Hp eq_refl); done.
Qed.

Lemma controller_warnings_ok i cs flags s :
  controllers_plugged i cs flags ->
  exists cl, controller_warnings i cs flags s = Ret (true, s <| calls := cl |>).
Proof.
  revert i s. induction cs as [|c cs IH]; intros i s.
  { intros _. exists (calls s). by destruct s. }
  intros [Hc Hcs]. cbn [controller_warnings].
  destruct (controller_warning_ok i c flags s Hc) as (c1 & E1).
  destruct (IH (i + 1) (s <| calls := c1 |>) Hcs) as (c2 & E2).
  exists c2. rewrite (bind_Ret _ _ _ _ _ E1). exact E2.
Qed.

(** A movie that can be played from reset: a file of the current format whose
    controllers are plugged in, no cheat file beside it, and a user who accepts
    the warnings. *)
Record playable (H : host) (s : vcr) (path : string) (h : core_vcr_movie_header) (vs : list Z)
    : Prop := {
  pl_exec : core_executing s = true;
  pl_asks : forall d, show_ask_dialog H d = true;
  pl_file : fs s !! path = Some (header_image h ++ samples_image vs);
  pl_wf : header_wf h;
  pl_format : current_format h;
  pl_length : length_samples h = Z.of_nat (length vs);
  pl_inputs : Forall is_u32 vs;
  pl_start : has_bits (startFlags h) MOVIE_START_FROM_SNAPSHOT = false;
  pl_controls : controllers_plugged 0 (take 4 (controls s)) (controller_flags h);
  pl_cheats : find_accompanying_file_for_movie (file_exists s) path [".cht"%string] = Some ""%string
}.

(** The state in which playback of a movie waits for the ROM's reset. *)
Definition playback_starting (path : string) (h : core_vcr_movie_header) (vs : list Z)
    (cs : list vcr_call) (s : vcr) : vcr :=
  s <| cheats := (cheats s) <| cheat_stack := [] :: cheat_stack (cheats s) |> |>
    <| g_seek_savestates := ∅ |> <| m_current_sample := 0 |> <| m_current_vi := 0 |>
    <| g_movie_path := path |> <| g_movie_inputs := vs |> <| g_header := h |>
    <| g_task := task_start_playback_from_reset |> <| calls := cs |>.

Lemma stop_all_idle H s :
  g_task s = task_idle ->
  exists cs, core_vcr_stop_all H s =
    Ret (Res_Ok, s <| g_seek_savestates := ∅ |> <| calls := cs |>).
Proof.
  intros Ht. destruct (clear_seek_savestates_ok s) as (cs & E). exists cs.
  unfold core_vcr_stop_all. rewrite (bind_Ret _ _ _ _ _ E), bind_get_l.
  change (g_task (s <| g_seek_savestates := ∅ |> <| calls := cs |>)) with (g_task s). by rewrite Ht.
Qed.

(** Installing a movie that starts from reset, once the engine has been stopped. *)
Lemma install_movie_from H path h vs s s1 :
  core_vcr_stop_all H s = Ret (Res_Ok, s1) ->
  has_bits (startFlags h) MOVIE_START_FROM_SNAPSHOT = false ->
  exists cs, install_movie H path h vs s =
    Ret (Res_Ok, s1 <| m_current_sample := 0 |> <| m_current_vi := 0 |>
      <| g_movie_path := path |> <| g_movie_inputs := vs |> <| g_header := h |>
      <| g_task := task_start_playback_from_reset |> <| calls := cs |>).
Proof.
  intros E Hs. unfold install_movie. rewrite (bind_Ret _ _ _ _ _ E), bind_modify_l, bind_get_l, Hs.
  cbv iota. rewrite bind_assoc, bind_modify_l, bind_ret_l. cbn [negb].
  match goal with |- context [bind broadcast_task _ ?x] => set (s2 := x) end.
  destruct (broadcast_task_ok s2) as (c1 & E1). rewrite (bind_Ret _ _ _ _ _ E1).
  exists (CPlayMovie :: c1). reflexivity.
Qed.

Lemma install_movie_ok H path h vs s :
  g_task s = task_idle -> has_bits (startFlags h) MOVIE_START_FROM_SNAPSHOT = false ->
  exists cs, install_movie H path h vs s =
    Ret (Res_Ok, s <| g_seek_savestates := ∅ |> <| m_current_sample := 0 |> <| m_current_vi := 0 |>
      <| g_movie_path := path |> <| g_movie_inputs := vs |> <| g_header := h |>
      <| g_task := task_start_playback_from_reset |> <| calls := cs |>).
Proof.
  intros Ht Hs. destruct (stop_all_idle H s Ht) as (cs & E).
  destruct (install_movie_from H path h vs s _ E Hs) as (cs' & E'). exists cs'. exact E'.
Qed.

(** A playable movie passes every check; its (empty) cheat layer is pushed before
    the movie is installed. *)
Lemma start_playback_installs H s path h vs :
  playable H s path h vs ->
  exists cs, core_vcr_start_playback H path s =
    install_movie H path (stored h) vs
      (s <| calls := cs |>
         <| cheats := (cheats s) <| cheat_stack := [] :: cheat_stack (cheats s) |> |>).
Proof.
  intros []. unfold core_vcr_start_playback. rewrite bind_get_l. unfold read_file_buffer.
  rewrite pl_file0. cbn [default from_option]. pose proof (length_header_image h pl_wf0) as Hl.
  pose proof (length_samples_image vs) as Hsl.
  destruct (header_image h ++ samples_image vs) eqn:E.
  { apply (f_equal length) in E. rewrite length_app in E. simpl in E. lia. }
  change (id (z :: l)) with (z :: l). cbv iota. rewrite <- E.
  unfold ensure_core_executing. rewrite bind_assoc, bind_get_l, pl_exec0, bind_ret_l. cbn [is_ok negb].
  rewrite read_written_header; [|done|done|].
  2: { rewrite Hsl, pl_length0, Nat2Z.inj_mul, Z.mul_comm, Z.div_mul; lia. }
  cbn [is_ok negb]. change (length_samples (stored h)) with (length_samples h).
  rewrite (proj2 (Z.ltb_ge _ _)) by (rewrite length_app, Hl, Hsl; lia). cbn [andb].
  rewrite pl_length0, Nat2Z.id, drop_app_length' by (symmetry; exact Hl).
  pose proof (samples_roundtrip vs [] pl_inputs0) as Hs. rewrite app_nil_r in Hs. rewrite Hs.
  rewrite bind_get_l. unfold raw_data_accepted. rewrite pl_asks0.
  replace (if existsb _ _ then true else true) with true by (by destruct (existsb _ _)).
  cbn [negb]. unfold show_controller_warning. rewrite bind_assoc, bind_get_l.
  change (controller_flags (stored h)) with (controller_flags h).
  destruct (controller_warnings_ok 0 _ _ s pl_controls0) as (c1 & E1).
  rewrite (bind_Ret _ _ _ _ _ E1). cbn [negb].
  assert (exists c2, extended_accepted H s (stored h) (s <| calls := c1 |>) =
            Ret (true, s <| calls := c2 |>)) as (c2 & E2).
  { unfold extended_accepted. rewrite pl_asks0.
    destruct (when_call_ok (negb (extended_flags (stored h) =? 0)) CShowDialog (s <| calls := c1 |>))
      as (c2 & E2).
    repeat case_match; [eexists; reflexivity..|]. exists c2. rewrite (bind_Ret _ _ _ _ _ E2). reflexivity. }
  rewrite (bind_Ret _ _ _ _ _ E2). cbn [negb]. unfold rom_accepted. rewrite !pl_asks0.
  replace (if negb (stricmp_eq _ _) then true else _) with true by (by repeat case_match).
  cbn [negb]. unfold push_movie_cheats. rewrite !bind_assoc, bind_get_l.
  change (file_exists (s <| calls := c2 |>)) with (file_exists s). rewrite pl_cheats0.
  cbn [String.eqb]. rewrite bind_assoc.
  set (s2 := s <| calls := c2 |> <| cheats := (cheats s) <| cheat_stack := [] :: cheat_stack (cheats s) |> |>).
  rewrite (bind_Ret _ _ _ _ s2) by reflexivity. rewrite bind_ret_l. cbn [negb].
  exists c2. reflexivity.
Qed.

Lemma start_playback_ok H s path h vs :
  playable H s path h vs -> g_task s = task_idle ->
  exists cs, core_vcr_start_playback H path s =
    Ret (Res_Ok, playback_starting path (stored h) vs cs s).
Proof.
  intros P Ht. destruct (start_playback_installs H s path h vs P) as (c2 & ->).
  match goal with |- context [install_movie _ _ _ _ ?x] =>
    destruct (install_movie_ok H path (stored h) vs x Ht (pl_start _ _ _ _ _ P)) as (c3 & E) end.
  exists c3. rewrite E. reflexivity.
Qed.
