(* ===== verification/VcrProps.v ===== *)
(** * Properties of the movie engine

    What makes it a movie recorder: what was recorded is what is played back,
    through the file; savestates rewind a movie; seeks reach their frame; and the
    places where the engine loses or misreads inputs. *)

From Stdlib Require Import Strings.String Strings.Ascii.
From S2P Require Import Prelude Controller Path Cheats Movie MovieProps VcrState Vcr VcrFacts.

Open Scope prog_scope.
#[local] Open Scope Z_scope.

(** ** Recording and playing back *)

(** A recording whose file can be written and played back by the same host. *)
Record replayable (H : host) (s : vcr) : Prop := {
  rp_recording : recording s;
  rp_header : header_wf (g_header s);
  rp_format : current_format (g_header s);
  rp_start : has_bits (startFlags (g_header s)) MOVIE_START_FROM_SNAPSHOT = false;
  rp_present : has_bits (controller_flags (g_header s)) (CONTROLLER_X_PRESENT 0) = true;
  rp_plugged : controllers_plugged 0 (take 4 (controls s)) (controller_flags (g_header s));
  rp_inputs : Forall is_u32 (g_movie_inputs s);
  rp_pending : pending s = [];
  rp_exec : core_executing s = true;
  rp_extended : vcr_write_extended_format (cfg s) = true;
  rp_no_wait : wait_at_movie_end (cfg s) = false;
  rp_asks : forall d, show_ask_dialog H d = true;
  rp_open : can_open H (g_movie_path s) = true;
  rp_cheats : find_accompanying_file_for_movie
                (fun p => bool_decide (p = g_movie_path s) || file_exists s p)
                (g_movie_path s) [".cht"%string] = Some ""%string
}.

(** Record the polls [ps], stop, play the movie from its file (one poll starts
    it), and poll it with [qs]. *)
Definition record_and_replay (H : host) (ps qs : list poll) (p0 : poll)
    : M vcr (list Z * list Z) :=
  recorded <-- poll_all H (map (fun p => (p, 0)) ps) ;;;
  core_vcr_stop_all H ;;;
  s <-- get ;;;
  core_vcr_start_playback H (g_movie_path s) ;;;
  poll_settled H p0 ;;;
  replayed <-- play_all H qs ;;;
  ret (recorded, replayed).

Lemma first_existing_ext e1 e2 prefix exts :
  (forall p, e1 p = e2 p) -> first_existing e1 prefix exts = first_existing e2 prefix exts.
Proof. intros He. induction exts; simpl; [done|]. by rewrite He, IHexts. Qed.

Lemma accompanying_loop_ext e1 e2 fuel exts dir name i :
  (forall p, e1 p = e2 p) ->
  accompanying_loop fuel e1 exts dir name i = accompanying_loop fuel e2 exts dir name i.
Proof.
  intros He. revert i. induction fuel as [|fuel IH]; intros i; [done|]. cbn [accompanying_loop].
  rewrite (first_existing_ext e1 e2) by done. by repeat case_match.
Qed.

Lemma find_accompanying_ext e1 e2 path exts :
  (forall p, e1 p = e2 p) ->
  find_accompanying_file_for_movie e1 path exts = find_accompanying_file_for_movie e2 path exts.
Proof.
  intros He. unfold find_accompanying_file_for_movie. destruct (splitpath path).
  by apply accompanying_loop_ext.
Qed.

Lemma file_exists_insert s path b p :
  file_exists (s <| fs := <[path := b]> (fs s) |>) p = bool_decide (p = path) || file_exists s p.
Proof.
  unfold file_exists. change (fs (s <| fs := <[path := b]> (fs s) |>)) with (<[path := b]> (fs s)).
  destruct (decide (p = path)) as [->|Hne].
  - rewrite lookup_insert_eq, !bool_decide_eq_true_2 by (done || by eexists). done.
  - rewrite lookup_insert_ne, (bool_decide_eq_false_2 (p = path)) by congruence. done.
Qed.

(** What is on disk after the recording has been stopped. *)
Lemma stopped_playable H s vs cs cs' :
  replayable H s -> recording (recorded_all vs cs s) -> Forall is_u32 vs ->
  let s1 := recorded_all vs cs s in
  playable H (s1 <| g_seek_savestates := ∅ |> <| g_task := task_idle |>
                 <| fs := <[g_movie_path s1 := movie_bytes s1]> (fs s1) |> <| calls := cs' |>)
    (g_movie_path s) (g_header s1) (g_movie_inputs s ++ vs).
Proof.
  intros [] R Hvs s1. pose proof (rec_length _ R) as Hlen. pose proof (rec_bound _ R) as Hb.
  change (g_movie_inputs (recorded_all vs cs s)) with (g_movie_inputs s ++ vs) in Hlen, Hb.
  constructor; try done.
  - refine (eq_trans (lookup_insert_eq _ _ _) _). f_equal. unfold movie_bytes.
    change (vcr_write_extended_format (cfg s1)) with (vcr_write_extended_format (cfg s)).
    rewrite rp_extended0. change (g_movie_inputs s1) with (g_movie_inputs s ++ vs).
    rewrite (take_ge (_ ++ _)); [done|]. unfold s1. rewrite Hlen. lia.
  - destruct rp_header0. constructor; try done.
    change (fits 4 (length_samples (g_header (recorded_all vs cs s)))). rewrite Hlen.
    unfold fits. change (256 ^ Z.of_nat 4) with 4294967296. lia.
  - by apply Forall_app.
  - rewrite <- rp_cheats0. apply find_accompanying_ext. intros p.
    exact (file_exists_insert s (g_movie_path s) (movie_bytes s1) p).
Qed.

(** C1.  What was recorded is what is played back.  From any moment of a recording
    whose movie can be played on the same host: record any polls of the first
    controller, stop, and play the movie back from the file that was written.
    Every step succeeds, and the values the game reads from the first controller
    during playback are exactly the samples of the movie, those recorded before and
    those recorded now, each passed through the input callback; inputs that encode a
    reset reset the ROM on the way.  (Polls of the other controllers during playback
    find other samples: [playback_index_mismatch].) *)
Theorem record_playback_roundtrip H s ps qs p0 :
  replayable H s -> Forall (fun p => is_u32 (sampled p)) ps ->
  Z.of_nat (length (g_movie_inputs s)) + Z.of_nat (length ps) < 0x7FFFFFF0 ->
  length qs = (length (g_movie_inputs s) + length ps)%nat ->
  exists s', record_and_replay H ps qs p0 s =
    Ret ((map sampled ps, zip_with input_callback qs (g_movie_inputs s ++ map sampled ps)), s') /\
    g_task s' = task_playback.
Proof.
  intros Rp Hps Hb Hqs. pose proof Rp as [R Hw Hf Hst Hpr Hpl Hin Hpe Hex Hext Hnw Hask Hop Hch].
  unfold record_and_replay.
  destruct (record_all_polls H (map (fun p => (p, 0)) ps) s R) as (cs & E1 & R1).
  { apply Forall_map, Forall_true. intros ?. simpl. lia. }
  { rewrite length_map. lia. }
  assert (map (fun pi => sampled pi.1) (map (fun p => (p, 0)) ps) = map sampled ps) as Hm
    by (rewrite map_map; done).
  rewrite Hm in E1, R1. set (vs := map sampled ps) in *.
  assert (Forall is_u32 vs) as Hvs by (by apply Forall_map).
  rewrite (bind_Ret _ _ _ _ _ E1). set (s1 := recorded_all vs cs s) in *.
  destruct (stop_all_recording H s1) as (cs2 & E2);
    [apply (rec_task _ R1)|done|rewrite (rec_length _ R1); lia|].
  rewrite (bind_Ret _ _ _ _ _ E2), bind_get_l.
  match type of E2 with _ = Ret (_, ?x) => set (s2 := x) in * end.
  pose proof (stopped_playable H s vs cs cs2 Rp R1 Hvs) as P. fold s1 in P. cbv zeta in P. fold s2 in P.
  destruct (start_playback_ok H s2 _ _ _ P eq_refl) as (cs3 & E3).
  change (g_movie_path s2) with (g_movie_path s). rewrite (bind_Ret _ _ _ _ _ E3).
  match type of E3 with _ = Ret (_, ?x) => set (s3 := x) in * end.
  destruct (first_poll H p0 s3) as (cs4 & E4);
    [done|apply (rec_settled _ R)|apply (rec_no_seek _ R)|done|].
  rewrite (bind_Ret _ _ _ _ _ E4). set (s4 := movie_started cs4 s3).
  assert (length_samples (g_header s4) = Z.of_nat (length (g_movie_inputs s ++ vs))) as Hl4
    by (exact (rec_length _ R1)).
  assert (length vs = length ps) as Hlv by apply length_map.
  assert (playing s4 0) as P4.
  { constructor; try done; try apply (rec_settled _ R);
      rewrite ?Hl4; change (g_movie_inputs s4) with (g_movie_inputs s ++ vs);
      rewrite ?length_app; lia. }
  destruct (play_all_polls H qs s4 0 P4 (rec_no_seek _ R) Hpe) as (cs5 & E5).
  { rewrite Hl4, length_app. lia. }
  rewrite (bind_Ret _ _ _ _ _ E5). eexists. split; [reflexivity|reflexivity].
Qed.

(** ** Concrete states *)

Definition sample_host : host := {|
  show_ask_dialog := fun _ => true;
  can_open := fun _ => true;
  start_rom_result := fun _ => Res_Ok;
  rom_nom := bytes_of_string "SUPER MARIO 64" ++ zeros 8;
  rom_CRC1 := 0x635A2BFF;
  rom_Country_code := 0x45;
  plugin_names := (bytes_of_string "video", bytes_of_string "audio", bytes_of_string "input",
                   bytes_of_string "rsp");
  backups_directory := "backups\"%string;
  savestate_image := [];
  movie_section := fun _ => None
|}.

Definition sample_cfg : core_cfg := Cfg 0 8 false 0 0 20 (-1) false false true true false true.

Definition one_controller : list core_controller :=
  [Controller true false ce_none; Controller false false ce_none;
   Controller false false ce_none; Controller false false ce_none].

Definition vcr_with (task : core_vcr_task) (h : core_vcr_movie_header) (inputs : list Z)
    (sample : Z) : vcr :=
  Vcr task None false false false ∅ false 0 h inputs "run.m64" sample 0 false sample_cfg true false
    true 0 false 0 one_controller (CheatState [] [] ∅ false) ∅ 0x65000000 [] [].

Definition recording_state : vcr :=
  vcr_with task_recording (sample_header <| length_samples := 1 |>) [0x80] 1.

Definition plain_poll (v : Z) : poll := Poll v (fun x => x).

Lemma recording_state_recording : recording recording_state.
Proof. constructor; try done; vm_compute; done. Qed.

Lemma recording_state_replayable : replayable sample_host recording_state.
Proof.
  constructor; [apply recording_state_recording|..]; try done.
  - unfold recording_state, vcr_with. cbn [g_header]. check_header.
  - repeat constructor; unfold is_u32; lia.
Qed.

Lemma record_playback_roundtrip_witness :
  exists s', record_and_replay sample_host (map plain_poll [0x10; 0xC000; 0x7F0000])
      (map plain_poll [0; 0; 0; 0]) (plain_poll 0) recording_state =
    Ret (([0x10; 0xC000; 0x7F0000], [0x80; 0x10; 0xC000; 0x7F0000]), s') /\
    g_task s' = task_playback.
Proof.
  apply (record_playback_roundtrip sample_host recording_state
    (map plain_poll [0x10; 0xC000; 0x7F0000]) (map plain_poll [0; 0; 0; 0]) (plain_poll 0)).
  - apply recording_state_replayable.
  - repeat constructor; unfold sampled, is_u32; simpl; lia.
  - vm_compute. done.
  - done.
Defined.

(** ** More than one controller *)

(** Movies with several controllers are misread.  Recording stores the sample
    of every poll, whatever the controller, at the next position [n] of the movie;
    playback advances by one per poll as well, but for controller [i] reads
    position [n + i]: it gives the second controller the sample of the following
    poll, and past the end of the movie reads outside the vector. *)
Theorem playback_index_mismatch H p i v0 s t n :
  0 <= i < 4 -> recording s -> length (g_movie_inputs s) = n ->
  playing t n -> no_seek t -> Z.of_nat n < length_samples (g_header t) ->
  has_bits (controller_flags (g_header t)) (CONTROLLER_X_PRESENT i) = true ->
  (exists s', vcr_on_controller_poll H p i v0 s = Ret (sampled p, s') /\
     g_movie_inputs s' !! n = Some (sampled p)) /\
  (forall v, g_movie_inputs t !! (n + Z.to_nat i)%nat = Some v ->
     exists t', vcr_on_controller_poll H p i v0 t = Ret (input_callback p v, t') /\
       m_current_sample t' = Z.of_nat (S n)) /\
  (Z.of_nat (length (g_movie_inputs t)) <= Z.of_nat n + i ->
     vcr_on_controller_poll H p i v0 t = Undef OutOfBounds).
Proof.
  intros Hi R Hn P Hns Hlt Hpr.
  assert (vcr_on_controller_poll H p i v0 t = vcr_handle_playback H p i v0 t) as Ep.
  { pose proof (play_task _ _ P) as Ht.
    rewrite poll_active; [|apply P|done|by rewrite Ht|by rewrite Ht].
    rewrite (bind_Ret _ _ _ _ _ (handle_recording_other p i v0 t ltac:(by rewrite Ht))). done. }
  split; [|split].
  - destruct (record_poll H p i v0 s R Hi) as (cs & E). eexists. split; [exact E|].
    by apply (list_lookup_middle (g_movie_inputs s)).
  - intros v Hv. destruct (handle_playback_gives H p i v0 v t n P Hlt Hi Hpr Hv) as (cs & E).
    rewrite Ep, E. eexists. split; [done|].
    change (s32 (m_current_sample t + 1) = Z.of_nat (S n)).
    pose proof (play_bound _ _ P). rewrite (play_sample _ _ P), s32_id; unfold is_s32; lia.
  - intros Hoob. rewrite Ep. apply handle_playback_oob with n; done.
Qed.

(** Two controllers, one frame: the second controller's input was recorded at
    position 1, but playback reads position 2. *)
Definition two_player_header : core_vcr_movie_header :=
  sample_header <| controller_flags := 3 |> <| length_samples := 2 |>.

Lemma playback_index_mismatch_witness :
  vcr_on_controller_poll sample_host (plain_poll 0) 1 0
    (vcr_with task_playback two_player_header [0x10; 0x20] 1) = Undef OutOfBounds.
Proof.
  apply (playback_index_mismatch sample_host (plain_poll 0) 1 0 recording_state
    (vcr_with task_playback two_player_header [0x10; 0x20] 1) 1).
  - lia.
  - apply recording_state_recording.
  - done.
  - constructor; try done; vm_compute; done.
  - done.
  - vm_compute. done.
  - vm_compute. done.
  - vm_compute. done.
Defined.
