(* ===== verification/VcrRewind.v ===== *)
(** * Savestates rewind a movie

    Freezing and unfreezing: what a savestate keeps of a movie, what loading it
    does to the inputs, the counters and the files, and the backup that is meant
    to protect the inputs that are dropped. *)

From Stdlib Require Import Strings.String Strings.Ascii.
From S2P Require Import Prelude Controller Path Cheats Movie MovieProps VcrState Vcr VcrFacts VcrProps.

Open Scope prog_scope.
#[local] Open Scope Z_scope.

(** ** The rerecord counter *)

Definition rerecord_ok (h : core_vcr_movie_header) : Prop :=
  is_u32 (rerecord_count h) /\ is_u32 (ext_rerecord_count (extended_data h)).

Lemma get_rerecord_value h :
  rerecord_ok h -> get_rerecord_count h = ext_rerecord_count (extended_data h) * 2 ^ 32 + rerecord_count h.
Proof.
  intros [H1 H2]. unfold get_rerecord_count, is_u32 in *.
  rewrite Z.shiftl_mul_pow2 by lia. symmetry. apply Z.add_nocarry_lor.
  apply Z.bits_inj'. intros n Hn. rewrite Z.land_spec, Z.bits_0.
  destruct (Z.ltb_spec n 32).
  - rewrite Z.mul_pow2_bits_low by lia. done.
  - rewrite andb_comm. destruct (Z.eq_dec (rerecord_count h) 0) as [->|Hne]; [by rewrite Z.bits_0|].
    rewrite Z.bits_above_log2; [done|lia|].
    apply Z.lt_le_trans with 32; [|done]. apply Z.log2_lt_pow2; lia.
Qed.

Lemma get_set_rerecord v h : is_u64 v -> get_rerecord_count (set_rerecord_count v h) = v.
Proof.
  intros Hv. unfold is_u64 in Hv.
  assert (Z.land v 0xFFFFFFFF = v mod 2 ^ 32) as E1
    by (change 0xFFFFFFFF with (Z.ones 32); apply Z.land_ones; lia).
  assert (u32 (Z.shiftr v 32) = v / 2 ^ 32) as E2.
  { rewrite Z.shiftr_div_pow2 by lia. apply u32_id. unfold is_u32. split; [apply Z.div_pos; lia|].
    apply Z.div_lt_upper_bound; lia. }
  rewrite get_rerecord_value.
  - change (ext_rerecord_count _) with (u32 (Z.shiftr v 32)).
    change (rerecord_count (set_rerecord_count v h)) with (Z.land v 0xFFFFFFFF).
    rewrite E1, E2. rewrite (Z.div_mod v (2 ^ 32)) at 3 by lia. lia.
  - split.
    + change (is_u32 (Z.land v 0xFFFFFFFF)). rewrite E1. unfold is_u32. apply Z.mod_pos_bound. lia.
    + change (is_u32 (u32 (Z.shiftr v 32))). apply u32_range.
Qed.

(** ** Freezing *)

Definition frozen (s : vcr) : core_vcr_freeze_info :=
  let n := length_samples (g_header s) in
  Freeze (u32 (16 + 4 * u32 (n + 1))) (uid (g_header s)) (u32 (m_current_sample s))
    (u32 (m_current_vi s)) n (take (Z.to_nat n) (g_movie_inputs s) ++ [0]).

Lemma freeze_recording H s :
  g_task s = task_recording -> can_open H (g_movie_path s) = true ->
  length_samples (g_header s) <= Z.of_nat (length (g_movie_inputs s)) ->
  core_vcr_freeze H s =
    Ret (Some (frozen s), s <| fs := <[g_movie_path s := movie_bytes s]> (fs s) |>).
Proof.
  intros Ht Ho Hl. unfold core_vcr_freeze. rewrite bind_get_l, Ht.
  change (task_eqb task_recording task_idle) with false. cbv iota zeta.
  rewrite (proj2 (Z.ltb_ge _ _)) by done.
  rewrite (bind_Ret _ _ _ _ _ (write_movie_ok H s ltac:(by rewrite Ht) Ho Hl)). reflexivity.
Qed.

(** ** Continuing from a savestate *)

(** The header and configuration once the rerecord has been counted and the movie
    cut to [n] samples. *)
Definition cut_movie (n : Z) (t : vcr) : vcr :=
  t <| g_task := task_recording |>
    <| g_header := (set_rerecord_count (u64 (get_rerecord_count (g_header t) + 1)) (g_header t))
         <| length_samples := n |> |>
    <| cfg := (cfg t) <| total_rerecords := u64 (total_rerecords (cfg t) + 1) |> |>.

(** The files after the backup, which is written before the inputs change. *)
Definition backup_files (H : host) (n : Z) (t : vcr) : files :=
  if vcr_backups (cfg t) then <[backup_path H t := movie_bytes (cut_movie n t)]> (fs t) else fs t.

Definition rewound (H : host) (fz : core_vcr_freeze_info) (t : vcr) : vcr :=
  let n := freeze_current_sample fz in
  let t2 := (cut_movie n t) <| g_movie_inputs := take (Z.to_nat n) (freeze_input_buffer fz) |> in
  t2 <| fs := <[g_movie_path t := movie_bytes t2]> (backup_files H n t) |>.

Lemma backup_ok H t n :
  (forall p, can_open H p = true) ->
  (vcr_backups (cfg t) = true -> n <= Z.of_nat (length (g_movie_inputs t))) ->
  forall cl, when (vcr_backups (cfg t)) (write_backup_impl H ;;; ret tt) ((cut_movie n t) <| calls := cl |>) =
    Ret (tt, (cut_movie n t) <| fs := backup_files H n t |> <| calls := cl |>).
Proof.
  intros Ho Hn cl. unfold backup_files.
  destruct (vcr_backups (cfg t)) eqn:E; cbn [when]; [|by destruct t].
  unfold write_backup_impl. rewrite bind_assoc, bind_get_l.
  specialize (Hn eq_refl). set (t1 := (cut_movie n t) <| calls := cl |>).
  assert (length_samples (g_header t1) <= Z.of_nat (length (g_movie_inputs t1))) as Hn1 by exact Hn.
  rewrite (bind_Ret _ _ _ _ _ (write_movie_to_ok H (backup_path H t1) t1 (Ho _) Hn1)).
  reflexivity.
Qed.

(** The tail of the rewind: back up, take the savestate's inputs, write. *)
Definition replace_tail (H : host) (fz : core_vcr_freeze_info) (t : vcr) : M vcr unit :=
  when (vcr_backups (cfg t)) (write_backup_impl H ;;; ret tt) ;;;
  (if Z.of_nat (length (freeze_input_buffer fz)) <? freeze_current_sample fz
   then undef OutOfBounds
   else modify (fun s => s <| g_movie_inputs :=
          take (Z.to_nat (freeze_current_sample fz)) (freeze_input_buffer fz) |>)) ;;;
  write_movie H ;;; ret tt.

(** The header is cut to the savestate's length before that. *)
Lemma unfreeze_recording_cuts H fz t :
  g_warp_modify_active t = false ->
  exists cl, unfreeze_recording H fz task_recording t =
    replace_tail H fz t ((cut_movie (freeze_current_sample fz) t) <| calls := cl |>).
Proof.
  intros Hw. unfold unfreeze_recording. rewrite bind_modify_l.
  match goal with |- context [bind broadcast_task _ ?x] => set (t1 := x) end.
  destruct (broadcast_task_ok t1) as (c1 & E1). rewrite (bind_Ret _ _ _ _ _ E1).
  change (task_eqb task_recording task_playback) with false. cbn [when].
  rewrite bind_ret_l, bind_get_l. unfold on_header at 1, on_cfg at 1.
  rewrite !bind_modify_l, bind_get_l. unfold call at 1. rewrite bind_modify_l.
  match goal with |- context [negb (g_warp_modify_active ?x)] =>
    change (g_warp_modify_active x) with (g_warp_modify_active t) end.
  rewrite Hw. cbn [negb when]. unfold on_header. rewrite bind_modify_l.
  match goal with |- context [when (vcr_backups (cfg ?x)) _] =>
    change (vcr_backups (cfg x)) with (vcr_backups (cfg t)) end.
  eexists. reflexivity.
Qed.

Lemma unfreeze_recording_ok H fz t :
  (forall p, can_open H p = true) -> g_warp_modify_active t = false ->
  0 <= freeze_current_sample fz <= Z.of_nat (length (freeze_input_buffer fz)) ->
  (vcr_backups (cfg t) = true ->
     freeze_current_sample fz <= Z.of_nat (length (g_movie_inputs t))) ->
  exists cl, unfreeze_recording H fz task_recording t =
    Ret (tt, (rewound H fz t) <| calls := cl |>).
Proof.
  intros Ho Hw Hn Hb. destruct (unfreeze_recording_cuts H fz t Hw) as (cl & ->).
  set (n := freeze_current_sample fz) in *. unfold replace_tail. fold n.
  rewrite (bind_Ret _ _ _ _ _ (backup_ok H t n Ho Hb cl)).
  rewrite (proj2 (Z.ltb_ge _ _)) by lia. rewrite bind_modify_l.
  match goal with |- context [bind (write_movie H) _ ?x] => set (t3 := x) end.
  assert (length_samples (g_header t3) <= Z.of_nat (length (g_movie_inputs t3))) as Hl.
  { change (n <= Z.of_nat (length (take (Z.to_nat n) (freeze_input_buffer fz)))).
    rewrite length_take. lia. }
  rewrite (bind_Ret _ _ _ _ _ (write_movie_ok H t3 eq_refl (Ho _) Hl)). exists cl. reflexivity.
Qed.

(** A recording into which a savestate of the same movie can be loaded. *)
Record rewindable (t : vcr) : Prop := {
  rw_task : g_task t = task_recording;
  rw_write : vcr_readonly (cfg t) = false;
  rw_no_seek : seek_to_frame t = None;
  rw_no_warp : g_warp_modify_active t = false;
  rw_rerecords : rerecord_ok (g_header t);
  rw_room : get_rerecord_count (g_header t) < 2 ^ 64 - 1
}.

(** A well-formed movie section of the recorded movie. *)
Definition freeze_fits (fz : core_vcr_freeze_info) (t : vcr) : Prop :=
  freeze_uid fz = uid (g_header t) /\ 16 <= freeze_size fz /\
  u32 (4 * u32 (freeze_length_samples fz + 1)) <= freeze_size fz /\
  0 <= freeze_current_sample fz <= Z.of_nat (length (freeze_input_buffer fz)).

(** Such a section passes the checks of [core_vcr_unfreeze]. *)
Lemma unfreeze_accepts H fz t :
  rewindable t -> freeze_fits fz t ->
  core_vcr_unfreeze H fz t =
    bind (unfreeze_recording H fz task_recording)
         (fun _ => call CFrame ;;; call CUnfreezeCompleted ;;; ret Res_Ok)
         (t <| m_current_sample := s32 (freeze_current_sample fz) |>
            <| m_current_vi := s32 (freeze_current_vi fz) |>).
Proof.
  intros [Ht Hro Hseek Hw _ _] (Hu & Hs1 & Hs2 & _). unfold core_vcr_unfreeze, core_vcr_is_seeking.
  rewrite bind_get_l, Ht, Hro, Hseek, andb_false_r.
  change (task_eqb task_recording task_idle) with false. cbv iota.
  rewrite (proj2 (Z.ltb_ge (freeze_size fz) 16)), (proj2 (Z.eqb_eq (freeze_uid fz) _)) by done.
  cbn [negb]. rewrite (proj2 (Z.ltb_ge (freeze_size fz) _)) by done. rewrite bind_modify_l.
  reflexivity.
Qed.

Lemma unfreeze_rewinds H fz t :
  rewindable t -> (forall p, can_open H p = true) -> freeze_fits fz t ->
  (vcr_backups (cfg t) = true ->
     freeze_current_sample fz <= Z.of_nat (length (g_movie_inputs t))) ->
  exists cl, core_vcr_unfreeze H fz t =
    Ret (Res_Ok, (rewound H fz t) <| m_current_sample := s32 (freeze_current_sample fz) |>
                   <| m_current_vi := s32 (freeze_current_vi fz) |> <| calls := cl |>).
Proof.
  intros W Ho F Hb. rewrite (unfreeze_accepts H fz t W F).
  match goal with |- context [bind (unfreeze_recording _ _ _) _ ?x] => set (t1 := x) end.
  destruct (unfreeze_recording_ok H fz t1 Ho) as (cl & E); [apply W|apply F|exact Hb|].
  rewrite (bind_Ret _ _ _ _ _ E). unfold call. rewrite !bind_modify_l. eexists. reflexivity.
Qed.

(** C7.  Loading a savestate rewinds the recording to it: for a savestate taken
    during the recording [s], loaded in read-write mode into a recording [t] of the
    same movie, the load succeeds, the movie's inputs become exactly the inputs at the
    moment of the save, position and length are restored, the file on disk is the
    rewound movie, and the rerecord count is that of [t] plus one.  When backups are on,
    the save must not be longer than [t] (otherwise the backup reads outside the
    samples, [backup_is_truncated]); when they are off, [t] may also be shorter. *)
Theorem savestate_rewinds_movie H s t :
  recording s -> rewindable t -> (forall p, can_open H p = true) ->
  uid (g_header s) = uid (g_header t) ->
  Z.of_nat (length (g_movie_inputs s)) < 0x1FFFFFF0 ->
  (vcr_backups (cfg t) = true ->
     (length (g_movie_inputs s) <= length (g_movie_inputs t))%nat) ->
  exists fz s' t', core_vcr_freeze H s = Ret (Some fz, s') /\
    core_vcr_unfreeze H fz t = Ret (Res_Ok, t') /\
    g_task t' = task_recording /\ g_movie_inputs t' = g_movie_inputs s /\
    m_current_sample t' = m_current_sample s /\
    length_samples (g_header t') = Z.of_nat (length (g_movie_inputs s)) /\
    get_rerecord_count (g_header t') = get_rerecord_count (g_header t) + 1 /\
    fs t' !! g_movie_path t = Some (movie_bytes t').
Proof.
  intros R W Ho Hu Hn Hb. set (n := length (g_movie_inputs s)) in *.
  pose proof (rec_length _ R) as Hlen. pose proof (rec_sample _ R) as Hcur. fold n in Hlen, Hcur.
  assert (take (Z.to_nat (length_samples (g_header s))) (g_movie_inputs s) = g_movie_inputs s) as Htk
    by (rewrite Hlen, Nat2Z.id; by apply take_ge).
  exists (frozen s). eexists.
  assert (freeze_current_sample (frozen s) = Z.of_nat n) as Hfc
    by (change (u32 (m_current_sample s) = Z.of_nat n); rewrite Hcur; apply u32_id; unfold is_u32; lia).
  assert (freeze_input_buffer (frozen s) = g_movie_inputs s ++ [0]) as Hfb
    by (unfold frozen; cbn [freeze_input_buffer]; by rewrite Htk).
  assert (freeze_size (frozen s) = 16 + 4 * (Z.of_nat n + 1)) as Hfs.
  { unfold frozen. cbn [freeze_size]. rewrite Hlen, (u32_id (_ + 1)), u32_id; unfold is_u32; lia. }
  assert (freeze_fits (frozen s) t) as F.
  { split; [done|]. rewrite Hfs, Hfc, Hfb, length_app. unfold frozen. cbn [freeze_length_samples].
    fold n. rewrite Hlen, (u32_id (_ + 1)), u32_id; unfold is_u32; lia. }
  destruct (unfreeze_rewinds H (frozen s) t W Ho F) as (cl & E).
  - intros Hbk. rewrite Hfc. specialize (Hb Hbk). lia.
  - eexists. split; [apply freeze_recording; [apply R|apply Ho|rewrite Hlen; lia]|].
    split; [exact E|].
    assert (g_movie_inputs (rewound H (frozen s) t) = g_movie_inputs s) as Hin.
    { unfold rewound. rewrite Hfc, Hfb, Nat2Z.id.
      exact (take_app_length (g_movie_inputs s) [0]). }
    split; [reflexivity|]. split; [exact Hin|]. split; [|split; [exact Hfc|split]].
    + change (s32 (freeze_current_sample (frozen s)) = m_current_sample s).
      rewrite Hfc, Hcur. apply s32_id. unfold is_s32. lia.
    + change (get_rerecord_count (set_rerecord_count (u64 (get_rerecord_count (g_header t) + 1))
        (g_header t)) = get_rerecord_count (g_header t) + 1).
      pose proof (rw_room _ W). pose proof (rw_rerecords _ W) as Hrr.
      assert (0 <= get_rerecord_count (g_header t)).
      { rewrite get_rerecord_value by done. destruct Hrr. unfold is_u32 in *. lia. }
      rewrite get_set_rerecord by apply u64_range. apply u64_id. unfold is_u64. lia.
    + apply (lookup_insert_eq (M := gmap string)).
Qed.

(** A later state of the recording of [recording_state]. *)
Definition later_recording : vcr :=
  vcr_with task_recording (sample_header <| length_samples := 3 |>) [0x80; 0x10; 0x20] 3.

Lemma later_recording_rewindable : rewindable later_recording.
Proof. constructor; try done; vm_compute; done. Qed.

Lemma savestate_rewinds_movie_witness :
  exists fz s' t', core_vcr_freeze sample_host recording_state = Ret (Some fz, s') /\
    core_vcr_unfreeze sample_host fz later_recording = Ret (Res_Ok, t') /\
    g_movie_inputs t' = [0x80] /\ m_current_sample t' = 1.
Proof.
  destruct (savestate_rewinds_movie sample_host recording_state later_recording
    recording_state_recording later_recording_rewindable)
    as (fz & s' & t' & H1 & H2 & _ & H3 & H4 & _); try done.
  - simpl. lia.
  - exists fz, s', t'. by split_and!.
Defined.

(** ** The backup *)

Lemma write_movie_to_oob H path s :
  can_open H path = true ->
  Z.of_nat (length (g_movie_inputs s)) < length_samples (g_header s) ->
  write_movie_to H path s = Undef OutOfBounds.
Proof.
  intros Ho Hl. unfold write_movie_to. rewrite bind_get_l. unfold on_fs, write_movie_impl.
  rewrite Ho. cbn [negb].
  replace (length_samples (if vcr_write_extended_format (cfg s) then g_header s
            else strip_extended (g_header s))) with (length_samples (g_header s))
    by (by destruct (vcr_write_extended_format (cfg s))).
  by rewrite (proj2 (Z.ltb_lt _ _)).
Qed.

Lemma unfreeze_recording_oob H fz t :
  (forall p, can_open H p = true) -> g_warp_modify_active t = false ->
  vcr_backups (cfg t) = true ->
  Z.of_nat (length (g_movie_inputs t)) < freeze_current_sample fz ->
  unfreeze_recording H fz task_recording t = Undef OutOfBounds.
Proof.
  intros Ho Hw Hbk Hn. destruct (unfreeze_recording_cuts H fz t Hw) as (cl & ->).
  unfold replace_tail. rewrite Hbk. cbn [when]. unfold write_backup_impl.
  rewrite !bind_assoc, bind_get_l. unfold bind at 1. by rewrite write_movie_to_oob.
Qed.

(** The backup does not protect what a rewind drops.  Loading a savestate
    with backups enabled shortens the header first and writes the backup
    afterwards, so the backup holds only the samples up to the savestate's
    position, not those about to be lost; and when the savestate lies beyond the
    current end of the movie the backup reads outside the input vector. *)
Theorem backup_is_truncated H fz t :
  rewindable t -> (forall p, can_open H p = true) ->
  vcr_backups (cfg t) = true -> vcr_write_extended_format (cfg t) = true ->
  backup_path H t <> g_movie_path t -> freeze_fits fz t ->
  let n := freeze_current_sample fz in
  (n <= Z.of_nat (length (g_movie_inputs t)) ->
     exists t' hdr, core_vcr_unfreeze H fz t = Ret (Res_Ok, t') /\
       fs t' !! backup_path H t =
         Some (header_image hdr ++ samples_image (take (Z.to_nat n) (g_movie_inputs t)))) /\
  (Z.of_nat (length (g_movie_inputs t)) < n -> core_vcr_unfreeze H fz t = Undef OutOfBounds).
Proof.
  intros W Ho Hbk Hext Hne F n. split; intros Hlt.
  - destruct (unfreeze_rewinds H fz t W Ho F) as (cl & E); [done|].
    eexists. exists (g_header (cut_movie n t)). split; [exact E|].
    change (<[g_movie_path t := movie_bytes ((cut_movie n t) <| g_movie_inputs :=
      take (Z.to_nat n) (freeze_input_buffer fz) |>)]> (backup_files H n t) !! backup_path H t =
      Some (header_image (g_header (cut_movie n t)) ++
            samples_image (take (Z.to_nat n) (g_movie_inputs t)))).
    rewrite lookup_insert_ne by congruence. unfold backup_files. rewrite Hbk, lookup_insert_eq.
    unfold movie_bytes. change (vcr_write_extended_format (cfg (cut_movie n t)))
      with (vcr_write_extended_format (cfg t)). by rewrite Hext.
  - rewrite (unfreeze_accepts H fz t W F). unfold bind at 1.
    rewrite unfreeze_recording_oob; [done|done|apply W|done|done].
Qed.

Definition early_savestate : core_vcr_freeze_info :=
  Freeze 24 0x60000000 1 0 1 [0x80; 0].

Lemma backup_is_truncated_witness :
  exists t' hdr, core_vcr_unfreeze sample_host early_savestate later_recording = Ret (Res_Ok, t') /\
    fs t' !! backup_path sample_host later_recording = Some (header_image hdr ++ samples_image [0x80]).
Proof.
  apply (backup_is_truncated sample_host early_savestate later_recording);
    [apply later_recording_rewindable|done..].
Defined.
