(* ===== verification/VcrSeek.v ===== *)
(** * Seeking

    The closest seek savestate, the progress of a seek until its frame, and the
    comparison behind warp modify. *)

From Stdlib Require Import Strings.String Strings.Ascii.
From S2P Require Import Prelude Controller Path Cheats Movie MovieProps VcrState Vcr VcrFacts VcrProps.

Open Scope prog_scope.
#[local] Open Scope Z_scope.

(** ** The closest savestate *)

(** Of the keys seen, [f] is the last one before [frame]; [(INT32_MAX, 0)] when
    there is none. *)
Definition closest_of (frame : Z) (seen : list Z) (best : Z * Z) : Prop :=
  (best = (INT32_MAX, 0) /\ forall k, k ∈ seen -> frame <= k) \/
  (best.1 = frame - best.2 /\ best.2 ∈ seen /\ best.2 < frame /\
   forall k, k ∈ seen -> k < frame -> k <= best.2).

Lemma closer_step frame seen best k :
  closest_of frame seen best -> frame - k < INT32_MAX ->
  closest_of frame (seen ++ [k]) (closer frame best k).
Proof.
  intros Hb Hd. unfold closer. destruct (Z.leb_spec frame k) as [Hle|Hlt].
  - destruct Hb as [[-> Hn]|(H1 & H2 & H3 & H4)]; [left|right].
    + split; [done|]. intros j [?| ->%list_elem_of_singleton]%elem_of_app; auto.
    + split; [done|]. split; [set_solver|]. split; [done|].
      intros j [?| ->%list_elem_of_singleton]%elem_of_app Hj; [auto|lia].
  - destruct Hb as [[-> Hn]|(H1 & H2 & H3 & H4)].
    + cbn [fst]. rewrite (proj2 (Z.ltb_lt _ _)) by done. right. cbn [fst snd].
      split; [done|]. split; [set_solver|]. split; [done|].
      intros j [Hj| ->%list_elem_of_singleton]%elem_of_app Hlj; [apply Hn in Hj|]; lia.
    + destruct (Z.ltb_spec (frame - k) best.1); right; cbn [fst snd].
      * split; [done|]. split; [set_solver|]. split; [done|].
        intros j [Hj| ->%list_elem_of_singleton]%elem_of_app Hlj; [specialize (H4 j Hj Hlj)|]; lia.
      * split; [done|]. split; [set_solver|]. split; [done|].
        intros j [Hj| ->%list_elem_of_singleton]%elem_of_app Hlj; [auto|lia].
Qed.

Lemma closest_fold frame keys seen best :
  closest_of frame seen best -> Forall (fun k => frame - k < INT32_MAX) keys ->
  closest_of frame (seen ++ keys) (fold_left (closer frame) keys best).
Proof.
  intros Hb Hk. revert seen best Hb. induction Hk as [|k keys Hk Hks IH]; intros seen best Hb.
  - by rewrite app_nil_r.
  - cbn [fold_left]. replace (seen ++ k :: keys) with ((seen ++ [k]) ++ keys)
      by (by rewrite <- app_assoc).
    by apply IH, closer_step.
Qed.

Lemma elem_of_savestate_keys m k : k ∈ savestate_keys m <-> is_Some (m !! k).
Proof.
  unfold savestate_keys. rewrite list_elem_of_fmap. split.
  - intros ([k' b] & -> & Hb). apply elem_of_map_to_list in Hb. by exists b.
  - intros [b Hb]. exists (k, b). split; [done|]. by apply elem_of_map_to_list.
Qed.

(** A backward seek starts from the right savestate: among the seek
    savestates [vcr_find_closest_savestate_before_frame] picks the last one
    strictly before the frame, or 0 when every savestate is at or after it (for
    frames within 2^31 - 1 samples of the savestates). *)
Theorem closest_savestate_correct m frame :
  (forall k, is_Some (m !! k) -> frame - k < INT32_MAX) ->
  let r := vcr_find_closest_savestate_before_frame m frame in
  (is_Some (m !! r) /\ r < frame /\ forall k, is_Some (m !! k) -> k < frame -> k <= r) \/
  (r = 0 /\ forall k, is_Some (m !! k) -> frame <= k).
Proof.
  intros Hk r. pose proof (closest_fold frame (savestate_keys m) [] (INT32_MAX, 0)) as Hf.
  destruct Hf as [[E Hn]|(H1 & H2 & H3 & H4)].
  - left. split; [done|]. intros k Hin. by apply elem_of_nil in Hin.
  - apply Forall_forall. intros k Hin. by apply Hk, elem_of_savestate_keys.
  - right. unfold r, vcr_find_closest_savestate_before_frame. rewrite E. split; [done|].
    intros k Hs. by apply Hn, elem_of_savestate_keys.
  - left. split; [by apply elem_of_savestate_keys|]. split; [done|].
    intros k Hs. by apply H4, elem_of_savestate_keys.
Qed.

Definition sample_savestates : gmap Z st_buffer :=
  <[100 := StEmpty]> (<[200 := StEmpty]> (<[300 := StEmpty]> ∅)).

Lemma closest_savestate_correct_witness :
  vcr_find_closest_savestate_before_frame sample_savestates 250 = 200 /\
  forall k, is_Some (sample_savestates !! k) -> k < 250 -> k <= 200.
Proof.
  assert (vcr_find_closest_savestate_before_frame sample_savestates 250 = 200) as E
    by (vm_compute; reflexivity).
  split; [done|]. destruct (closest_savestate_correct sample_savestates 250) as [(_ & _ & Hk)|[E' _]].
  - intros k Hk. unfold sample_savestates in Hk. apply elem_of_dom in Hk.
    rewrite !dom_insert_L, dom_empty_L in Hk. unfold INT32_MAX. set_unfold in Hk. lia.
  - by rewrite E in Hk.
  - rewrite E in E'. done.
Defined.

(** ** The first difference between two movies *)

Lemma first_difference_spec i l1 l2 :
  match first_difference i l1 l2 with
  | Some d => exists n a b, d = i + Z.of_nat n /\ l1 !! n = Some a /\ l2 !! n = Some b /\ a <> b /\
                take n l1 = take n l2
  | None => take (min (length l1) (length l2)) l1 = take (min (length l1) (length l2)) l2
  end.
Proof.
  revert i l2. induction l1 as [|a l1 IH]; intros i [|b l2]; cbn [first_difference]; try done.
  destruct (Z.eqb_spec a b) as [->|Hne].
  - specialize (IH (i + 1) l2). destruct (first_difference (i + 1) l1 l2).
    + destruct IH as (n & x & y & -> & H1 & H2 & H3 & H4).
      exists (S n), x, y. split_and!; try done; [lia|]. cbn [take]. by rewrite H4.
    + cbn [length min take]. by rewrite IH.
  - exists 0%nat, a, b. split_and!; try done. lia.
Qed.

(** The comparison behind warp modify: [vcr_find_first_input_difference]
    returns SIZE_MAX exactly when the two input vectors are equal; otherwise it
    returns a frame before which they agree, which is the first frame where they
    differ when there is one, and the last common frame when one vector extends
    the other. *)
Theorem first_input_difference_correct l1 l2 :
  Z.of_nat (length l1) < SIZE_MAX ->
  let d := vcr_find_first_input_difference l1 l2 in
  (d = SIZE_MAX <-> l1 = l2) /\
  (l1 <> l2 -> take (Z.to_nat d) l1 = take (Z.to_nat d) l2 /\
     (l1 !! Z.to_nat d <> l2 !! Z.to_nat d \/
      Z.to_nat d = (min (length l1) (length l2) - 1)%nat)).
Proof.
  intros Hl d. unfold d, vcr_find_first_input_difference.
  pose proof (first_difference_spec 0 l1 l2) as Hs.
  destruct (first_difference 0 l1 l2) as [x|].
  - destruct Hs as (n & a & b & -> & H1 & H2 & Hab & Ht). rewrite Z.add_0_l, Nat2Z.id.
    pose proof (lookup_lt_Some _ _ _ H1). split.
    + split; [lia|]. intros ->. congruence.
    + intros _. split; [done|]. left. rewrite H1, H2. congruence.
  - set (m := min (length l1) (length l2)) in *. destruct (Nat.eqb_spec (length l1) (length l2)) as [E|E].
    + assert (l1 = l2) as ->.
      { unfold m in Hs. rewrite <- E, Nat.min_id in Hs. rewrite take_ge in Hs by done.
        rewrite E, take_ge in Hs by done. done. }
      done.
    + assert (Z.to_nat (Z.max 0 (Z.of_nat m - 1)) = (m - 1)%nat) as Em by lia. rewrite Em. split.
      * split; [lia|]. by intros ->.
      * intros _. split; [|by right].
        apply (f_equal (take (m - 1))) in Hs. rewrite !take_take in Hs.
        replace ((m - 1) `min` m)%nat with (m - 1)%nat in Hs by lia. done.
Qed.

Lemma first_input_difference_correct_witness :
  vcr_find_first_input_difference [1; 2; 3] [1; 7; 3] = 1 /\
  take 1 [1; 2; 3] = take 1 [1; 7; 3].
Proof.
  split; [reflexivity|].
  destruct (first_input_difference_correct [1; 2; 3] [1; 7; 3]) as [_ Hd]; [vm_compute; done|].
  apply Hd. done.
Defined.

(** ** Progress of a seek *)

Lemma seek_not_due s f n :
  seek_to_frame s = Some f -> g_task s = task_playback ->
  m_current_sample s = Z.of_nat n -> Z.of_nat n < f -> Z.of_nat n < 0x7FFFFFF0 ->
  vcr_stop_seek_if_needed s = Ret (tt, s).
Proof.
  intros Hs Ht Hc Hn Hb. unfold vcr_stop_seek_if_needed. rewrite bind_get_l, Hs, Ht, Hc.
  rewrite u64_small by lia. change (task_eqb task_playback task_idle) with false. cbv iota.
  rewrite (proj2 (Z.ltb_ge _ _)), (proj2 (Z.leb_gt _ _)) by lia. reflexivity.
Qed.

(** The state once a seek has ended. *)
Definition seek_ended (cs : list vcr_call) (s : vcr) : vcr :=
  s <| seek_to_frame := None |>
    <| emu_paused := if g_seek_pause_at_end s && emu_launched s then true else emu_paused s |>
    <| calls := cs |>.

Lemma seek_due s f n :
  seek_to_frame s = Some f -> g_task s = task_playback -> g_warp_modify_active s = false ->
  m_current_sample s = Z.of_nat n -> Z.of_nat n = f -> Z.of_nat n < 0x7FFFFFF0 ->
  exists cs, CSeekCompleted ∈ cs /\ vcr_stop_seek_if_needed s = Ret (tt, seek_ended cs s).
Proof.
  intros Hs Ht Hw Hc Hn Hb.
  exists (if g_seek_pause_at_end s
          then CEmuPausedChanged (if emu_launched s then true else emu_paused s)
               :: CSeekCompleted :: CSeekStatusChanged :: calls s
          else CSeekCompleted :: CSeekStatusChanged :: calls s).
  split; [destruct (g_seek_pause_at_end s); set_solver|].
  unfold vcr_stop_seek_if_needed, core_vcr_stop_seek, core_vcr_is_seeking, core_vr_pause_emu, call.
  rewrite bind_get_l, Hs, Ht, Hc, u64_small by lia.
  change (task_eqb task_playback task_idle) with false. cbv iota.
  rewrite (proj2 (Z.ltb_ge _ _)), (proj2 (Z.leb_le _ _)) by lia. cbn [when].
  rewrite bind_ret_l, bind_assoc, bind_get_l, Hs. cbn [negb].
  rewrite bind_assoc, bind_modify_l, bind_assoc, bind_modify_l, bind_assoc, bind_modify_l, Hw.
  cbn [when]. rewrite bind_ret_l. unfold seek_ended.
  destruct (g_seek_pause_at_end s); cbn [when andb]; [|by destruct s].
  rewrite bind_get_l. unfold vcr_allows_core_pause. cbn [seek_to_frame].
  match goal with |- context [seek_to_frame ?x] => change (seek_to_frame x) with (@None Z) end.
  cbn [negb]. match goal with |- context [emu_launched ?x] =>
    change (emu_launched x) with (emu_launched s) end.
  destruct (emu_launched s); cbn [when]; rewrite ?bind_modify_l, ?bind_ret_l, bind_get_l; reflexivity.
Qed.

(** A seek towards frame [f], at sample [n]. *)
Record seeking (s : vcr) (n : nat) (f : Z) : Prop := {
  sk_playing : playing s n;
  sk_target : seek_to_frame s = Some f;
  sk_interval : seek_savestate_interval (cfg s) = 0;
  sk_pending : pending s = [];
  sk_no_warp : g_warp_modify_active s = false;
  sk_frame : f < length_samples (g_header s)
}.

Section Progress.
Variable H : host.

Lemma seek_progress qs s n f :
  seeking s n f -> Z.of_nat n + Z.of_nat (length qs) <= f ->
  exists cs, play_all H qs s =
    Ret (zip_with input_callback qs (drop n (g_movie_inputs s)), at_sample (n + length qs) cs s).
Proof.
  revert s n. induction qs as [|q qs IH]; intros s n [P Ht Hi Hp Hw Hf] Hn.
  { exists (calls s). rewrite Nat.add_0_r. unfold at_sample. cbn.
    rewrite <- (play_sample s n P). by destruct s. }
  cbn [length] in Hn. pose proof (play_bound _ _ P). pose proof (play_inputs _ _ P).
  destruct (lookup_lt_is_Some_2 (g_movie_inputs s) n) as (v & Hv); [lia|].
  destruct (play_poll_seek H q s s n v) as (cs & E); try done; try apply P; [|lia|].
  { eapply seek_not_due; [done|apply P|apply P|lia|lia]. }
  destruct (IH (at_sample (S n) (cs ++ calls s) s) (S n)) as (cs' & E').
  - constructor; try done. eapply at_sample_playing; [exact P|lia].
  - lia.
  - exists cs'. cbn [play_all length]. rewrite (bind_Ret _ _ _ _ _ E), (bind_Ret _ _ _ _ _ E').
    change (g_movie_inputs (at_sample (S n) (cs ++ calls s) s)) with (g_movie_inputs s).
    rewrite (drop_S _ v n Hv). cbn [zip_with]. rewrite Nat.add_succ_r. reflexivity.
Qed.

Lemma seek_arrives q s n f :
  seeking s n f -> Z.of_nat n = f ->
  exists v cs, g_movie_inputs s !! n = Some v /\
    poll_settled H q s = Ret (input_callback q v, at_sample (S n) cs (seek_ended cs s)) /\
    CSeekCompleted ∈ cs.
Proof.
  intros [P Ht Hi Hp Hw Hf] Hn. pose proof (play_bound _ _ P). pose proof (play_inputs _ _ P).
  destruct (lookup_lt_is_Some_2 (g_movie_inputs s) n) as (v & Hv); [lia|].
  destruct (seek_due s f n) as (cs & Hin & E); try done; try apply P; [lia|].
  destruct (play_poll_seek H q s (seek_ended cs s) n v) as (cs' & E'); try done; try apply P.
  - destruct P. by constructor.
  - by rewrite Hn.
  - exists v, (cs' ++ cs). split; [exact Hv|]. split; [exact E'|]. set_solver.
Qed.
End Progress.

(** The frame a seek request names, adjusted when the emulator is to pause there. *)
Definition seek_frame (s : vcr) (str : string) (pause : bool) : Z :=
  let frame := compute_sample_from_seek_string s str in if pause then frame - 1 else frame.

Lemma begin_seek_forward H s n str pause :
  playing s n -> no_seek s -> g_warp_modify_active s = false -> pending s = [] ->
  compute_sample_from_seek_string s str <> SIZE_MAX ->
  can_seek_to s (compute_sample_from_seek_string s str) = true ->
  can_seek_to s (seek_frame s str pause) = true ->
  Z.of_nat n <= seek_frame s str pause < length_samples (g_header s) ->
  exists s', core_vcr_begin_seek H str pause s = Ret (Res_Ok, s') /\
    seeking s' n (seek_frame s str pause) /\ g_seek_pause_at_end s' = pause /\
    emu_launched s' = emu_launched s /\ g_movie_inputs s' = g_movie_inputs s.
Proof.
  intros P [Hs Hi] Hw Hp Hmax Hc1 Hc2 Hn. pose proof P as [Ht [Hr Hl] Hnw Hcur Hb Hin Hpr].
  unfold core_vcr_begin_seek, vcr_begin_seek_impl, core_vcr_is_seeking.
  rewrite bind_get_l, Hs, Hl, Ht. change (task_eqb task_playback task_idle) with false. cbv iota zeta.
  rewrite (proj2 (Z.eqb_neq _ _) Hmax), Hc1. cbn [negb orb]. fold (seek_frame s str pause).
  rewrite Hc2. cbn [negb]. rewrite andb_false_r, bind_modify_l. unfold call at 1. rewrite bind_modify_l.
  rewrite Hcur, u64_small by lia.
  rewrite (proj2 (Z.eqb_neq _ (seek_frame s str pause + 1))) by lia.
  rewrite andb_false_r. cbn [when]. unfold core_vr_resume_emu at 1. rewrite bind_assoc, bind_get_l.
  unfold vcr_allows_core_unpause.
  match goal with |- context [wait_at_movie_end (cfg ?x)] =>
    change (wait_at_movie_end (cfg x)) with (wait_at_movie_end (cfg s)) end.
  rewrite Hnw. cbn [andb negb].
  match goal with |- context [emu_launched ?x] => change (emu_launched x) with (emu_launched s) end.
  assert (forall b cs, seeking (s <| seek_to_frame := Some (seek_frame s str pause) |>
    <| g_seek_pause_at_end := pause |> <| emu_paused := b |> <| calls := cs |>) n
    (seek_frame s str pause)) as Hsk.
  { intros b cs. constructor; [by constructor|done..|apply Hn]. }
  destruct (emu_launched s) eqn:El; cbn [when];
    rewrite ?bind_assoc, ?bind_modify_l, ?bind_ret_l, ?bind_assoc, ?bind_get_l;
    unfold call; rewrite bind_modify_l, (proj2 (Z.leb_le _ _)) by lia.
  - eexists. split; [reflexivity|]. split; [apply (Hsk false)|]. by split.
  - eexists. split; [reflexivity|]. split; [apply (Hsk (emu_paused s))|]. by split.
Qed.

(** C10.  A forward seek during playback reaches its frame.  With no warp modify
    running, no deferred work waiting and seek savestates turned off (an interval of
    0), requesting a seek to a frame of the movie that is not behind the current one
    succeeds; the polls of the first controller then give the samples of the movie
    from the current one on, one after the other; after exactly as many polls as
    there are frames to go the seek is still running and the movie is at the
    requested frame; the next poll gives the sample of that frame, ends the seek,
    reports its completion, and pauses the emulator when that was asked for. *)
Theorem seek_reaches_frame H s n str pause qs q :
  playing s n -> no_seek s -> g_warp_modify_active s = false -> pending s = [] ->
  compute_sample_from_seek_string s str <> SIZE_MAX ->
  can_seek_to s (compute_sample_from_seek_string s str) = true ->
  can_seek_to s (seek_frame s str pause) = true ->
  Z.of_nat n <= seek_frame s str pause < length_samples (g_header s) ->
  Z.of_nat n + Z.of_nat (length qs) = seek_frame s str pause ->
  exists s1 s2 v s3,
    core_vcr_begin_seek H str pause s = Ret (Res_Ok, s1) /\
    play_all H qs s1 = Ret (zip_with input_callback qs (drop n (g_movie_inputs s)), s2) /\
    core_vcr_is_seeking s2 = true /\ m_current_sample s2 = seek_frame s str pause /\
    g_movie_inputs s !! Z.to_nat (seek_frame s str pause) = Some v /\
    poll_settled H q s2 = Ret (input_callback q v, s3) /\
    core_vcr_is_seeking s3 = false /\ m_current_sample s3 = seek_frame s str pause + 1 /\
    CSeekCompleted ∈ calls s3 /\ (pause && emu_launched s = true -> emu_paused s3 = true).
Proof.
  intros P Hns Hw Hp Hmax Hc1 Hc2 Hn Hq.
  destruct (begin_seek_forward H s n str pause P Hns Hw Hp Hmax Hc1 Hc2 Hn)
    as (s1 & E1 & Sk & Hpa & Hel & Hmi).
  destruct (seek_progress H qs s1 n _ Sk) as (cs & E2); [lia|]. rewrite Hmi in E2.
  set (s2 := at_sample (n + length qs) cs s1) in *.
  assert (seeking s2 (n + length qs) (seek_frame s str pause)) as Sk2.
  { destruct Sk as [P1 ? ? ? ? ?]. constructor; try done.
    pose proof (play_bound _ _ P1). eapply at_sample_playing; [exact P1|lia]. }
  destruct (seek_arrives H q s2 _ _ Sk2) as (v & cs' & Hv & E3 & Hin); [lia|].
  exists s1, s2, v. eexists. split; [exact E1|]. split; [exact E2|].
  split; [unfold core_vcr_is_seeking; by rewrite (sk_target _ _ _ Sk2)|].
  split; [rewrite (play_sample _ _ (sk_playing _ _ _ Sk2)); lia|].
  split; [rewrite <- Hmi, <- Hq, <- Nat2Z.inj_add, Nat2Z.id; exact Hv|]. split; [exact E3|].
  split; [done|]. split; [|split; [exact Hin|]].
  - change (Z.of_nat (S (n + length qs)) = seek_frame s str pause + 1). lia.
  - intros Hpe. change ((if g_seek_pause_at_end s1 && emu_launched s1 then true else emu_paused s1) = true).
    by rewrite Hpa, Hel, Hpe.
Qed.

(** Seeking to the third frame of a movie and pausing there. *)
Definition playback_state : vcr :=
  vcr_with task_playback (sample_header <| length_samples := 5 |>) [1; 2; 3; 4; 5] 1.

Lemma seek_reaches_frame_witness :
  exists s1 s2 s3,
    core_vcr_begin_seek sample_host "4" true playback_state = Ret (Res_Ok, s1) /\
    play_all sample_host (map plain_poll [0; 0]) s1 = Ret ([2; 3], s2) /\
    m_current_sample s2 = 3 /\
    poll_settled sample_host (plain_poll 0) s2 = Ret (4, s3) /\
    core_vcr_is_seeking s3 = false /\ emu_paused s3 = true.
Proof.
  assert (playing playback_state 1) as P by (constructor; try done; vm_compute; done).
  destruct (seek_reaches_frame sample_host playback_state 1 "4" true (map plain_poll [0; 0])
    (plain_poll 0) P) as (s1 & s2 & v & s3 & H1 & H2 & _ & H3 & Hv & H4 & H5 & _ & _ & H6);
    [by vm_compute..|].
  injection Hv as <-. exists s1, s2, s3. do 5 (split; [done|]). by apply H6.
Defined.
