(* ===== verification/VcrStart.v ===== *)
(** * Starting and stopping movies

    Starting a recording from reset yields a recording whose movie is well-formed;
    what [core_vcr_stop_all] stops; which cheats and which memory starting a
    playback uses. *)

From Stdlib Require Import Strings.String Strings.Ascii.
From S2P Require Import Prelude Controller Path Cheats Movie MovieProps VcrState Vcr VcrFacts VcrProps.

Open Scope prog_scope.
#[local] Open Scope Z_scope.

(** ** Starting a recording *)

(** A host whose names fit the header. *)
Record host_ok (H : host) : Prop := {
  ok_nom : (length (take 32 (c_str (rom_nom H))) < 32)%nat /\ Forall is_u8 (rom_nom H);
  ok_crc : is_u32 (rom_CRC1 H);
  ok_country : 0 <= rom_Country_code H < 65536;
  ok_names : forall n, n ∈ [(plugin_names H).1.1.1; (plugin_names H).1.1.2; (plugin_names H).1.2;
                            (plugin_names H).2] -> (length n < 64)%nat /\ Forall is_u8 n
}.

Lemma fill_text_spec n text :
  fill_text n text =
    (if (length (c_str (take n text)) <? n)%nat
     then Some (put 0 (c_str (take n text) ++ [0]) (zeros n)) else None).
Proof.
  unfold fill_text, strncpy_s.
  rewrite (take_ge (c_str (take n text)) (length (take n text))); [done|].
  generalize (take n text). clear. intros l. induction l as [|b l IH]; [done|]. simpl.
  destruct (b =? 0); simpl; lia.
Qed.

Lemma c_str_length l : (length (c_str l) <= length l)%nat.
Proof. induction l as [|b l IH]; [done|]. simpl. destruct (b =? 0); simpl; lia. Qed.

Lemma fill_text_short n text : (length text < n)%nat -> exists t, fill_text n text = Some t.
Proof.
  intros Hl. rewrite fill_text_spec. rewrite (proj2 (Nat.ltb_lt _ _)); [by eexists|].
  pose proof (c_str_length (take n text)). rewrite length_take in *. lia.
Qed.

Lemma c_str_id l : 0 ∉ l -> c_str l = l.
Proof.
  induction l as [|b l IH]; intros Hn; [done|]. apply not_elem_of_cons in Hn as [H1 H2].
  cbn [c_str]. destruct (Z.eqb_spec b 0); [congruence|]. by rewrite IH.
Qed.

Lemma fill_text_long n text : (n <= length text)%nat -> 0 ∉ text -> fill_text n text = None.
Proof.
  intros Hl Hn. rewrite fill_text_spec, c_str_id.
  - rewrite length_take. by rewrite (proj2 (Nat.ltb_ge _ _)) by lia.
  - intros Hin. apply Hn. rewrite <- (take_drop n text). apply elem_of_app. by left.
Qed.

Lemma fill_text_bytes n text t : Forall is_u8 text -> fill_text n text = Some t -> bytes n t.
Proof.
  intros Hb. rewrite fill_text_spec. destruct (Nat.ltb_spec (length (c_str (take n text))) n); [|done].
  intros [= <-]. apply bytes_put; [apply bytes_zeros| |rewrite length_app; simpl; lia].
  apply Forall_app. split; [by apply c_str_bytes, Forall_take|]. repeat constructor. done.
Qed.

(** Starting from an idle engine, from reset, with no cheats and willing users. *)
Record can_record (H : host) (s : vcr) : Prop := {
  cr_task : g_task s = task_idle;
  cr_settled : settled s;
  cr_no_seek : no_seek s;
  cr_no_warp : g_warp_modify_active s = false;
  cr_no_reset : vcr_reset_requested s = false;
  cr_pending : pending s = [];
  cr_cheats : host_cheats (cheats s) = [];
  cr_asks : forall d, show_ask_dialog H d = true
}.

Definition text_or (default_ text : list Z) : list Z := match text with [] => default_ | _ => text end.

(** The engine once the header has been prepared. *)
Definition record_prepared (path : string) (flags : Z) (h : core_vcr_movie_header)
    (cs : list vcr_call) (s : vcr) : vcr :=
  s <| g_seek_savestates := ∅ |> <| g_movie_path := path |>
    <| cfg := (cfg s) <| vcr_readonly := false |> |> <| g_movie_inputs := [] |>
    <| g_task := task_start_recording_from_reset |> <| g_header := h |> <| calls := cs |>.

Definition start_texts (h : core_vcr_movie_header) (a d : list Z) (s : vcr) : outcome (core_result * vcr) :=
  match fill_text 222 (text_or no_author a), fill_text 256 (text_or no_description d) with
  | Some a, Some d =>
      bind (on_header (fun h => h <| author := a |> <| description := d |>))
        (fun _ => modify (fun s => s <| m_current_sample := 0 |> <| m_current_vi := 0 |>) ;;;
                  broadcast_task ;;; ret Res_Ok) s
  | _, _ => Undef InvalidParameter
  end.

Lemma start_record_reset H s path flags a d h :
  can_record H s -> flags = MOVIE_START_FROM_NOTHING \/ flags = MOVIE_START_FROM_EEPROM ->
  set_rom_info H s (fresh_header s flags) = Some h ->
  exists cs, core_vcr_start_record H path flags a d s =
    start_texts h a d (record_prepared path flags h cs s).
Proof.
  intros [Ht _ _ _ _ _ Hch Hask] Hfl Hrom.
  assert (valid_start_type flags = true /\ has_bits flags MOVIE_START_FROM_SNAPSHOT = false /\
          has_bits flags MOVIE_START_FROM_EXISTING_SNAPSHOT = false) as (Hv & Hb1 & Hb2)
    by (by destruct Hfl as [->| ->]).
  unfold core_vcr_start_record. rewrite Hv. cbn [negb]. fold (text_or no_author a) (text_or no_description d).
  unfold write_movie_cheats. rewrite bind_assoc, bind_get_l.
  assert (cht_serialize (cheats s) = ""%string) as -> by (unfold cht_serialize; by rewrite Hch).
  cbn [String.eqb]. rewrite bind_ret_l. cbn [negb].
  destruct (stop_all_idle H s Ht) as (c1 & E1). rewrite (bind_Ret _ _ _ _ _ E1), bind_modify_l, bind_get_l.
  match goal with |- context [raw_data_accepted H ?x] => set (s1 := x) end.
  assert (raw_data_accepted H s1 = true) as ->
    by (unfold raw_data_accepted; rewrite Hask; by destruct (existsb _ _)).
  cbn [negb]. unfold on_cfg, call, on_header at 1. rewrite !bind_modify_l.
  unfold begin_recording. rewrite bind_assoc, bind_get_l, Hb1, Hb2, bind_assoc, bind_modify_l, bind_ret_l.
  change (fresh_header s1 flags) with (fresh_header s flags).
  unfold update_rom_info. rewrite bind_assoc, bind_get_l.
  match goal with |- context [set_rom_info H ?x ?y] =>
    change (set_rom_info H x y) with (set_rom_info H s (fresh_header s flags)) end.
  rewrite Hrom. unfold on_header at 1. rewrite bind_modify_l.
  match goal with |- context [match _ with Some _ => _ | None => _ end ?x] => set (s2 := x) end.
  exists (calls s2). unfold start_texts.
  destruct (fill_text 222 (text_or no_author a)); [|reflexivity].
  destruct (fill_text 256 (text_or no_description d)); reflexivity.
Qed.

(** ** The ROM information in the header *)

(** Which of the first four bits of the flags are set: the controllers plugged in. *)
Lemma present_flags c0 c1 c2 c3 :
  let flags := (rom_controllers 0 [c0; c1; c2; c3] (0, 0)).1 in
  Z.testbit flags 0 = Present c0 /\ Z.testbit flags 1 = Present c1 /\
  Z.testbit flags 2 = Present c2 /\ Z.testbit flags 3 = Present c3.
Proof.
  assert (forall i c acc k, Z.testbit (controller_bits i c acc).1 k =
    Z.testbit acc.1 k || ((Plugin c =? ce_mempak) && Z.testbit (CONTROLLER_X_MEMPAK i) k)
      || ((Plugin c =? ce_rumblepak) && Z.testbit (CONTROLLER_X_RUMBLE i) k)
      || (Present c && Z.testbit (CONTROLLER_X_PRESENT i) k)) as Hb.
  { intros i c [f n] k. unfold controller_bits. rewrite <- !testbit_if_lor. by destruct (Present c). }
  cbn [rom_controllers]. cbv zeta. rewrite !Hb.
  split_and!; cbn; rewrite ?andb_false_r, ?andb_true_r, ?orb_false_r; done.
Qed.

Lemma rom_controllers_fits i cs acc :
  0 <= i -> i + Z.of_nat (length cs) <= 4 -> fits 4 acc.1 -> fits 1 acc.2 ->
  fits 4 (rom_controllers i cs acc).1 /\ fits 1 (rom_controllers i cs acc).2.
Proof.
  revert i acc. induction cs as [|c cs IH]; intros i [f n] Hi Hl Hf Hn; [done|].
  cbn [length] in Hl. cbn [rom_controllers]. apply IH; [lia|lia|..]; unfold controller_bits, fits in *;
    change (256 ^ Z.of_nat 4) with (2 ^ 32) in *; change (256 ^ Z.of_nat 1) with 256 in *; cbn [fst snd] in *.
  - assert (forall k, 0 <= k < 32 -> 0 <= Z.shiftl 1 k < 2 ^ 32) as Hs.
    { intros k Hk. rewrite Z.shiftl_1_l. split; [apply Z.pow_nonneg; lia|]. apply Z.pow_lt_mono_r; lia. }
    unfold CONTROLLER_X_PRESENT, CONTROLLER_X_MEMPAK, CONTROLLER_X_RUMBLE.
    repeat case_match; cbn [fst]; simplify_eq; repeat apply lor_bound; try lia; try (apply Hs; lia); done.
  - repeat case_match; cbn [snd]; simplify_eq; try done; unfold u8; apply Z.mod_pos_bound; lia.
Qed.

Lemma strncpy_s_bytes size src count dst t :
  strncpy_s size src count dst = Some t -> bytes size dst -> Forall is_u8 src -> bytes size t.
Proof.
  unfold strncpy_s. case_match eqn:E; [|done]. intros [= <-] Hd Hs. apply Nat.ltb_lt in E.
  apply bytes_put; [done| |rewrite length_app; simpl; lia].
  apply Forall_app. split; [by apply Forall_take, c_str_bytes|]. repeat constructor. done.
Qed.

Lemma set_rom_info_wf H s h :
  host_ok H -> header_wf h -> length (controls s) = 4%nat ->
  exists h', set_rom_info H s h = Some h' /\ header_wf h' /\
    magic h' = magic h /\ version h' = version h /\ extended_version h' = extended_version h /\
    startFlags h' = startFlags h /\ length_samples h' = length_samples h /\
    controller_flags h' = (rom_controllers 0 (controls s) (0, 0)).1.
Proof.
  intros [[Hn1 Hn2] Hcrc Hco Hnm] Hw Hc. unfold set_rom_info. rewrite take_ge by lia.
  destruct (rom_controllers_fits 0 (controls s) (0, 0)) as [Hf1 Hf2];
    [lia|rewrite Hc; simpl; lia|by apply fits_check|by apply fits_check|].
  destruct (rom_controllers 0 (controls s) (0, 0)) as [flags count]. cbn [fst snd] in *.
  destruct (plugin_names H) as [[[video audio] input] rsp]. cbn [fst snd] in Hnm.
  destruct (strncpy_s 32 (rom_nom H) 32 (rom_name h)) as [nm|] eqn:E.
  2: { unfold strncpy_s in E. rewrite (proj2 (Nat.ltb_lt _ _)) in E by done. done. }
  cbn [mbind option_bind]. eexists. split; [reflexivity|]. split; [|done].
  assert (forall n arr, n ∈ [video; audio; input; rsp] -> bytes 64 arr ->
            bytes 64 (put 0 (n ++ [0]) (put 0 [0] arr))) as Hput.
  { intros n arr Hin Ha. destruct (Hnm n Hin) as [Hl Hb]. apply bytes_put.
    - apply bytes_put; [done|by repeat constructor|simpl; lia].
    - apply Forall_app. split; [done|]. by repeat constructor.
    - rewrite length_app. simpl. lia. }
  destruct Hw. constructor; try done.
  - apply fits_check. change (vis_per_second _) with (u8 (core_vr_get_vis_per_second (rom_Country_code H))).
    unfold core_vr_get_vis_per_second. by case_match.
  - by eapply (strncpy_s_bytes 32).
  - apply (Hput video); [set_solver|done].
  - apply (Hput audio); [set_solver|done].
  - apply (Hput input); [set_solver|done].
  - apply (Hput rsp); [set_solver|done].
Qed.

Lemma fresh_header_wf s flags : 0 <= flags < 65536 -> header_wf (fresh_header s flags).
Proof.
  intros Hf. pose proof (header_of_wf (zeros sizeof_header) (bytes_zeros sizeof_header)) as [].
  constructor; try done.
  - apply u32_range.
  - change (fits 1 (if c_true (wii_vc_emulation (cfg s)) then 1 else 0)). apply fits_check. by case_match.
  - constructor; first [by apply fits_check|by apply bytes_check].
Qed.

Lemma plugged_flags cs k c :
  length cs = 4%nat -> cs !! k = Some c ->
  has_bits (rom_controllers 0 cs (0, 0)).1 (CONTROLLER_X_PRESENT (Z.of_nat k)) = Present c.
Proof.
  intros Hl Hk. destruct cs as [|c0 [|c1 [|c2 [|c3 [|]]]]]; try done.
  destruct (present_flags c0 c1 c2 c3) as (H0 & H1 & H2 & H3).
  set (flags := (rom_controllers 0 _ (0, 0)).1) in *. clearbody flags.
  assert (forall k, 0 <= k -> has_bits flags (CONTROLLER_X_PRESENT k) = Z.testbit flags k) as Hb
    by (intros; by apply has_bits_shiftl).
  rewrite Hb by lia. destruct k as [|[|[|[|k]]]]; [..|done]; injection Hk as <-; [exact H0|exact H1|exact H2|exact H3].
Qed.

(** A recording from reset under way. *)
Lemma texts_started h a d path flags cs s :
  header_wf h -> Forall is_u8 a -> Forall is_u8 d -> (length a < 222)%nat -> (length d < 256)%nat ->
  exists s1 h1 cs1, start_texts h a d (record_prepared path flags h cs s) = Ret (Res_Ok, s1) /\
    s1 = (record_prepared path flags h1 cs1 s) <| m_current_sample := 0 |> <| m_current_vi := 0 |> /\
    header_wf h1 /\ h1 <| author := author h |> <| description := description h |> = h.
Proof.
  intros Hw Ha Hd Hla Hld. unfold start_texts.
  assert (Forall is_u8 (text_or no_author a) /\ length (text_or no_author a) < 222)%nat as [Ha' Hla'].
  { destruct a; [|done]. split; [apply (bytes_check 11); vm_compute; done|by vm_compute; lia]. }
  assert (Forall is_u8 (text_or no_description d) /\ length (text_or no_description d) < 256)%nat as [Hd' Hld'].
  { destruct d; [|done]. split; [apply (bytes_check 16); vm_compute; done|by vm_compute; lia]. }
  destruct (fill_text_short 222 _ Hla') as (ta & Ea). destruct (fill_text_short 256 _ Hld') as (td & Ed).
  rewrite Ea, Ed. unfold on_header. rewrite !bind_modify_l.
  match goal with |- context [bind broadcast_task _ ?x] => destruct (broadcast_task_ok x) as (c & Ec) end.
  rewrite (bind_Ret _ _ _ _ _ Ec). eexists. exists (h <| author := ta |> <| description := td |>), c.
  split; [reflexivity|]. split; [reflexivity|]. split; [|by destruct h].
  destruct Hw. constructor; try done; [exact (fill_text_bytes _ _ _ Ha' Ea)|exact (fill_text_bytes _ _ _ Hd' Ed)].
Qed.

(** C11.  Starting a recording works: from an idle engine, with the names of the
    host fitting the header and author and description shorter than their fields,
    [core_vcr_start_record] from reset succeeds; the first controller poll requests
    the ROM's reset, and once it has happened the engine is recording an empty
    movie at sample 0 whose header is well-formed, of the current format, and lists
    exactly the controllers that are plugged in. *)
Theorem start_record_begins H s path flags a d p :
  can_record H s -> host_ok H -> length (controls s) = 4%nat ->
  flags = MOVIE_START_FROM_NOTHING \/ flags = MOVIE_START_FROM_EEPROM ->
  Forall is_u8 a -> Forall is_u8 d -> (length a < 222)%nat -> (length d < 256)%nat ->
  exists s1 s2, core_vcr_start_record H path flags a d s = Ret (Res_Ok, s1) /\
    g_task s1 = task_start_recording_from_reset /\
    poll_settled H p s1 = Ret (0, s2) /\
    recording s2 /\ g_movie_inputs s2 = [] /\ g_movie_path s2 = path /\
    header_wf (g_header s2) /\ current_format (g_header s2) /\ startFlags (g_header s2) = flags /\
    forall k c, controls s !! k = Some c ->
      has_bits (controller_flags (g_header s2)) (CONTROLLER_X_PRESENT (Z.of_nat k)) = Present c.
Proof.
  intros C Hok Hc Hfl Ha Hd Hla Hld.
  assert (0 <= flags < 65536) as Hfr by (destruct Hfl as [->| ->]; done).
  destruct (set_rom_info_wf H s (fresh_header s flags) Hok (fresh_header_wf s flags Hfr) Hc)
    as (h & Eh & Hw & Hm & Hv & He & Hs & Hn & Hcf).
  destruct (start_record_reset H s path flags a d h C Hfl Eh) as (cs & E).
  destruct (texts_started h a d path flags cs s Hw Ha Hd Hla Hld) as (s1 & h1 & cs1 & E1 & -> & Hw1 & Hh1).
  destruct C as [Ct Cse Cns Cw Cr Cp _ _].
  match type of E1 with _ = Ret (_, ?x) => set (s1 := x) in * end.
  destruct (first_poll H p s1) as (cs2 & E2); [done|exact Cse|exact Cns|exact Cp|].
  exists s1, (movie_started cs2 s1). split; [by rewrite E|]. split; [done|]. split; [done|].
  assert (magic h1 = magic h /\ version h1 = version h /\ extended_version h1 = extended_version h /\
          startFlags h1 = startFlags h /\ length_samples h1 = length_samples h /\
          controller_flags h1 = controller_flags h) as (I1 & I2 & I3 & I4 & I5 & I6)
    by (rewrite <- Hh1; done).
  split.
  { constructor; try done. change (length_samples h1 = 0). by rewrite I5, Hn. }
  split; [done|]. split; [done|]. split; [exact Hw1|]. split.
  { change (current_format h1). split; [|split]; rewrite ?I1, ?I2, ?I3, ?Hm, ?Hv, ?He; done. }
  split; [change (startFlags h1 = flags); by rewrite I4, Hs|].
  intros k c Hk. change (controller_flags (g_header (movie_started cs2 s1))) with (controller_flags h1).
  rewrite I6, Hcf. by apply plugged_flags.
Qed.

(** ** Stopping *)

(** The tasks that wait for a savestate before a recording begins. *)
Definition awaits_snapshot (t : core_vcr_task) : bool :=
  task_eqb t task_start_recording_from_snapshot ||
  task_eqb t task_start_recording_from_existing_snapshot.

Lemma stop_all_starting_recording H s :
  g_task s = task_start_recording_from_reset ->
  exists fs' cs, core_vcr_stop_all H s =
    Ret (Res_Ok, s <| g_seek_savestates := ∅ |> <| g_task := task_idle |> <| fs := fs' |> <| calls := cs |>).
Proof.
  intros Ht. unfold core_vcr_stop_all.
  destruct (clear_seek_savestates_ok s) as (cs & E). rewrite (bind_Ret _ _ _ _ _ E), bind_get_l.
  set (s1 := s <| g_seek_savestates := ∅ |> <| calls := cs |>).
  change (g_task s1) with (g_task s). rewrite Ht.
  destruct (setkeys_with_zero_ok s1) as (cs' & E'). rewrite (bind_Ret _ _ _ _ _ E').
  set (s2 := s1 <| calls := cs' |>). unfold vcr_stop_record. rewrite bind_get_l.
  change (g_task s2) with (g_task s). rewrite Ht.
  do 2 eexists. reflexivity.
Qed.

Lemma stop_all_awaiting H s :
  awaits_snapshot (g_task s) = true ->
  exists cs, core_vcr_stop_all H s = Ret (Res_Ok, s <| g_seek_savestates := ∅ |> <| calls := cs |>).
Proof.
  intros Ht. unfold core_vcr_stop_all.
  destruct (clear_seek_savestates_ok s) as (cs & E). rewrite (bind_Ret _ _ _ _ _ E), bind_get_l.
  set (s1 := s <| g_seek_savestates := ∅ |> <| calls := cs |>).
  change (g_task s1) with (g_task s).
  destruct (g_task s) eqn:Et; try done; [|by eexists].
  destruct (setkeys_with_zero_ok s1) as (cs' & E'). rewrite (bind_Ret _ _ _ _ _ E').
  set (s2 := s1 <| calls := cs' |>). unfold vcr_stop_record. rewrite bind_get_l.
  change (g_task s2) with (g_task s). rewrite Et.
  eexists. reflexivity.
Qed.

(** What [core_vcr_stop_all] stops.  While a recording's header does not
    promise more samples than were recorded, its file can be written, and a
    playback has its layer of cheats, stopping succeeds and leaves the engine idle
    with no seek savestates, unless the engine was waiting for the savestate a
    recording starts from: then the task stays what it was, and the recording
    still begins when the savestate arrives. *)
Theorem stop_all_stops H s :
  (g_task s = task_recording -> can_open H (g_movie_path s) = true /\
     length_samples (g_header s) <= Z.of_nat (length (g_movie_inputs s))) ->
  (is_task_playback (g_task s) = true -> cheat_stack (cheats s) <> []) ->
  exists s', core_vcr_stop_all H s = Ret (Res_Ok, s') /\ g_seek_savestates s' = ∅ /\
    g_task s' = if awaits_snapshot (g_task s) then g_task s else task_idle.
Proof.
  intros Hr Hp. destruct (is_task_playback (g_task s)) eqn:Ep.
  { destruct (cheat_stack (cheats s)) as [|layer rest] eqn:Ec; [by destruct (Hp eq_refl)|].
    destruct (stop_all_playback H s layer rest Ep Ec) as (cs & E). eexists. split; [exact E|].
    split; [done|]. by destruct (g_task s). }
  destruct (awaits_snapshot (g_task s)) eqn:Ea.
  { destruct (stop_all_awaiting H s Ea) as (cs & E). eexists. by split; [exact E|]. }
  destruct (g_task s) eqn:Et; try done.
  - destruct (stop_all_idle H s Et) as (cs & E). eexists. by split; [exact E|].
  - destruct (stop_all_starting_recording H s Et) as (f & cs & E). eexists. by split; [exact E|].
  - destruct (Hr eq_refl) as [Ho Hl].
    destruct (stop_all_recording H s Et Ho Hl) as (cs & E). eexists. by split; [exact E|].
Qed.

(** ** Starting a playback *)

(** Restarting playback mixes up the cheats.  A playable movie without cheats
    of its own starts, from an idle engine, with an empty layer over the host's
    cheats; but when another movie is playing, its cheats are still the layer in
    force once the new playback has begun: the new layer is pushed before the
    running playback is stopped, and stopping pops it. *)
Theorem restarted_playback_keeps_old_cheats H s path h vs layer rest :
  playable H s path h vs -> cheat_stack (cheats s) = layer :: rest ->
  g_task s = task_idle \/ is_task_playback (g_task s) = true ->
  exists s', core_vcr_start_playback H path s = Ret (Res_Ok, s') /\
    g_task s' = task_start_playback_from_reset /\ g_movie_inputs s' = vs /\
    cheat_stack (cheats s') =
      if is_task_playback (g_task s) then layer :: rest else [] :: layer :: rest.
Proof.
  intros P Hc [Ht|Ht].
  - destruct (start_playback_ok H s path h vs P Ht) as (cs & E). eexists. split; [exact E|].
    split; [done|]. split; [done|]. rewrite Ht, <- Hc. reflexivity.
  - destruct (start_playback_installs H s path h vs P) as (c1 & E1).
    match type of E1 with _ = install_movie _ _ _ _ ?x => set (s1 := x) in E1 end.
    destruct (stop_all_playback H s1 [] (layer :: rest) Ht) as (c2 & E2); [by rewrite <- Hc|].
    destruct (install_movie_from H path (stored h) vs s1 _ E2 (pl_start _ _ _ _ _ P)) as (c3 & E3).
    eexists. rewrite E1. split; [exact E3|]. rewrite Ht. done.
Qed.

(** The part of a file every version of the header has. *)
Definition front_of (buf : list Z) : core_vcr_movie_header :=
  header_of (take old_header_size buf ++ zeros (sizeof_header - old_header_size)).

Lemma read_old_header buf hdr0 :
  Forall is_u8 buf -> (512 <= length buf)%nat -> magic (front_of buf) = mup_magic ->
  version (front_of buf) = 1 \/ version (front_of buf) = 2 -> extended_version (front_of buf) <= 1 ->
  exists h, read_movie_header buf hdr0 = (Res_Ok, h) /\ length_samples h = length_samples (front_of buf).
Proof.
  intros Hb Hl Hm Hv He. unfold read_movie_header.
  rewrite (proj2 (Nat.ltb_ge _ _)) by done. fold (front_of buf).
  set (img := take old_header_size buf ++ _). rewrite Hm, Z.eqb_refl. cbn [negb].
  change (extended_version default_hdr) with 1. rewrite (proj2 (Z.ltb_ge 1 _)) by done.
  destruct (recover_keeps_front img (image_bytes buf Hb Hl)) as [_ Hf].
  destruct (header_of_front _ _ Hf) as (_ & E2 & _ & E4).
  change (header_of img) with (front_of buf) in E2, E4.
  set (h := header_of (recover_author_info _)) in *. clearbody h.
  exists h. split; [|exact E4].
  destruct Hv as [Hv|Hv]; rewrite Hv in E2 |- *; cbn -[bytes_at Z.div]; rewrite E2; done.
Qed.

(** Old movies are not checked against their file.  While the samples a
    header of the current version announces are always there, a file of version 1
    or 2 that announces more samples than it holds is accepted, and starting its
    playback reads past the end of the file's buffer. *)
Theorem short_old_movie_reads_past_end H s path buf :
  core_executing s = true -> fs s !! path = Some buf -> Forall is_u8 buf -> (512 <= length buf)%nat ->
  magic (front_of buf) = mup_magic -> version (front_of buf) = 1 \/ version (front_of buf) = 2 ->
  extended_version (front_of buf) <= 1 -> 0 < length_samples (front_of buf) ->
  Z.of_nat (length buf) < 1024 + 4 * length_samples (front_of buf) ->
  core_vcr_start_playback H path s = Undef OutOfBounds.
Proof.
  intros Hx Hf Hb Hl Hm Hv He Hpos Hlt.
  destruct (read_old_header buf default_hdr Hb Hl Hm Hv He) as (h & E & Hn).
  unfold core_vcr_start_playback. rewrite bind_get_l. unfold read_file_buffer. rewrite Hf.
  cbn [default from_option id]. destruct buf as [|b buf'] eqn:Eb; [simpl in Hl; lia|]. rewrite <- Eb in *.
  unfold ensure_core_executing. rewrite bind_assoc, bind_get_l, Hx, bind_ret_l. cbn [is_ok negb].
  rewrite E. cbn [is_ok negb]. rewrite Hn.
  by rewrite (proj2 (Z.ltb_lt _ _) Hlt), (proj2 (Z.ltb_lt _ _) Hpos).
Qed.

(** A long author name is not truncated but fatal: with 222 or more
    characters (none of them NUL) in the author, starting a recording from reset
    runs into the invalid parameter handler of [strncpy_s], since the array has no
    room for the terminating NUL. *)
Theorem long_author_is_fatal H s path flags a d :
  can_record H s -> host_ok H -> length (controls s) = 4%nat ->
  flags = MOVIE_START_FROM_NOTHING \/ flags = MOVIE_START_FROM_EEPROM ->
  (222 <= length a)%nat -> 0 ∉ a ->
  core_vcr_start_record H path flags a d s = Undef InvalidParameter.
Proof.
  intros C Hok Hc Hfl Hla Hn.
  assert (0 <= flags < 65536) as Hfr by (destruct Hfl as [->| ->]; done).
  destruct (set_rom_info_wf H s (fresh_header s flags) Hok (fresh_header_wf s flags Hfr) Hc) as (h & Eh & _).
  destruct (start_record_reset H s path flags a d h C Hfl Eh) as (cs & ->). unfold start_texts.
  assert (text_or no_author a = a) as -> by (destruct a; [simpl in Hla; lia|done]).
  by rewrite fill_text_long.
Qed.

(** ** Concrete states *)

Definition idle_state : vcr := vcr_with task_idle default_hdr [] 0.

Lemma sample_host_ok : host_ok sample_host.
Proof.
  constructor; try done.
  - split; [by apply Nat.ltb_lt; vm_compute|]. apply (bytes_check 22); vm_compute; done.
  - intros n Hn. repeat (apply elem_of_cons in Hn as [->|Hn]); [..|by apply elem_of_nil in Hn].
    all: split; [by apply Nat.ltb_lt; vm_compute|repeat constructor; unfold is_u8; simpl; lia].
Qed.

Lemma idle_can_record : can_record sample_host idle_state.
Proof. by constructor. Qed.

Lemma start_record_begins_witness :
  exists s1 s2, core_vcr_start_record sample_host "run.m64" MOVIE_START_FROM_NOTHING [] [] idle_state =
      Ret (Res_Ok, s1) /\
    poll_settled sample_host (plain_poll 0) s1 = Ret (0, s2) /\ recording s2 /\
    header_wf (g_header s2).
Proof.
  destruct (start_record_begins sample_host idle_state "run.m64" MOVIE_START_FROM_NOTHING [] []
    (plain_poll 0)) as (s1 & s2 & E1 & _ & E2 & R & _ & _ & Hw & _).
  - apply idle_can_record.
  - apply sample_host_ok.
  - done.
  - by left.
  - constructor.
  - constructor.
  - simpl. lia.
  - simpl. lia.
  - exists s1, s2. done.
Defined.

Lemma stop_all_stops_witness :
  exists s', core_vcr_stop_all sample_host (vcr_with task_start_recording_from_snapshot default_hdr [] 0) =
      Ret (Res_Ok, s') /\ g_task s' = task_start_recording_from_snapshot.
Proof.
  destruct (stop_all_stops sample_host (vcr_with task_start_recording_from_snapshot default_hdr [] 0))
    as (s' & E & _ & Ht).
  - done.
  - done.
  - exists s'. done.
Defined.

(** A movie of one sample on disk. *)
Definition short_header : core_vcr_movie_header := sample_header <| length_samples := 1 |>.

Definition with_file (bytes : list Z) (s : vcr) : vcr := s <| fs := <["run.m64"%string := bytes]> ∅ |>.

Lemma short_playable t cht :
  playable sample_host
    ((with_file (header_image short_header ++ samples_image [0x80]) (vcr_with t default_hdr [] 0))
       <| cheats := cht |>) "run.m64" short_header [0x80].
Proof.
  constructor; try done.
  - check_header.
  - repeat constructor; unfold is_u32; lia.
Qed.

Definition walk_cheat : core_cheat := Cheat "walk through walls" "" true [].

Lemma restarted_playback_keeps_old_cheats_witness :
  exists s', core_vcr_start_playback sample_host "run.m64"
      ((with_file (header_image short_header ++ samples_image [0x80])
          (vcr_with task_playback default_hdr [] 0))
         <| cheats := CheatState [] [[walk_cheat]] ∅ false |>) = Ret (Res_Ok, s') /\
    cheat_stack (cheats s') = [[walk_cheat]].
Proof.
  destruct (restarted_playback_keeps_old_cheats sample_host _ "run.m64" short_header [0x80] [walk_cheat] []
    (short_playable task_playback (CheatState [] [[walk_cheat]] ∅ false))) as (s' & E & _ & _ & Hc).
  - done.
  - by right.
  - exists s'. done.
Defined.

Lemma short_old_movie_reads_past_end_witness :
  core_vcr_start_playback sample_host "run.m64"
    (with_file (header_image (short_header <| version := 2 |>)) (vcr_with task_idle default_hdr [] 0)) =
  Undef OutOfBounds.
Proof.
  apply (short_old_movie_reads_past_end _ _ _ (header_image (short_header <| version := 2 |>))).
  - done.
  - done.
  - apply (bytes_check 1024); vm_compute; done.
  - apply Nat.leb_le. vm_compute. done.
  - vm_compute. done.
  - right. vm_compute. done.
  - vm_compute. done.
  - vm_compute. done.
  - vm_compute. done.
Defined.

Lemma long_author_is_fatal_witness :
  core_vcr_start_record sample_host "run.m64" MOVIE_START_FROM_NOTHING (replicate 222 65) [] idle_state =
  Undef InvalidParameter.
Proof.
  apply long_author_is_fatal.
  - apply idle_can_record.
  - apply sample_host_ok.
  - done.
  - by left.
  - simpl. lia.
  - intros Hin. by apply elem_of_replicate in Hin as [? _].
Defined.
