(* ===== verification/VcrSafety.v ===== *)
(** * The movie in memory stays consistent

    The invariant of the engine: the header can be written as it is, announces no
    more samples than are in memory, and everything on disk is bytes.  Every call
    into the engine, every poll and every piece of deferred work keeps it, and so
    does what happens around the engine; in every state that can be reached the
    movie can be frozen into a savestate. *)

From Stdlib Require Import Strings.String Strings.Ascii.
From S2P Require Import Prelude Controller Hoare Path Cheats Movie MovieProps VcrState Vcr VcrFacts VcrProps VcrStart.

Open Scope prog_scope.
#[local] Open Scope Z_scope.

(** ** The invariant *)

(** A movie section whose position fits its field. *)
Definition freeze_wf (fz : core_vcr_freeze_info) : Prop := is_u32 (freeze_current_sample fz).

Definition section_wf (o : option core_vcr_freeze_info) : Prop :=
  match o with Some fz => freeze_wf fz | None => True end.

Definition buffer_wf (b : st_buffer) : Prop :=
  match b with StBuf o => section_wf o | StEmpty => True end.

(** Submitted work that carries a savestate carries a well-formed one. *)
Definition async_wf (a : async) : Prop :=
  match a with ALoadBuffer b => buffer_wf b | _ => True end.

Definition disk_wf (f : files) : Prop := map_Forall (fun _ b => Forall is_u8 b) f.

(** Everything but the number of samples. *)
Record parts_wf (h : core_vcr_movie_header) (f : files) (cs : list core_controller)
    (m : gmap Z st_buffer) (p : list async) : Prop := {
  pw_header : header_wf h;
  pw_disk : disk_wf f;
  pw_controls : length cs = 4%nat;
  pw_savestates : map_Forall (fun _ b => buffer_wf b) m;
  pw_pending : Forall async_wf p
}.

Definition well_formed (s : vcr) : Prop :=
  parts_wf (g_header s) (fs s) (controls s) (g_seek_savestates s) (pending s).
Definition samples_held (h : core_vcr_movie_header) (inputs : list Z) : Prop :=
  length_samples h <= Z.of_nat (length inputs).
Definition consistent (s : vcr) : Prop :=
  parts_wf (g_header s) (fs s) (controls s) (g_seek_savestates s) (pending s) /\
  samples_held (g_header s) (g_movie_inputs s).

Lemma parts_header h h' f cs m p : parts_wf h f cs m p -> header_wf h' -> parts_wf h' f cs m p.
Proof. intros [] ?. by constructor. Qed.
Lemma parts_disk h f f' cs m p : parts_wf h f cs m p -> disk_wf f' -> parts_wf h f' cs m p.
Proof. intros [] ?. by constructor. Qed.
Lemma parts_savestates h f cs m m' p :
  parts_wf h f cs m p -> map_Forall (fun _ b => buffer_wf b) m' -> parts_wf h f cs m' p.
Proof. intros [] ?. by constructor. Qed.
Lemma parts_pending h f cs m p p' : parts_wf h f cs m p -> Forall async_wf p' -> parts_wf h f cs m p'.
Proof. intros [] ?. by constructor. Qed.

(** The image of a well-formed header consists of bytes. *)
Lemma u8_app (a b : list Z) : Forall is_u8 a -> Forall is_u8 b -> Forall is_u8 (a ++ b).
Proof. intros. by apply Forall_app. Qed.
Create HintDb u8.
#[local] Hint Resolve u8_app le_split_bytes : u8.

Lemma header_image_u8 h : header_wf h -> Forall is_u8 (header_image h).
Proof.
  intros []. destruct wf_extended as [[]].
  repeat match goal with H : bytes _ _ |- _ => destruct H as [_ ?] end.
  unfold header_image, header_prefix, extended_image. auto 60 with u8.
Qed.

Lemma samples_image_u8 l : Forall is_u8 (samples_image l).
Proof. unfold samples_image. induction l as [|x l IH]; [constructor|]. cbn [map concat]. auto with u8. Qed.

Lemma strip_extended_wf h : header_wf h -> header_wf (strip_extended h).
Proof.
  intros []. destruct wf_extended. constructor; try done; try by apply fits_check.
  constructor; try done. by apply bytes_check.
Qed.

Lemma movie_image_u8 (b : bool) h l :
  header_wf h -> Forall is_u8 (header_image (if b then h else strip_extended h) ++ samples_image l).
Proof.
  intros Hw. apply u8_app; [|apply samples_image_u8].
  apply header_image_u8. destruct b; [done|by apply strip_extended_wf].
Qed.

Lemma bytes_of_string_u8 s : Forall is_u8 (bytes_of_string s).
Proof.
  unfold bytes_of_string. apply Forall_map, Forall_true. intros c. unfold is_u8, compose.
  pose proof (nat_ascii_bounded c). lia.
Qed.

(** ** Operations on other parts of the state *)

(** The host answers with bytes and with movie sections as they are stored. *)
Record host_wf (H : host) : Prop := {
  hw_ok : host_ok H;
  hw_image : Forall is_u8 (savestate_image H);
  hw_sections : forall p, section_wf (movie_section H p)
}.

Lemma keeps_call c : keeps consistent (call c).
Proof. by apply keeps_modify. Qed.
Lemma keeps_submit a : async_wf a -> keeps consistent (submit_task a).
Proof.
  intros Ha. apply keeps_modify. intros s [Hp Hl]. split; [|exact Hl]. apply (parts_pending _ _ _ _ _ _ Hp).
  apply Forall_app. split; [apply Hp|by apply Forall_singleton].
Qed.
Lemma keeps_cfg f : keeps consistent (on_cfg f).
Proof. by apply keeps_modify. Qed.
Lemma keeps_cheats {A} (m : M cheat_state A) : keeps consistent (on_cheats m).
Proof. intros s Hs. unfold on_cheats. by destruct (m (cheats s)) as [[a c]|]. Qed.
#[local] Hint Resolve keeps_call keeps_submit keeps_cfg keeps_cheats : keeps.
#[local] Hint Extern 1 (async_wf _) => exact I : keeps.

Lemma keeps_header f P :
  (forall h, header_wf h -> header_wf (f h) /\ length_samples (f h) = length_samples h) ->
  P = consistent -> keeps P (on_header f).
Proof.
  intros Hf ->. apply keeps_modify. intros s [Hp Hl].
  destruct (Hf (g_header s) (pw_header _ _ _ _ _ Hp)) as [Hw Hn].
  split; [exact (parts_header _ _ _ _ _ _ Hp Hw)|].
  unfold samples_held. change (length_samples (f (g_header s)) <= Z.of_nat (length (g_movie_inputs s))).
  by rewrite Hn.
Qed.

(** A change of the files. *)
Lemma keeps_files P (g : files -> files) :
  P = consistent \/ P = well_formed ->
  (forall f, disk_wf f -> disk_wf (g f)) -> keeps P (on_fs (modify g)).
Proof.
  intros [->| ->] Hg s; unfold consistent, well_formed.
  - intros [Hp Hl]. split; [|exact Hl]. apply (parts_disk _ (fs s)); [exact Hp|]. apply Hg, Hp.
  - intros Hp. apply (parts_disk _ (fs s)); [exact Hp|]. apply Hg, Hp.
Qed.

Lemma disk_insert p b f : disk_wf f -> Forall is_u8 b -> disk_wf (<[p := b]> f).
Proof. intros Hf Hb. by apply map_Forall_insert_2. Qed.
Lemma disk_delete p f : disk_wf f -> disk_wf (delete p f).
Proof. apply map_Forall_delete. Qed.

(** ** Writing the movie *)

Section Operations.
Context (H : host) (HW : host_wf H).

(** Writing needs the header only, not that the samples are there. *)
Lemma keeps_write_movie_to P path :
  P = consistent \/ P = well_formed -> keeps P (write_movie_to H path).
Proof.
  intros HP s Hs. unfold write_movie_to. rewrite bind_get_l. unfold on_fs, write_movie_impl.
  assert (header_wf (g_header s) /\ disk_wf (fs s)) as [Hh Hd]
    by (destruct HP as [->| ->]; [destruct Hs as [Hs _]|]; by destruct Hs).
  destruct (can_open H path); [|by destruct HP as [->| ->]]. cbn [negb].
  match goal with |- context [if ?b then undef _ else _] => destruct b; [done|] end.
  set (b := _ ++ _). assert (disk_wf (<[path := b]> (fs s))) as Hd'
    by (apply disk_insert; [done|by apply movie_image_u8]).
  clearbody b. cbn. destruct HP as [->| ->].
  - destruct Hs as [Hp Hl]. split; [exact (parts_disk _ _ _ _ _ _ Hp Hd')|exact Hl].
  - exact (parts_disk _ _ _ _ _ _ Hs Hd').
Qed.

Lemma keeps_write_movie : keeps consistent (write_movie H).
Proof. unfold write_movie. keeps_auto. apply keeps_write_movie_to. by left. Qed.

Lemma keeps_write_backup P :
  P = consistent \/ P = well_formed -> keeps P (write_backup_impl H).
Proof. intros HP. unfold write_backup_impl. apply keeps_get. intros s _. by apply keeps_write_movie_to. Qed.

#[local] Hint Resolve keeps_write_movie : keeps.

Lemma freeze_section : triple consistent (core_vcr_freeze H) (fun r s => section_wf r /\ consistent s).
Proof.
  unfold core_vcr_freeze. apply triple_get. intros s0 Hs. destruct (task_eqb _ _).
  { apply triple_ret. by intros s ->. }
  destruct (_ <? _); [done|]. apply triple_bind with (fun _ => consistent).
  - eapply triple_conseq; [apply keeps_write_movie|by intros ? ->|done].
  - intros _. apply triple_ret. intros s Hc. split; [|done]. apply u32_range.
Qed.

Lemma keeps_freeze : keeps consistent (core_vcr_freeze H).
Proof. eapply triple_conseq; [apply freeze_section|done|by intros ? ? [_ ?]]. Qed.

(** In a consistent state there is always enough to freeze. *)
Lemma freeze_succeeds s : consistent s -> exists r s', core_vcr_freeze H s = Ret (r, s').
Proof.
  intros [_ Hl]. unfold core_vcr_freeze. rewrite bind_get_l. destruct (task_eqb _ _); [by do 2 eexists|].
  rewrite (proj2 (Z.ltb_ge _ _)) by exact Hl. unfold write_movie. rewrite bind_assoc, bind_get_l.
  destruct (vcr_is_task_recording (g_task s)); cbn [negb]; [|by do 2 eexists].
  destruct (can_open H (g_movie_path s)) eqn:Ho.
  - rewrite (bind_Ret _ _ _ _ _ (write_movie_to_ok H _ s Ho Hl)). by do 2 eexists.
  - unfold write_movie_to. rewrite bind_assoc, bind_get_l. unfold on_fs, write_movie_impl. rewrite Ho.
    do 2 eexists. reflexivity.
Qed.

(** ** Stopping, seek savestates *)

Lemma keeps_savestates g :
  (forall m, map_Forall (fun _ b => buffer_wf b) m -> map_Forall (fun _ b => buffer_wf b) (g m)) ->
  keeps consistent (modify (fun s => s <| g_seek_savestates := g (g_seek_savestates s) |>)).
Proof.
  intros Hg. apply keeps_modify. intros s [Hp Hl]. split; [|exact Hl].
  apply (parts_savestates _ _ _ _ _ _ Hp). apply Hg, Hp.
Qed.

Lemma keeps_call_all cs : keeps consistent (call_all cs).
Proof. induction cs; cbn [call_all]; keeps_auto. Qed.
#[local] Hint Resolve keeps_call_all keeps_freeze : keeps.

Lemma keeps_clear : keeps consistent vcr_clear_seek_savestates.
Proof.
  unfold vcr_clear_seek_savestates. apply keeps_get. intros s _. apply keeps_bind; [|intros; keeps_auto].
  apply (keeps_savestates (fun _ => ∅)). intros. apply map_Forall_empty.
Qed.

Lemma keeps_broadcast : keeps consistent broadcast_task.
Proof. unfold broadcast_task. keeps_auto. Qed.
Lemma keeps_stop_seek : keeps consistent core_vcr_stop_seek.
Proof. unfold core_vcr_stop_seek. keeps_auto. Qed.
Lemma keeps_pause : keeps consistent core_vr_pause_emu.
Proof. unfold core_vr_pause_emu. keeps_auto. Qed.
Lemma keeps_resume : keeps consistent core_vr_resume_emu.
Proof. unfold core_vr_resume_emu. keeps_auto. Qed.
#[local] Hint Resolve keeps_clear keeps_broadcast keeps_stop_seek keeps_pause keeps_resume : keeps.

Lemma keeps_stop_record : keeps consistent (vcr_stop_record H).
Proof.
  unfold vcr_stop_record. keeps_auto. apply keeps_files; [by left|]. intros f Hf. by apply disk_delete, disk_delete.
Qed.
#[local] Hint Resolve keeps_stop_record : keeps.

Lemma keeps_stop_playback : keeps consistent vcr_stop_playback.
Proof. unfold vcr_stop_playback. keeps_auto. Qed.
#[local] Hint Resolve keeps_stop_playback : keeps.

Lemma keeps_stop_all : keeps consistent (core_vcr_stop_all H).
Proof. unfold core_vcr_stop_all, setkeys_with_zero. keeps_auto. Qed.
#[local] Hint Resolve keeps_stop_all : keeps.

Lemma keeps_purge : keeps consistent purge_oldest.
Proof.
  unfold purge_oldest. keeps_auto. apply (keeps_savestates (fun m => delete _ m)). intros. by apply map_Forall_delete.
Qed.
#[local] Hint Resolve keeps_purge : keeps.

Lemma keeps_save_seek frame r buf : buffer_wf buf -> keeps consistent (save_seek_callback frame r buf).
Proof.
  intros Hb. unfold save_seek_callback. keeps_auto.
  apply (keeps_savestates (fun m => <[frame := buf]> m)). intros. by apply map_Forall_insert_2.
Qed.

Lemma keeps_n_frame frame : keeps consistent (vcr_create_n_frame_savestate frame).
Proof. unfold vcr_create_n_frame_savestate. keeps_auto. Qed.
#[local] Hint Resolve keeps_n_frame : keeps.

Lemma keeps_create_seek : keeps consistent vcr_create_seek_savestates.
Proof. unfold vcr_create_seek_savestates. keeps_auto. Qed.
Lemma keeps_stop_seek_if_needed : keeps consistent vcr_stop_seek_if_needed.
Proof. unfold vcr_stop_seek_if_needed. keeps_auto. Qed.
Lemma keeps_starting_tasks : keeps consistent vcr_handle_starting_tasks.
Proof. unfold vcr_handle_starting_tasks. keeps_auto. Qed.
#[local] Hint Resolve keeps_create_seek keeps_stop_seek_if_needed keeps_starting_tasks : keeps.

(** ** Changing the samples *)

Lemma with_length_wf h n : header_wf h -> is_u32 n -> header_wf (h <| length_samples := n |>).
Proof. intros [] Hn. by constructor. Qed.

Lemma header_length_nonneg h : header_wf h -> 0 <= length_samples h.
Proof. intros []. unfold fits in *. lia. Qed.

(** The recorded sample is appended before it is counted. *)
Lemma keeps_append v :
  keeps consistent
    (modify (fun s => s <| g_movie_inputs := g_movie_inputs s ++ [v] |>) ;;;
     on_header (fun h => h <| length_samples := u32 (length_samples h + 1) |>)).
Proof.
  intros s [Hp Hl]. unfold on_header. rewrite bind_modify_l. cbn. split.
  - apply (parts_header _ _ _ _ _ _ Hp), with_length_wf; [apply Hp|apply u32_range].
  - unfold samples_held in *. cbn. pose proof (header_length_nonneg _ (pw_header _ _ _ _ _ Hp)).
    rewrite length_app. simpl. unfold u32.
    pose proof (Z.mod_le (length_samples (g_header s) + 1) 4294967296). lia.
Qed.

Lemma keeps_replace_inputs l : keeps consistent (replace_inputs l).
Proof.
  intros s [Hp Hl]. unfold replace_inputs, on_header. rewrite bind_modify_l. cbn. split.
  - apply (parts_header _ _ _ _ _ _ Hp), with_length_wf; [apply Hp|apply u32_range].
  - unfold samples_held. cbn. apply Z.mod_le; lia.
Qed.

Lemma keeps_input_at i : keeps consistent (input_at i).
Proof. unfold input_at. keeps_auto. Qed.
Lemma keeps_get_keys p i : keeps consistent (input_get_keys p i).
Proof. unfold input_get_keys. keeps_auto. Qed.
#[local] Hint Resolve keeps_append keeps_replace_inputs keeps_input_at keeps_get_keys : keeps.

Lemma keeps_handle_recording p i v : keeps consistent (vcr_handle_recording p i v).
Proof. unfold vcr_handle_recording. keeps_auto. Qed.
#[local] Hint Resolve keeps_handle_recording : keeps.

Lemma set_rerecord_wf v h : header_wf h -> header_wf (set_rerecord_count v h).
Proof.
  intros []. constructor; try done.
  - change (fits 4 (Z.land v 0xFFFFFFFF)). change 0xFFFFFFFF with (Z.ones 32).
    rewrite Z.land_ones by lia. apply Z.mod_pos_bound. lia.
  - destruct wf_extended. constructor; try done. apply u32_range.
Qed.

Lemma keeps_rom_info : keeps consistent (update_rom_info H).
Proof.
  intros s [Hp Hl]. unfold update_rom_info. rewrite bind_get_l.
  destruct (set_rom_info_wf H s (g_header s) (hw_ok _ HW) (pw_header _ _ _ _ _ Hp) (pw_controls _ _ _ _ _ Hp))
    as (h & -> & Hw & _ & _ & _ & _ & Hn & _).
  split; [exact (parts_header _ _ _ _ _ _ Hp Hw)|]. unfold samples_held. cbn. by rewrite Hn.
Qed.

(** The end of a rewind: between the two changes only the rest of the invariant holds. *)
Lemma keeps_cut fz (b : bool) :
  freeze_wf fz ->
  keeps consistent
    (on_header (fun h => h <| length_samples := freeze_current_sample fz |>) ;;;
     when b (write_backup_impl H ;;; ret tt) ;;;
     (if Z.of_nat (length (freeze_input_buffer fz)) <? freeze_current_sample fz
      then undef OutOfBounds
      else modify (fun s => s <| g_movie_inputs :=
             take (Z.to_nat (freeze_current_sample fz)) (freeze_input_buffer fz) |>)) ;;;
     write_movie H ;;; ret tt).
Proof.
  intros Hf. set (n := freeze_current_sample fz).
  assert (forall (P : vcr -> Prop) path, P = (fun s => well_formed s /\ length_samples (g_header s) = n) ->
            keeps P (write_movie_to H path)) as Hw.
  { intros P path -> s [Hs Hn]. pose proof (keeps_write_movie_to well_formed path (or_intror eq_refl) s Hs) as Hk.
    unfold write_movie_to in *. rewrite bind_get_l in *. unfold on_fs in *.
    destruct (write_movie_impl _ _ _ _ _ _) as [[r f]|]; [|done]. by split. }
  apply triple_bind with (fun _ s => well_formed s /\ length_samples (g_header s) = n).
  { apply triple_modify. intros s [Hp _]. split; [|done].
    apply (parts_header _ _ _ _ _ _ Hp), with_length_wf; [apply Hp|done]. }
  intros _. apply triple_bind with (fun _ s => well_formed s /\ length_samples (g_header s) = n).
  { apply keeps_when, keeps_bind; [|intros; apply keeps_ret]. unfold write_backup_impl.
    apply keeps_get. intros s _. by apply Hw. }
  intros _. apply triple_bind with (fun _ => consistent).
  2: { intros _. apply keeps_bind; [apply keeps_write_movie|intros; apply keeps_ret]. }
  destruct (Z.ltb_spec (Z.of_nat (length (freeze_input_buffer fz))) n); [done|].
  apply triple_modify. intros s [Hs Hn]. split; [exact Hs|]. unfold samples_held. cbn. rewrite Hn.
  rewrite length_take. unfold freeze_wf, is_u32 in Hf. fold n in Hf. lia.
Qed.
#[local] Hint Resolve keeps_rom_info keeps_cut : keeps.

Lemma keeps_unfreeze fz : freeze_wf fz -> keeps consistent (core_vcr_unfreeze H fz).
Proof.
  intros Hf. unfold core_vcr_unfreeze, unfreeze_recording, unfreeze_playback. keeps_auto.
  apply keeps_header; [|done]. intros h Hh. split; [by apply set_rerecord_wf|done].
Qed.
#[local] Hint Resolve keeps_unfreeze : keeps.

(** ** Starting *)

Lemma keeps_write_cheats path : keeps consistent (write_movie_cheats H path).
Proof.
  unfold write_movie_cheats. keeps_auto. apply keeps_files; [by left|]. intros f Hf.
  apply disk_insert; [done|apply bytes_of_string_u8].
Qed.

Lemma keeps_start_recording_callback r : keeps consistent (start_recording_callback H r).
Proof. unfold start_recording_callback. keeps_auto. Qed.
#[local] Hint Resolve keeps_write_cheats keeps_start_recording_callback : keeps.

Lemma keeps_begin flags : keeps consistent (begin_recording H flags).
Proof.
  unfold begin_recording. keeps_auto. apply keeps_header; [|done]. intros h []. by split; [constructor|].
Qed.
#[local] Hint Resolve keeps_begin : keeps.

Lemma valid_start_range flags : valid_start_type flags = true -> 0 <= flags < 65536.
Proof.
  unfold valid_start_type, MOVIE_START_FROM_SNAPSHOT, MOVIE_START_FROM_NOTHING, MOVIE_START_FROM_EEPROM,
    MOVIE_START_FROM_EXISTING_SNAPSHOT. lia.
Qed.

(** The fresh header announces nothing, and the inputs are cleared next. *)
Lemma keeps_fresh s0 flags {A} (k : M vcr A) :
  0 <= flags < 65536 -> keeps consistent k ->
  keeps consistent (on_header (fun _ => fresh_header s0 flags) ;;;
                    modify (fun s => s <| g_movie_inputs := [] |>) ;;; k).
Proof.
  intros Hf Hk s [Hp _]. unfold on_header. rewrite !bind_modify_l. apply Hk. split.
  - exact (parts_header _ _ _ _ _ _ Hp (fresh_header_wf s0 flags Hf)).
  - unfold samples_held. cbn. lia.
Qed.

Lemma keeps_texts a d a' d' :
  Forall is_u8 a -> Forall is_u8 d -> fill_text 222 a = Some a' -> fill_text 256 d = Some d' ->
  keeps consistent (on_header (fun h => h <| author := a' |> <| description := d' |>)).
Proof.
  intros Ha Hd Ea Ed. apply keeps_header; [|done]. intros h []. split; [|done]. constructor; try done.
  - exact (fill_text_bytes _ _ _ Ha Ea).
  - exact (fill_text_bytes _ _ _ Hd Ed).
Qed.

Lemma keeps_start_record path flags a d :
  Forall is_u8 a -> Forall is_u8 d -> keeps consistent (core_vcr_start_record H path flags a d).
Proof.
  intros Ha Hd. unfold core_vcr_start_record. destruct (valid_start_type flags) eqn:Hv; cbn [negb]; [|keeps_auto].
  assert (Forall is_u8 (text_or no_author a) /\ Forall is_u8 (text_or no_description d)) as [Ha' Hd']
    by (split; [destruct a|destruct d]; try done; apply bytes_of_string_u8).
  fold (text_or no_author a) (text_or no_description d).
  repeat lazymatch goal with
  | |- keeps _ (bind (on_header (fun _ => fresh_header _ _)) _) =>
      apply keeps_fresh; [by apply valid_start_range|]
  | |- keeps _ (on_header _) => by eapply (keeps_texts _ _ _ _ Ha' Hd')
  | _ => first [keep_step | solve [eauto 3 with keeps]]
  end.
Qed.
#[local] Hint Resolve keeps_start_record : keeps.

Lemma keeps_controller_warnings i cs flags : keeps consistent (controller_warnings i cs flags).
Proof.
  revert i. induction cs as [|c cs IH]; intros i; cbn [controller_warnings]; unfold controller_warning; keeps_auto.
Qed.
#[local] Hint Resolve keeps_controller_warnings : keeps.

Lemma length_samples_of n l : length (samples_of n l) = n.
Proof. revert l. induction n as [|n IH]; intros l; [done|]. cbn. by rewrite IH. Qed.

Lemma keeps_install path h vs :
  header_wf h -> samples_held h vs -> keeps consistent (install_movie H path h vs).
Proof.
  intros Hw Hl. unfold install_movie. keeps_auto.
  apply keeps_modify. intros s [Hp _]. split; [|exact Hl]. exact (parts_header _ _ _ _ _ _ Hp Hw).
Qed.

Lemma read_file_u8 f path : disk_wf f -> Forall is_u8 (read_file_buffer f path).
Proof.
  intros Hf. unfold read_file_buffer. destruct (f !! path) as [b|] eqn:E; [|constructor].
  exact (Hf path b E).
Qed.

(** What a file gives has at least the samples its header announces in memory. *)
Lemma loaded_held h l : samples_held h (samples_of (Z.to_nat (length_samples h)) l).
Proof. unfold samples_held. rewrite length_samples_of. lia. Qed.

Lemma keeps_push_cheats path : keeps consistent (push_movie_cheats H path).
Proof. unfold push_movie_cheats. keeps_auto. Qed.
Lemma keeps_start_rom path : keeps consistent (core_vr_start_rom H path).
Proof. unfold core_vr_start_rom. keeps_auto. Qed.
Lemma keeps_extended_accepted s h : keeps consistent (extended_accepted H s h).
Proof. unfold extended_accepted. keeps_auto. Qed.
Lemma keeps_ensure path : keeps consistent (ensure_core_executing H path).
Proof. unfold ensure_core_executing. apply keeps_get. intros s _. destruct (core_executing s); [keeps_auto|]. apply keeps_start_rom. Qed.
Lemma keeps_show_warning h : keeps consistent (show_controller_warning h).
Proof. unfold show_controller_warning. keeps_auto. Qed.
#[local] Hint Resolve keeps_push_cheats keeps_extended_accepted keeps_ensure keeps_show_warning
  keeps_install loaded_held : keeps.

Lemma keeps_start_playback path : keeps consistent (core_vcr_start_playback H path).
Proof.
  unfold core_vcr_start_playback. apply keeps_get. intros s [Hp _].
  pose proof (read_file_u8 (fs s) path (pw_disk _ _ _ _ _ Hp)) as Hb.
  destruct (read_file_buffer (fs s) path) as [|b buf] eqn:E; [keeps_auto|]. rewrite <- E in *.
  pose proof (read_header_accepted (read_file_buffer (fs s) path) default_hdr Hb) as Ha.
  apply keeps_bind; [keeps_auto|]. intros r. destruct (negb (is_ok r)); [keeps_auto|].
  destruct (read_movie_header _ _) as [r' h]. destruct (is_ok r'); cbn [negb]; [|keeps_auto].
  destruct Ha as [[Hw _] _]. keeps_auto.
Qed.
#[local] Hint Resolve keeps_start_playback : keeps.

(** ** Polls, seeking, warp modify *)

Lemma keeps_handle_playback p i v : keeps consistent (vcr_handle_playback H p i v).
Proof. unfold vcr_handle_playback. keeps_auto. Qed.
#[local] Hint Resolve keeps_handle_playback : keeps.

Lemma keeps_poll p i v : keeps consistent (vcr_on_controller_poll H p i v).
Proof. unfold vcr_on_controller_poll. keeps_auto. Qed.

Lemma keeps_erase l : keeps consistent (erase_savestates l).
Proof.
  induction l as [|k l IH]; cbn [erase_savestates]; keeps_auto.
  apply (keeps_savestates (fun m => delete k m)). intros. by apply map_Forall_delete.
Qed.
#[local] Hint Resolve keeps_erase : keeps.

Lemma keeps_load_closest t : keeps consistent (load_closest t).
Proof. unfold load_closest. keeps_auto. Qed.
Lemma keeps_erase_from t : keeps consistent (erase_from t).
Proof. unfold erase_from. keeps_auto. Qed.
#[local] Hint Resolve keeps_load_closest keeps_erase_from : keeps.

Lemma keeps_seek_impl str a b c : keeps consistent (vcr_begin_seek_impl H str a b c).
Proof. unfold vcr_begin_seek_impl, seek_back_playback, seek_back_recording. keeps_auto. Qed.
#[local] Hint Resolve keeps_seek_impl : keeps.

Lemma keeps_warp l : keeps consistent (core_vcr_begin_warp_modify H l).
Proof. unfold core_vcr_begin_warp_modify, set_warp_modify. keeps_auto. Qed.

Lemma keeps_vi : keeps consistent vcr_on_vi.
Proof.
  unfold vcr_on_vi. keeps_auto. apply keeps_header; [|done]. intros h []. split; [|done].
  constructor; try done. apply u32_range.
Qed.

(** ** Deferred work *)

Lemma keeps_st_load o b : section_wf o -> keeps consistent (st_load H o b).
Proof. intros Ho. unfold st_load. destruct o as [fz|]; keeps_auto. Qed.
#[local] Hint Resolve keeps_st_load : keeps.

Lemma keeps_callbacks r t :
  keeps consistent (reset_callback H r t) /\ keeps consistent (user_reset_callback r) /\
  keeps consistent (movie_reset_callback H r) /\ keeps consistent (start_playback_callback H r) /\
  keeps consistent (load_seek_callback r).
Proof.
  unfold reset_callback, user_reset_callback, movie_reset_callback, start_playback_callback,
    load_seek_callback. split_and!; keeps_auto.
Qed.

Lemma keeps_load_seek key r :
  keeps consistent (run_async H (ALoadSeek key) r).
Proof.
  cbn [run_async]. apply keeps_get. intros s [Hp _].
  assert (buffer_wf (default StEmpty (g_seek_savestates s !! key))) as Hb.
  { destruct (_ !! key) as [b|] eqn:E; [|done]. exact (pw_savestates _ _ _ _ _ Hp key b E). }
  set (buf := default StEmpty _) in *. clearbody buf. apply keeps_bind.
  - apply (keeps_savestates (fun m => <[key := buf]> m)). intros. by apply map_Forall_insert_2.
  - intros _. destruct (core_executing s); [by apply keeps_submit|apply (keeps_callbacks _ task_idle)].
Qed.

Lemma keeps_load_buffer buf r : buffer_wf buf -> keeps consistent (run_async H (ALoadBuffer buf) r).
Proof.
  intros Hb. cbn [run_async]. apply keeps_bind; [|intros; apply (keeps_callbacks _ task_idle)]. destruct buf; keeps_auto.
Qed.

Lemma keeps_save_seek_work frame r : keeps consistent (run_async H (ASaveSeek frame) r).
Proof.
  cbn [run_async]. apply triple_bind with (fun o s => section_wf o /\ consistent s).
  { apply freeze_section. }
  intros o s [Ho Hs]. by apply keeps_save_seek.
Qed.

Lemma keeps_async a r : async_wf a -> keeps consistent (run_async H a r).
Proof.
  intros Ha.
  pose proof (hw_sections _ HW) as Hsec.
  assert (forall r t, keeps consistent (reset_callback H r t)) as H1 by (intros; apply keeps_callbacks).
  assert (forall r, keeps consistent (start_playback_callback H r)) as H2
    by (intros; apply (keeps_callbacks _ task_idle)).
  destruct a as [| | | |path|path|path|frame|key|buf];
    [..|apply keeps_save_seek_work|apply keeps_load_seek|by apply keeps_load_buffer];
    cbn [run_async].
  - apply H1.
  - apply H1.
  - apply (keeps_callbacks _ task_idle).
  - apply (keeps_callbacks _ task_idle).
  - keeps_auto. apply keeps_files; [by left|]. intros f Hf. apply disk_insert; [done|exact (hw_image _ HW)].
  - keeps_auto.
  - keeps_auto.
Qed.

Lemma keeps_pending r : keeps consistent (run_pending H r).
Proof.
  unfold run_pending. apply triple_get. intros s Hs. destruct (pending s) as [|a rest] eqn:E; [by intros ? ->|].
  pose proof (pw_pending _ _ _ _ _ (proj1 Hs)) as Hf. rewrite E in Hf. apply Forall_cons in Hf as [Ha Hr].
  apply triple_bind with (fun _ => consistent); [|intros _; by apply keeps_async].
  apply triple_modify. intros s' ->. destruct Hs as [Hp Hl]. split; [|exact Hl]. by apply (parts_pending _ _ _ _ _ _ Hp).
Qed.
End Operations.

(** ** Runs of the engine *)

Section Runs.
Context (H : host).

(** What happens around the engine: the user and the host change the
    configuration, the controllers, the cheats, the files and the emulator's
    state, ask for a reset, and time passes; the engine's own variables stay. *)
Record surroundings (s s' : vcr) : Prop := {
  sr_task : g_task s' = g_task s;
  sr_header : g_header s' = g_header s;
  sr_inputs : g_movie_inputs s' = g_movie_inputs s;
  sr_path : g_movie_path s' = g_movie_path s;
  sr_savestates : g_seek_savestates s' = g_seek_savestates s;
  sr_controls : length (controls s') = 4%nat;
  sr_files : disk_wf (fs s');
  sr_pending : Forall async_wf (pending s')
}.

(** One call into the engine, with the state it returns in. *)
Inductive vcr_step : vcr -> vcr -> Prop :=
| step_poll p i v s r s' : vcr_on_controller_poll H p i v s = Ret (r, s') -> vcr_step s s'
| step_vi s r s' : vcr_on_vi s = Ret (r, s') -> vcr_step s s'
| step_start_record path flags a d s r s' :
    Forall is_u8 a -> Forall is_u8 d ->
    core_vcr_start_record H path flags a d s = Ret (r, s') -> vcr_step s s'
| step_start_playback path s r s' : core_vcr_start_playback H path s = Ret (r, s') -> vcr_step s s'
| step_stop s r s' : core_vcr_stop_all H s = Ret (r, s') -> vcr_step s s'
| step_freeze s r s' : core_vcr_freeze H s = Ret (r, s') -> vcr_step s s'
| step_unfreeze fz s r s' :
    freeze_wf fz -> core_vcr_unfreeze H fz s = Ret (r, s') -> vcr_step s s'
| step_seek str pause s r s' : core_vcr_begin_seek H str pause s = Ret (r, s') -> vcr_step s s'
| step_stop_seek s r s' : core_vcr_stop_seek s = Ret (r, s') -> vcr_step s s'
| step_warp inputs s r s' : core_vcr_begin_warp_modify H inputs s = Ret (r, s') -> vcr_step s s'
| step_backup s r s' : core_vcr_write_backup H s = Ret (r, s') -> vcr_step s s'
| step_deferred outcome s r s' : run_pending H outcome s = Ret (r, s') -> vcr_step s s'
| step_outside s s' : surroundings s s' -> vcr_step s s'.

(** The engine before its first call. *)
Record initial (s : vcr) : Prop := {
  in_task : g_task s = task_idle;
  in_header : g_header s = default_hdr;
  in_inputs : g_movie_inputs s = [];
  in_savestates : g_seek_savestates s = ∅;
  in_controls : length (controls s) = 4%nat;
  in_files : disk_wf (fs s);
  in_pending : pending s = []
}.

Definition reachable (s : vcr) : Prop := exists s0, initial s0 /\ rtc vcr_step s0 s.

Lemma initial_consistent s : initial s -> consistent s.
Proof.
  intros []. unfold consistent. rewrite in_header0, in_inputs0, in_savestates0, in_pending0. split.
  - constructor; try done. check_header.
  - unfold samples_held. vm_compute. done.
Qed.

Lemma surroundings_consistent s s' : surroundings s s' -> consistent s -> consistent s'.
Proof.
  intros [] [[] Hl]. unfold consistent. rewrite sr_header0, sr_inputs0, sr_savestates0.
  split; [|done]. by constructor.
Qed.

Lemma step_consistent s s' : host_wf H -> vcr_step s s' -> consistent s -> consistent s'.
Proof.
  intros HW St Hs. destruct St.
  - eapply keeps_run; [|exact Hs|eassumption]. by apply keeps_poll.
  - eapply keeps_run; [|exact Hs|eassumption]. by apply keeps_vi.
  - eapply keeps_run; [|exact Hs|eassumption]. by apply keeps_start_record.
  - eapply keeps_run; [|exact Hs|eassumption]. by apply keeps_start_playback.
  - eapply keeps_run; [|exact Hs|eassumption]. by apply keeps_stop_all.
  - eapply keeps_run; [|exact Hs|eassumption]. by apply keeps_freeze.
  - eapply keeps_run; [|exact Hs|eassumption]. by apply keeps_unfreeze.
  - eapply keeps_run; [|exact Hs|eassumption]. by apply keeps_seek_impl.
  - eapply keeps_run; [|exact Hs|eassumption]. by apply keeps_stop_seek.
  - eapply keeps_run; [|exact Hs|eassumption]. by apply keeps_warp.
  - eapply keeps_run; [|exact Hs|eassumption]. apply keeps_bind; [|intros; apply keeps_ret].
    apply keeps_write_backup. by left.
  - eapply keeps_run; [|exact Hs|eassumption]. by apply keeps_pending.
  - by eapply surroundings_consistent.
Qed.

Lemma reachable_consistent s : host_wf H -> reachable s -> consistent s.
Proof.
  intros HW (s0 & Hi & Hr). apply initial_consistent in Hi. revert Hi.
  induction Hr as [|s s1 s' St Hr IH]; [done|]. intros Hs. by apply IH, (step_consistent s).
Qed.

(** C4.  The movie in memory is consistent in every state reached between calls,
    whatever the order of calls, polls, deferred work and outside changes that return:
    the header is well-formed and announces no more samples than the input vector
    holds, and every file consists of bytes; so freezing the movie into a savestate and
    [core_vcr_write_backup], called in such a state, return and do not read outside the
    vector.  (The backup made inside [core_vcr_unfreeze] is not one of these: there the
    header is already cut, and the call may read outside, [backup_is_truncated].) *)
Theorem reachable_movie_consistent s :
  host_wf H -> reachable s ->
  header_wf (g_header s) /\
  length_samples (g_header s) <= Z.of_nat (length (g_movie_inputs s)) /\
  disk_wf (fs s) /\
  (exists r s', core_vcr_freeze H s = Ret (r, s')) /\
  (exists r s', core_vcr_write_backup H s = Ret (r, s')).
Proof.
  intros HW Hr. pose proof (reachable_consistent s HW Hr) as Hc.
  pose proof (freeze_succeeds H s Hc) as Hf. destruct Hc as [[] Hl].
  do 3 (split; [done|]). split; [done|].
  unfold core_vcr_write_backup, write_backup_impl. rewrite bind_assoc, bind_get_l.
  destruct (can_open H (backup_path H s)) eqn:Ho.
  - rewrite (bind_Ret _ _ _ _ _ (write_movie_to_ok H _ s Ho Hl)). by do 2 eexists.
  - unfold write_movie_to. rewrite bind_assoc, bind_get_l. unfold on_fs, write_movie_impl. rewrite Ho.
    do 2 eexists. reflexivity.
Qed.
End Runs.

Lemma sample_host_wf : host_wf sample_host.
Proof. constructor; [apply sample_host_ok|constructor|done]. Qed.

(** A recording begun from an idle engine. *)
Lemma reachable_movie_consistent_witness :
  exists s, reachable sample_host s /\ g_task s = task_start_recording_from_reset /\
    header_wf (g_header s) /\ length_samples (g_header s) <= Z.of_nat (length (g_movie_inputs s)).
Proof.
  destruct (core_vcr_start_record sample_host "run.m64" MOVIE_START_FROM_NOTHING [] [] idle_state)
    as [[r s]|f] eqn:E; [|exfalso; revert E; vm_compute; discriminate].
  assert (reachable sample_host s) as Hr.
  { exists idle_state. split; [by constructor|]. eapply rtc_once, step_start_record; [..|exact E]; constructor. }
  exists s. destruct (reachable_movie_consistent sample_host s sample_host_wf Hr) as (Hw & Hl & _).
  split; [done|]. split; [|done].
  change (g_task s) with (match Ret (r, s) with Ret (_, s) => g_task s | Undef _ => task_idle end).
  rewrite <- E. vm_compute. reflexivity.
Defined.
