(* ===== verification/Savestate.v ===== *)
(** * Savestates (savestates.cpp)

    What the emulator writes into a savestate and how it loads one, with the movie
    section the engine of [Vcr] freezes and unfreezes, and the queue of savestate
    tasks.  The state [session] joins the console ([core]) and the movie engine
    ([vcr]).  Log messages are left out. *)

From Stdlib Require Import Strings.String.
From stdpp Require Import sorting.
From S2P Require Import Prelude Queue Pool PoolRefines Machine Exception DeviceState Core Dma PifLut Pif SummerCart Cop SaveFormat Rom Path Cheats Movie VcrState Vcr.

Open Scope prog_scope.
#[local] Open Scope Z_scope.

(** ** The queue's image *)

Class SavedQueue (Q : Type) := {
  q_save : M Q (list Z);                (* save_eventqueue_infos *)
  q_load : Z -> list Z -> M Q unit;     (* core_Count, the buffer: load_eventqueue_infos *)
}.

#[export] Instance pool_saved : SavedQueue irq := {
  q_save := save_eventqueue_infos;
  q_load := load_eventqueue_infos;
}.

(** ** Tasks *)

Inductive core_st_job : Set := core_st_job_save | core_st_job_load.

(** The medium with its parameter. *)
Inductive core_st_medium : Set :=
| core_st_medium_path (path : string)
| core_st_medium_memory (buffer : list Z).

(** The callback of the undo point, or the one that wraps the caller's, if any. *)
Inductive st_callback : Set := CbUndo | CbCaller (callback : option Z).

Record t_savestate_task : Set := StTask {
  st_job : core_st_job;
  st_medium : core_st_medium;
  st_cb : st_callback;
  ignore_warnings : bool
}.

Definition ST_NotFound : core_result := OtherError 1.
Definition ST_FileWriteError : core_result := OtherError 2.
Definition ST_DecompressionError : core_result := OtherError 3.
Definition ST_EventQueueTooLong : core_result := OtherError 4.
Definition ST_InvalidRegisters : core_result := OtherError 5.

(** What the host is told, latest first. *)
Inductive st_call : Set :=
| StPreCallback (result : core_result) (job : core_st_job) (medium : core_st_medium) (buffer : list Z)
| StCallback (callback : Z) (result : core_result) (job : core_st_job) (medium : core_st_medium) (buffer : list Z)
| StSaved
| StLoaded
| StLoadScreen (video : list Z).

(** ** State and surroundings *)

(** [sd_states]: the files [save_summercart] and [load_summercart] keep beside
    savestates. *)
Record session (Q : Type) : Type := Session {
  ss_core : core Q;
  ss_vcr : vcr;
  g_tasks : list t_savestate_task;
  g_undo_savestate : list Z;
  sd_states : gmap string file;
  st_calls : list st_call
}.
Arguments Session {Q}.
Arguments ss_core {Q} _.
Arguments ss_vcr {Q} _.
Arguments g_tasks {Q} _.
Arguments g_undo_savestate {Q} _.
Arguments sd_states {Q} _.
Arguments st_calls {Q} _.
#[export] Instance session_eta Q : Eta (session Q) := fun s =>
  Session (ss_core s) (ss_vcr s) (g_tasks s) (g_undo_savestate s) (sd_states s) (st_calls s).

(** What the savestate engine asks of the rest: the loaded ROM's hash, the
    configuration, the video plugin, the compressor, and the answer to the question
    whether to load a state of another ROM.  [junk] is in the bytes of structures that
    belong to no member, the first argument tells the structures apart; [after_cop0] is
    what follows [reg_cop0] in memory. *)
Record st_host : Type := StHost {
  rom_md5 : list Z;
  st_screenshot : bool;
  st_undo_load : bool;
  mge_available : bool;
  video_size : Z * Z;
  video : list Z;
  gzip_compress : list Z -> list Z;
  gunzip : list Z -> list Z;
  load_other_rom : bool;
  sd_path : string;
  junk : Z -> nat -> Z;
  after_cop0 : Z
}.

Definition SCR : list Z := [0x53; 0x43; 0x52; 0].

(** Sizes of the parts of a savestate. *)
Definition RDRAM_BYTES : nat := Z.to_nat 0x800000.
Definition SP_BYTES : nat := Z.to_nat 0x1000.
Definition LUT_BYTES : nat := Z.to_nat 0x100000.
Definition FIRST_BLOCK : nat := Z.to_nat (0xA02BB4 - 32).

(** ** The pieces of the console's image *)

(** The 32 registers of coprocessor 0, as [reg_cop0] has them. *)
Definition cop0_registers (c : cop0) : list Z := map (fun i => reg_cop0 c (Z.of_nat i)) (seq 0 32).

Definition cop0_of (l : list Z) : cop0 :=
  let r (i : Z) := l !!! Z.to_nat i in
  mk_cop0 (r 0) (r 1) (r 2) (r 3) (r 4) (r 5) (r 6) (r 8) (r 9) (r 10) (r 11) (r 12) (r 13) (r 14) (r 15) (r 16) (r 17)
    (r 18) (r 19) (r 20) (r 26) (r 27) (r 28) (r 29) (r 30).

(** [vecwrite(b, reg_cop0 + i, 8)] takes the next register along. *)
Fixpoint save_cop0 (after : Z) (l : list Z) : list Z :=
  match l with
  | [] => []
  | v :: l => le_split 4 v ++ le_split 4 (hd after l) ++ save_cop0 after l
  end.

Fixpoint load_cop0 (n : nat) (l : list Z) : list Z :=
  match n with
  | O => []
  | S n => le_combine (take 4 l) :: load_cop0 n (drop 8 l)
  end.

(** The table's first entries as words, and writing them back. *)
Definition LUT_WORDS : nat := Z.to_nat 0x40000.
Definition lut_words (n : nat) (lut : gmap Z Z) : list Z := map (fun i => default 0 (lut !! Z.of_nat i)) (seq 0 n).
Definition store_words : Z -> list Z -> gmap Z Z -> gmap Z Z := store_bytes.

(** The array of TLB entries; each has its own unused bytes. *)
Fixpoint save_entries (junk : Z -> nat -> Z) (id : Z) (l : list tlb) : list Z :=
  match l with
  | [] => []
  | e :: l => save_cells (junk id) (layout (R := tlb)) (cells e) ++ save_entries junk (id + 1) l
  end.
Definition tlb_size : nat := sizeof (layout (R := tlb)).
Fixpoint load_entries (n : nat) (l : list Z) : list tlb :=
  match n with
  | O => []
  | S n => of_cells (load_cells (layout (R := tlb)) l) :: load_entries n (drop tlb_size l)
  end.

(** ** Checks of a loaded state *)

(** The loops of [check_flashram_infos]: [i] is an [int32_t], the bound unsigned. *)
Fixpoint check_range (fuel : nat) (i bound size : Z) : bool :=
  match fuel with
  | O => false
  | S fuel =>
      if u32 i <? bound then
        let mapped_index := Z.lxor i 3 in
        if (mapped_index <? 0) || (size <=? mapped_index) then false else check_range fuel (i + 1) bound size
      else true
  end.

Definition check_flashram_infos (buf : list Z) : bool :=
  let erase_offset := le_combine (take 4 (drop 16 buf)) in
  let write_pointer := le_combine (take 4 (drop 20 buf)) in
  check_range 129 (s32 erase_offset) (u32 (erase_offset + 128)) 0x20000 &&
  check_range 129 (s32 write_pointer) (u32 (write_pointer + 128)) 0x800000.

(** The event queue's part of a state: pairs of words up to the word 0xFFFFFFFF, at
    most 1024 bytes.  The bytes read, which end with that word, and what follows. *)
Fixpoint read_queue {S} (fuel : nat) (p : list Z) : M S (option (list Z * list Z)) :=
  match fuel with
  | O => ret None
  | Datatypes.S fuel =>
      x <-- memread 4 p ;;;
      if le_combine x.1 =? 0xFFFFFFFF then ret (Some x)
      else
        y <-- memread 4 x.2 ;;;
        r <-- read_queue fuel y.2 ;;;
        ret (match r with Some (b, rest) => Some (x.1 ++ y.1 ++ b, rest) | None => None end)
  end.

(** The 1024 bytes of [g_event_queue_buf], cleared before. *)
Definition queue_buffer (b : list Z) : list Z := b ++ replicate (1024 - length b) 0.

(** The movie's part of a state. *)
Definition movie_image (freeze : option core_vcr_freeze_info) : list Z :=
  match freeze with
  | None => le_split 4 0
  | Some f =>
      le_split 4 1 ++ le_split 4 (freeze_size f) ++ le_split 4 (freeze_uid f) ++ le_split 4 (freeze_current_sample f) ++
      le_split 4 (freeze_current_vi f) ++ le_split 4 (freeze_length_samples f) ++ save_words 4 (freeze_input_buffer f)
  end.

(** The input buffer is resized to as many samples as it has bytes. *)
Definition read_movie {S} (p : list Z) : M S (core_vcr_freeze_info * list Z) :=
  size <-- memread 4 p ;;;
  uid <-- memread 4 size.2 ;;;
  current_sample <-- memread 4 uid.2 ;;;
  current_vi <-- memread 4 current_sample.2 ;;;
  length_samples <-- memread 4 current_vi.2 ;;;
  let n := 4 * u32 (le_combine length_samples.1 + 1) in
  inputs <-- memread (Z.to_nat (u32 n)) length_samples.2 ;;;
  let samples := load_words id 4 (Z.to_nat (u32 n / 4)) inputs.1 in
  ret (Freeze (le_combine size.1) (le_combine uid.1) (le_combine current_sample.1) (le_combine current_vi.1)
         (le_combine length_samples.1) (samples ++ replicate (Z.to_nat n - length samples) 0), inputs.2).

(** ** The card image beside a savestate *)

Definition sc_layout : list ctype := u32s 4 ++ chars 4 ++ [Pad 492].
Definition sc_cells (c : summercart) : list Z :=
  [sc_status c; data0 c; data1 c; sd_sector c; cfg_rom_write c; sd_byteswap c; unlock c; lock_seq c].
Definition sc_bytes (junk : nat -> Z) (c : summercart) : list Z :=
  load_bytes 8192 0 (sc_buffer c) ++ save_cells junk sc_layout (sc_cells c).
Definition sc_of_bytes (l : list Z) : summercart :=
  match load_cells sc_layout (drop 8192 l) with
  | [a; b; c; d; e; f; g; h] => mk_summercart (store_bytes 0 (take 8192 l) ∅) a b c d e f g h
  | _ => summercart_zero
  end.

Definition file_of (l : list Z) : file := File (Z.of_nat (length l)) (store_bytes 0 l ∅).

(** [vhd_copy]: the sectors and the footer of the source.  A source without a footer,
    or shorter than its footer says, leaves the buffer uninitialised. *)
Definition vhd_copy {S} (src : file) : M S (list Z * list Z) :=
  let footer := file_bytes 512 (f_len src - 512) src in
  let n := 512 * (vhd_disk_size (vhd_footer src) / 512) in
  if (f_len src <? 512) || (f_len src <? n) then undef Uninitialized
  else ret (file_bytes (Z.to_nat n) 0 src, footer).

(** ** The engine *)

Section Engine.
Context {Q : Type} `{EventQueue Q, !SavedQueue Q} (H : host) (V : st_host).
#[local] Abbreviation ses := (session Q).

Definition on_core {A} (c : M (core Q) A) : M ses A := fun s =>
  obind (c (ss_core s)) (fun '(a, x) => Ret (a, s <| ss_core := x |>)).
Definition on_vcr {A} (c : M vcr A) : M ses A := fun s =>
  obind (c (ss_vcr s)) (fun '(a, x) => Ret (a, s <| ss_vcr := x |>)).
Definition st_note (c : st_call) : M ses unit := modify (fun s => s <| st_calls := c :: st_calls s |>).

(** [task.callback({result, ...}, buffer)] *)
Definition task_callback (task : t_savestate_task) (result : core_result) (buffer : list Z) : M ses unit :=
  match st_cb task with
  | CbUndo => when (is_ok result) (modify (fun s => s <| g_undo_savestate := buffer |>))
  | CbCaller callback =>
      st_note (StPreCallback result (st_job task) (st_medium task) buffer) ;;;
      match callback with
      | Some cb => st_note (StCallback cb result (st_job task) (st_medium task) buffer)
      | None => ret tt
      end
  end.

(** *** The console's image *)

Definition struct_bytes {R} `{Struct R} (id : Z) (r : R) : list Z :=
  save_cells (junk V id) (layout (R := R)) (cells r).

(** The pure interpreter runs. *)
Definition pure (m : machine Q) : bool := negb (dynacore m) && interpcore m.

(** What [generate_savestate] writes between the ROM's hash and the event queue: the
    registers of the interfaces and the memories, the processor, where to continue. *)
Definition save_interfaces (c : core Q) : list Z :=
  let m := c_mach c in
  let d := c_dev c in
  struct_bytes 0 (rdram_register d) ++ struct_bytes 1 (MI_register m) ++ struct_bytes 2 (pi_register m) ++
  struct_bytes 3 (sp_register m) ++ struct_bytes 4 (rsp_register d) ++ struct_bytes 5 (si_register m) ++
  struct_bytes 6 (vi_register m) ++ struct_bytes 7 (ri_register d) ++ struct_bytes 8 (ai_register m) ++
  struct_bytes 9 (dpc_register m) ++ struct_bytes 10 (dps_register d) ++
  load_bytes RDRAM_BYTES 0 (rdram c) ++ load_bytes SP_BYTES 0 (SP_MEM c) ++ load_bytes SP_BYTES 0x1000 (SP_MEM c) ++
  PIF_RAMb m ++ struct_bytes 11 (d_flash d) ++
  save_words 4 (lut_words LUT_WORDS (tlb_LUT_r m)) ++ save_words 4 (lut_words LUT_WORDS (tlb_LUT_w m)).

Definition save_processor (c : core Q) : list Z :=
  let m := c_mach c in
  le_split 4 (llbit m) ++ save_words 8 (c_reg c) ++ save_cop0 (after_cop0 V) (cop0_registers (m_cop0 m)) ++
  le_split 8 (c_lo c) ++ le_split 8 (c_hi c) ++ save_words 8 (reg_cop1_fgr_64 (c_cop1 c)) ++
  le_split 4 (FCR0 (c_cop1 c)) ++ le_split 4 (FCR31 (c_cop1 c)) ++ save_entries (junk V) 12 (tlb_e m).

Definition save_control (m : machine Q) : list Z :=
  le_split 4 (if pure m then interp_addr m else PC_addr m) ++
  le_split 4 (next_interrupt_of m) ++ le_split 4 (next_vi m) ++ le_split 4 (vi_field m).

Definition first_block (c : core Q) : list Z := save_interfaces c ++ save_processor c ++ save_control (c_mach c).

Definition read_struct {R} `{Struct R} (put : R -> core Q -> core Q) (p : list Z) : M (core Q) (list Z) :=
  read_into (sizeof (layout (R := R))) (fun b => put (of_cells (load_cells (layout (R := R)) b))) p.
Definition in_mach (f : machine Q -> machine Q) (c : core Q) : core Q := c <| c_mach := f (c_mach c) |>.
Definition in_cop1 (f : cop1 -> cop1) (c : core Q) : core Q := c <| c_cop1 := f (c_cop1 c) |>.

(** The registers of the interfaces and the memories. *)
Definition load_interfaces (p : list Z) : M (core Q) (list Z) :=
  p <-- read_struct (fun r => on_dev (fun d => d <| rdram_register := r |>)) p ;;;
  p <-- read_struct (fun r => in_mach (fun m => m <| MI_register := r |>)) p ;;;
  p <-- read_struct (fun r => in_mach (fun m => m <| pi_register := r |>)) p ;;;
  p <-- read_struct (fun r => in_mach (fun m => m <| sp_register := r |>)) p ;;;
  p <-- read_struct (fun r => on_dev (fun d => d <| rsp_register := r |>)) p ;;;
  p <-- read_struct (fun r => in_mach (fun m => m <| si_register := r |>)) p ;;;
  p <-- read_struct (fun r => in_mach (fun m => m <| vi_register := r |>)) p ;;;
  p <-- read_struct (fun r => on_dev (fun d => d <| ri_register := r |>)) p ;;;
  p <-- read_struct (fun r => in_mach (fun m => m <| ai_register := r |>)) p ;;;
  p <-- read_struct (fun r => in_mach (fun m => m <| dpc_register := r |>)) p ;;;
  p <-- read_struct (fun r => on_dev (fun d => d <| dps_register := r |>)) p ;;;
  p <-- read_into RDRAM_BYTES (fun b c => c <| rdram := store_bytes 0 b (rdram c) |>) p ;;;
  p <-- read_into SP_BYTES (fun b c => c <| SP_MEM := store_bytes 0 b (SP_MEM c) |>) p ;;;
  p <-- read_into SP_BYTES (fun b c => c <| SP_MEM := store_bytes 0x1000 b (SP_MEM c) |>) p ;;;
  p <-- read_into 64 (fun b => in_mach (fun m => m <| PIF_RAMb := b |>)) p ;;;
  p <-- read_struct (fun r => on_dev (fun d => d <| d_flash := r |>)) p ;;;
  p <-- read_into LUT_BYTES (fun b => in_mach (fun m =>
          m <| tlb_LUT_r := store_words 0 (load_words id 4 LUT_WORDS b) (tlb_LUT_r m) |>)) p ;;;
  read_into LUT_BYTES (fun b => in_mach (fun m =>
    m <| tlb_LUT_w := store_words 0 (load_words id 4 LUT_WORDS b) (tlb_LUT_w m) |>)) p.

(** The processor. *)
Definition load_processor (p : list Z) : M (core Q) (list Z) :=
  p <-- read_into 4 (fun b => in_mach (fun m => m <| llbit := s32 (le_combine b) |>)) p ;;;
  p <-- read_into 256 (fun b c => c <| c_reg := load_words s64 8 32 b |>) p ;;;
  p <-- read_into 256 (fun b => in_mach (fun m => m <| m_cop0 := cop0_of (load_cop0 32 b) |>)) p ;;;
  p <-- read_into 8 (fun b c => c <| c_lo := s64 (le_combine b) |>) p ;;;
  p <-- read_into 8 (fun b c => c <| c_hi := s64 (le_combine b) |>) p ;;;
  p <-- read_into 256 (fun b => in_cop1 (fun f => f <| reg_cop1_fgr_64 := load_words s64 8 32 b |>)) p ;;;
  p <-- read_into 4 (fun b => in_cop1 (fun f => f <| FCR0 := s32 (le_combine b) |>)) p ;;;
  p <-- read_into 4 (fun b => in_cop1 (fun f => f <| FCR31 := s32 (le_combine b) |>)) p ;;;
  read_into (32 * tlb_size) (fun b => in_mach (fun m => m <| tlb_e := load_entries 32 b |>)) p.

(** Where to continue; the translated code is invalidated. *)
Definition load_address (p : list Z) : M (core Q) (list Z) :=
  c <-- get ;;;
  if pure (c_mach c) then read_into 4 (fun b => in_mach (fun m => m <| interp_addr := le_combine b |>)) p
  else
    x <-- memread 4 p ;;; on_mach (notify_code HInvalidateCode ;;; jump_to (le_combine x.1)) ;;; ret x.2.

Definition load_memory_from_buffer (p : list Z) : M (core Q) unit :=
  p <-- load_interfaces p ;;;
  p <-- load_processor p ;;;
  p <-- load_address p ;;;
  p <-- read_into 4 (fun b => in_mach (set_next_interrupt (le_combine b))) p ;;;
  p <-- read_into 4 (fun b => in_mach (fun m => m <| next_vi := le_combine b |>)) p ;;;
  p <-- read_into 4 (fun b => in_mach (fun m => m <| vi_field := s32 (le_combine b) |>)) p ;;;
  ret tt.

(** *** Saving *)

Definition screen_image : list Z :=
  if mge_available V && st_screenshot V then
    let '(width, height) := video_size V in
    SCR ++ le_split 4 width ++ le_split 4 height ++ take (Z.to_nat (u32 (width * height * 3))) (video V)
  else [].

Definition generate_savestate : M ses (list Z) :=
  freeze <-- on_vcr (core_vcr_freeze H) ;;;
  queue <-- on_core (on_mach (on_queue q_save)) ;;;
  (if (1024 <? length queue)%nat then undef OutOfBounds else ret tt) ;;;
  s <-- get ;;;
  ret (rom_md5 V ++ first_block (ss_core s) ++ queue ++ movie_image freeze ++ screen_image).

(** [save_summercart]: the card, the cartridge's registers, the footer. *)
Definition save_summercart : M ses unit :=
  s <-- get ;;;
  match sd_image (c_dev (ss_core s)) with
  | None => on_core sd_error
  | Some image =>
      if can_open H (sd_path V) then
        x <-- vhd_copy image ;;;
        let state := sc_bytes (junk V 100) (d_summercart (c_dev (ss_core s))) in
        modify (fun s => s <| sd_states := <[sd_path V := file_of (x.1 ++ state ++ x.2)]> (sd_states s) |>)
      else on_core sd_error
  end.

(** What was written is empty when compressing does not make the state smaller. *)
Definition compressed (st : list Z) : list Z :=
  if (length (gzip_compress V st) <=? length st)%nat then gzip_compress V st else [].

Definition savestates_save_immediate_impl (task : t_savestate_task) : M ses unit :=
  st <-- generate_savestate ;;;
  written <--
    match st_medium task with
    | core_st_medium_path path =>
        s <-- get ;;;
        when (cfg_use_summercart (ss_core s)) save_summercart ;;;
        if can_open H path then
          on_vcr (on_fs (modify (fun fs => <[path := compressed st]> fs))) ;;; ret true
        else task_callback task ST_FileWriteError st ;;; ret false
    | core_st_medium_memory _ => ret true
    end ;;;
  when written (task_callback task Res_Ok st ;;; st_note StSaved).

(** *** Loading *)

(** [load_summercart]: opens the card for reading and the file beside the savestate
    for writing. *)
Definition load_summercart : M ses unit :=
  s <-- get ;;;
  match sd_image (c_dev (ss_core s)) with
  | None => on_core sd_error
  | Some image =>
      if can_open H (sd_path V) then
        x <-- vhd_copy image ;;;
        let read := file_bytes (Z.to_nat (Z.min 8704 (f_len image - Z.of_nat (length x.1)))) (Z.of_nat (length x.1)) image in
        on_core (mod_sc (fun c => sc_of_bytes (read ++ drop (length read) (sc_bytes (junk V 100) c)))) ;;;
        modify (fun s => s <| sd_states := <[sd_path V := file_of (x.1 ++ x.2)]> (sd_states s) |>)
      else on_core sd_error
  end.

(** The screen at the end of a state. *)
Definition read_screen (p : list Z) : M ses (option (Z * Z * list Z)) :=
  if (length p =? 0)%nat then ret None
  else
    x <-- memread 4 p ;;;
    if negb (bool_decide (x.1 = SCR)) then ret None
    else
      w <-- memread 4 x.2 ;;;
      h <-- memread 4 w.2 ;;;
      let width := s32 (le_combine w.1) in
      let height := s32 (le_combine h.1) in
      v <-- memread (Z.to_nat (u32 (width * height * 3))) h.2 ;;;
      ret (Some (width, height, v.1)).

Definition restore_screen (screen : option (Z * Z * list Z)) : M ses unit :=
  s <-- get ;;;
  match screen with
  | Some (width, height, v) =>
      when (mge_available V && negb (core_vcr_is_seeking (ss_vcr s)) &&
            ((video_size V).1 =? width) && ((video_size V).2 =? height)) (st_note (StLoadScreen v))
  | None => ret tt
  end.

(** The end of the transfer from the PIF a state was taken in. *)
Definition finish_dma : M (core Q) unit :=
  r <-- si_now ;;;
  for_loop 16 0 (fun i =>
    w <-- pif_bytes 4 (4 * i) ;;; put_word rdram_array ((si_dram_addr r / 4 + i) * 4) (sl (le_combine w))) ;;;
  si_done ;;;
  mod_dev (fun d => d <| g_st_skip_dma := true |>).

Definition finish_dma_if_needed : M (core Q) unit :=
  e <-- on_mach (on_queue (q_get SI_INT)) ;;; when (e =? 0) finish_dma.

(** From the label [failedLoad] on. *)
Definition after_load : M (core Q) unit :=
  c <-- get ;;;
  let m := c_mach c in
  mod_dev (fun d => d <| g_st_old := (interp_addr m =? 0x80000180) || (PC_addr m =? 0x80000180) |>) ;;;
  when ((interp_addr m =? 0x80000180) || ((PC_addr m =? 0x80000180) && negb (dynacore m)))
    (modify (fun c => c <| g_vr_beq_ignore_jmp := true |>)) ;;;
  mod_mach (fun m => m <| last_addr := if pure m then interp_addr m else PC_addr m |>).

(** Everything is checked: the state replaces the console. *)
Definition load_console (block queue : list Z) : M (core Q) unit :=
  on_mach (m <-- get ;;; on_queue (q_load (Count m) (queue_buffer queue))) ;;;
  load_memory_from_buffer block.

(** The movie's part: whether there is one, whether to go on, and what follows. *)
Definition load_movie (task : t_savestate_task) (p : list Z) : M ses (bool * core_result * list Z) :=
  x <-- memread 4 p ;;;
  if c_true (le_combine x.1) then
    y <-- read_movie x.2 ;;;
    r <-- on_vcr (st_load H (Some y.1) (ignore_warnings task)) ;;;
    ret (true, r, y.2)
  else
    r <-- on_vcr (st_load H None (ignore_warnings task)) ;;;
    ret (false, r, x.2).

(** The block's own registers, where the code looks for them. *)
Definition registers_valid (block : list Z) : bool :=
  check_register_validity (of_cells (load_cells (layout (R := core_si_reg)) (drop (Z.to_nat (0xDC - 0x20)) block))) &&
  check_flashram_infos (drop (Z.to_nat (0x8021F0 - 0x20)) block).

Definition load_checked (task : t_savestate_task) (buf block queue p : list Z) : M ses unit :=
  r <-- load_movie task p ;;;
  let '(is_movie, result, p) := r in
  if is_ok result then
    screen <-- read_screen p ;;;
    on_core (load_console block queue) ;;;
    restore_screen screen ;;;
    on_core finish_dma_if_needed ;;;
    st_note StLoaded ;;;
    task_callback task Res_Ok buf ;;;
    on_core after_load
  else
    task_callback task result [] ;;;
    when is_movie (on_core after_load).

Definition savestates_load_immediate_impl (task : t_savestate_task) : M ses unit :=
  s <-- get ;;;
  when (cfg_use_summercart (ss_core s)) load_summercart ;;;
  s <-- get ;;;
  let st_buf := match st_medium task with
                | core_st_medium_path path => read_file_buffer (fs (ss_vcr s)) path
                | core_st_medium_memory buffer => buffer
                end in
  if (length st_buf =? 0)%nat then task_callback task ST_NotFound []
  else
    let buf := auto_decompress (gunzip V) st_buf in
    if (length buf =? 0)%nat then task_callback task ST_DecompressionError []
    else
      md5 <-- memread 32 buf ;;;
      if negb (ignore_warnings task) && negb (bool_decide (md5.1 = rom_md5 V)) && negb (load_other_rom V)
      then task_callback task Res_Cancelled []
      else
        block <-- memread FIRST_BLOCK md5.2 ;;;
        if negb (registers_valid block.1) then task_callback task ST_InvalidRegisters []
        else
          queue <-- read_queue 128 block.2 ;;;
          match queue with
          | None => task_callback task ST_EventQueueTooLong []
          | Some (q, p) => load_checked task buf block.1 q p
          end.

(** ** The task queue *)

Definition is_path (m : core_st_medium) : bool := match m with core_st_medium_path _ => true | _ => false end.
Definition is_load (j : core_st_job) : bool := match j with core_st_job_load => true | _ => false end.
Definition same_path (a b : core_st_medium) : bool :=
  match a, b with core_st_medium_path p, core_st_medium_path q => String.eqb p q | _, _ => false end.

(** The inner loop: the indices from [j] on of tasks with the path of [task], up to
    the next load. *)
Fixpoint duplicates_of (task : t_savestate_task) (j : nat) (others : list t_savestate_task) : list nat :=
  match others with
  | [] => []
  | other :: others =>
      if is_load (st_job other) then []
      else if same_path (st_medium task) (st_medium other) then j :: duplicates_of task (S j) others
      else duplicates_of task (S j) others
  end.

Fixpoint duplicate_indices (i : nat) (tasks : list t_savestate_task) : list nat :=
  match tasks with
  | [] => []
  | task :: rest =>
      (if is_path (st_medium task) then duplicates_of task (S i) rest else []) ++ duplicate_indices (S i) rest
  end.

(** [erase_indices]: sorted downwards, each index is erased in turn. *)
Definition erase_indices {A} (data : list A) (indices : list nat) : list A :=
  fold_left (fun l i => if (i <? length l)%nat then take i l ++ drop (S i) l else l)
    (rev (merge_sort le indices)) data.

Definition savestates_simplify_tasks : M ses unit :=
  modify (fun s => s <| g_tasks := erase_indices (g_tasks s) (duplicate_indices 0 (g_tasks s)) |>).

Definition undo_task : t_savestate_task := StTask core_st_job_save (core_st_medium_memory []) CbUndo true.

Definition savestates_create_undo_point : M ses unit :=
  s <-- get ;;;
  if negb (st_undo_load V) then ret tt
  else if negb (existsb (fun t => is_load (st_job t)) (g_tasks s)) then ret tt
  else modify (fun s => s <| g_tasks := undo_task :: g_tasks s |>).

Definition run_task (task : t_savestate_task) : M ses unit :=
  match st_job task with
  | core_st_job_save => savestates_save_immediate_impl task
  | core_st_job_load => savestates_load_immediate_impl task
  end.

Fixpoint run_tasks (tasks : list t_savestate_task) : M ses unit :=
  match tasks with
  | [] => ret tt
  | task :: rest => run_task task ;;; run_tasks rest
  end.

Definition st_do_work : M ses unit :=
  s <-- get ;;;
  match g_tasks s with
  | [] => ret tt
  | _ =>
      savestates_simplify_tasks ;;;
      savestates_create_undo_point ;;;
      savestates_simplify_tasks ;;;
      s <-- get ;;;
      run_tasks (g_tasks s) ;;;
      modify (fun s => s <| g_tasks := [] |>)
  end.

Definition st_on_core_stop : M ses unit := modify (fun s => s <| g_tasks := [] |> <| g_undo_savestate := [] |>).

(** New tasks go to the front of the queue. *)
Definition push_task (task : t_savestate_task) (callback : option Z) : M ses bool :=
  s <-- get ;;;
  if negb (core_executing (ss_vcr s)) then
    match callback with
    | Some cb => st_note (StCallback cb ST_CoreNotLaunched (st_job task) (st_medium task) [])
    | None => ret tt
    end ;;;
    ret false
  else modify (fun s => s <| g_tasks := task :: g_tasks s |>) ;;; ret true.

Definition core_st_do_file (path : string) (job : core_st_job) (callback : option Z) (ignore_warnings : bool) : M ses bool :=
  push_task (StTask job (core_st_medium_path path) (CbCaller callback) ignore_warnings) callback.
Definition core_st_do_memory (buffer : list Z) (job : core_st_job) (callback : option Z) (ignore_warnings : bool)
    : M ses bool :=
  push_task (StTask job (core_st_medium_memory buffer) (CbCaller callback) ignore_warnings) callback.

Definition core_st_get_undo_savestate (s : ses) : list Z := g_undo_savestate s.
End Engine.
