(* ===== verification/SaveTasks.v ===== *)
(** * The queue of savestate tasks

    Before the first load of a batch the state is kept for undoing the load; how the
    queue is thinned out can lose tasks. *)

From Stdlib Require Import Strings.String.
From stdpp Require Import sorting.
From S2P Require Import Prelude Hoare Queue Pool Machine Exception DeviceState Core Dma PifLut Pif SummerCart Cop SaveFormat Rom Path Cheats Movie VcrState Vcr Savestate.

Open Scope prog_scope.
#[local] Open Scope Z_scope.

Section Tasks.
Context {Q : Type} `{EventQueue Q, !SavedQueue Q} (H : host) (V : st_host).
#[local] Abbreviation ses := (session Q).
Implicit Types s : ses.

(** ** Only the undo point's task writes the undo savestate *)

Section Undo.
Variable buf : list Z.
Definition undo_is s : Prop := g_undo_savestate s = buf.

Lemma keeps_on_core {A} (c : M (core Q) A) : keeps undo_is (on_core c).
Proof. intros s Hs. unfold on_core. destruct (c (ss_core s)) as [[a x]|]; [exact Hs|exact I]. Qed.
Lemma keeps_on_vcr {A} (c : M vcr A) : keeps undo_is (on_vcr c).
Proof. intros s Hs. unfold on_vcr. destruct (c (ss_vcr s)) as [[a x]|]; [exact Hs|exact I]. Qed.
Lemma keeps_note c : keeps undo_is (st_note c).
Proof. by apply keeps_modify. Qed.
Lemma keeps_memread n p : keeps undo_is (memread n p : M ses _).
Proof. unfold memread. destruct (_ <? _)%nat; [apply keeps_undef|apply keeps_ret]. Qed.
#[local] Hint Resolve keeps_on_core keeps_on_vcr keeps_note keeps_memread keeps_undef keeps_ret : keeps.

Lemma keeps_callback task r b : st_cb task <> CbUndo -> keeps undo_is (task_callback task r b : M ses _).
Proof. intros Hc. unfold task_callback. destruct (st_cb task) as [|[cb|]]; [done|keeps_auto..]. Qed.
#[local] Hint Resolve keeps_callback : keeps.

Lemma keeps_vhd_copy f : keeps undo_is (vhd_copy f : M ses _).
Proof. unfold vhd_copy. keeps_auto. Qed.
#[local] Hint Resolve keeps_vhd_copy : keeps.

Lemma keeps_card : keeps undo_is (save_summercart H V : M ses _) /\ keeps undo_is (load_summercart H V : M ses _).
Proof. unfold save_summercart, load_summercart. split; keeps_auto. Qed.

Lemma keeps_queue fuel p : keeps undo_is (read_queue fuel p : M ses _).
Proof. revert p. induction fuel as [|fuel IH]; intros p; cbn [read_queue]; keeps_auto. Qed.

Lemma keeps_generate : keeps undo_is (generate_savestate H V : M ses _).
Proof. unfold generate_savestate. keeps_auto. Qed.

Lemma keeps_read_movie p : keeps undo_is (read_movie p : M ses _).
Proof. unfold read_movie. keeps_auto. Qed.
#[local] Hint Resolve keeps_queue keeps_generate keeps_read_movie : keeps.

Lemma keeps_screens p x : keeps undo_is (read_screen p : M ses _) /\ keeps undo_is (restore_screen V x : M ses _).
Proof. unfold read_screen, restore_screen. split; keeps_auto. Qed.

Lemma keeps_load_checked task b block q p : st_cb task <> CbUndo -> keeps undo_is (load_checked H V task b block q p : M ses _).
Proof.
  intros Hc. unfold load_checked, load_movie. pose proof (fun p => proj1 (keeps_screens p None)).
  pose proof (fun x => proj2 (keeps_screens [] x)). keeps_auto.
Qed.
#[local] Hint Resolve keeps_load_checked : keeps.

Lemma keeps_run_task task : st_cb task <> CbUndo -> keeps undo_is (run_task H V task : M ses _).
Proof.
  intros Hc. destruct keeps_card. unfold run_task, savestates_save_immediate_impl, savestates_load_immediate_impl. keeps_auto.
Qed.

Lemma keeps_run_tasks tasks : Forall (fun t => st_cb t <> CbUndo) tasks -> keeps undo_is (run_tasks H V tasks : M ses _).
Proof. induction 1 as [|t tasks Ht _ IH]; cbn [run_tasks]; [apply keeps_ret|]. apply keeps_bind; [by apply keeps_run_task|by intros _]. Qed.
End Undo.

(** ** Thinning out *)

Lemma erase_head {A} (x : A) l idx :
  Forall (fun i => 0 < i)%nat idx -> exists l', erase_indices (x :: l) idx = x :: l' /\ sublist l' l.
Proof.
  unfold erase_indices. intros Hi.
  assert (Forall (fun i => 0 < i)%nat (rev (merge_sort le idx))) as Hr.
  { apply Forall_rev. by rewrite (merge_sort_Permutation le idx). }
  revert Hr l. generalize (rev (merge_sort le idx)). induction l as [|i js IH]; intros Hr l; cbn [fold_left]; [by exists l|].
  apply Forall_cons in Hr as [Hi0 Hr]. destruct i as [|i]; [lia|]. cbn [length].
  destruct (Nat.ltb_spec (S i) (S (List.length l))); [|by apply IH].
  cbn [take drop app]. destruct (IH Hr (take i l ++ drop (S i) l)) as (l' & E & Hs). exists l'. split; [exact E|].
  etransitivity; [exact Hs|]. rewrite <- (take_drop i l) at 3. apply sublist_app; [done|].
  rewrite <- (Nat.add_1_r i), <- drop_drop. apply sublist_drop.
Qed.

Lemma duplicates_after task j others : Forall (fun i => j <= i)%nat (duplicates_of task j others).
Proof.
  revert j. induction others as [|o others IH]; intros j; cbn [duplicates_of]; [constructor|].
  destruct (is_load (st_job o)); [constructor|].
  assert (Forall (fun i => j <= i)%nat (duplicates_of task (S j) others)) as Hi.
  { eapply Forall_impl; [apply IH|]. cbn. lia. }
  destruct (same_path _ _); [by constructor|exact Hi].
Qed.

Lemma indices_after i tasks : Forall (fun k => i < k)%nat (duplicate_indices i tasks).
Proof.
  revert i. induction tasks as [|t tasks IH]; intros i; cbn [duplicate_indices]; [constructor|].
  apply Forall_app. split; [destruct (is_path _); [apply duplicates_after|constructor]|].
  eapply Forall_impl; [apply IH|]. cbn. lia.
Qed.

Definition simplified (tasks : list t_savestate_task) : list t_savestate_task := erase_indices tasks (duplicate_indices 0 tasks).

(** The front task is never erased. *)
Lemma simplified_head t tasks : exists rest, simplified (t :: tasks) = t :: rest /\ sublist rest tasks.
Proof. apply erase_head. eapply Forall_impl; [apply indices_after|]. cbn. lia. Qed.

Lemma ret_inv {S A} (a b : A) (s t : S) : Ret (a, s) = Ret (b, t) -> a = b /\ s = t.
Proof. by intros [= -> ->]. Qed.

Lemma generate_tasks s buf s1 l :
  generate_savestate H V s = Ret (buf, s1) -> generate_savestate H V (s <| g_tasks := l |>) = Ret (buf, s1 <| g_tasks := l |>).
Proof.
  intros E. unfold generate_savestate in *. apply bind_inv in E as (f & s2 & E1 & E).
  apply bind_inv in E as (q & s3 & E2 & E). apply bind_inv in E as (u & s4 & E3 & E). rewrite bind_get_l in E.
  unfold on_vcr in E1. destruct (core_vcr_freeze H (ss_vcr s)) as [[f' v]|] eqn:Ev; [|done]. injection E1 as -> <-.
  unfold on_core in E2. change (ss_core (s <| ss_vcr := v |>)) with (ss_core s) in E2.
  destruct (on_mach (on_queue q_save) (ss_core s)) as [[q' c]|] eqn:Eq; [|done]. injection E2 as -> <-.
  erewrite bind_Ret by (unfold on_vcr; change (ss_vcr (s <| g_tasks := l |>)) with (ss_vcr s); rewrite Ev; reflexivity).
  erewrite bind_Ret by (unfold on_core; change (ss_core (upd_field _ _)) with (ss_core s); rewrite Eq; reflexivity).
  destruct (1024 <? List.length q)%nat; [done|]. injection E3 as <- <-. apply ret_inv in E as [<- <-]. reflexivity.
Qed.

Definition clear_tasks : M ses unit := modify (fun s => s <| g_tasks := [] |>).

(** What [st_do_work] runs, without an undo point and with one. *)
Lemma do_work_plain s t tasks :
  g_tasks s = t :: tasks -> existsb (fun t => is_load (st_job t)) (simplified (t :: tasks)) = false ->
  let l := simplified (simplified (t :: tasks)) in
  st_do_work H V s = (run_tasks H V l ;;; clear_tasks) (s <| g_tasks := l |>).
Proof.
  intros Et Hl l. unfold st_do_work. rewrite bind_get_l, Et. unfold savestates_simplify_tasks. rewrite bind_modify_l, Et.
  fold (simplified (t :: tasks)). unfold savestates_create_undo_point. rewrite bind_assoc, bind_get_l.
  change (g_tasks (s <| g_tasks := ?x |>)) with x. rewrite Hl. cbn [negb]. destruct (negb (st_undo_load V)); reflexivity.
Qed.

Lemma do_work_undo s t tasks :
  g_tasks s = t :: tasks -> st_undo_load V = true ->
  existsb (fun t => is_load (st_job t)) (simplified (t :: tasks)) = true ->
  let l := simplified (undo_task :: simplified (t :: tasks)) in
  st_do_work H V s = (run_tasks H V l ;;; clear_tasks) (s <| g_tasks := l |>).
Proof.
  intros Et Hu Hl l. unfold st_do_work. rewrite bind_get_l, Et. unfold savestates_simplify_tasks. rewrite bind_modify_l, Et.
  fold (simplified (t :: tasks)). unfold savestates_create_undo_point. rewrite bind_assoc, bind_get_l.
  change (g_tasks (s <| g_tasks := ?x |>)) with x. rewrite Hl, Hu. reflexivity.
Qed.

Lemma run_undo_task s buf s1 :
  generate_savestate H V s = Ret (buf, s1) ->
  run_task H V undo_task s = Ret (tt, s1 <| g_undo_savestate := buf |> <| st_calls := StSaved :: st_calls s1 |>).
Proof.
  intros E. unfold run_task, savestates_save_immediate_impl. cbn [undo_task st_job st_medium].
  rewrite (bind_Ret _ _ _ _ _ E), bind_ret_l. reflexivity.
Qed.

Lemma simplified_callers l t :
  Forall (fun t => st_cb t <> CbUndo) l -> exists rest, simplified (t :: simplified l) = t :: rest /\ Forall (fun t => st_cb t <> CbUndo) rest.
Proof.
  intros Hl. destruct (simplified_head t (simplified l)) as (rest & E & Hs). exists rest. split; [exact E|].
  assert (Forall (fun t => st_cb t <> CbUndo) (simplified l)) as Hl'.
  { destruct l as [|x l]; [constructor|]. destruct (simplified_head x l) as (r & -> & Hr).
    apply Forall_cons in Hl as [Hx Hl]. constructor; [exact Hx|].
    apply Forall_forall. intros y Hy. rewrite Forall_forall in Hl. apply Hl. by apply (sublist_subseteq _ _ Hr). }
  apply Forall_forall. intros y Hy. rewrite Forall_forall in Hl'. apply Hl'. by apply (sublist_subseteq _ _ Hs).
Qed.
End Tasks.

(** C12.  Loading can be undone: when the tasks of a batch load a state and undoing is
    enabled, a savestate of the session as it was before any of the tasks is taken
    first, and is the undo savestate whatever the tasks then do. *)
Theorem undo_point_precedes_loads {Q} `{EventQueue Q, !SavedQueue Q} H V (s : session Q) buf s1 :
  st_undo_load V = true -> Forall (fun t => st_cb t <> CbUndo) (g_tasks s) ->
  existsb (fun t => is_load (st_job t)) (simplified (g_tasks s)) = true ->
  generate_savestate H V s = Ret (buf, s1) ->
  exists rest s2, st_do_work H V s = (run_tasks H V rest ;;; clear_tasks) s2 /\ g_undo_savestate s2 = buf /\
    ss_core s2 = ss_core s1 /\ ss_vcr s2 = ss_vcr s1 /\
    forall s', st_do_work H V s = Ret (tt, s') -> g_undo_savestate s' = buf.
Proof.
  intros Hu Hc Hl E. destruct (g_tasks s) as [|t tasks] eqn:Et; [done|].
  pose proof (do_work_undo H V s t tasks Et Hu Hl) as Ew. cbv zeta in Ew.
  destruct (simplified_callers (t :: tasks) undo_task Hc) as (rest & Er & Hr). rewrite Er in Ew. cbn [run_tasks] in Ew.
  rewrite bind_assoc, (bind_Ret _ _ _ _ _ (run_undo_task H V _ _ _ (generate_tasks H V s buf s1 (undo_task :: rest) E))) in Ew.
  eexists rest, _. split; [exact Ew|]. split_and!; [reflexivity|reflexivity|reflexivity|].
  intros s' Es. rewrite Ew in Es. refine (keeps_run (undo_is buf) _ _ _ _ _ _ Es); [|reflexivity].
  apply keeps_bind; [by apply keeps_run_tasks|intros _; by apply keeps_modify].
Qed.

(** Three requests to save to the same file lose the next request: the second and the
    third are recognised as duplicates, the third twice, and the second time the task
    behind it is erased.  A load behind them is never executed, and its caller never
    called. *)
Theorem third_save_loses_load {Q} `{EventQueue Q, !SavedQueue Q} H V (s : session Q) path cb1 cb2 cb3 i1 i2 i3 load :
  let save cb i := StTask core_st_job_save (core_st_medium_path path) (CbCaller cb) i in
  g_tasks s = [save cb1 i1; save cb2 i2; save cb3 i3; load] -> st_job load = core_st_job_load ->
  st_do_work H V s = (run_task H V (save cb1 i1) ;;; ret tt ;;; clear_tasks) (s <| g_tasks := [save cb1 i1] |>).
Proof.
  intros save Et Hl.
  assert (simplified [save cb1 i1; save cb2 i2; save cb3 i3; load] = [save cb1 i1]) as E1.
  { unfold simplified. cbn [duplicate_indices duplicates_of is_path st_medium st_job is_load same_path save app].
    rewrite Hl, !String.eqb_refl. cbn [is_load]. destruct (is_path (st_medium load)); reflexivity. }
  rewrite (do_work_plain H V s _ _ Et); rewrite E1; [|reflexivity]. change (simplified [save cb1 i1]) with [save cb1 i1].
  cbn [run_tasks]. by rewrite bind_assoc.
Qed.
