(* ===== verification/SavestateProps.v ===== *)
(** * A savestate restores the console

    Loading what was saved puts back every register and memory a savestate contains;
    what it does not contain keeps its value, which shows in the translation tables, in
    Count and in the order of events. *)

From Stdlib Require Import Strings.String.
From S2P Require Import Prelude Hoare Queue Pool PoolRefines Machine Exception Alu AluProps Tlb DeviceState Core Dma PifLut Pif SummerCart Bus BusProps Cop SaveFormat WfProps DmaProps PifProps PakProps Rom Path Cheats Movie VcrState Vcr Savestate.

Open Scope prog_scope.
#[local] Open Scope Z_scope.

(** ** Arrays *)

Lemma length_save_cop0 a l : length (save_cop0 a l) = (8 * length l)%nat.
Proof. induction l as [|v l IH]; [done|]. cbn [save_cop0 length]. rewrite !length_app, !length_le_split, IH. lia. Qed.

Lemma load_save_cop0 a l rest : Forall is_u32 l -> load_cop0 (length l) (save_cop0 a l ++ rest) = l.
Proof.
  induction 1 as [|v l Hv Hl IH]; [done|]. cbn [save_cop0 length load_cop0]. rewrite <- !app_assoc.
  rewrite take_app_length' by by rewrite length_le_split. rewrite app_assoc, drop_app_length' by by rewrite length_app, !length_le_split.
  by rewrite IH, le_combine_split, Z.mod_small.
Qed.

Lemma cop0_of_registers c : cop0_of (cop0_registers c) = c.
Proof. by destruct c. Qed.

Lemma cop0_registers_ok c : cop0_ok c -> Forall is_u32 (cop0_registers c).
Proof. intros Hc. apply Forall_forall. intros v (i & -> & _)%list_elem_of_fmap. by apply reg_cop0_range. Qed.

Lemma cop0_restored a c : cop0_ok c -> cop0_of (load_cop0 32 (save_cop0 a (cop0_registers c))) = c.
Proof.
  intros Hc. rewrite <- (app_nil_r (save_cop0 _ _)), (load_save_cop0 a (cop0_registers c)) by by apply cop0_registers_ok.
  apply cop0_of_registers.
Qed.

Lemma length_save_entries junk id l : Forall typed l -> length (save_entries junk id l) = (length l * tlb_size)%nat.
Proof.
  intros Hl. revert id. induction Hl as [|e l He Hl IH]; intros id; [done|]. cbn [save_entries length].
  rewrite length_app, length_save_cells, IH by done. unfold tlb_size. lia.
Qed.

Lemma load_save_entries junk id l rest :
  Forall typed l -> load_entries (length l) (save_entries junk id l ++ rest) = l.
Proof.
  intros Hl. revert id. induction Hl as [|e l He Hl IH]; intros id; [done|]. cbn [save_entries length load_entries].
  rewrite <- app_assoc, load_save_cells, of_cells_cells by done.
  rewrite drop_app_length' by (by rewrite length_save_cells). by rewrite IH.
Qed.

Lemma entries_restored junk id l : length l = 32%nat -> Forall typed l -> load_entries 32 (save_entries junk id l) = l.
Proof. intros <- Hl. rewrite <- (app_nil_r (save_entries _ _ _)). by apply load_save_entries. Qed.

Lemma load_bytes_at n off m (i : nat) : (i < n)%nat -> load_bytes n off m !!! i = Prelude.byte_at m (off + Z.of_nat i).
Proof.
  revert off i. induction n as [|n IH]; intros off i Hi; [lia|]. destruct i as [|i]; [by rewrite Z.add_0_r|].
  cbn [load_bytes]. change ((_ :: ?l) !!! S i) with (l !!! i). rewrite IH by lia. f_equal. lia.
Qed.

(** A memory written over with what another held. *)
Lemma byte_at_restored n off m m' x :
  Prelude.byte_at (store_bytes off (load_bytes n off m) m') x =
    if (off <=? x) && (x <? off + Z.of_nat n) then Prelude.byte_at m x else Prelude.byte_at m' x.
Proof.
  rewrite store_bytes_lookup, length_load_bytes.
  destruct (Z.leb_spec off x), (Z.ltb_spec x (off + Z.of_nat n)); try done. cbn [andb].
  rewrite load_bytes_at by lia. f_equal. lia.
Qed.

(** A translation table written over with the saved part of another. *)
Lemma lut_restored n lut lut' x :
  default 0 (store_words 0 (lut_words n lut) lut' !! x) =
    if (0 <=? x) && (x <? Z.of_nat n) then default 0 (lut !! x) else default 0 (lut' !! x).
Proof.
  pose proof (store_bytes_lookup 0 (lut_words n lut) lut' x) as E. unfold Prelude.byte_at in E. unfold store_words.
  rewrite E. unfold lut_words at 1. rewrite length_map, length_seq, Z.add_0_l.
  destruct (Z.leb_spec 0 x); [|done]. destruct (Z.ltb_spec x (Z.of_nat n)); [|done]. cbn [andb]. unfold lut_words.
  apply list_lookup_total_correct. rewrite list_lookup_fmap, lookup_seq_lt by lia. cbn. do 3 f_equal. lia.
Qed.

(** ** Words of the other byte order *)

Lemma land_shifted w m k : 0 <= k -> Z.land w (Z.shiftl m k) = Z.shiftl (Z.land (Z.shiftr w k) m) k.
Proof.
  intros Hk. apply Z.bits_inj'. intros n Hn. rewrite Z.land_spec, !Z.shiftl_spec, Z.land_spec by done.
  destruct (Z.ltb_spec (n - k) 0); [by rewrite !(Z.testbit_neg_r _ (n - k)), andb_false_r by done|].
  rewrite Z.shiftr_spec by done. by replace (n - k + k) with n by lia.
Qed.

Lemma sl_swaps a b c d : is_u8 a -> is_u8 b -> is_u8 c -> is_u8 d -> sl (le_combine [a; b; c; d]) = le_combine [d; c; b; a].
Proof.
  unfold is_u8. intros Ha Hb Hc Hd. set (w := le_combine [a; b; c; d]).
  assert (w = a + 256 * b + 65536 * c + 16777216 * d) as Ew by (unfold w; cbn [le_combine]; lia).
  assert (forall k x, 0 <= k -> Z.shiftr w k mod 256 = x -> Z.land w (Z.shiftl 0xFF k) = x * 2 ^ k) as Hl.
  { intros k x Hk <-. rewrite land_shifted, Z.shiftl_mul_pow2 by done. f_equal. by apply (Z.land_ones _ 8). }
  unfold sl. change 0xFF with (Z.shiftl 0xFF 0) at 1. change 0xFF00 with (Z.shiftl 0xFF 8).
  change 0xFF0000 with (Z.shiftl 0xFF 16). change 0xFF000000 with (Z.shiftl 0xFF 24).
  rewrite (Hl 0 a), (Hl 8 b), (Hl 16 c), (Hl 24 d) by first [done | rewrite Z.shiftr_div_pow2 by done; Z.div_mod_to_equations; lia].
  rewrite !Z.shiftl_mul_pow2, !Z.shiftr_div_pow2 by done.
  replace (c * 2 ^ 16 / 2 ^ 8) with (c * 2 ^ 8) by (Z.div_mod_to_equations; lia).
  replace (d * 2 ^ 24 / 2 ^ 24) with d by (Z.div_mod_to_equations; lia).
  rewrite (lor_add_shift 8 c d) by lia. replace (a * 2 ^ 0 * 2 ^ 24) with ((a * 2 ^ 8) * 2 ^ 16) by lia.
  replace (b * 2 ^ 8 * 2 ^ 8) with (b * 2 ^ 16) by lia.
  replace (Z.lor (a * 2 ^ 8 * 2 ^ 16) (b * 2 ^ 16)) with ((a * 2 ^ 8 + b) * 2 ^ 16).
  2: { rewrite <- Z.mul_assoc, <- Z.pow_add_r by done. rewrite lor_add_shift by lia. lia. }
  rewrite lor_add_shift by lia. cbn [le_combine]. lia.
Qed.

Lemma sl_bytes l : length l = 4%nat -> Forall is_u8 l -> le_split 4 (sl (le_combine l)) = rev l.
Proof.
  destruct l as [|a [|b [|c [|d [|]]]]]; try done. intros _ Hl.
  pose proof Hl as [Ha [Hb [Hc [Hd _]%Forall_cons]%Forall_cons]%Forall_cons]%Forall_cons. rewrite sl_swaps by done.
  change [d; c; b; a] with (rev [a; b; c; d]). change 4%nat with (length (rev [a; b; c; d])).
  apply le_split_combine. by apply Forall_rev.
Qed.

(** ** The event queue's image *)

(** What a queue promises to savestates. *)
Class SavedQueueLaws (Q : Type) `{EventQueueLaws Q, !SavedQueue Q} := {
  q_save_law (s : Q) evs : q_rep s evs -> q_save s = Ret (Spec.image evs, s);
  q_load_law (s : Q) old evs cnt tl :
    q_rep s old -> Forall event_ok evs -> (length evs <= POOL_SIZE)%nat ->
    exists s', q_load cnt (Spec.image evs ++ tl) s = Ret (tt, s') /\
      q_rep s' (Spec.load cnt (special_after cnt (q_sd s)) evs);
  q_add_law (s : Q) evs cnt ty d :
    q_rep s evs -> (length evs < POOL_SIZE)%nat ->
    exists s', q_add cnt ty d s = Ret (tt, s') /\
      q_rep s' (Spec.insert cnt (special_after cnt (q_sd s)) (Event ty (u32 (cnt + d))) evs) /\
      q_next_interrupt s' = (if Spec.becomes_head cnt (special_after cnt (q_sd s)) (Event ty (u32 (cnt + d))) evs
                             then u32 (cnt + d) else q_next_interrupt s);
}.

#[export] Instance pool_saved_laws : SavedQueueLaws irq.
Proof.
  constructor.
  - intros s evs. apply save_eventqueue_infos_ok.
  - intros s old evs cnt tl. apply load_eventqueue_infos_ok.
  - intros s evs cnt ty d R Hl. destruct (add_interrupt_event_ok s evs cnt ty d R Hl) as (s' & E & R' & _ & Hn). eauto.
Qed.

Lemma image_length evs : length (Spec.image evs) = (8 * length evs + 4)%nat.
Proof.
  induction evs as [|e evs IH]; [done|]. cbn [Spec.image length]. rewrite !length_app, !length_le_split, IH. lia.
Qed.

Lemma memread_ok {S} n b rest (s : S) : length b = n -> memread n (b ++ rest) s = Ret ((b, rest), s).
Proof.
  intros Hl. unfold memread. rewrite length_app. destruct (Nat.ltb_spec (length b + length rest) n); [lia|].
  by rewrite take_app_length', drop_app_length' by done.
Qed.

Lemma read_queue_ok {S} fuel evs rest (s : S) :
  Forall event_ok evs -> (length evs < fuel)%nat ->
  read_queue fuel (Spec.image evs ++ rest) s = Ret (Some (Spec.image evs, rest), s).
Proof.
  revert evs. induction fuel as [|fuel IH]; intros evs He Hf; [lia|]. cbn [read_queue].
  destruct He as [|e evs [Ht Hc] He]; [reflexivity|]. cbn [Spec.image length] in *. rewrite <- !app_assoc.
  rewrite (bind_Ret _ _ _ _ _ (memread_ok 4 _ _ s (length_le_split 4 _))). cbn [fst snd].
  rewrite le_combine_split, Z.mod_small by (unfold is_u32 in *; change (256 ^ Z.of_nat 4) with 4294967296; lia).
  destruct (Z.eqb_spec (ev_type e) 0xFFFFFFFF); [lia|].
  rewrite (bind_Ret _ _ _ _ _ (memread_ok 4 _ _ s (length_le_split 4 _))). cbn [fst snd].
  rewrite (bind_Ret _ _ _ _ _ (IH evs He ltac:(lia))). reflexivity.
Qed.

(** ** The console's image *)

Section Console.
Context {Q : Type} `{EventQueue Q, !SavedQueue Q} (V : st_host).
#[local] Abbreviation st := (core Q).
Implicit Types s t : st.

(** The registers hold values of their types, and the arrays have their sizes. *)
Record savable s : Prop := {
  sv_rdram : typed (rdram_register (c_dev s));
  sv_mi : typed (MI_register (c_mach s));
  sv_pi : typed (pi_register (c_mach s));
  sv_sp : typed (sp_register (c_mach s));
  sv_rsp : typed (rsp_register (c_dev s));
  sv_si : typed (si_register (c_mach s));
  sv_vi : typed (vi_register (c_mach s));
  sv_ri : typed (ri_register (c_dev s));
  sv_ai : typed (ai_register (c_mach s));
  sv_dpc : typed (dpc_register (c_mach s));
  sv_dps : typed (dps_register (c_dev s));
  sv_flash : typed (d_flash (c_dev s));
  sv_pif : length (PIF_RAMb (c_mach s)) = 64%nat;
  sv_lut_r : forall x, is_u32 (default 0 (tlb_LUT_r (c_mach s) !! x));
  sv_lut_w : forall x, is_u32 (default 0 (tlb_LUT_w (c_mach s) !! x));
  sv_llbit : is_s32 (llbit (c_mach s));
  sv_entries : length (tlb_e (c_mach s)) = 32%nat /\ Forall typed (tlb_e (c_mach s));
  sv_next : is_u32 (next_interrupt_of (c_mach s));
  sv_next_vi : is_u32 (next_vi (c_mach s));
  sv_field : is_s32 (vi_field (c_mach s));
  sv_core : core_ok s
}.

(** The state [t] with what a savestate of [s] contains, part by part. *)
Definition with_interfaces s t : st :=
  let m := c_mach s in
  let d := c_dev s in
  let t := on_dev (fun x => x <| rdram_register := rdram_register d |>) t in
  let t := in_mach (fun x => x <| MI_register := MI_register m |>) t in
  let t := in_mach (fun x => x <| pi_register := pi_register m |>) t in
  let t := in_mach (fun x => x <| sp_register := sp_register m |>) t in
  let t := on_dev (fun x => x <| rsp_register := rsp_register d |>) t in
  let t := in_mach (fun x => x <| si_register := si_register m |>) t in
  let t := in_mach (fun x => x <| vi_register := vi_register m |>) t in
  let t := on_dev (fun x => x <| ri_register := ri_register d |>) t in
  let t := in_mach (fun x => x <| ai_register := ai_register m |>) t in
  let t := in_mach (fun x => x <| dpc_register := dpc_register m |>) t in
  let t := on_dev (fun x => x <| dps_register := dps_register d |>) t in
  let t := t <| rdram := store_bytes 0 (load_bytes RDRAM_BYTES 0 (rdram s)) (rdram t) |> in
  let t := t <| SP_MEM := store_bytes 0 (load_bytes SP_BYTES 0 (SP_MEM s)) (SP_MEM t) |> in
  let t := t <| SP_MEM := store_bytes 0x1000 (load_bytes SP_BYTES 0x1000 (SP_MEM s)) (SP_MEM t) |> in
  let t := in_mach (fun x => x <| PIF_RAMb := PIF_RAMb m |>) t in
  let t := on_dev (fun x => x <| d_flash := d_flash d |>) t in
  let t := in_mach (fun x => x <| tlb_LUT_r := store_words 0 (lut_words LUT_WORDS (tlb_LUT_r m)) (tlb_LUT_r x) |>) t in
  in_mach (fun x => x <| tlb_LUT_w := store_words 0 (lut_words LUT_WORDS (tlb_LUT_w m)) (tlb_LUT_w x) |>) t.

Definition with_processor s t : st :=
  let m := c_mach s in
  let t := in_mach (fun x => x <| llbit := llbit m |>) t in
  let t := t <| c_reg := c_reg s |> in
  let t := in_mach (fun x => x <| m_cop0 := m_cop0 m |>) t in
  let t := t <| c_lo := c_lo s |> in
  let t := t <| c_hi := c_hi s |> in
  let t := in_cop1 (fun x => x <| reg_cop1_fgr_64 := reg_cop1_fgr_64 (c_cop1 s) |>) t in
  let t := in_cop1 (fun x => x <| FCR0 := FCR0 (c_cop1 s) |>) t in
  let t := in_cop1 (fun x => x <| FCR31 := FCR31 (c_cop1 s) |>) t in
  in_mach (fun x => x <| tlb_e := tlb_e m |>) t.

Definition with_control s t : st :=
  let m := c_mach s in
  let t := in_mach (fun x => x <| interp_addr := interp_addr m |>) t in
  let t := in_mach (set_next_interrupt (next_interrupt_of m)) t in
  let t := in_mach (fun x => x <| next_vi := next_vi m |>) t in
  in_mach (fun x => x <| vi_field := vi_field m |>) t.

Lemma read_struct_ok {R} `{StructLaws R} id (r : R) (put : R -> st -> st) rest t :
  typed r -> read_struct put (struct_bytes V id r ++ rest) t = Ret (rest, put r t).
Proof.
  intros Hr. unfold read_struct. rewrite read_into_ok by (by apply length_save_cells).
  do 2 f_equal. rewrite <- (app_nil_r (struct_bytes V id r)). unfold struct_bytes. by rewrite load_save_cells, of_cells_cells.
Qed.

Lemma length_lut_words lut : length (save_words 4 (lut_words LUT_WORDS lut)) = LUT_BYTES.
Proof. rewrite length_save_words. unfold lut_words. rewrite length_map, length_seq. unfold LUT_WORDS, LUT_BYTES. lia. Qed.

Lemma load_lut_words n lut : (forall x, is_u32 (default 0 (lut !! x))) ->
  load_words id 4 n (save_words 4 (lut_words n lut)) = lut_words n lut.
Proof.
  intros Hl. assert (length (lut_words n lut) = n) as E by (unfold lut_words; by rewrite length_map, length_seq).
  rewrite <- E at 1. rewrite <- (app_nil_r (save_words _ _)). apply load_save_words. apply Forall_forall.
  intros v (i & -> & _)%list_elem_of_fmap. apply Z.mod_small. apply Hl.
Qed.

#[local] Opaque RDRAM_BYTES SP_BYTES LUT_BYTES LUT_WORDS store_bytes load_bytes save_words store_words lut_words load_words.

(** Reading the next part of the image. *)
Ltac next_struct := rewrite <- app_assoc; erewrite bind_Ret by (apply read_struct_ok; assumption).

Lemma load_interfaces_ok s t rest : savable s -> load_interfaces (save_interfaces V s ++ rest) t = Ret (rest, with_interfaces s t).
Proof.
  intros [? ? ? ? ? ? ? ? ? ? ? ? Hp Hr Hw _ _ _ _ _ _]. unfold load_interfaces, save_interfaces. cbv zeta.
  do 11 next_struct.
  do 3 (rewrite <- app_assoc; erewrite bind_Ret by (apply read_into_ok, length_load_bytes)).
  rewrite <- app_assoc; erewrite bind_Ret by (apply read_into_ok, Hp). next_struct.
  rewrite <- app_assoc; erewrite bind_Ret by (apply read_into_ok, length_lut_words).
  rewrite read_into_ok by apply length_lut_words. rewrite !load_lut_words by assumption. reflexivity.
Qed.

(** Integers come back from their bytes. *)
Lemma combine_u32 v : is_u32 v -> le_combine (le_split 4 v) = v.
Proof. intros Hv. rewrite le_combine_split. by apply Z.mod_small. Qed.
Lemma combine_s32 v : is_s32 v -> s32 (le_combine (le_split 4 v)) = v.
Proof. intros Hv. rewrite le_combine_split. change (s32 (u32 v) = v). rewrite s32_u32. by apply s32_id. Qed.
Lemma combine_s64 v : is_s64 v -> s64 (le_combine (le_split 8 v)) = v.
Proof. intros Hv. rewrite le_combine_split. change (s64 (u64 v) = v). rewrite s64_u64. by apply s64_id. Qed.

Lemma load_save_s64 l : length l = 32%nat -> Forall is_s64 l -> load_words s64 8 32 (save_words 8 l) = l.
Proof.
  intros Hl Hv. rewrite <- Hl. rewrite <- (app_nil_r (save_words 8 l)). apply load_save_words.
  eapply Forall_impl; [exact Hv|]. intros v Hs. change (s64 (u64 v) = v). rewrite s64_u64. by apply s64_id.
Qed.

Ltac next_item := rewrite <- ?app_assoc; erewrite bind_Ret by (apply read_into_ok; first [apply length_le_split
  | rewrite length_save_words; lia | rewrite length_save_cop0; reflexivity]).

Lemma load_processor_ok s t rest : savable s -> load_processor (save_processor V s ++ rest) t = Ret (rest, with_processor s t).
Proof.
  intros Hs. destruct (sv_core _ Hs) as [Hl Hv Hhi Hlo Hm Hf _ _ _ _ _ _ _]. destruct (sv_entries _ Hs) as [He Ht].
  destruct Hf as [Hf0 Hf31 Hfl Hfv _ _]. unfold load_processor, save_processor. cbv zeta. do 8 next_item.
  rewrite read_into_ok by (rewrite length_save_entries by exact Ht; by rewrite He).
  pose proof (sv_llbit _ Hs) as Hll. rewrite !load_save_s64 by assumption. rewrite !combine_s64 by assumption.
  rewrite !combine_s32 by assumption. rewrite cop0_restored by apply (mo_cop0 _ Hm). rewrite entries_restored by done.
  reflexivity.
Qed.

Lemma load_memory_ok s t :
  savable s -> pure (c_mach s) = true -> pure (c_mach t) = true ->
  load_memory_from_buffer (first_block V s) t = Ret (tt, with_control s (with_processor s (with_interfaces s t))).
Proof.
  intros Hs Hp Ht. pose proof (mo_pc _ (co_mach _ (sv_core _ Hs))) as Hpc. unfold load_memory_from_buffer, first_block.
  erewrite bind_Ret by (apply load_interfaces_ok, Hs). erewrite bind_Ret by (apply load_processor_ok, Hs).
  set (t1 := with_processor s (with_interfaces s t)). assert (pure (c_mach t1) = true) as Ht1 by exact Ht.
  unfold load_address, save_control. rewrite bind_assoc, bind_get_l, Ht1, Hp.
  erewrite bind_Ret by (apply read_into_ok, length_le_split). do 2 next_item.
  rewrite <- (app_nil_r (le_split 4 (vi_field _))). erewrite bind_Ret by (apply read_into_ok, length_le_split).
  rewrite combine_s32 by apply (sv_field _ Hs).
  rewrite !combine_u32 by first [exact Hpc | apply (sv_next _ Hs) | apply (sv_next_vi _ Hs)]. reflexivity.
Qed.

(** The registers a savestate contains. *)
Definition saved_registers s :=
  let m := c_mach s in
  let d := c_dev s in
  ((c_reg s, c_hi s, c_lo s, m_cop0 m, llbit m, tlb_e m, interp_addr m),
   (reg_cop1_fgr_64 (c_cop1 s), FCR0 (c_cop1 s), FCR31 (c_cop1 s)),
   (rdram_register d, MI_register m, pi_register m, sp_register m, rsp_register d, si_register m, vi_register m,
    ri_register d, ai_register m, dpc_register m, dps_register d, PIF_RAMb m, d_flash d),
   (next_vi m, vi_field m)).

(** What it does not contain. *)
Definition unsaved s :=
  let m := c_mach s in
  let d := c_dev s in
  (rom s, sram d, flashram d, eeprom d, mempack d, d_summercart d, sd_image d, last_addr m, delay_slot m, skip_jump m, PC_addr m,
   dynacore m, interpcore m, Machine.rom_CRC1 m).

Lemma with_registers s t : saved_registers (with_control s (with_processor s (with_interfaces s t))) = saved_registers s.
Proof. reflexivity. Qed.
Lemma with_unsaved s t : unsaved (with_control s (with_processor s (with_interfaces s t))) = unsaved t.
Proof. reflexivity. Qed.
End Console.

(** [t'] is [t] after a savestate of [s] has been loaded into it. *)
Record restored {Q} `{EventQueue Q} (s t t' : core Q) : Prop := {
  rs_registers : saved_registers t' = saved_registers s;
  rs_next : next_interrupt_of (c_mach t') = next_interrupt_of (c_mach s);
  rs_rdram a : 0 <= a < 0x800000 -> Prelude.byte_at (rdram t') a = Prelude.byte_at (rdram s) a;
  rs_sp a : 0 <= a < 0x2000 -> Prelude.byte_at (SP_MEM t') a = Prelude.byte_at (SP_MEM s) a;
  rs_lut x : 0 <= x < 0x40000 ->
    default 0 (tlb_LUT_r (c_mach t') !! x) = default 0 (tlb_LUT_r (c_mach s) !! x) /\
    default 0 (tlb_LUT_w (c_mach t') !! x) = default 0 (tlb_LUT_w (c_mach s) !! x);
  rs_lut_kept x : 0x40000 <= x ->
    default 0 (tlb_LUT_r (c_mach t') !! x) = default 0 (tlb_LUT_r (c_mach t) !! x) /\
    default 0 (tlb_LUT_w (c_mach t') !! x) = default 0 (tlb_LUT_w (c_mach t) !! x);
  rs_kept : unsaved t' = unsaved t
}.

Lemma RDRAM_size : Z.of_nat RDRAM_BYTES = 0x800000.
Proof. unfold RDRAM_BYTES. lia. Qed.
Lemma SP_size : Z.of_nat SP_BYTES = 0x1000.
Proof. unfold SP_BYTES. lia. Qed.
Lemma LUT_size : Z.of_nat LUT_WORDS = 0x40000.
Proof. unfold LUT_WORDS. lia. Qed.

Section Load.
Context {Q : Type} `{EventQueueLaws Q, !SavedQueue Q, !SavedQueueLaws Q} (V : st_host).
#[local] Abbreviation st := (core Q).
Implicit Types s t : st.
#[local] Opaque RDRAM_BYTES SP_BYTES LUT_BYTES LUT_WORDS store_bytes load_bytes save_words store_words lut_words load_words.

Lemma with_tables s t x :
  let t' := with_control s (with_processor s (with_interfaces s t)) in
  let saved := (0 <=? x) && (x <? 0x40000) in
  default 0 (tlb_LUT_r (c_mach t') !! x) = (if saved then default 0 (tlb_LUT_r (c_mach s) !! x) else default 0 (tlb_LUT_r (c_mach t) !! x)) /\
  default 0 (tlb_LUT_w (c_mach t') !! x) = (if saved then default 0 (tlb_LUT_w (c_mach s) !! x) else default 0 (tlb_LUT_w (c_mach t) !! x)).
Proof. cbv zeta. rewrite <- LUT_size. split; apply lut_restored. Qed.

Lemma with_restored s t q evs :
  q_rep q evs ->
  restored s t (with_control s (with_processor s (with_interfaces s (t <| c_mach := (c_mach t) <| irq_queue := q |> |>)))).
Proof.
  intros Hq. set (t0 := t <| c_mach := _ |>). constructor.
  - apply with_registers.
  - exact (proj1 (proj2 (q_set_next_law _ evs (next_interrupt_of (c_mach s)) Hq))).
  - intros a Ha. change (Prelude.byte_at (store_bytes 0 (load_bytes RDRAM_BYTES 0 (rdram s)) (rdram t)) a = Prelude.byte_at (rdram s) a).
    rewrite byte_at_restored, RDRAM_size. by case_cmp; [case_cmp|lia]; [|lia].
  - intros a Ha.
    change (Prelude.byte_at (store_bytes 0x1000 (load_bytes SP_BYTES 0x1000 (SP_MEM s))
      (store_bytes 0 (load_bytes SP_BYTES 0 (SP_MEM s)) (SP_MEM t))) a = Prelude.byte_at (SP_MEM s) a).
    rewrite !byte_at_restored, SP_size. repeat case_cmp; cbn [andb]; first [reflexivity | lia].
  - intros x Hx. rewrite !(proj1 (with_tables s t0 x)), !(proj2 (with_tables s t0 x)).
    repeat case_cmp; cbn [andb]; first [split; reflexivity | lia].
  - intros x Hx. rewrite !(proj1 (with_tables s t0 x)), !(proj2 (with_tables s t0 x)).
    repeat case_cmp; cbn [andb]; first [split; reflexivity | lia].
  - etransitivity; [apply with_unsaved|reflexivity].
Qed.

(** Loading what was saved. *)
Lemma load_console_ok s t evs old :
  savable s -> pure (c_mach s) = true -> pure (c_mach t) = true ->
  Forall event_ok evs -> (length evs <= POOL_SIZE)%nat -> q_rep (irq_queue (c_mach t)) old ->
  exists t', load_console (first_block V s) (Spec.image evs) t = Ret (tt, t') /\ restored s t t' /\
    q_rep (irq_queue (c_mach t'))
      (Spec.load (Count (c_mach t)) (special_after (Count (c_mach t)) (q_sd (irq_queue (c_mach t)))) evs).
Proof.
  intros Hs Hp Ht He Hl Hq. unfold load_console.
  destruct (q_load_law _ old evs (Count (c_mach t)) (replicate (1024 - length (Spec.image evs)) 0) Hq He Hl) as (q & El & Hq').
  assert (on_mach (m <-- get ;;; on_queue (q_load (Count m) (queue_buffer (Spec.image evs)))) t =
    Ret (tt, t <| c_mach := (c_mach t) <| irq_queue := q |> |>)) as E.
  { unfold on_mach. rewrite bind_get_l. unfold on_queue. fold (queue_buffer (Spec.image evs)) in El. rewrite El. reflexivity. }
  rewrite (bind_Ret _ _ _ _ _ E), load_memory_ok by assumption.
  eexists. split; [reflexivity|]. split; [exact (with_restored s t q _ Hq')|].
  exact (proj1 (q_set_next_law _ _ (next_interrupt_of (c_mach s)) Hq')).
Qed.
End Load.

(** ** The end of the transfer from the PIF *)

(** RDRAM after [n] words from the [i]th on have been copied from PIF RAM. *)
Fixpoint filled (n : nat) (i base : Z) (pif : list Z) (m : gmap Z Z) : gmap Z Z :=
  match n with
  | O => m
  | S n => filled n (i + 1) base pif (store_bytes (base + 4 * i) (rev (take 4 (drop (Z.to_nat (4 * i)) pif))) m)
  end.

Lemma mem_store_word off l m x :
  length l = 4%nat -> off mod 4 = 0 ->
  mem (store_bytes off (rev l) m) x = if (off <=? x) && (x <? off + 4) then l !!! Z.to_nat (x - off) else mem m x.
Proof.
  intros Hl Ho. unfold mem. rewrite store_bytes_lookup, length_rev, Hl. change (Z.of_nat 4) with 4.
  pose proof (lxor_3 x) as H3. set (y := Z.lxor x 3) in *. clearbody y.
  destruct ((off <=? x) && (x <? off + 4)) eqn:E1, ((off <=? y) && (y <? off + 4)) eqn:E2;
    [|Z.div_mod_to_equations; lia..|done].
  assert (Z.to_nat (y - off) = (3 - Z.to_nat (x - off)))%nat as -> by (Z.div_mod_to_equations; lia).
  destruct l as [|a [|b [|c [|d [|]]]]]; try done.
  assert (x = off \/ x = off + 1 \/ x = off + 2 \/ x = off + 3) as [-> | [-> | [-> | ->]]] by lia;
    rewrite ?Z.sub_diag, ?Z.add_simpl_l; reflexivity.
Qed.

Lemma mem_filled n i base pif m x :
  base mod 4 = 0 -> 0 <= i -> 4 * (i + Z.of_nat n) <= Z.of_nat (length pif) ->
  mem (filled n i base pif m) x =
    if (base + 4 * i <=? x) && (x <? base + 4 * (i + Z.of_nat n)) then pif !!! Z.to_nat (x - base) else mem m x.
Proof.
  intros Hb. revert i m. induction n as [|n IH]; intros i m Hi Hn; cbn [filled].
  - rewrite Z.add_0_r. repeat case_cmp; cbn [andb]; lia || done.
  - rewrite Nat2Z.inj_succ in *. rewrite IH by lia.
    rewrite mem_store_word by first [rewrite length_take, length_drop; lia | rewrite Z.add_mod, Hb, Z.mul_comm, Z.mod_mul by lia; done].
    repeat case_cmp; cbn [andb]; try (lia || done).
    rewrite lookup_total_take, lookup_total_drop, decide_True by lia. f_equal. lia.
Qed.

Section Finish.
Context {Q : Type} `{EventQueueLaws Q, !SavedQueue Q, !SavedQueueLaws Q}.
#[local] Abbreviation st := (core Q).
Implicit Types s t : st.

Lemma finish_loop n i w s m :
  length (ram s) = 64%nat -> Forall is_u8 (ram s) -> 0 <= i -> i + Z.of_nat n <= 16 -> 0 <= w -> w + 16 <= 0x200000 ->
  for_loop n i (fun i => b <-- pif_bytes 4 (4 * i) ;;; put_word rdram_array ((w + i) * 4) (sl (le_combine b))) (s <| rdram := m |>) =
    Ret (tt, s <| rdram := filled n i (4 * w) (ram s) m |>).
Proof.
  intros Hl Hu. revert i m. induction n as [|n IH]; intros i m Hi Hn Hw Hb; cbn [for_loop filled]; [reflexivity|].
  rewrite Nat2Z.inj_succ in Hn. rewrite bind_assoc.
  assert (ram (s <| rdram := m |>) = ram s) as Er by reflexivity.
  erewrite bind_Ret by (apply pif_bytes_at; rewrite ?Er, ?Hl; lia). rewrite Er. set (b := take 4 _).
  assert (length b = 4%nat) as Hb4 by (unfold b; rewrite length_take, length_drop, Hl; lia).
  unfold put_word. rewrite bind_assoc, bind_get_l. change (arr_len rdram_array _) with 0x800000.
  destruct (Z.leb_spec 0 ((w + i) * 4)), (Z.leb_spec ((w + i) * 4 + 4) 0x800000); try lia. cbn [andb].
  rewrite bind_modify_l, sl_bytes by (try done; unfold b; by apply Forall_take, Forall_drop).
  replace ((w + i) * 4) with (4 * w + 4 * i) by lia. apply IH; lia.
Qed.

(** What finishing the transfer does. *)
Lemma finish_dma_ok s evs :
  length (ram s) = 64%nat -> Forall is_u8 (ram s) -> 0 <= si_dram_addr (si_register (c_mach s)) ->
  si_dram_addr (si_register (c_mach s)) / 4 + 16 <= 0x200000 -> interpcore (c_mach s) = true ->
  q_rep (irq_queue (c_mach s)) evs -> (length evs < POOL_SIZE)%nat ->
  let w := si_dram_addr (si_register (c_mach s)) / 4 in
  let count := u32 (Count (c_mach s) + u32 (interp_addr (c_mach s) - last_addr (c_mach s)) / 2) in
  let sd := special_after count (q_sd (irq_queue (c_mach s))) in
  exists q,
    finish_dma s = Ret (tt, s <| rdram := filled 16 0 (4 * w) (ram s) (rdram s) |>
      <| c_mach := (set_Count count (c_mach s)) <| last_addr := interp_addr (c_mach s) |> <| irq_queue := q |> |>
      <| c_dev := (c_dev s) <| g_st_skip_dma := true |> |>) /\
    q_rep q (Spec.insert count sd (Event SI_INT (u32 (count + 0x900))) evs) /\
    q_next_interrupt q = (if Spec.becomes_head count sd (Event SI_INT (u32 (count + 0x900))) evs
                          then u32 (count + 0x900) else next_interrupt_of (c_mach s)).
Proof.
  intros Hl Hu Hz Hb Hi Hq Hn w count sd. unfold finish_dma, si_now. rewrite bind_assoc, bind_get_l, bind_ret_l.
  destruct (q_add_law _ evs count SI_INT 0x900 Hq Hn) as (q & Ea & Hr & Hx). exists q. split; [|by split].
  pose proof (finish_loop 16 0 w s (rdram s) Hl Hu ltac:(lia) ltac:(lia) ltac:(unfold w; Z.div_mod_to_equations; lia) Hb) as Ef.
  replace (s <| rdram := rdram s |>) with s in Ef by by destruct s. rewrite (bind_Ret _ _ _ _ _ Ef).
  set (s1 := s <| rdram := _ |>).
  assert (si_done s1 = Ret (tt, s1 <| c_mach := (set_Count count (c_mach s)) <| last_addr := interp_addr (c_mach s) |> <| irq_queue := q |> |>)) as Ed.
  { unfold si_done, on_mach, update_count. rewrite bind_modify_l, bind_get_l. change (c_mach s1) with (c_mach s). rewrite Hi.
    unfold on_queue.
    match goal with |- context [q_add ?c SI_INT _ ?q0] =>
      change (q_add c SI_INT 0x900 q0) with (q_add count SI_INT 0x900 (irq_queue (c_mach s))) end.
    rewrite Ea. reflexivity. }
  rewrite (bind_Ret _ _ _ _ _ Ed). reflexivity.
Qed.
End Finish.

(** ** The parts of a savestate file *)

Section File.
Context {Q : Type} `{EventQueue Q, !SavedQueue Q} (V : st_host).
#[local] Abbreviation st := (core Q).
Implicit Types s t : st.

Lemma length_struct {R} `{Struct R} id (r : R) : typed r -> length (struct_bytes V id r) = sizeof (layout (R := R)).
Proof. intros Hr. by apply length_save_cells. Qed.

Ltac lengths := repeat first [rewrite length_app | rewrite length_struct by assumption | rewrite length_load_bytes
  | rewrite length_le_split | rewrite length_save_cop0 | rewrite length_save_words].

(** The registers in front of the serial interface's, and those behind them. *)
Lemma split_at_si s : savable s ->
  exists pre post, first_block V s = pre ++ struct_bytes V 5 (si_register (c_mach s)) ++ post /\ length pre = Z.to_nat (0xDC - 0x20).
Proof.
  intros []. unfold first_block, save_interfaces. cbv zeta. rewrite <- !app_assoc.
  eexists (struct_bytes V 0 (rdram_register (c_dev s)) ++ struct_bytes V 1 (MI_register (c_mach s)) ++
    struct_bytes V 2 (pi_register (c_mach s)) ++ struct_bytes V 3 (sp_register (c_mach s)) ++ struct_bytes V 4 (rsp_register (c_dev s))), _.
  split; [rewrite <- !app_assoc; reflexivity|]. lengths. reflexivity.
Qed.

Lemma split_at_flash s : savable s ->
  exists pre post, first_block V s = pre ++ struct_bytes V 11 (d_flash (c_dev s)) ++ post /\ length pre = Z.to_nat (0x8021F0 - 0x20).
Proof.
  intros [? ? ? ? ? ? ? ? ? ? ? ? Hp _ _ _ _ _ _ _ _]. unfold first_block, save_interfaces. cbv zeta. rewrite <- !app_assoc.
  eexists (struct_bytes V 0 (rdram_register (c_dev s)) ++ struct_bytes V 1 (MI_register (c_mach s)) ++
    struct_bytes V 2 (pi_register (c_mach s)) ++ struct_bytes V 3 (sp_register (c_mach s)) ++ struct_bytes V 4 (rsp_register (c_dev s)) ++
    struct_bytes V 5 (si_register (c_mach s)) ++ struct_bytes V 6 (vi_register (c_mach s)) ++
    struct_bytes V 7 (ri_register (c_dev s)) ++ struct_bytes V 8 (ai_register (c_mach s)) ++
    struct_bytes V 9 (dpc_register (c_mach s)) ++ struct_bytes V 10 (dps_register (c_dev s)) ++
    load_bytes RDRAM_BYTES 0 (rdram s) ++ load_bytes SP_BYTES 0 (SP_MEM s) ++ load_bytes SP_BYTES 0x1000 (SP_MEM s) ++
    PIF_RAMb (c_mach s)), _.
  split; [rewrite <- !app_assoc; reflexivity|]. lengths. rewrite Hp. apply Nat2Z.inj. rewrite !Nat2Z.inj_add, RDRAM_size, SP_size.
  rewrite Z2Nat.id by done. reflexivity.
Qed.

Lemma length_first_block s : savable s -> length (first_block V s) = FIRST_BLOCK.
Proof.
  intros [? ? ? ? ? ? ? ? ? ? ? ? Hp _ _ _ [He Ht] _ _ _ Hc]. destruct Hc as [Hl _ _ _ _ Hf _ _ _ _ _ _ _].
  unfold first_block, save_interfaces, save_processor, save_control. cbv zeta. rewrite <- !app_assoc.
  repeat rewrite length_app. rewrite !length_struct, !length_load_bytes, !length_lut_words, !length_le_split, length_save_cop0,
    !length_save_words, length_save_entries, Hp, Hl, He, (fo_length _ Hf) by assumption.
  apply Nat2Z.inj. rewrite !Nat2Z.inj_add, RDRAM_size, SP_size. unfold LUT_BYTES, FIRST_BLOCK. rewrite !Z2Nat.id by lia.
  reflexivity.
Qed.

(** The ranges the checks of a loaded state demand. *)
Lemma check_range_ok fuel i bound size :
  0 <= i <= bound -> bound <= size -> size mod 4 = 0 -> size < 2 ^ 31 -> bound - i < Z.of_nat fuel ->
  check_range fuel i bound size = true.
Proof.
  revert i. induction fuel as [|fuel IH]; intros i Hi Hb H4 Hs Hf; cbn [check_range].
  { change (Z.of_nat 0) with 0 in Hf. lia. }
  rewrite u32_id by (unfold is_u32; lia). destruct (Z.ltb_spec i bound); [|done].
  pose proof (lxor3_bound i size ltac:(lia) H4). cbv zeta.
  destruct (Z.ltb_spec (Z.lxor i 3) 0), (Z.leb_spec size (Z.lxor i 3)); try lia. cbn [orb].
  apply IH; lia.
Qed.

(** The transfers a state may be taken in stay inside their memories, and PIF RAM
    holds bytes. *)
Record in_bounds s : Prop := {
  ib_si : si_dram_addr (si_register (c_mach s)) / 4 + 16 <= 0x200000;
  ib_erase : erase_offset (d_flash (c_dev s)) + 128 <= 0x20000;
  ib_write : write_pointer (d_flash (c_dev s)) + 128 <= 0x800000;
  ib_pif : Forall is_u8 (PIF_RAMb (c_mach s))
}.

Lemma flash_words id f post :
  take 4 (drop 16 (struct_bytes V id f ++ post)) = le_split 4 (erase_offset f) /\
  take 4 (drop 20 (struct_bytes V id f ++ post)) = le_split 4 (write_pointer f).
Proof.
  split; reflexivity.
Qed.

Lemma first_block_valid s : savable s -> in_bounds s -> registers_valid (first_block V s) = true.
Proof.
  intros Hs [Hi He Hw _]. unfold registers_valid. apply andb_true_intro. split.
  - destruct (split_at_si s Hs) as (pre & post & -> & Hl). rewrite drop_app_length' by done.
    unfold struct_bytes. rewrite load_save_cells, of_cells_cells by apply (sv_si _ Hs).
    unfold check_register_validity. destruct (Z.ltb_spec 0x800000 (si_dram_addr (si_register (c_mach s)) / 4 + 16)); [lia|done].
  - destruct (split_at_flash s Hs) as (pre & post & -> & Hl). rewrite drop_app_length' by done.
    destruct (sv_flash _ Hs) as (_ & _ & _ & _ & _ & [He0 Her] & [Hw0 Hwr] & _).
    change (8 * Z.of_nat 4) with 32 in *. unfold check_flashram_infos. cbv zeta.
    destruct (flash_words 11 (d_flash (c_dev s)) post) as [-> ->]. rewrite !le_combine_split, !Z.mod_small by (split; assumption).
    rewrite !u32_id, !s32_id by (unfold is_u32, is_s32; lia).
    rewrite !check_range_ok by first [lia | reflexivity]. reflexivity.
Qed.
End File.
