(* ===== verification/SaveRoundtrip.v ===== *)
(** * Saving and loading

    A savestate that was generated loads: the movie engine gets back the movie section
    and the console its state, up to what a savestate does not contain. *)

From Stdlib Require Import Strings.String.
From S2P Require Import Prelude Hoare Queue Pool PoolRefines Machine Exception Alu AluProps Tlb DeviceState Core Dma PifLut Pif SummerCart Bus BusProps Cop SaveFormat WfProps DmaProps PifProps PakProps Rom Path Cheats Movie VcrState Vcr Savestate SavestateProps.

Open Scope prog_scope.
#[local] Open Scope Z_scope.

(** ** The movie section *)

(** A movie section as [core_vcr_freeze] makes it. *)
Record freeze_ok (f : core_vcr_freeze_info) : Prop := {
  fz_size : is_u32 (freeze_size f);
  fz_uid : is_u32 (freeze_uid f);
  fz_sample : is_u32 (freeze_current_sample f);
  fz_vi : is_u32 (freeze_current_vi f);
  fz_length : 0 <= freeze_length_samples f /\ 4 * (freeze_length_samples f + 1) < 2 ^ 32;
  fz_inputs : Z.of_nat (List.length (freeze_input_buffer f)) = freeze_length_samples f + 1;
  fz_values : Forall is_u32 (freeze_input_buffer f);
  fz_reached : freeze_current_sample f <= freeze_length_samples f + 1
}.

(** The same section with the zeros behind its inputs that reading it adds. *)
Definition padded_freeze (f : core_vcr_freeze_info) : core_vcr_freeze_info :=
  Freeze (freeze_size f) (freeze_uid f) (freeze_current_sample f) (freeze_current_vi f) (freeze_length_samples f)
    (freeze_input_buffer f ++
     replicate (Z.to_nat (4 * (freeze_length_samples f + 1)) - List.length (freeze_input_buffer f)) 0).

Lemma recording_padded H f last : freeze_ok f -> unfreeze_recording H (padded_freeze f) last = unfreeze_recording H f last.
Proof.
  intros [_ _ [Hs _] _ _ Hi _ Hr]. unfold unfreeze_recording. cbn [padded_freeze freeze_current_sample freeze_input_buffer].
  rewrite take_app_le by lia. rewrite length_app.
  destruct (Z.ltb_spec (Z.of_nat (List.length (freeze_input_buffer f))) (freeze_current_sample f)); [lia|].
  destruct (Z.ltb_spec (Z.of_nat (List.length (freeze_input_buffer f) +
    List.length (replicate (Z.to_nat (4 * (freeze_length_samples f + 1)) - List.length (freeze_input_buffer f)) 0)))
    (freeze_current_sample f)); [lia|reflexivity].
Qed.

Lemma st_load_padded H f i s : freeze_ok f -> st_load H (Some (padded_freeze f)) i s = st_load H (Some f) i s.
Proof.
  intros Hf. assert (core_vcr_unfreeze H (padded_freeze f) s = core_vcr_unfreeze H f s) as E.
  { unfold core_vcr_unfreeze. rewrite !bind_get_l. by rewrite recording_padded by done. }
  unfold st_load, bind. by rewrite E.
Qed.

Lemma read_movie_ok {S} f rest (s : S) :
  freeze_ok f ->
  read_movie (drop 4 (movie_image (Some f)) ++ rest) s = Ret ((padded_freeze f, rest), s).
Proof.
  intros [Hsz Hu Hcs Hvi [Hl0 Hl] Hi Hv _]. cbn [movie_image]. rewrite drop_app_length' by by rewrite length_le_split.
  rewrite <- !app_assoc. unfold read_movie.
  assert (is_u32 (freeze_length_samples f)) as Hlu by (unfold is_u32; lia).
  do 5 (rewrite (bind_Ret _ _ _ _ _ (memread_ok 4 _ _ s (length_le_split 4 _))); cbn [fst snd]).
  rewrite !combine_u32 by assumption. rewrite (u32_id (freeze_length_samples f + 1)) by (unfold is_u32; lia).
  set (n := 4 * (freeze_length_samples f + 1)). rewrite (u32_id n) by (unfold is_u32; lia).
  assert (List.length (save_words 4 (freeze_input_buffer f)) = Z.to_nat n) as Hw by (rewrite length_save_words; lia).
  rewrite (bind_Ret _ _ _ _ _ (memread_ok (Z.to_nat n) _ rest s Hw)). cbn [fst snd].
  replace (Z.to_nat (n / 4)) with (List.length (freeze_input_buffer f)) by (unfold n; Z.div_mod_to_equations; lia).
  rewrite <- (app_nil_r (save_words _ _)), load_save_words; [reflexivity|].
  eapply Forall_impl; [exact Hv|]. intros v Hx. by apply Z.mod_small.
Qed.

(** ** The whole file *)

(** The hash is text, and a screen has the size the video plugin reports. *)
Record st_host_ok (V : st_host) : Prop := {
  sh_md5 : List.length (rom_md5 V) = 32%nat /\ Forall (fun c => 0x30 <= c < 0x67) (rom_md5 V);
  sh_size : is_s32 (video_size V).1 /\ is_s32 (video_size V).2;
  sh_video : let n := (video_size V).1 * (video_size V).2 * 3 in 0 <= n < 2 ^ 32 /\ Z.of_nat (List.length (video V)) = n
}.

(** The bytes a load task reads. *)
Definition source {Q} (task : t_savestate_task) (t : session Q) : list Z :=
  match st_medium task with
  | core_st_medium_path path => read_file_buffer (fs (ss_vcr t)) path
  | core_st_medium_memory buffer => buffer
  end.

(** [c'] is [c] after the transfer from the PIF has been finished: PIF RAM is in RDRAM
    from the address of the serial interface on, the interrupt is queued, and Count has
    advanced by the instructions since the last branch. *)
Record finished {Q} `{EventQueueLaws Q} (evs : list event) (c c' : core Q) : Prop := {
  fi_count : Count (c_mach c') = u32 (Count (c_mach c) + u32 (interp_addr (c_mach c) - last_addr (c_mach c)) / 2);
  fi_registers : saved_registers (in_mach (set_Count (Count (c_mach c))) c') = saved_registers c;
  fi_queue : exists sd,
    q_rep (irq_queue (c_mach c')) (Spec.insert (Count (c_mach c')) sd (Event SI_INT (u32 (Count (c_mach c') + 0x900))) evs);
  fi_rdram x :
    let base := 4 * (si_dram_addr (si_register (c_mach c)) / 4) in
    mem (rdram c') x = if (base <=? x) && (x <? base + 64) then PIF_RAMb (c_mach c) !!! Z.to_nat (x - base) else mem (rdram c) x;
  fi_memories : SP_MEM c' = SP_MEM c /\ tlb_LUT_r (c_mach c') = tlb_LUT_r (c_mach c) /\ tlb_LUT_w (c_mach c') = tlb_LUT_w (c_mach c);
  fi_last : last_addr (c_mach c') = interp_addr (c_mach c);
  fi_skip : g_st_skip_dma (c_dev c') = true
}.

Section Session.
Context {Q : Type} `{EventQueueLaws Q, !SavedQueue Q, !SavedQueueLaws Q} (H : host) (V : st_host).
#[local] Abbreviation ses := (session Q).
Implicit Types s t : ses.

Definition image_of s freeze evs : list Z :=
  rom_md5 V ++ first_block V (ss_core s) ++ Spec.image evs ++ movie_image freeze ++ screen_image V.

Lemma generate_ok s freeze v evs :
  core_vcr_freeze H (ss_vcr s) = Ret (freeze, v) -> q_rep (irq_queue (c_mach (ss_core s))) evs -> (List.length evs <= 127)%nat ->
  generate_savestate H V s = Ret (image_of s freeze evs, s <| ss_vcr := v |>).
Proof.
  intros Ef Hq Hl. unfold generate_savestate.
  assert (on_vcr (core_vcr_freeze H) s = Ret (freeze, s <| ss_vcr := v |>)) as E1 by (unfold on_vcr; rewrite Ef; reflexivity).
  rewrite (bind_Ret _ _ _ _ _ E1). set (s1 := s <| ss_vcr := v |>).
  assert (on_core (on_mach (on_queue q_save)) s1 = Ret (Spec.image evs, s1)) as E2.
  { unfold on_core, on_mach, on_queue. change (ss_core s1) with (ss_core s). rewrite (q_save_law _ _ Hq). cbn [obind].
    destruct s as [[] ? ? ? ? ?]. do 3 f_equal. cbn. f_equal. f_equal. by destruct c_mach. }
  rewrite (bind_Ret _ _ _ _ _ E2), image_length. destruct (Nat.ltb_spec 1024 (8 * List.length evs + 4)); [lia|].
  rewrite bind_ret_l, bind_get_l. reflexivity.
Qed.

Lemma read_screen_ok s : st_host_ok V -> exists screen, read_screen (screen_image V) s = Ret (screen, s).
Proof.
  intros [_ [Hw Hh] [Hn Hv]]. unfold screen_image. destruct (mge_available V && st_screenshot V); [|by exists None].
  destruct (video_size V) as [w h]. cbn [fst snd] in *. cbv zeta in Hn, Hv. unfold read_screen.
  rewrite (u32_id (w * h * 3)) by (unfold is_u32; lia). rewrite take_ge by lia.
  match goal with |- context [(List.length (SCR ++ ?r) =? 0)%nat] => change (List.length (SCR ++ r) =? 0)%nat with false end. cbv iota.
  rewrite (bind_Ret _ _ _ _ _ (memread_ok 4 SCR _ s eq_refl)). cbn [fst snd].
  rewrite bool_decide_true by done. cbn [negb].
  do 2 (rewrite (bind_Ret _ _ _ _ _ (memread_ok 4 _ _ s (length_le_split 4 _))); cbn [fst snd]).
  rewrite !combine_s32 by assumption. rewrite (u32_id (w * h * 3)) by (unfold is_u32; lia).
  assert (List.length (video V) = Z.to_nat (w * h * 3)) as Hl by lia.
  rewrite <- (app_nil_r (video V)), (bind_Ret _ _ _ _ _ (memread_ok _ _ [] s Hl)). by eexists.
Qed.

Lemma restore_screen_ok screen s : exists calls, restore_screen V screen s = Ret (tt, s <| st_calls := calls |>).
Proof.
  unfold restore_screen. rewrite bind_get_l. destruct screen as [[[w h] v]|].
  - unfold when, st_note, modify, ret. destruct (_ && _); [by eexists|]. exists (st_calls s). by destruct s.
  - exists (st_calls s). by destruct s.
Qed.

(** What a successful load tells its caller. *)
Definition told (task : t_savestate_task) (buf : list Z) (calls : list st_call) : Prop :=
  match st_cb task with
  | CbCaller (Some cb) => head calls = Some (StCallback cb Res_Ok (st_job task) (st_medium task) buf)
  | _ => True
  end.

Lemma callback_ok task buf s :
  exists calls undo, task_callback task Res_Ok buf s = Ret (tt, s <| st_calls := calls |> <| g_undo_savestate := undo |>) /\
    told task buf calls.
Proof.
  unfold task_callback, told. destruct (st_cb task) as [|[cb|]].
  - exists (st_calls s), buf. by destruct s.
  - exists (StCallback cb Res_Ok (st_job task) (st_medium task) buf ::
      StPreCallback Res_Ok (st_job task) (st_medium task) buf :: st_calls s), (g_undo_savestate s). by destruct s.
  - exists (StPreCallback Res_Ok (st_job task) (st_medium task) buf :: st_calls s), (g_undo_savestate s). by destruct s.
Qed.

Lemma after_load_ok (c : core Q) :
  pure (c_mach c) = true ->
  exists old ignore, after_load c = Ret (tt, c <| g_vr_beq_ignore_jmp := ignore |>
    <| c_dev := (c_dev c) <| g_st_old := old |> |> <| c_mach := (c_mach c) <| last_addr := interp_addr (c_mach c) |> |>).
Proof.
  intros Hp. unfold after_load. rewrite bind_get_l. cbv zeta. unfold mod_dev at 1. rewrite bind_modify_l.
  set (b := (_ || (_ && _))). eexists _, (if b then true else g_vr_beq_ignore_jmp c).
  unfold mod_mach, on_mach, modify, when. destruct b; unfold bind; cbn [obind ret];
    match goal with |- context [pure (c_mach ?d)] => change (c_mach d) with (c_mach c) end; rewrite Hp;
    destruct c as [? ? ? [] ? ? ? ? ? ? ? ? ? ? ? []]; reflexivity.
Qed.

Lemma on_vcr_ok {A} (m : M vcr A) a v s : m (ss_vcr s) = Ret (a, v) -> on_vcr m s = Ret (a, s <| ss_vcr := v |>).
Proof. intros E. unfold on_vcr. by rewrite E. Qed.
Lemma on_core_ok {A} (m : M (core Q) A) a c s : m (ss_core s) = Ret (a, c) -> on_core m s = Ret (a, s <| ss_core := c |>).
Proof. intros E. unfold on_core. by rewrite E. Qed.

Lemma load_movie_ok task freeze rest r v t :
  (forall f, freeze = Some f -> freeze_ok f) -> st_load H freeze (ignore_warnings task) (ss_vcr t) = Ret (r, v) ->
  exists is_movie, load_movie H task (movie_image freeze ++ rest) t = Ret ((is_movie, r, rest), t <| ss_vcr := v |>).
Proof.
  intros Hf E. unfold load_movie. destruct freeze as [f|].
  - rewrite <- (take_drop 4 (movie_image (Some f))), <- app_assoc.
    rewrite (bind_Ret _ _ _ _ _ (memread_ok 4 (take 4 (movie_image (Some f))) _ t eq_refl)). cbn [fst snd]. change (take 4 (movie_image (Some f))) with (le_split 4 1).
    rewrite combine_u32 by done. change (c_true 1) with true. cbv iota.
    rewrite (bind_Ret _ _ _ _ _ (read_movie_ok f rest t (Hf f eq_refl))). cbn [fst snd].
    rewrite <- (st_load_padded H f _ _ (Hf f eq_refl)) in E. rewrite (bind_Ret _ _ _ _ _ (on_vcr_ok _ _ _ _ E)). by eexists.
  - rewrite (bind_Ret _ _ _ _ _ (memread_ok 4 (movie_image None) _ t eq_refl)). cbn [fst snd]. change (movie_image None) with (le_split 4 0).
    rewrite combine_u32 by done. change (c_true 0) with false. cbv iota.
    rewrite (bind_Ret _ _ _ _ _ (on_vcr_ok _ _ _ _ E)). by eexists.
Qed.

Lemma finish_if_needed_ok (c : core Q) evs :
  q_rep (irq_queue (c_mach c)) evs -> Spec.get_event SI_INT evs = 0 -> finish_dma_if_needed c = finish_dma c.
Proof.
  intros Hq Hg. unfold finish_dma_if_needed.
  assert (on_mach (on_queue (q_get SI_INT)) c = Ret (0, c)) as E.
  { unfold on_mach, on_queue. rewrite (q_get_law _ _ _ Hq), Hg. by destruct c as [? ? ? []]. }
  by rewrite (bind_Ret _ _ _ _ _ E).
Qed.

(** The transfer is finished and the load completed. *)
Lemma finish_load (c : core Q) evs :
  pure (c_mach c) = true -> typed (si_register (c_mach c)) -> List.length (PIF_RAMb (c_mach c)) = 64%nat -> in_bounds c ->
  q_rep (irq_queue (c_mach c)) evs -> (List.length evs < POOL_SIZE)%nat -> Spec.get_event SI_INT evs = 0 ->
  exists c1 c2, finish_dma_if_needed c = Ret (tt, c1) /\ after_load c1 = Ret (tt, c2) /\ finished evs c c2.
Proof.
  intros Hp Hs Hl [Hb _ _ Hu] Hq Hn Hg. rewrite (finish_if_needed_ok c evs Hq Hg).
  pose proof (proj2 (andb_prop _ _ Hp)) as Hi.
  destruct Hs as [[Hz _] _].
  destruct (finish_dma_ok c evs Hl Hu Hz Hb Hi Hq Hn) as (q & E & Hq' & _). eexists _. set (c1 := upd_field _ _) in E.
  destruct (after_load_ok c1 Hp) as (o & i & E2). eexists. split; [exact E|]. split; [exact E2|].
  set (count := u32 _) in *. set (sd := special_after _ _) in *.
  constructor; [reflexivity|subst c1; clear; destruct c as [? ? ? [[]]]; reflexivity|exists sd; exact Hq'| |split_and!; reflexivity|reflexivity|reflexivity].
  intros x. cbv zeta. set (base := 4 * _).
  change (mem (filled 16 0 base (ram c) (rdram c)) x = if (base <=? x) && (x <? base + 64) then ram c !!! Z.to_nat (x - base) else mem (rdram c) x).
  rewrite mem_filled; [|unfold base; rewrite Z.mul_comm; by apply Z.mod_mul|done|unfold ram; rewrite Hl; done].
  change (Z.of_nat 16) with 16. rewrite Z.mul_0_r, !Z.add_0_r, Z.add_0_l. reflexivity.
Qed.

(** A restored console, ready to finish the transfer. *)
Lemma restored_ready (a b c : core Q) :
  savable a -> in_bounds a -> pure (c_mach b) = true -> restored a b c ->
  pure (c_mach c) = true /\ typed (si_register (c_mach c)) /\ List.length (PIF_RAMb (c_mach c)) = 64%nat /\ in_bounds c.
Proof.
  intros Ha [] Hp Hr. pose proof (rs_registers _ _ _ Hr) as Er. pose proof (rs_kept _ _ _ Hr) as Ek. unfold saved_registers in Er.
  unfold unsaved in Ek. injection Er as E1 E2 E3 E4 E5 E6 E7 E8 E9 E10 E11 E12 E13 E14 E15 E16 E17 E18 E19 E20 E21 E22 E23 E24 E25.
  injection Ek as K1 K2 K3 K4 K5 K6 K7 K8 K9 K10 K11 K12 K13 K14. split_and!.
  - unfold pure. by rewrite K12, K13.
  - rewrite E16. apply (sv_si _ Ha).
  - rewrite E22. apply (sv_pif _ Ha).
  - constructor; rewrite ?E16, ?E22, ?E23; assumption.
Qed.

Lemma load_checked_ok task s t freeze v evs old buf :
  savable (ss_core s) -> in_bounds (ss_core s) -> pure (c_mach (ss_core s)) = true -> Forall event_ok evs ->
  (List.length evs <= 127)%nat -> Spec.get_event SI_INT evs = 0 -> st_host_ok V -> (forall f, freeze = Some f -> freeze_ok f) ->
  pure (c_mach (ss_core t)) = true -> q_rep (irq_queue (c_mach (ss_core t))) old -> ordered (Count (c_mach (ss_core t))) evs ->
  st_load H freeze (ignore_warnings task) (ss_vcr t) = Ret (Res_Ok, v) ->
  exists t' c,
    load_checked H V task buf (first_block V (ss_core s)) (Spec.image evs) (movie_image freeze ++ screen_image V) t = Ret (tt, t') /\
    ss_vcr t' = v /\ restored (ss_core s) (ss_core t) c /\ finished evs c (ss_core t') /\ told task buf (st_calls t').
Proof.
  intros Hs Hb Hp He Hn Hg HV Hf Ht Hq Ho El. unfold load_checked.
  destruct (load_movie_ok task freeze (screen_image V) _ _ t Hf El) as (is_movie & Em).
  rewrite (bind_Ret _ _ _ _ _ Em). cbn [is_ok]. set (t1 := t <| ss_vcr := v |>).
  destruct (read_screen_ok t1 HV) as (screen & Es). rewrite (bind_Ret _ _ _ _ _ Es).
  destruct (load_console_ok V (ss_core s) (ss_core t) evs old Hs Hp Ht He ltac:(unfold POOL_SIZE; lia) Hq) as (c & Ec & Hr & Hq').
  rewrite load_ordered in Hq' by exact Ho.
  rewrite (bind_Ret _ _ _ _ _ (on_core_ok _ _ _ t1 Ec)). set (t2 := t1 <| ss_core := c |>).
  destruct (restore_screen_ok screen t2) as (calls & E3). rewrite (bind_Ret _ _ _ _ _ E3). set (t3 := t2 <| st_calls := calls |>).
  destruct (restored_ready _ _ c Hs Hb Ht Hr) as (R1 & R2 & R3 & R4).
  destruct (finish_load c evs R1 R2 R3 R4 Hq' ltac:(unfold POOL_SIZE; lia) Hg) as (c1 & c2 & E4 & E5 & Hfin).
  rewrite (bind_Ret _ _ _ _ _ (on_core_ok _ _ _ t3 E4)). unfold st_note at 1. rewrite bind_modify_l. set (t4 := upd_field _ _).
  destruct (callback_ok task buf t4) as (calls' & undo & E6 & Htold). rewrite (bind_Ret _ _ _ _ _ E6). set (t5 := upd_field _ _).
  rewrite (on_core_ok _ _ _ t5 E5). eexists _, c. split; [reflexivity|]. split_and!; [reflexivity|exact Hr|exact Hfin|exact Htold].
Qed.
End Session.

#[local] Opaque FIRST_BLOCK.

(** C8.  A savestate restores the game: what [generate_savestate] makes of a console and a
    movie loads, from memory or from a file, into another session of the same ROM, when
    both run the pure interpreter, the target has no SD card, at most 127 events are
    queued, none of them the end of a PIF transfer, they are in order also for the
    target's Count, and the movie engine of the target accepts the movie section.
    The movie engine takes over the movie section, and the console gets back every
    saved register and memory (up to the part of the translation tables a savestate
    does not hold); then the transfer from the PIF in which the state was taken is
    finished, for which Count advances by the distance from the last branch before the
    load, and the caller learns of the success. *)
Theorem savestate_roundtrip {Q} `{EventQueueLaws Q, !SavedQueue Q, !SavedQueueLaws Q} H V (s : session Q) freeze v evs :
  savable (ss_core s) -> in_bounds (ss_core s) -> pure (c_mach (ss_core s)) = true ->
  q_rep (irq_queue (c_mach (ss_core s))) evs -> Forall event_ok evs -> (List.length evs <= 127)%nat ->
  Spec.get_event SI_INT evs = 0 -> st_host_ok V ->
  core_vcr_freeze H (ss_vcr s) = Ret (freeze, v) -> (forall f, freeze = Some f -> freeze_ok f) ->
  exists buf, generate_savestate H V s = Ret (buf, s <| ss_vcr := v |>) /\
    forall (t : session Q) task old v',
      source task t <> [] -> auto_decompress (gunzip V) (source task t) = buf -> cfg_use_summercart (ss_core t) = false ->
      pure (c_mach (ss_core t)) = true -> q_rep (irq_queue (c_mach (ss_core t))) old ->
      ordered (Count (c_mach (ss_core t))) evs ->
      st_load H freeze (ignore_warnings task) (ss_vcr t) = Ret (Res_Ok, v') ->
      exists t' c, savestates_load_immediate_impl H V task t = Ret (tt, t') /\ ss_vcr t' = v' /\
        restored (ss_core s) (ss_core t) c /\ finished evs c (ss_core t') /\ told task buf (st_calls t').
Proof.
  intros Hs Hb Hp Hq He Hn Hg HV Ef Hf. exists (image_of V s freeze evs). split; [by apply generate_ok|].
  intros t task old v' Hne Hd Hsc Ht Hqt Ho El. unfold savestates_load_immediate_impl. rewrite bind_get_l, Hsc. cbn [when].
  rewrite bind_ret_l, bind_get_l. fold (source task t). cbv zeta.
  destruct (Nat.eqb_spec (List.length (source task t)) 0) as [E|_]; [by apply nil_length_inv in E|].
  rewrite Hd. destruct (sh_md5 _ HV) as [Hm _].
  destruct (Nat.eqb_spec (List.length (image_of V s freeze evs)) 0) as [E|_].
  { unfold image_of in E. rewrite length_app, Hm in E. lia. }
  unfold image_of at 1. rewrite (bind_Ret _ _ _ _ _ (memread_ok 32 _ _ t Hm)). cbn [fst snd].
  rewrite bool_decide_true by done. rewrite andb_false_r. cbn [andb].
  erewrite bind_Ret by (apply memread_ok, length_first_block, Hs). cbn [fst snd].
  rewrite first_block_valid by assumption. cbn [negb].
  rewrite (bind_Ret _ _ _ _ _ (read_queue_ok 128 evs _ t He ltac:(lia))).
  by apply (load_checked_ok H V task s t freeze v' evs old (image_of V s freeze evs)).
Qed.
