(* ===== verification/SaveFaults.v ===== *)
(** * What loading a savestate gets wrong

    Events are queued before Count is restored, three quarters of the translation tables
    are not in a savestate, a test of an address compares words with bytes, and the card
    of the SD cartridge is copied in the wrong direction. *)

From Stdlib Require Import Strings.String.
From S2P Require Import Prelude Hoare Queue Pool PoolRefines Machine Exception Alu AluProps Tlb TlbProps DeviceState Core Dma PifLut Pif SummerCart Bus BusProps Cop SaveFormat WfProps DmaProps PifProps PakProps Rom Path Cheats Movie VcrState Vcr Savestate SavestateProps SaveRoundtrip.

Open Scope prog_scope.
#[local] Open Scope Z_scope.

(** C40.  Loading a savestate can change the order of events: they are queued again by a Count
    that is still the one before the load.  Of a video interrupt and a later timer
    interrupt, loaded when the first is more than 0x10000000 cycles past and the second
    still ahead, the timer interrupt ends up first, while the restored time of the next
    interrupt is that of the video interrupt. *)
Theorem load_reorders_events {Q} `{EventQueueLaws Q, !SavedQueue Q, !SavedQueueLaws Q} V (s t : core Q) vi compare old :
  let evs := [Event VI_INT vi; Event COMPARE_INT compare] in
  savable s -> pure (c_mach s) = true -> pure (c_mach t) = true -> q_rep (irq_queue (c_mach t)) old ->
  next_interrupt_of (c_mach s) = vi ->
  0 <= vi -> vi + 0x10000000 <= Count (c_mach t) -> Count (c_mach t) < compare -> compare < vi + 0x80000000 -> compare < 2 ^ 32 ->
  exists t', load_console (first_block V s) (Spec.image evs) t = Ret (tt, t') /\
    Count (c_mach t') = Count (c_mach s) /\ next_interrupt_of (c_mach t') = vi /\
    q_rep (irq_queue (c_mach t')) [Event COMPARE_INT compare; Event VI_INT vi].
Proof.
  intros evs Hs Hp Ht Hq Hnext Hv Hpast Hahead Hwin Hc.
  assert (Forall event_ok evs) as He by (repeat constructor; unfold VI_INT, COMPARE_INT, is_u32; cbn [ev_type ev_count]; lia).
  destruct (load_console_ok V s t evs old Hs Hp Ht He ltac:(unfold POOL_SIZE; cbn; lia) Hq) as (t' & E & Hr & Hq').
  exists t'. split; [exact E|]. pose proof (rs_registers _ _ _ Hr) as Er. unfold saved_registers in Er.
  injection Er as _ _ _ Ec _ _ _ _ _ _ _ _ _ _ _ _ _ _ _ _ _ _ _ _ _.
  split; [unfold Count; by rewrite Ec|]. split; [by rewrite (rs_next _ _ _ Hr)|].
  set (n := Count (c_mach t)) in *. set (sd := special_after _ _) in Hq'.
  assert (Spec.before n sd compare (Event VI_INT vi) = true) as Hb.
  { unfold Spec.before, before_event. cbn [ev_count ev_type]. unfold u32.
    rewrite (Z.mod_small (compare - n)) by lia. rewrite <- (Z.mod_unique (vi - n) 4294967296 (-1) (vi - n + 4294967296)) by lia.
    rewrite (Z.mod_small (n - vi)) by lia. repeat case_cmp; try done; lia. }
  unfold Spec.load in Hq'. cbn [fold_left evs Spec.insert ev_count] in Hq'. rewrite Hb in Hq'. exact Hq'.
Qed.

(** After loading a savestate, pages from 0x40000000 on are translated as before the
    load: a savestate holds the first quarter of the translation tables only, so the
    restored TLB entries and the tables no longer agree.  A page that was mapped before
    the load stays mapped although no restored entry maps it. *)
Theorem loaded_translations_stale {Q} `{EventQueueLaws Q, !SavedQueue Q, !SavedQueueLaws Q} V (s t : core Q) evs old a pa :
  savable s -> pure (c_mach s) = true -> pure (c_mach t) = true -> Forall event_ok evs -> (List.length evs <= POOL_SIZE)%nat ->
  q_rep (irq_queue (c_mach t)) old -> 0x40000000 <= a -> ordinary a (c_mach t) ->
  lut_translate (tlb_LUT_r (c_mach t)) a = Some pa -> (forall pa', ~ tlb_maps false (tlb_e (c_mach s)) a pa') ->
  exists t', load_console (first_block V s) (Spec.image evs) t = Ret (tt, t') /\
    virtual_to_physical_address a 0 (c_mach t') = Ret (pa, c_mach t') /\
    (forall pa', ~ tlb_maps false (tlb_e (c_mach t')) a pa').
Proof.
  intros Hs Hp Ht He Hl Hq Ha Ho El Hno.
  destruct (load_console_ok V s t evs old Hs Hp Ht He Hl Hq) as (t' & E & Hr & _). exists t'. split; [exact E|].
  pose proof (rs_registers _ _ _ Hr) as Er. unfold saved_registers in Er.
  injection Er as _ _ _ _ _ Ee _ _ _ _ _ _ _ _ _ _ _ _ _ _ _ _ _ _ _. split; [|by rewrite Ee].
  pose proof (rs_kept _ _ _ Hr) as Ek. unfold unsaved in Ek. injection Ek as _ _ _ _ _ _ _ _ _ _ _ _ _ Hcrc.
  assert (ordinary a (c_mach t')) as Ho' by (unfold ordinary, special_case in *; by rewrite Hcrc).
  rewrite (translate_ordinary a 0 _ Ho'). change (0 =? 1) with false. cbv iota.
  assert (0x40000 <= Z.shiftr a 12) as Hx by (rewrite Z.shiftr_div_pow2 by done; change (2 ^ 12) with 4096; Z.div_mod_to_equations; lia).
  unfold lut_translate, lut_lookup in *. destruct (rs_lut_kept _ _ _ Hr _ Hx) as [-> _]. by rewrite El.
Qed.

(** The check of the serial interface's address lets addresses through that are four
    times too large: it compares the number of a word with the size of RDRAM in bytes.
    With such an address the transfer, and so the load of a savestate, writes past RDRAM. *)
Theorem register_check_too_weak {Q} `{EventQueue Q} (s : core Q) :
  let r := si_register (c_mach s) in
  List.length (PIF_RAMb (c_mach s)) = 64%nat -> 0x200000 <= si_dram_addr r / 4 -> si_dram_addr r / 4 + 16 <= 0x800000 ->
  check_register_validity r = true /\ finish_dma s = Undef OutOfBounds.
Proof.
  intros r Hl H1 H2. split.
  { unfold check_register_validity. destruct (Z.ltb_spec 0x800000 (si_dram_addr r / 4 + 16)); [lia|done]. }
  unfold finish_dma, si_now. rewrite bind_assoc, bind_get_l, bind_ret_l. fold r. cbn [for_loop].
  unfold bind at 1. rewrite bind_assoc. rewrite (bind_Ret _ _ _ _ _ (pif_bytes_at 4 (4 * 0) s ltac:(lia) ltac:(unfold ram; rewrite Hl; lia))).
  unfold put_word. rewrite bind_assoc, bind_get_l. change (arr_len rdram_array s) with 0x800000.
  destruct (Z.leb_spec ((si_dram_addr r / 4 + 0) * 4 + 4) 0x800000); [lia|]. rewrite andb_false_r. reflexivity.
Qed.

(** Loading a savestate does not bring back the SD card but overwrites the copy of it
    that was saved: the card is opened for reading and the copy for writing.  The card
    keeps its contents, and the copy beside the savestate becomes the card as it is now. *)
Theorem load_overwrites_saved_card {Q} `{EventQueue Q} H V (s : session Q) image :
  sd_image (c_dev (ss_core s)) = Some image -> can_open H (sd_path V) = true ->
  let sectors := 512 * (vhd_disk_size (vhd_footer image) / 512) in
  512 <= f_len image -> sectors <= f_len image ->
  exists s', load_summercart H V s = Ret (tt, s') /\ sd_image (c_dev (ss_core s')) = Some image /\
    sd_states s' = <[sd_path V := file_of (file_bytes (Z.to_nat sectors) 0 image ++ file_bytes 512 (f_len image - 512) image)]> (sd_states s).
Proof.
  intros Hi Ho sectors H1 H2. unfold load_summercart. rewrite bind_get_l, Hi, Ho.
  assert (vhd_copy image s = Ret ((file_bytes (Z.to_nat sectors) 0 image, file_bytes 512 (f_len image - 512) image), s)) as E.
  { unfold vhd_copy. fold sectors. destruct (Z.ltb_spec (f_len image) 512), (Z.ltb_spec (f_len image) sectors); try lia. reflexivity. }
  rewrite (bind_Ret _ _ _ _ _ E). cbn [fst snd]. eexists. split; [reflexivity|]. split; [exact Hi|reflexivity].
Qed.
