(* ===== verification/SaveExamples.v ===== *)
(** * Savestates by example

    A console in the middle of a movie recording is saved and loaded. *)

From Stdlib Require Import Strings.String.
From S2P Require Import Prelude Hoare Queue Pool PoolRefines Machine Exception InterruptProps Alu AluProps Tlb TlbProps DeviceState Core Dma PifLut Pif SummerCart Bus BusProps Cop SaveFormat WfProps DmaProps PifProps PakProps Rom Path Cheats Movie MovieProps VcrState Vcr VcrFacts VcrProps Savestate SaveTasks SavestateProps SaveRoundtrip SaveFaults.

Open Scope prog_scope.
#[local] Open Scope Z_scope.

(** A console with the events [q], and the registers of a fresh start. *)
Definition console (q : irq) : core irq := boot_core <| c_mach := (c_mach boot_core) <| irq_queue := q |> |>.

(** Concrete members have values of their types. *)
Ltac typed_value := vm_compute; repeat split; first [discriminate | repeat constructor].

Lemma console_savable q : is_u32 (next_interrupt q) -> savable (console q).
Proof.
  intros Hn. constructor.
  all: match goal with |- @typed _ _ _ => typed_value | _ => idtac end.
  - reflexivity.
  - intros x. change (tlb_LUT_r (c_mach (console q))) with (∅ : gmap Z Z). by rewrite lookup_empty.
  - intros x. change (tlb_LUT_w (c_mach (console q))) with (∅ : gmap Z Z). by rewrite lookup_empty.
  - typed_value.
  - split; [reflexivity|]. apply Forall_replicate. typed_value.
  - exact Hn.
  - typed_value.
  - typed_value.
  - destruct boot_core_ok as [? ? ? ? Hm]. constructor; try assumption. destruct Hm. constructor; assumption.
Qed.

Lemma console_in_bounds q : in_bounds (console q).
Proof. constructor; [vm_compute; discriminate..|]. apply Forall_replicate. done. Qed.

Lemma at_start_ordered : ordered 0 vi_queue.
Proof.
  exists [Event VI_INT 0x20001388], [Event SPECIAL_INT 0]. split; [done|]. split; [|split].
  - constructor; [|constructor]. split; [done|]. vm_compute. reflexivity.
  - repeat constructor.
  - by constructor.
Qed.

Lemma vi_queue_ok : Forall event_ok vi_queue.
Proof. repeat constructor; simpl; unfold VI_INT, SPECIAL_INT, is_u32; lia. Qed.

(** The hash is all zeros, there is no screenshot, and nothing is compressed. *)
Definition sample_st_host : st_host :=
  StHost (replicate 32 0x30) false true false (0, 0) [] (fun l => l) (fun l => l) false "card.vhd"%string (fun _ _ => 0) 0.

Lemma sample_st_host_ok : st_host_ok sample_st_host.
Proof. constructor; [split; [done|by apply Forall_replicate]|done|done]. Qed.

(** A recording in progress on the console with the events [q]. *)
Definition recording_session (q : irq) : session irq := Session (console q) recording_state [] [] ∅ [].

(** What the engine makes of its movie when it is frozen, and unfrozen again. *)
Lemma recording_frozen : exists f v, core_vcr_freeze sample_host recording_state = Ret (Some f, v) /\ freeze_ok f.
Proof.
  eexists _, _. split; [vm_compute; reflexivity|].
  constructor; cbn; try (unfold is_u32; lia); repeat constructor; unfold is_u32; lia.
Qed.

Lemma recording_unfrozen f v :
  core_vcr_freeze sample_host recording_state = Ret (Some f, v) ->
  exists v', st_load sample_host (Some f) false recording_state = Ret (Res_Ok, v') /\ g_movie_inputs v' = [0x80].
Proof.
  intros E. assert (f = Freeze 24 (uid sample_header) 1 0 1 [0x80; 0]) as ->.
  { apply (f_equal (fun r => match r with Ret (Some f, _) => f | _ => f end)) in E. symmetry in E. rewrite E. vm_compute. reflexivity. }
  eexists. split; [vm_compute; reflexivity|]. reflexivity.
Qed.

Definition load_task (buf : list Z) : t_savestate_task :=
  StTask core_st_job_load (core_st_medium_memory buf) (CbCaller (Some 7)) false.

Lemma savestate_roundtrip_witness :
  exists q f v buf t' c, represents q vi_queue /\
    generate_savestate sample_host sample_st_host (recording_session q) = Ret (buf, (recording_session q) <| ss_vcr := v |>) /\
    core_vcr_freeze sample_host recording_state = Ret (Some f, v) /\
    savestates_load_immediate_impl sample_host sample_st_host (load_task buf) (recording_session q) = Ret (tt, t') /\
    g_movie_inputs (ss_vcr t') = [0x80] /\ restored (console q) (console q) c /\ finished vi_queue c (ss_core t') /\
    told (load_task buf) buf (st_calls t').
Proof.
  destruct (queue_after vi_queue_ops (AQ vi_queue false 0x20001388)) as (q & _ & Hq & _ & Hn); [vm_compute; reflexivity|].
  assert (q_rep (irq_queue (c_mach (ss_core (recording_session q)))) vi_queue) as Hrep by exact Hq.
  destruct recording_frozen as (f & v & Ef & Hf). destruct (recording_unfrozen f v Ef) as (v' & El & Hin).
  assert (savable (console q)) as Hs.
  { apply console_savable. rewrite Hn. done. }
  destruct (savestate_roundtrip sample_host sample_st_host (recording_session q) (Some f) v vi_queue Hs (console_in_bounds q) eq_refl
    Hrep vi_queue_ok ltac:(simpl; lia) eq_refl sample_st_host_ok Ef) as (buf & Eg & Hload); [by intros ? [= <-]|].
  assert (buf = image_of sample_st_host (recording_session q) (Some f) vi_queue) as Eb.
  { rewrite (generate_ok sample_host sample_st_host (recording_session q) (Some f) v vi_queue Ef Hrep ltac:(simpl; lia)) in Eg.
    symmetry. exact (proj1 (ret_inv _ _ _ _ Eg)). }
  destruct (Hload (recording_session q) (load_task buf) vi_queue v') as (t' & c & Et & Ev & Hr & Hfin & Htold);
    [rewrite Eb; discriminate|rewrite Eb; reflexivity|reflexivity|reflexivity|exact Hrep|exact at_start_ordered|exact El|].
  exists q, f, v, buf, t', c. split_and!; [exact Hq|exact Eg|exact Ef|exact Et|rewrite Ev; exact Hin|exact Hr|exact Hfin|exact Htold].
Defined.

(** A video interrupt at 0x1000 and a timer interrupt at 0x20000000, loaded at
    0x18000000. *)
Definition before_vi : core irq := console (irq_init <| next_interrupt := 0x1000 |>).
Definition at_count (n : Z) (c : core irq) : core irq := in_mach (set_Count n) c.

Lemma load_reorders_events_witness :
  exists t', load_console (first_block sample_st_host before_vi) (Spec.image [Event VI_INT 0x1000; Event COMPARE_INT 0x20000000])
      (at_count 0x18000000 (console irq_init)) = Ret (tt, t') /\
    Count (c_mach t') = 0 /\ next_interrupt_of (c_mach t') = 0x1000 /\
    represents (irq_queue (c_mach t')) [Event COMPARE_INT 0x20000000; Event VI_INT 0x1000].
Proof.
  assert (q_rep (irq_queue (c_mach (at_count 0x18000000 (console irq_init)))) []) as Hq by exact irq_init_represents.
  assert (savable before_vi) as Hs by by apply console_savable.
  destruct (load_reorders_events sample_st_host before_vi (at_count 0x18000000 (console irq_init)) 0x1000 0x20000000 [] Hs
    eq_refl eq_refl Hq eq_refl ltac:(done) ltac:(done) ltac:(done) ltac:(done) ltac:(done)) as (t' & E & Hc & Hn & Hr).
  exists t'. split; [exact E|]. split; [exact Hc|]. split; [exact Hn|exact Hr].
Defined.

(** The page at 0x40002000 was mapped when a state without TLB entries is loaded. *)
Definition mapped_console : core irq :=
  in_mach (fun m => m <| tlb_LUT_r := {[ 0x40002 := 0x80005000 ]} |>) (console irq_init).

Lemma loaded_translations_stale_witness :
  exists t', load_console (first_block sample_st_host (console irq_init)) (Spec.image []) mapped_console = Ret (tt, t') /\
    virtual_to_physical_address 0x40002004 0 (c_mach t') = Ret (0x80005004, c_mach t') /\
    (forall pa', ~ tlb_maps false (tlb_e (c_mach t')) 0x40002004 pa').
Proof.
  assert (q_rep (irq_queue (c_mach mapped_console)) []) as Hq by exact irq_init_represents.
  assert (savable (console irq_init)) as Hs by by apply console_savable.
  apply (loaded_translations_stale sample_st_host (console irq_init) mapped_console [] [] 0x40002004 0x80005004 Hs eq_refl eq_refl
    (Forall_nil_2 _) ltac:(vm_compute; lia) Hq ltac:(done) eq_refl eq_refl).
  intros pa'. apply empty_tlb_maps_nothing.
Defined.

(** The serial interface's address is behind RDRAM. *)
Definition far_console : core irq :=
  in_mach (fun m => m <| si_register := (si_register m) <| si_dram_addr := 0x800000 |> |>) (console irq_init).

Lemma register_check_too_weak_witness :
  check_register_validity (si_register (c_mach far_console)) = true /\ finish_dma far_console = Undef OutOfBounds.
Proof. apply (register_check_too_weak far_console); [reflexivity|vm_compute; discriminate..]. Defined.

(** A card of one sector. *)
Definition one_sector : file := file_of (replicate 512 1 ++ replicate 46 0 ++ [2; 0] ++ replicate 464 0).
Definition card_session : session irq :=
  Session (on_dev (fun d => d <| sd_image := Some one_sector |>) (console irq_init)) recording_state [] [] ∅ [].

Lemma load_overwrites_saved_card_witness :
  exists s', load_summercart sample_host sample_st_host card_session = Ret (tt, s') /\
    sd_image (c_dev (ss_core s')) = Some one_sector /\ is_Some (sd_states s' !! "card.vhd"%string).
Proof.
  destruct (load_overwrites_saved_card sample_host sample_st_host card_session one_sector eq_refl eq_refl) as (s' & E & Hi & Hs);
    [vm_compute; discriminate|vm_compute; discriminate|].
  exists s'. split; [exact E|]. split; [exact Hi|]. rewrite Hs. rewrite lookup_insert_eq. by eexists.
Defined.

(** A load is requested during the recording. *)
Definition load_session (q : irq) : session irq := (recording_session q) <| g_tasks := [load_task []] |>.

Lemma undo_point_precedes_loads_witness :
  exists buf v rest s2, generate_savestate sample_host sample_st_host (load_session irq_init) = Ret (buf, (load_session irq_init) <| ss_vcr := v |>) /\
    Savestate.st_do_work sample_host sample_st_host (load_session irq_init) = (run_tasks sample_host sample_st_host rest ;;; clear_tasks) s2 /\
    g_undo_savestate s2 = buf.
Proof.
  destruct recording_frozen as (f & v & Ef & Hf).
  assert (q_rep (irq_queue (c_mach (ss_core (load_session irq_init)))) []) as Hq by exact irq_init_represents.
  pose proof (generate_ok sample_host sample_st_host (load_session irq_init) (Some f) v [] Ef Hq ltac:(simpl; lia)) as Eg.
  destruct (undo_point_precedes_loads sample_host sample_st_host (load_session irq_init) _ _ eq_refl
    ltac:(repeat constructor; discriminate) eq_refl Eg) as (rest & s2 & Ew & Hu & _).
  eexists _, v, rest, s2. split; [exact Eg|]. split; [exact Ew|exact Hu].
Defined.

(** Three saves to one file, then a load. *)
Definition save_task : t_savestate_task := StTask core_st_job_save (core_st_medium_path "slot1.st"%string) (CbCaller None) false.
Definition busy_session : session irq := (recording_session irq_init) <| g_tasks := [save_task; save_task; save_task; load_task []] |>.

Lemma third_save_loses_load_witness :
  Savestate.st_do_work sample_host sample_st_host busy_session =
    (run_task sample_host sample_st_host save_task ;;; ret tt ;;; clear_tasks) (busy_session <| g_tasks := [save_task] |>).
Proof.
  exact (third_save_loses_load sample_host sample_st_host busy_session "slot1.st"%string None None None false false false (load_task [])
    eq_refl eq_refl).
Defined.
