(* ===== verification/Emulator.v ===== *)
(** * The console with the rest of the emulator

    The console's components are modelled over interfaces: any event queue, any host of
    the PIF.  Here the PIF's host is the movie engine, the cheats and the savestate
    engine.  Their state travels beside the event queue, so every definition about the
    console applies unchanged. *)

From Stdlib Require Import Strings.String.
From S2P Require Import Prelude Queue Pool PoolRefines Machine Exception DeviceState Core Dma PifLut Pif SummerCart Cop SaveFormat Rom Path Cheats Movie VcrState Vcr Savestate.

Open Scope prog_scope.
#[local] Open Scope Z_scope.

(** ** An event queue beside other state *)

Definition on_fst {Q E A} (c : M Q A) : M (Q * E) A := fun s =>
  obind (c s.1) (fun '(a, q) => Ret (a, (q, s.2))).

#[export] Instance framed_queue {Q E} `{EventQueue Q} : EventQueue (Q * E) := {
  q_front := on_fst q_front;
  q_add n t d := on_fst (q_add n t d);
  q_add_count n t c := on_fst (q_add_count n t c);
  q_pop n := on_fst (q_pop n);
  q_remove t := on_fst (q_remove t);
  q_get t := on_fst (q_get t);
  q_push_check n := on_fst (q_push_check n);
  q_clear := on_fst q_clear;
  q_translate a b c := on_fst (q_translate a b c);
  q_next_interrupt s := q_next_interrupt s.1;
  q_set_next_interrupt v s := (q_set_next_interrupt v s.1, s.2);
  q_set_SPECIAL_done b s := (q_set_SPECIAL_done b s.1, s.2);
}.

(** ** The rest of the emulator *)

(** [polls]: how often the input plugin has been asked. *)
Record rest : Type := Rest {
  r_vcr : vcr;
  r_tasks : list t_savestate_task;
  r_undo : list Z;
  r_sd_states : gmap string file;
  r_st_calls : list st_call;
  polls : nat
}.
#[export] Instance rest_eta : Eta rest := fun r =>
  Rest (r_vcr r) (r_tasks r) (r_undo r) (r_sd_states r) (r_st_calls r) (polls r).

(** The console over another queue. *)
Definition with_queue {Q R} (q : R) (m : machine Q) : machine R :=
  mk_machine (m_cop0 m) (MI_register m) (vi_register m) (ai_register m) (pi_register m) (si_register m) (sp_register m)
    (dpc_register m) (PIF_RAMb m) (tlb_e m) (tlb_LUT_r m) (tlb_LUT_w m) (Machine.rom_CRC1 m) q (interpcore m) (dynacore m)
    (dyna_interp m) (interp_addr m) (PC_addr m) (last_addr m) (delay_slot m) (skip_jump m) (stop m) (llbit m) (debug_count m)
    (next_vi m) (vi_field m) (lag_count m) (screen_invalidated m) (g_vr_frame_skipped m) (Machine.frame_advance_outstanding m)
    (cfg_skip_rendering_lag m) (cfg_render_throttling m) (cfg_counter_factor m) (host_calls m).

Definition core_with_queue {Q R} (q : R) (s : core Q) : core R :=
  mk_core (c_reg s) (c_hi s) (c_lo s) (with_queue q (c_mach s)) (c_cop1 s) (vr_op s) (local_rs s) (local_rt s) (local_rs32 s)
    (rdram s) (SP_MEM s) (rom s) (rom_size s) (cfg_use_summercart s) (g_vr_beq_ignore_jmp s) (c_dev s).

(** What the emulator asks of plugins and of other threads: the polls of the input
    plugin in turn, its raw commands, [g_wait_counter], and waiting while paused. *)
Record plug_host (Q : Type) : Type := PlugHost {
  plug_poll : nat -> poll;
  plug_command : Z -> option Z -> M (core (Q * rest)) unit;
  plug_read : Z -> option Z -> M (core (Q * rest)) unit;
  plug_has_command : bool;
  plug_callback : Z -> Z -> M (core (Q * rest)) unit;
  plug_wait_counter : M (core (Q * rest)) Z;
  plug_wait : bool -> M (core (Q * rest)) unit
}.
Arguments plug_poll {Q} _.
Arguments plug_command {Q} _.
Arguments plug_read {Q} _.
Arguments plug_has_command {Q} _.
Arguments plug_callback {Q} _.
Arguments plug_wait_counter {Q} _.
Arguments plug_wait {Q} _.

Section Emulator.
Context {Q : Type} `{EventQueue Q, !SavedQueue Q} (H : host) (V : st_host) (P : plug_host Q).
#[local] Abbreviation emu := (core (Q * rest)).

Definition rest_of (s : emu) : rest := (irq_queue (c_mach s)).2.
Definition set_rest (r : rest) (s : emu) : emu :=
  s <| c_mach := (c_mach s) <| irq_queue := ((irq_queue (c_mach s)).1, r) |> |>.

(** The movie engine sees its own state and the globals it shares with the console:
    RDRAM (through the cheats), the controllers, and the frames still to advance. *)
Definition vcr_of (s : emu) : vcr :=
  (r_vcr (rest_of s)) <| cheats := (cheats (r_vcr (rest_of s))) <| rdramb := rdram s |> |>
    <| VcrState.controls := DeviceState.controls (c_dev s) |>
    <| VcrState.frame_advance_outstanding := Machine.frame_advance_outstanding (c_mach s) |>.

Definition put_vcr (v : vcr) (s : emu) : emu :=
  s <| c_mach := (c_mach s) <| irq_queue := ((irq_queue (c_mach s)).1, (rest_of s) <| r_vcr := v |>) |>
                            <| Machine.frame_advance_outstanding := VcrState.frame_advance_outstanding v |> |>
    <| rdram := rdramb (cheats v) |>
    <| c_dev := (c_dev s) <| DeviceState.controls := VcrState.controls v |> |>.

Definition with_vcr {A} (c : M vcr A) : M emu A := fun s =>
  obind (c (vcr_of s)) (fun '(a, v) => Ret (a, put_vcr v s)).

(** The savestate engine's view, and back. *)
Definition session_of (s : emu) : session Q :=
  let r := rest_of s in
  Session (core_with_queue (irq_queue (c_mach s)).1 s) (vcr_of s) (r_tasks r) (r_undo r) (r_sd_states r) (r_st_calls r).

Definition of_session (n : nat) (t : session Q) : emu :=
  let r := Rest (ss_vcr t) (g_tasks t) (g_undo_savestate t) (sd_states t) (st_calls t) n in
  core_with_queue (irq_queue (c_mach (ss_core t)), r) (ss_core t).

Definition with_session {A} (c : M (session Q) A) : M emu A := fun s =>
  obind (c (session_of s)) (fun '(a, t) => Ret (a, of_session (polls (rest_of s)) t)).

(** [cht_execute(); vcr_on_controller_poll(control, &input);] *)
Definition poll_input (p : poll) (k : Z) : M vcr Z :=
  on_cheats cht_execute ;;; vcr_on_controller_poll H p k 0.

Definition next_poll : M emu poll :=
  s <-- get ;;;
  modify (fun s => set_rest ((rest_of s) <| polls := S (polls (rest_of s)) |>) s) ;;;
  ret (plug_poll P (polls (rest_of s))).

#[export] Instance emulator_pif : PifHost (Q * rest) := {
  controller_poll k := p <-- next_poll ;;; with_vcr (poll_input p k);
  input_controller_command := plug_command P;
  input_read_controller := plug_read P;
  has_controller_command := plug_has_command P;
  Pif.input_callback := plug_callback P;
  vcr_idle := s <-- get ;;; ret (task_eqb (g_task (vcr_of s)) task_idle);
  paused_now := s <-- get ;;; ret (emu_paused (vcr_of s));
  wait_counter := plug_wait_counter P;
  pause_emu := with_vcr core_vr_pause_emu;
  wait_until_resumed := plug_wait P;
  Pif.st_do_work := with_session (Savestate.st_do_work H V);
}.
End Emulator.
