(* ===== verification/EmulatorProps.v ===== *)
(** * Movies reach the game

    The game reads its controllers by a transfer from the PIF.  Whatever the movie
    engine answers a poll with is what the transfer puts into RDRAM, so that the game
    sees the movie during playback, and the movie gets what the game saw during
    recording. *)

From Stdlib Require Import Strings.String.
From S2P Require Import Prelude Hoare Queue Pool PoolRefines Machine Exception Alu AluProps Tlb Controller DeviceState Core Dma PifLut Pif SummerCart Bus BusProps Cop SaveFormat WfProps DmaProps PifProps PakProps Rom Path Cheats Movie VcrState Vcr VcrFacts Savestate SavestateProps Emulator.

Open Scope prog_scope.
#[local] Open Scope Z_scope.

(** ** The commands a game sends *)

(** Four reads of four bytes, one per controller, as the console's library sends them;
    the PIF has marked absent controllers in the third byte. *)
Record read_block (r : list Z) : Prop := {
  rb_length : List.length r = 64%nat;
  rb_bytes : Forall is_u8 r;
  rb_block j : (j < 4)%nat ->
    r !! (8 * j)%nat = Some 0xFF /\ r !! (8 * j + 1)%nat = Some 1 /\
    (exists rx, r !! (8 * j + 2)%nat = Some rx /\ Z.land rx 0x3F = 4) /\ r !! (8 * j + 3)%nat = Some 1;
  rb_end : r !! 32%nat = Some 0xFE
}.

Lemma read_block_spliced v r r' : is_u32 v -> read_block r -> spliced 4 (le_split 4 v) r r' -> read_block r'.
Proof.
  intros Hv [Hl Hb Hj He] [Hl' Hr']. rewrite length_le_split in Hr'. constructor.
  - by rewrite Hl'.
  - apply Forall_lookup. intros i b. rewrite Hr'. case_decide; intros E.
    + eapply Forall_lookup in E; [exact E|]. apply le_split_bytes.
    + by eapply Forall_lookup in E.
  - intros j Hlt. rewrite !Hr'. rewrite !decide_False by lia. by apply Hj.
  - rewrite Hr', decide_False by lia. exact He.
Qed.

Section Poll.
Context {Q : Type} `{EventQueueLaws Q, !SavedQueue Q, !SavedQueueLaws Q} (H : host) (V : st_host) (P : plug_host Q).
#[local] Abbreviation emu := (core (Q * rest)).
Implicit Types s : emu.
#[local] Instance pif_host : PifHost (Q * rest) := emulator_pif H V P.

(** ** Views *)

Lemma vcr_of_put v s : vcr_of (put_vcr v s) = v.
Proof. by destruct v as [? ? ? ? ? ? ? ? ? ? ? ? ? ? ? ? ? ? ? ? ? ? [] ? ? ? ?]. Qed.

(** The stored state of the movie engine brought up to date with the console. *)
Definition synced s : emu := set_rest ((rest_of s) <| r_vcr := vcr_of s |>) s.

Lemma session_roundtrip s : of_session (polls (rest_of s)) (session_of s) = synced s.
Proof.
  unfold synced, set_rest, of_session, session_of, core_with_queue, with_queue.
  destruct s as [? ? ? m ? ? ? ? ? ? ? ? ? ? ? ?]. by destruct m.
Qed.

Lemma no_work s : r_tasks (rest_of s) = [] -> Pif.st_do_work s = Ret (tt, synced s).
Proof.
  intros Ht. cbn. unfold with_session, Savestate.st_do_work. rewrite bind_get_l.
  change (g_tasks (session_of s)) with (r_tasks (rest_of s)). rewrite Ht. unfold ret. cbn [obind]. by rewrite session_roundtrip.
Qed.

(** ** The loop over the commands *)

Lemma read_loop_skip fuel i ch once al s :
  0 <= i < 64 -> ram s !! Z.to_nat i = Some 0xFF -> read_loop (S fuel) i ch once al s = read_loop fuel (i + 1) ch once al s.
Proof.
  intros Hi E. cbn [read_loop]. destruct (Z.leb_spec 0x40 i); [lia|].
  by rewrite (bind_Ret _ _ _ _ _ (pif_at i _ s ltac:(lia) E)).
Qed.

Lemma read_loop_end fuel i ch once al s :
  0 <= i < 64 -> ram s !! Z.to_nat i = Some 0xFE -> read_loop (S fuel) i ch once al s = Ret (true, s).
Proof.
  intros Hi E. cbn [read_loop]. destruct (Z.leb_spec 0x40 i); [lia|].
  by rewrite (bind_Ret _ _ _ _ _ (pif_at i _ s ltac:(lia) E)).
Qed.

Lemma read_loop_read fuel i ch once once' al s s' rx :
  0 <= i -> i + 1 < 64 -> ch < 4 -> ram s !! Z.to_nat i = Some 1 ->
  read_controller ch i once al s = Ret ((true, once'), s') ->
  ram s' !! Z.to_nat i = Some 1 -> ram s' !! Z.to_nat (i + 1) = Some rx -> Z.land rx 0x3F = 4 ->
  read_loop (S fuel) i ch once al s = read_loop fuel (i + 7) (ch + 1) once' false s'.
Proof.
  intros Hi Hi' Hc E Er E1 E2 Hrx. cbn [read_loop]. destruct (Z.leb_spec 0x40 i); [lia|].
  rewrite (bind_Ret _ _ _ _ _ (pif_at i _ s Hi E)).
  change (1 =? 0x00) with false. change (1 =? 0xFE) with false. change (1 =? 0xFF) with false. change (1 =? 0xB4) with false.
  change (1 =? 0x56) with false. change (1 =? 0xB8) with false. change (negb (has_bits 1 0xC0)) with true. cbn [orb].
  rewrite (proj2 (Z.ltb_lt ch 4)) by lia.
  rewrite (bind_Ret _ _ _ _ _ Er). cbn [fst snd negb].
  unfold command_end. rewrite bind_assoc, (bind_Ret _ _ _ _ _ (pif_at i _ s' Hi E1)).
  rewrite bind_assoc, (bind_Ret _ _ _ _ _ (pif_at (i + 1) _ s' ltac:(lia) E2)), bind_ret_l, Hrx.
  rewrite andb_false_r. f_equal; lia.
Qed.
(** An absent controller. *)
Lemma read_absent ch i s p :
  0 <= ch -> 0 <= i -> ram s !! Z.to_nat (i + 2) = Some 1 -> DeviceState.controls (c_dev s) !! Z.to_nat ch = Some p -> Present p = false ->
  g_st_old (c_dev s) = false ->
  read_controller ch i false false s = Ret ((true, false), on_dev (fun d => d <| controllerRead := ch |>) s).
Proof.
  intros Hc Hi E Ep Hp Ho. unfold read_controller. unfold dev at 1. rewrite bind_assoc, bind_get_l, bind_ret_l.
  rewrite (bind_Ret _ _ _ _ _ (pif_at (i + 2) _ s ltac:(lia) E)). cbn [andb when]. rewrite !bind_ret_l.
  unfold dev at 1. rewrite bind_assoc, bind_get_l, bind_ret_l, Ho. unfold mod_dev. rewrite bind_modify_l.
  set (s1 := on_dev _ s). assert (control ch s1 = Ret (p, s1)) as Ec.
  { unfold control, dev. rewrite bind_assoc, bind_get_l, bind_ret_l. change (DeviceState.controls (c_dev s1)) with (DeviceState.controls (c_dev s)). by rewrite Ep. }
  rewrite (bind_Ret _ _ _ _ _ Ec), Hp. cbn [andb]. rewrite bind_ret_l.
  assert (internal_ReadController ch i s1 = Ret (tt, s1)) as Er.
  { unfold internal_ReadController. rewrite (bind_Ret _ _ _ _ _ (pif_at (i + 2) 1 s1 ltac:(lia) E)).
    rewrite (bind_Ret _ _ _ _ _ Ec), Hp. reflexivity. }
  by rewrite (bind_Ret _ _ _ _ _ Er).
Qed.

Lemma read_twice a b s :
  on_dev (fun d => d <| controllerRead := b |>) (on_dev (fun d => d <| controllerRead := a |>) s) = on_dev (fun d => d <| controllerRead := b |>) s.
Proof. by destruct s as [? ? ? ? ? ? ? ? ? ? ? ? ? ? ? []]. Qed.

(** The state in which the movie engine is asked for the input of the first controller. *)
Definition asking s : emu :=
  let s := on_dev (fun d => d <| controllerRead := 0 |>) (synced s) in
  let s := s <| c_mach := (c_mach s) <| lag_count := 0 |> |> in
  set_rest ((rest_of s) <| polls := S (polls (rest_of s)) |>) s.

Lemma vcr_of_asking s : vcr_of (asking s) = vcr_of s.
Proof. reflexivity. Qed.

(** The poll the plugin answers next. *)
Definition coming_poll s : poll := plug_poll P (polls (rest_of s)).

(** The first controller: the answer of the movie engine goes to PIF RAM. *)
Lemma read_first s p v vc :
  List.length (ram s) = 64%nat -> ram s !! 3%nat = Some 1 -> r_tasks (rest_of s) = [] -> g_st_old (c_dev s) = false ->
  DeviceState.controls (c_dev s) !! 0%nat = Some p -> Present p = true -> RawData p && task_eqb (g_task (vcr_of s)) task_idle = false ->
  poll_input H (coming_poll s) 0 (vcr_of s) = Ret (v, vc) ->
  exists r, read_controller 0 1 false true s = Ret ((true, false), with_pif r (put_vcr vc (asking s))) /\
    spliced 4 (le_split 4 v) (ram s) r.
Proof.
  intros Hl E Ht Ho Ep Hp Hraw Ev.
  destruct (set_pif_bytes_at (le_split 4 v) 4 (put_vcr vc (asking s))) as (r & Er & Hr);
    [apply le_split_bytes|lia|rewrite length_le_split; change (ram (put_vcr vc (asking s))) with (ram s); rewrite Hl; lia|].
  exists r. split; [|exact Hr].
  unfold read_controller. unfold dev at 1. rewrite bind_assoc, bind_get_l, bind_ret_l.
  rewrite (bind_Ret _ _ _ _ _ (pif_at 3 1 s ltac:(lia) E)). cbn [andb when]. rewrite bind_ret_l.
  rewrite (bind_Ret _ _ _ _ _ (no_work s Ht)).
  unfold dev at 1. rewrite bind_assoc, bind_get_l, bind_ret_l. change (g_st_old (c_dev (synced s))) with (g_st_old (c_dev s)). rewrite Ho.
  unfold mod_dev. rewrite bind_modify_l. set (s1 := on_dev _ (synced s)).
  assert (control 0 s1 = Ret (p, s1)) as Ec.
  { unfold control, dev. rewrite bind_assoc, bind_get_l, bind_ret_l. change (DeviceState.controls (c_dev s1)) with (DeviceState.controls (c_dev s)).
    change (Z.to_nat 0) with O. by rewrite Ep. }
  rewrite (bind_Ret _ _ _ _ _ Ec), Hp. cbn [andb].
  assert ((if RawData p then vcr_idle else ret false) s1 = Ret (false, s1)) as Eraw.
  { destruct (RawData p); [|reflexivity]. cbn [andb] in Hraw.
    change (vcr_idle s1) with (Ret (task_eqb (g_task (vcr_of s)) task_idle, s1)). by rewrite Hraw. }
  rewrite (bind_Ret _ _ _ _ _ Eraw).
  assert (internal_ReadController 0 1 s1 = Ret (tt, with_pif r (put_vcr vc (asking s)))) as Ei.
  { unfold internal_ReadController. rewrite (bind_Ret _ _ _ _ _ (pif_at 3 1 s1 ltac:(lia) E)).
    rewrite (bind_Ret _ _ _ _ _ Ec), Hp. cbn [when].
    assert (controller_poll 0 (s1 <| c_mach := (c_mach s1) <| lag_count := 0 |> |>) = Ret (v, put_vcr vc (asking s))) as Epoll.
    { change (obind (poll_input H (coming_poll s) 0 (vcr_of s)) (fun '(a, x) => Ret (a, put_vcr x (asking s))) = Ret (v, put_vcr vc (asking s))).
      by rewrite Ev. }
    unfold mod_mach, on_mach, modify. unfold bind at 1. cbn [obind].
    rewrite (bind_Ret _ _ _ _ _ Epoll). exact Er. }
  by rewrite (bind_Ret _ _ _ _ _ Ei).
Qed.
(** ** A transfer *)

(** The game is about to read its controllers, of which the first is plugged in; the
    emulator runs without being paused or advanced, and no savestate is waiting. *)
Record ready s : Prop := {
  rd_block : read_block (ram s);
  rd_first : exists p, DeviceState.controls (c_dev s) !! 0%nat = Some p /\ Present p = true /\
    RawData p && task_eqb (g_task (vcr_of s)) task_idle = false;
  rd_others j : (1 <= j < 4)%nat -> exists p, DeviceState.controls (c_dev s) !! j = Some p /\ Present p = false;
  rd_tasks : r_tasks (rest_of s) = [];
  rd_new : g_st_old (c_dev s) = false;
  rd_whole : g_st_skip_dma (c_dev s) = false;
  rd_running : emu_paused (vcr_of s) = false /\ Machine.frame_advance_outstanding (c_mach s) <= 0;
  rd_pif : si_pif_addr_rd64b (si_register (c_mach s)) = 0x1FC007C0;
  rd_address : 0 <= si_dram_addr (si_register (c_mach s)) /\ si_dram_addr (si_register (c_mach s)) / 4 + 16 <= 0x200000;
  rd_pure : interpcore (c_mach s) = true
}.

(** Nothing waits, and the plugin leaves the end of the commands alone. *)
Definition quiet_plugins : Prop :=
  forall s, plug_wait_counter P s = Ret (0, s) /\ plug_read P (-1) None s = Ret (tt, s).

(** The state in which the game's commands are answered: [r] is PIF RAM and [vc] the
    movie engine after the poll. *)
Definition answered (vc : vcr) (r : list Z) s : emu :=
  on_dev (fun d => d <| controllerRead := 3 |>) (with_pif r (put_vcr vc (asking s))).

Lemma update_pif_read_ok s v vc :
  quiet_plugins -> ready s -> is_u32 v -> VcrState.controls vc = DeviceState.controls (c_dev s) ->
  poll_input H (coming_poll s) 0 (vcr_of s) = Ret (v, vc) ->
  exists r, update_pif_read s = Ret (tt, answered vc r s) /\ spliced 4 (le_split 4 v) (ram s) r /\ read_block r.
Proof.
  intros HP [Hb (p & Ep & Hp & Hraw) Ho Ht Hnew _ [Hpa Hfa] _ _ _] Hv Hc Ev.
  pose proof (rb_block _ Hb) as Hj.
  destruct (Hj 0%nat ltac:(lia)) as (A0 & A1 & (rx & A2 & A2') & A3).
  destruct (read_first s p v vc (rb_length _ Hb) A3 Ht Hnew Ep Hp Hraw Ev) as (r & Er & Hr).
  pose proof (read_block_spliced v _ _ Hv Hb Hr) as Hb'. exists r. split; [|by split].
  assert (forall i j s', (1 <= j < 4)%nat -> ram s' = r -> DeviceState.controls (c_dev s') = DeviceState.controls (c_dev s) ->
    g_st_old (c_dev s') = false ->
    read_loop (S (S i)) (Z.of_nat (8 * j)) (Z.of_nat j) false false s' =
      read_loop i (Z.of_nat (8 * (j + 1))) (Z.of_nat (j + 1)) false false (on_dev (fun d => d <| controllerRead := Z.of_nat j |>) s')) as Habsent.
  { intros i j s' Hjj Er' Ec' Eo'. destruct (Ho j Hjj) as (pj & Epj & Hpj).
    destruct (rb_block _ Hb' j ltac:(lia)) as (B0 & B1 & (rxj & B2 & B2') & B3). rewrite <- Er' in *.
    rewrite read_loop_skip by first [lia | by rewrite Nat2Z.id].
    erewrite read_loop_read; [..|exact B2']; [f_equal; lia|lia|lia|lia|replace (Z.to_nat _) with (8 * j + 1)%nat by lia; exact B1| |..].
    - apply (read_absent _ _ _ pj); [lia|lia|replace (Z.to_nat _) with (8 * j + 3)%nat by lia; exact B3| |exact Hpj|exact Eo'].
      by rewrite Nat2Z.id, Ec'.
    - replace (Z.to_nat _) with (8 * j + 1)%nat by lia. exact B1.
    - replace (Z.to_nat _) with (8 * j + 2)%nat by lia. exact B2. }
  destruct (rb_block _ Hb' 0%nat ltac:(lia)) as (B0 & B1 & (rx' & B2 & B2') & B3).
  unfold update_pif_read. change (paused_now s) with (Ret (emu_paused (vcr_of s), s)).
  assert (paused_now s = Ret (false, s)) as E1 by (rewrite <- Hpa; reflexivity).
  rewrite (bind_Ret _ _ _ _ _ E1).
  assert (wait_counter s = Ret (0, s)) as E2 by apply HP. rewrite (bind_Ret _ _ _ _ _ E2), bind_get_l.
  destruct (Z.ltb_spec 0 (Machine.frame_advance_outstanding (c_mach s))); [lia|]. cbn [orb]. change (c_true 0) with false.
  assert (read_loop 64 0 0 false true s = Ret (true, answered vc r s)) as El.
  { rewrite read_loop_skip by first [lia | exact A0].
    erewrite read_loop_read; [..|exact B2']; [|lia|lia|lia|exact A1|exact Er|exact B1|exact B2].
    set (s1 := with_pif r (put_vcr vc (asking s))).
    assert (DeviceState.controls (c_dev s1) = DeviceState.controls (c_dev s)) as Hc1 by exact Hc.
    assert (g_st_old (c_dev s1) = false) as Ho1 by exact Hnew.
    change (read_loop 62 (Z.of_nat (8 * 1)) (Z.of_nat 1) false false s1 = Ret (true, answered vc r s)).
    rewrite (Habsent 60%nat 1%nat s1) by (lia || done). rewrite (Habsent 58%nat 2%nat) by (lia || done).
    rewrite (Habsent 56%nat 3%nat) by (lia || done). rewrite read_loop_end by first [lia | exact (rb_end _ Hb')].
    by rewrite !read_twice. }
  rewrite (bind_Ret _ _ _ _ _ El). apply HP.
Qed.
(** What the transfer leaves behind. *)
Record delivered (v : Z) (vc : vcr) (evs : list event) s s' : Prop := {
  dl_sample (i : nat) : (i < 4)%nat ->
    mem (rdram s') (4 * (si_dram_addr (si_register (c_mach s)) / 4) + 4 + Z.of_nat i) = le_split 4 v !!! i;
  dl_memory x : let base := 4 * (si_dram_addr (si_register (c_mach s)) / 4) in
    ~ base <= x < base + 64 -> mem (rdram s') x = mem (rdramb (cheats vc)) x;
  dl_vcr : vcr_of s' = vc <| cheats := (cheats vc) <| rdramb := rdram s' |> |>;
  dl_polls : polls (rest_of s') = S (polls (rest_of s));
  dl_tasks : r_tasks (rest_of s') = r_tasks (rest_of s);
  dl_irq : let n := Count (c_mach s') in
    n = u32 (Count (c_mach s) + u32 (interp_addr (c_mach s) - last_addr (c_mach s)) / 2) /\
    exists sd, q_rep (irq_queue (c_mach s')).1 (Spec.insert n sd (Event SI_INT (u32 (n + 0x900))) evs)
}.

Lemma si_done_framed s evs :
  interpcore (c_mach s) = true -> q_rep (irq_queue (c_mach s)).1 evs -> (List.length evs < POOL_SIZE)%nat ->
  let n := u32 (Count (c_mach s) + u32 (interp_addr (c_mach s) - last_addr (c_mach s)) / 2) in
  exists q, si_done s =
      Ret (tt, s <| c_mach := (set_Count n (c_mach s)) <| last_addr := interp_addr (c_mach s) |> <| irq_queue := (q, rest_of s) |> |>) /\
    q_rep q (Spec.insert n (special_after n (q_sd (irq_queue (c_mach s)).1)) (Event SI_INT (u32 (n + 0x900))) evs).
Proof.
  intros Hi Hq Hn n. destruct (q_add_law _ evs n SI_INT 0x900 Hq Hn) as (q & Ea & Hr & _). exists q. split; [|exact Hr].
  unfold si_done, on_mach, update_count. rewrite bind_modify_l, bind_get_l. rewrite Hi. unfold on_queue.
  match goal with |- context [q_add ?c SI_INT _ ?q0] =>
    change (q_add c SI_INT 0x900 q0) with (on_fst (E := rest) (q_add n SI_INT 0x900) (irq_queue (c_mach s))) end.
  unfold on_fst. rewrite Ea. reflexivity.
Qed.

Lemma dma_si_read_ok s v vc evs :
  quiet_plugins -> ready s -> is_u32 v -> VcrState.controls vc = DeviceState.controls (c_dev s) ->
  poll_input H (coming_poll s) 0 (vcr_of s) = Ret (v, vc) ->
  q_rep (irq_queue (c_mach s)).1 evs -> (List.length evs < POOL_SIZE)%nat ->
  exists s', dma_si_read s = Ret (tt, s') /\ delivered v vc evs s s'.
Proof.
  intros HP Hrd Hv Hc Ev Hq Hn. destruct (update_pif_read_ok s v vc HP Hrd Hv Hc Ev) as (r & Eu & Hr & Hb).
  destruct Hrd as [_ _ _ _ _ Hskip _ Hpif [Ha0 Ha1] Hpure].
  set (s1 := answered vc r s) in *. set (w := si_dram_addr (si_register (c_mach s)) / 4) in *.
  assert (0 <= w) as Hw0 by (unfold w; Z.div_mod_to_equations; lia).
  pose proof (finish_loop 16 0 w s1 (rdram s1) (rb_length _ Hb) (rb_bytes _ Hb) ltac:(lia) ltac:(lia) Hw0 Ha1) as El.
  replace (s1 <| rdram := rdram s1 |>) with s1 in El by by destruct s1.
  change (ram s1) with r in El. set (m' := filled 16 0 (4 * w) r (rdram s1)) in El. set (s2 := s1 <| rdram := m' |>) in El.
  destruct (si_done_framed s2 evs Hpure Hq Hn) as (q & Ed & Hqr). set (n := u32 _) in Ed, Hqr.
  match type of Ed with _ = Ret (_, ?x) => set (s3 := x) in Ed end.
  exists (on_dev (fun d => d <| g_st_skip_dma := false |>) s3). split.
  - unfold dma_si_read, si_now. rewrite bind_assoc, bind_get_l, bind_ret_l. rewrite Hpif. change (negb (_ =? _)) with false. cbn [when].
    rewrite bind_ret_l, (bind_Ret _ _ _ _ _ Eu), bind_assoc, bind_get_l, bind_ret_l.
    change (si_register (c_mach s1)) with (si_register (c_mach s)). unfold check_register_validity. fold w.
    destruct (Z.ltb_spec 0x800000 (w + 16)); [lia|]. cbn [negb]. rewrite (bind_Ret _ _ _ _ _ El).
    unfold dev at 1. rewrite bind_assoc, bind_get_l, bind_ret_l. change (g_st_skip_dma (c_dev s2)) with (g_st_skip_dma (c_dev s)).
    rewrite Hskip. cbn [negb when]. rewrite (bind_Ret _ _ _ _ _ Ed). reflexivity.
  - pose proof (fun x => mem_filled 16 0 (4 * w) r (rdram s1) x ltac:(by rewrite Z.mul_comm, Z.mod_mul) ltac:(lia)
      ltac:(rewrite (rb_length _ Hb); lia)) as Hm. rewrite Z.add_0_l in Hm. change (4 * Z.of_nat 16) with 64 in Hm.
    destruct Hr as [_ Hr]. rewrite length_le_split in Hr. constructor.
    + intros i Hi. change (mem m' (4 * w + 4 + Z.of_nat i) = le_split 4 v !!! i). unfold m'. rewrite Hm.
      destruct (Z.leb_spec (4 * w + 4 * 0) (4 * w + 4 + Z.of_nat i)), (Z.ltb_spec (4 * w + 4 + Z.of_nat i) (4 * w + 64)); try lia. cbn [andb].
      replace (Z.to_nat _) with (4 + i)%nat by lia. apply list_lookup_total_correct. rewrite Hr, decide_True by lia.
      replace (4 + i - 4)%nat with i by lia. apply list_lookup_lookup_total_lt. by rewrite length_le_split.
    + intros x base Hx. change (mem m' x = mem (rdramb (cheats vc)) x). unfold m'. rewrite Hm. fold w in base. unfold base in Hx.
      destruct (Z.leb_spec (4 * w + 4 * 0) x), (Z.ltb_spec x (4 * w + 64)); try lia; reflexivity.
    + change (rdram (on_dev (fun d => d <| g_st_skip_dma := false |>) s3)) with m'. reflexivity.
    + reflexivity.
    + reflexivity.
    + split; [reflexivity|]. eexists. exact Hqr.
Qed.
End Poll.
