(* ===== verification/GamePlay.v ===== *)
(** * The game and its movie

    A game runs and reads its controllers again and again.  During playback it finds
    the samples of the movie in RDRAM, one after the other; during recording the movie
    grows by what it found there.  What the game and the rest of the emulator do
    between two reads does not matter as long as they leave the movie alone. *)

From Stdlib Require Import Strings.String.
From S2P Require Import Prelude Hoare Queue Pool PoolRefines Machine Exception Alu AluProps Tlb Controller DeviceState Core Dma PifLut Pif SummerCart Bus BusProps Cop SaveFormat WfProps DmaProps PifProps PakProps Rom Path Cheats Movie MovieProps VcrState Vcr VcrFacts VcrProps VcrSeek Savestate SavestateProps SaveExamples Emulator EmulatorProps.

Open Scope prog_scope.
#[local] Open Scope Z_scope.

(** What polls of the movie engine depend on. *)
Definition movie_view (v : vcr) :=
  (g_task v, g_movie_inputs v, m_current_sample v, length_samples (g_header v), controller_flags (g_header v),
   (g_reset_pending v, g_seek_savestate_loading v), seek_to_frame v, cfg v, (g_warp_modify_active v, vcr_reset_requested v),
   core_cht_get_list (cheats v)).

Lemma movie_view_inv v v' :
  movie_view v' = movie_view v ->
  g_task v' = g_task v /\ g_movie_inputs v' = g_movie_inputs v /\ m_current_sample v' = m_current_sample v /\
  length_samples (g_header v') = length_samples (g_header v) /\ controller_flags (g_header v') = controller_flags (g_header v) /\
  g_reset_pending v' = g_reset_pending v /\ g_seek_savestate_loading v' = g_seek_savestate_loading v /\
  seek_to_frame v' = seek_to_frame v /\ cfg v' = cfg v /\ g_warp_modify_active v' = g_warp_modify_active v /\
  vcr_reset_requested v' = vcr_reset_requested v /\ core_cht_get_list (cheats v') = core_cht_get_list (cheats v).
Proof. unfold movie_view. intros E. injection E as ? ? ? ? ? ? ? ? ? ? ? ?. by repeat split. Qed.

Lemma playing_view v v' n : movie_view v' = movie_view v -> playing v n -> playing v' n.
Proof. intros E []. destruct (movie_view_inv _ _ E) as (V0 & V1 & V2 & V3 & V4 & V5 & V6 & V7 & V8 & V9 & V10 & V11). constructor; try congruence; rewrite ?V3, ?V1; try done. split; [rewrite V5|rewrite V6]; apply play_settled. Qed.

Lemma no_seek_view v v' : movie_view v' = movie_view v -> no_seek v -> no_seek v'.
Proof. intros E [H1 H2]. destruct (movie_view_inv _ _ E) as (V0 & V1 & V2 & V3 & V4 & V5 & V6 & V7 & V8 & V9 & V10 & V11). split; [by rewrite V7|by rewrite V8]. Qed.

Lemma recording_view v v' : movie_view v' = movie_view v -> recording v -> recording v'.
Proof.
  intros E R. pose proof (no_seek_view _ _ E (rec_no_seek _ R)) as Hns. destruct R. destruct (movie_view_inv _ _ E) as (V0 & V1 & V2 & V3 & V4 & V5 & V6 & V7 & V8 & V9 & V10 & V11).
  constructor; try congruence; try done; rewrite ?V1; try congruence. split; [rewrite V5|rewrite V6]; apply rec_settled.
Qed.

Lemma view_at_sample k cs cs' v v' : movie_view v' = movie_view v -> movie_view (at_sample k cs v') = movie_view (at_sample k cs' v).
Proof. intros E. destruct (movie_view_inv _ _ E) as (V0 & V1 & V2 & V3 & V4 & V5 & V6 & V7 & V8 & V9 & V10 & V11). unfold movie_view, at_sample. cbn. congruence. Qed.

Lemma at_sample_twice k k' cs cs' v : at_sample k cs (at_sample k' cs' v) = at_sample k cs v.
Proof. reflexivity. Qed.

Lemma view_recorded x cs cs' v v' : movie_view v' = movie_view v -> movie_view (recorded x cs v') = movie_view (recorded x cs' v).
Proof. intros E. destruct (movie_view_inv _ _ E) as (V0 & V1 & V2 & V3 & V4 & V5 & V6 & V7 & V8 & V9 & V10 & V11). unfold movie_view, recorded. cbn. congruence. Qed.

Section Game.
Context {Q : Type} `{EventQueueLaws Q, !SavedQueue Q, !SavedQueueLaws Q} (H : host) (V : st_host) (P : plug_host Q).
#[local] Abbreviation emu := (core (Q * rest)).
Implicit Types s : emu.
#[local] Instance game_pif : PifHost (Q * rest) := emulator_pif H V P.

(** The buttons of the first controller, where the transfer started in [s] has put
    them in [s']. *)
Definition buttons s s' : Z :=
  let base := 4 * (si_dram_addr (si_register (c_mach s)) / 4) in
  le_combine (map (fun i => mem (rdram s') (base + 4 + Z.of_nat i)) (seq 0 4)).

(** From [s] the emulator reaches a state in which the game is about to read its
    controllers, leaving the movie alone; [evs] are the events then queued. *)
Record gets_ready (evs : list event) s s1 : Prop := {
  gr_movie : movie_view (vcr_of s1) = movie_view (vcr_of s);
  gr_polls : polls (rest_of s1) = polls (rest_of s);
  gr_ready : ready s1;
  gr_queue : q_rep (irq_queue (c_mach s1)).1 evs;
  gr_room : (List.length evs < POOL_SIZE)%nat
}.

(** A run in which the game finds the given buttons, read by read. *)
Inductive plays : emu -> list Z -> emu -> Prop :=
| plays_done s : plays s [] s
| plays_read s evs s1 s2 vs s3 :
    gets_ready evs s s1 -> dma_si_read s1 = Ret (tt, s2) -> plays s2 vs s3 -> plays s (buttons s1 s2 :: vs) s3.

Lemma no_cheats v : core_cht_get_list (cheats v) = [] -> on_cheats cht_execute v = Ret (tt, v).
Proof. intros E. unfold on_cheats, cht_execute. rewrite bind_get_l, E. by destruct v. Qed.

Lemma delivered_buttons v vc evs s s' : is_u32 v -> delivered v vc evs s s' -> buttons s s' = v.
Proof.
  intros Hv Hd. unfold buttons. cbn [map seq]. rewrite !(dl_sample _ _ _ _ _ Hd) by lia.
  transitivity (le_combine (le_split 4 v)); [by cbn [le_split]|]. rewrite le_combine_split. by apply Z.mod_small.
Qed.

Lemma delivered_view v vc evs s s' : delivered v vc evs s s' -> movie_view (vcr_of s') = movie_view vc.
Proof. intros Hd. by rewrite (dl_vcr _ _ _ _ _ Hd). Qed.

Hypothesis Hquiet : quiet_plugins P.

(** One read during playback. *)
Lemma play_read s n v evs :
  ready s -> q_rep (irq_queue (c_mach s)).1 evs -> (List.length evs < POOL_SIZE)%nat ->
  playing (vcr_of s) n -> no_seek (vcr_of s) -> core_cht_get_list (cheats (vcr_of s)) = [] ->
  Z.of_nat n < length_samples (g_header (vcr_of s)) -> g_movie_inputs (vcr_of s) !! n = Some v -> v <> 0xC000 ->
  is_u32 (VcrState.input_callback (coming_poll P s) v) ->
  exists s', dma_si_read s = Ret (tt, s') /\ buttons s s' = VcrState.input_callback (coming_poll P s) v /\
    movie_view (vcr_of s') = movie_view (at_sample (S n) [] (vcr_of s)) /\ polls (rest_of s') = S (polls (rest_of s)).
Proof.
  intros Hr Hq Hl Pl Hns Hc Hn Hv Hreset Hu.
  destruct (handle_playback_gives H (coming_poll P s) 0 0 v _ n Pl Hn ltac:(lia) (play_present _ _ Pl)) as (cs & E);
    [by rewrite Nat.add_0_r|].
  set (vc := played v (cs ++ calls (vcr_of s)) (vcr_of s)) in E.
  assert (poll_input H (coming_poll P s) 0 (vcr_of s) = Ret (VcrState.input_callback (coming_poll P s) v, vc)) as Ep.
  { unfold poll_input. rewrite (bind_Ret _ _ _ _ _ (no_cheats _ Hc)). pose proof (play_task _ _ Pl) as Ht.
    rewrite poll_active; [|apply (play_settled _ _ Pl)|done|by rewrite Ht|by rewrite Ht].
    rewrite (bind_Ret _ _ _ _ _ (handle_recording_other _ 0 0 _ ltac:(by rewrite Ht))). exact E. }
  assert (vc = at_sample (S n) (cs ++ calls (vcr_of s)) (vcr_of s)) as Evc.
  { unfold vc, played. rewrite (proj2 (Z.eqb_neq _ _) Hreset). unfold at_sample.
    rewrite (play_sample _ _ Pl), s32_id by (pose proof (play_bound _ _ Pl); unfold is_s32; lia).
    by replace (Z.of_nat (S n)) with (Z.of_nat n + 1) by lia. }
  destruct (dma_si_read_ok H V P s _ vc evs Hquiet Hr Hu ltac:(by rewrite Evc) Ep Hq Hl) as (s' & Ed & Hd).
  exists s'. split; [exact Ed|]. split; [exact (delivered_buttons _ _ _ _ _ Hu Hd)|].
  split; [|exact (dl_polls _ _ _ _ _ Hd)]. rewrite (delivered_view _ _ _ _ _ Hd), Evc. reflexivity.
Qed.

(** One read during recording. *)
Lemma record_read s evs :
  ready s -> q_rep (irq_queue (c_mach s)).1 evs -> (List.length evs < POOL_SIZE)%nat ->
  recording (vcr_of s) -> core_cht_get_list (cheats (vcr_of s)) = [] -> is_u32 (sampled (coming_poll P s)) ->
  exists s', dma_si_read s = Ret (tt, s') /\ buttons s s' = sampled (coming_poll P s) /\
    movie_view (vcr_of s') = movie_view (recorded (sampled (coming_poll P s)) [] (vcr_of s)) /\ polls (rest_of s') = S (polls (rest_of s)).
Proof.
  intros Hr Hq Hl R Hc Hu.
  destruct (record_poll H (coming_poll P s) 0 0 _ R ltac:(lia)) as (cs & E). cbv zeta in E. fold (sampled (coming_poll P s)) in E.
  set (vc := recorded _ cs (vcr_of s)) in E.
  assert (poll_input H (coming_poll P s) 0 (vcr_of s) = Ret (sampled (coming_poll P s), vc)) as Ep.
  { unfold poll_input. by rewrite (bind_Ret _ _ _ _ _ (no_cheats _ Hc)). }
  destruct (dma_si_read_ok H V P s _ vc evs Hquiet Hr Hu eq_refl Ep Hq Hl) as (s' & Ed & Hd).
  exists s'. split; [exact Ed|]. split; [exact (delivered_buttons _ _ _ _ _ Hu Hd)|].
  split; [|exact (dl_polls _ _ _ _ _ Hd)].
  exact (eq_trans (delivered_view _ _ _ _ _ Hd) (view_recorded _ cs [] _ _ eq_refl)).
Qed.
(** Runs during playback. *)
Lemma plays_movie s vs s' n :
  plays s vs s' -> playing (vcr_of s) n -> no_seek (vcr_of s) -> core_cht_get_list (cheats (vcr_of s)) = [] ->
  Z.of_nat (n + List.length vs) <= length_samples (g_header (vcr_of s)) ->
  Forall (fun v => is_u32 v /\ v <> 0xC000) (g_movie_inputs (vcr_of s)) ->
  (forall k v, is_u32 v -> is_u32 (VcrState.input_callback (plug_poll P k) v)) ->
  vs = zip_with VcrState.input_callback (map (plug_poll P) (seq (polls (rest_of s)) (List.length vs))) (drop n (g_movie_inputs (vcr_of s))) /\
  movie_view (vcr_of s') = movie_view (at_sample (n + List.length vs) [] (vcr_of s)).
Proof.
  intros Hp. revert n. induction Hp as [s|s evs s1 s2 vs s3 Hg Ed Hrun IH]; intros n Pl Hns Hc Hn Hin Hu.
  { split; [done|]. cbn [List.length]. rewrite Nat.add_0_r. unfold movie_view, at_sample. by rewrite <- (play_sample _ _ Pl). }
  destruct Hg as [Hm Hpolls Hr Hq Hl]. cbn [List.length] in Hn.
  pose proof (playing_view _ _ _ Hm Pl) as Pl1. pose proof (no_seek_view _ _ Hm Hns) as Hns1.
  pose proof (play_inputs _ _ Pl) as Hlen.
  destruct (lookup_lt_is_Some_2 (g_movie_inputs (vcr_of s)) n ltac:(lia)) as (v & Hv).
  destruct (movie_view_inv _ _ Hm) as (V0 & V1 & V2 & V3 & V4 & V5 & V6 & V7 & V8 & V9 & V10 & V11).
  destruct (play_read s1 n v evs Hr Hq Hl Pl1 Hns1) as (s2' & Ed' & Hb & Hm2 & Hp2);
    [congruence|rewrite V3; lia|by rewrite V1|apply (Forall_lookup_1 _ _ _ _ Hin Hv)|apply Hu, (Forall_lookup_1 _ _ _ _ Hin Hv)|].
  rewrite Ed in Ed'. injection Ed' as <-.
  assert (movie_view (vcr_of s2) = movie_view (at_sample (S n) [] (vcr_of s))) as Hm3.
  { rewrite Hm2. by apply view_at_sample. }
  assert (playing (vcr_of s2) (S n)) as Pl2.
  { apply (playing_view _ _ _ Hm3). apply (at_sample_playing _ n); [exact Pl|]. pose proof (play_bound _ _ Pl). lia. }
  assert (no_seek (vcr_of s2)) as Hns2 by (apply (no_seek_view _ _ Hm3); exact Hns).
  destruct (movie_view_inv _ _ Hm3) as (W0 & W1 & W2 & W3 & W4 & W5 & W6 & W7 & W8 & W9 & W10 & W11).
  destruct (IH (S n) Pl2 Hns2) as [Hvs Hs3].
  { rewrite W11. exact Hc. }
  { rewrite W3. cbn [at_sample g_header]. change (g_header (at_sample (S n) [] (vcr_of s))) with (g_header (vcr_of s)). lia. }
  { rewrite W1. exact Hin. }
  { exact Hu. }
  split.
  - cbn [List.length seq map]. rewrite (drop_S _ v n Hv). cbn [zip_with]. f_equal.
    + rewrite Hb. unfold coming_poll. by rewrite Hpolls.
    + rewrite Hvs at 1. rewrite Hp2, Hpolls, W1. reflexivity.
  - rewrite (eq_trans Hs3 (view_at_sample _ [] [] _ _ Hm3)), at_sample_twice. cbn [List.length]. by rewrite Nat.add_succ_r.
Qed.
(** Runs during recording. *)
Lemma plays_recording s vs s' :
  plays s vs s' -> recording (vcr_of s) -> core_cht_get_list (cheats (vcr_of s)) = [] ->
  Z.of_nat (List.length (g_movie_inputs (vcr_of s))) + Z.of_nat (List.length vs) < 0x7FFFFFF0 ->
  (forall k, is_u32 (sampled (plug_poll P k))) ->
  g_movie_inputs (vcr_of s') = g_movie_inputs (vcr_of s) ++ vs /\ recording (vcr_of s') /\ core_cht_get_list (cheats (vcr_of s')) = [].
Proof.
  intros Hp. induction Hp as [s|s evs s1 s2 vs s3 Hg Ed Hrun IH]; intros R Hc Hn Hu.
  { by rewrite app_nil_r. }
  destruct Hg as [Hm Hpolls Hr Hq Hl]. cbn [List.length] in Hn.
  pose proof (recording_view _ _ Hm R) as R1. destruct (movie_view_inv _ _ Hm) as (_ & V1 & _ & _ & _ & _ & _ & _ & _ & _ & _ & V11).
  destruct (record_read s1 evs Hr Hq Hl R1) as (s2' & Ed' & Hb & Hm2 & _); [congruence|apply Hu|].
  rewrite Ed in Ed'. injection Ed' as <-. set (v := sampled _) in Hb, Hm2.
  pose proof (eq_trans Hm2 (view_recorded v [] [] _ _ Hm)) as Hm3.
  destruct (movie_view_inv _ _ Hm3) as (_ & W1 & _ & _ & _ & _ & _ & _ & _ & _ & _ & W11).
  change (g_movie_inputs (recorded v [] (vcr_of s))) with (g_movie_inputs (vcr_of s) ++ [v]) in W1.
  change (cheats (recorded v [] (vcr_of s))) with (cheats (vcr_of s)) in W11.
  destruct IH as (Hin & R3 & Hc3).
  - apply (recording_view _ _ Hm3), recorded_recording; [exact R|lia].
  - congruence.
  - rewrite W1, length_app. cbn [List.length]. lia.
  - exact Hu.
  - split; [|by split]. rewrite Hin, W1, Hb, <- app_assoc. reflexivity.
Qed.
End Game.

(** C2.  The game sees the movie.  A console with one controller plugged in, whose game
    reads it with the usual block of PIF commands, in the pure interpreter, not paused
    and with no savestate task waiting at a read: during playback, without cheats,
    without a seek and for a movie without reset samples (0xC000), the transfers by
    which the game reads its controllers put the samples of the movie into RDRAM, one
    after the other, each passed through the input callback, whatever else the game and
    the emulator do between two reads, as long as they leave the movie alone; and as
    long as there are samples left, the next such transfer succeeds. *)
Theorem game_sees_movie {Q} `{EventQueueLaws Q, !SavedQueue Q, !SavedQueueLaws Q} H V (P : plug_host Q) s vs s' n :
  quiet_plugins P -> plays H V P s vs s' ->
  playing (vcr_of s) n -> no_seek (vcr_of s) -> core_cht_get_list (cheats (vcr_of s)) = [] ->
  Z.of_nat (n + List.length vs) <= length_samples (g_header (vcr_of s)) ->
  Forall (fun v => is_u32 v /\ v <> 0xC000) (g_movie_inputs (vcr_of s)) ->
  (forall k v, is_u32 v -> is_u32 (VcrState.input_callback (plug_poll P k) v)) ->
  vs = zip_with VcrState.input_callback (map (plug_poll P) (seq (polls (rest_of s)) (List.length vs))) (drop n (g_movie_inputs (vcr_of s))) /\
  m_current_sample (vcr_of s') = Z.of_nat (n + List.length vs) /\
  (Z.of_nat (n + List.length vs) < length_samples (g_header (vcr_of s)) ->
   forall evs s1, gets_ready evs s' s1 ->
   exists s2, @dma_si_read _ _ (emulator_pif H V P) s1 = Ret (tt, s2)).
Proof.
  intros HP Hp Pl Hns Hc Hn Hin Hu. destruct (plays_movie H V P HP s vs s' n Hp Pl Hns Hc Hn Hin Hu) as [Hvs Hm].
  destruct (movie_view_inv _ _ Hm) as (_ & V1 & V2 & V3 & _ & _ & _ & _ & _ & _ & _ & V11).
  split; [exact Hvs|]. split; [exact V2|]. intros Hlt evs s1 [Hm1 _ Hr Hq Hl].
  assert (playing (vcr_of s1) (n + List.length vs)) as Pl1.
  { apply (playing_view _ _ _ (eq_trans Hm1 Hm)), (at_sample_playing _ n); [exact Pl|]. pose proof (play_bound _ _ Pl). lia. }
  destruct (movie_view_inv _ _ (eq_trans Hm1 Hm)) as (_ & W1 & _ & W3 & _ & _ & _ & _ & _ & _ & _ & W11).
  change (g_movie_inputs (at_sample (n + List.length vs) [] (vcr_of s))) with (g_movie_inputs (vcr_of s)) in W1.
  change (g_header (at_sample (n + List.length vs) [] (vcr_of s))) with (g_header (vcr_of s)) in W3.
  change (cheats (at_sample (n + List.length vs) [] (vcr_of s))) with (cheats (vcr_of s)) in W11.
  pose proof (play_inputs _ _ Pl) as Hlen.
  destruct (lookup_lt_is_Some_2 (g_movie_inputs (vcr_of s)) (n + List.length vs) ltac:(lia)) as (v & Hv).
  destruct (play_read H V P HP s1 _ v evs Hr Hq Hl Pl1 (no_seek_view _ _ (eq_trans Hm1 Hm) Hns)) as (s2 & E & _);
    [congruence|by rewrite W3|by rewrite W1|apply (Forall_lookup_1 _ _ _ _ Hin Hv)|apply Hu, (Forall_lookup_1 _ _ _ _ Hin Hv)|].
  by exists s2.
Qed.

(** C3.  The movie keeps what the game sees.  On the consoles of the previous theorem:
    while the end of a movie is being recorded, without cheats, seek, warp modify or a
    requested reset, so that samples are appended and not taken from those recorded
    before, the buttons the transfers put into RDRAM, read by read, are exactly the
    samples appended to the movie, and the next transfer succeeds. *)
Theorem movie_keeps_what_game_sees {Q} `{EventQueueLaws Q, !SavedQueue Q, !SavedQueueLaws Q} H V (P : plug_host Q) s vs s' :
  quiet_plugins P -> plays H V P s vs s' ->
  recording (vcr_of s) -> core_cht_get_list (cheats (vcr_of s)) = [] ->
  Z.of_nat (List.length (g_movie_inputs (vcr_of s))) + Z.of_nat (List.length vs) < 0x7FFFFFF0 ->
  (forall k, is_u32 (sampled (plug_poll P k))) ->
  g_movie_inputs (vcr_of s') = g_movie_inputs (vcr_of s) ++ vs /\ recording (vcr_of s') /\
  forall evs s1, gets_ready evs s' s1 -> exists s2, @dma_si_read _ _ (emulator_pif H V P) s1 = Ret (tt, s2).
Proof.
  intros HP Hp R Hc Hn Hu. destruct (plays_recording H V P HP s vs s' Hp R Hc Hn Hu) as (Hin & R' & Hc').
  split; [exact Hin|]. split; [exact R'|]. intros evs s1 [Hm1 _ Hr Hq Hl].
  destruct (movie_view_inv _ _ Hm1) as (_ & _ & _ & _ & _ & _ & _ & _ & _ & _ & _ & W11).
  destruct (record_read H V P HP s1 evs Hr Hq Hl (recording_view _ _ Hm1 R')) as (s2 & E & _); [congruence|apply Hu|]. by exists s2.
Qed.

(** ** Examples *)

(** A console with one controller whose game reads it into 0x1000, the movie engine in
    the state [v]; the plugin always reports the A button. *)
Definition one_read : list Z := [0xFF; 1; 4; 1; 0; 0; 0; 0].
Definition no_answer : list Z := [0xFF; 1; 0x84; 1; 0; 0; 0; 0].
Definition game_console (v : vcr) : core (irq * rest) :=
  let s := core_with_queue (irq_init, Rest v [] [] ∅ [] 0) boot_core in
  on_dev (fun d => d <| DeviceState.controls := one_controller |>)
    (s <| c_mach := (c_mach s) <| PIF_RAMb := one_read ++ no_answer ++ no_answer ++ no_answer ++ [0xFE] ++ replicate 31 0 |>
                               <| si_register := (si_register (c_mach s)) <| si_pif_addr_rd64b := 0x1FC007C0 |> <| si_dram_addr := 0x1000 |> |> |>).
Definition a_button : plug_host irq :=
  PlugHost irq (fun _ => plain_poll 0x80) (fun _ _ => ret tt) (fun _ _ => ret tt) false (fun _ _ => ret tt) (ret 0) (fun _ => ret tt).

Lemma a_button_quiet : quiet_plugins a_button.
Proof. done. Qed.

Lemma game_console_ready v : g_task v <> task_idle -> emu_paused v = false -> ready (game_console v).
Proof.
  intros Ht Hp. constructor; try done.
  - constructor; [done| | |done].
    + repeat (apply Forall_cons_2; [split; [discriminate|reflexivity]|]). apply Forall_nil_2.
    + intros j Hj. assert (j = 0 \/ j = 1 \/ j = 2 \/ j = 3)%nat as [-> | [-> | [-> | ->]]] by lia;
        (split; [done|]; split; [done|]; split; [eexists; split; [done|reflexivity]|done]).
  - eexists. split; [done|]. split; [done|reflexivity].
  - intros j Hj. assert (j = 1 \/ j = 2 \/ j = 3)%nat as [-> | [-> | ->]] by lia; by eexists.
Qed.

Lemma game_console_gets_ready v : g_task v <> task_idle -> emu_paused v = false -> gets_ready [] (game_console v) (game_console v).
Proof.
  intros Ht Hp. constructor; [done|done|by apply game_console_ready|exact irq_init_represents|]. unfold POOL_SIZE. simpl. lia.
Qed.

(** The second sample of a movie is played. *)
Lemma game_sees_movie_witness :
  exists vs s', plays sample_host sample_st_host a_button (game_console playback_state) vs s' /\ vs = [2] /\
    m_current_sample (vcr_of s') = 2.
Proof.
  set (s := game_console playback_state).
  assert (playing (vcr_of s) 1) as Pl by (constructor; try done; vm_compute; done).
  pose proof (game_console_gets_ready playback_state ltac:(discriminate) eq_refl) as Hg.
  destruct (play_read sample_host sample_st_host a_button a_button_quiet s 1 2 [] (gr_ready _ _ _ Hg) (gr_queue _ _ _ Hg) (gr_room _ _ _ Hg)
    Pl) as (s2 & E & _); [done|done|done|done|done|done|].
  assert (plays sample_host sample_st_host a_button s [buttons s s2] s2) as Hrun by (eapply plays_read; [exact Hg|exact E|constructor]).
  exists [buttons s s2], s2. split; [exact Hrun|].
  destruct (game_sees_movie sample_host sample_st_host a_button s _ s2 1 a_button_quiet Hrun Pl) as (Hvs & Hcur & _);
    [clear; done|reflexivity|change (2 <= 5); clear; done|repeat constructor; vm_compute; discriminate|clear; by intros|].
  split; [exact Hvs|exact Hcur].
Defined.

(** A button press is recorded. *)
Lemma movie_keeps_what_game_sees_witness :
  exists vs s', plays sample_host sample_st_host a_button (game_console recording_state) vs s' /\ List.length vs = 1%nat /\
    g_movie_inputs (vcr_of s') = [0x80] ++ vs.
Proof.
  set (s := game_console recording_state).
  assert (recording (vcr_of s)) as R by (constructor; try done; vm_compute; done).
  pose proof (game_console_gets_ready recording_state ltac:(discriminate) eq_refl) as Hg.
  destruct (record_read sample_host sample_st_host a_button a_button_quiet s [] (gr_ready _ _ _ Hg) (gr_queue _ _ _ Hg) (gr_room _ _ _ Hg)
    R) as (s2 & E & _); [done|done|].
  assert (plays sample_host sample_st_host a_button s [buttons s s2] s2) as Hrun by (eapply plays_read; [exact Hg|exact E|constructor]).
  exists [buttons s s2], s2. split; [exact Hrun|]. split; [done|].
  destruct (movie_keeps_what_game_sees sample_host sample_st_host a_button s _ s2 a_button_quiet Hrun R) as (Hin & _);
    [reflexivity|change (1 + 1 < 0x7FFFFFF0); clear; done|clear; done|]. exact Hin.
Defined.
