(* ===== verification/Life.v ===== *)
(** * Starting, closing and resetting the emulator (r4300.cpp)

    The threads of the emulator and the functions the front end starts and stops it
    with.  Each of these functions runs under the mutex [g_emu_cs], so it is one step;
    where it waits for the emulation thread, that thread's part is executed there.  What
    the console does while it runs is modelled elsewhere ([Boot]); here only matters
    that it runs, and that its processor may stop by itself. *)

From Stdlib Require Import Strings.String.
From S2P Require Import Prelude Queue Pool PoolRefines Machine Exception DeviceState Core Dma PifLut Pif SummerCart Cop SaveFormat Rom Path Cheats Movie VcrState Vcr Savestate.

Open Scope prog_scope.
#[local] Open Scope Z_scope.

(** A [std::thread] object: without a thread, with one that runs, or with one that has
    ended and has not been joined. *)
Inductive thread : Set := NoThread | Running | Ended.

Definition VR_NoMatchingRom : core_result := OtherError 6.
Definition VR_PluginError : core_result := OtherError 7.
Definition VR_RomInvalid : core_result := OtherError 8.
Definition VR_NotRunning : core_result := OtherError 9.
Definition VR_FileOpenFailed : core_result := OtherError 10.

(** Callbacks of the front end and of the plugins, latest first. *)
Inductive life_call : Set :=
| LEmuStarting (b : bool)
| LEmuLaunched (b : bool)
| LCoreExecuting (b : bool)
| LReset
| LResetCompleted
| LEmuStopping
| LPluginsOpened
| LPluginsClosed.

(** The globals of r4300.cpp beside those of the console and the movie engine;
    [streams] tells whether the save files are open. *)
Record life (Q : Type) : Type := mk_life {
  lf_ses : session Q;
  lf_rom : rom_state;
  rom_path : string;
  emu_thread_handle : thread;
  audio_thread_handle : thread;
  audio_thread_stop_requested : bool;
  emu_resetting : bool;
  streams : bool;
  lf_calls : list life_call
}.
Arguments mk_life {Q}.
Arguments lf_ses {Q} _.
Arguments lf_rom {Q} _.
Arguments rom_path {Q} _.
Arguments emu_thread_handle {Q} _.
Arguments audio_thread_handle {Q} _.
Arguments audio_thread_stop_requested {Q} _.
Arguments emu_resetting {Q} _.
Arguments streams {Q} _.
Arguments lf_calls {Q} _.
#[export] Instance life_eta Q : Eta (life Q) := fun l =>
  mk_life (lf_ses l) (lf_rom l) (rom_path l) (emu_thread_handle l) (audio_thread_handle l) (audio_thread_stop_requested l)
    (emu_resetting l) (streams l) (lf_calls l).

(** What is outside: the front end's list of ROMs (path, name, checksum), whether the
    plugins load and the save files open, the files with ROM images, the decompressor and
    the hash, and the configuration. *)
Record life_host : Type := LifeHost {
  available_roms : list (string * list Z * Z);
  load_plugins : bool;
  streams_open : bool;
  rom_image : string -> list Z;
  rom_gunzip : list Z -> list Z;
  rom_md5_of : list Z -> list Z;
  use_summercart : bool;
  rom_cache_size : Z;
  is_reset_recording_enabled : bool
}.

(** [fwrite(arr + off, 1, n, f)] at position [pos]. *)
Definition fwrite_at (pos : Z) (n : nat) (off : Z) (arr : gmap Z Z) (f : file) : file :=
  File (Z.max (pos + Z.of_nat n) (f_len f)) (store_bytes pos (load_bytes n off arr) (f_data f)).

(** [memset(arr + off, 0, n)] *)
Definition zero_bytes (n : nat) (off : Z) (arr : gmap Z Z) : gmap Z Z := store_bytes off (replicate n 0) arr.

Section Life.
Context {Q : Type} `{EventQueue Q, !SavedQueue Q} (H : host) (L : life_host).
#[local] Abbreviation lf := (life Q).

Definition lf_note (c : life_call) : M lf unit := modify (fun l => l <| lf_calls := c :: lf_calls l |>).
Definition on_ses {A} (c : M (session Q) A) : M lf A := fun l =>
  obind (c (lf_ses l)) (fun '(a, s) => Ret (a, l <| lf_ses := s |>)).
Definition in_vcr (f : vcr -> vcr) : M lf unit := on_ses (on_vcr (modify f)).
Definition lf_vcr (l : lf) : vcr := ss_vcr (lf_ses l).
Definition on_devices (f : devices -> devices) : M lf unit := on_ses (on_core (mod_dev f)).
Definition on_rom {A} (c : M rom_state A) : M lf A := fun l =>
  obind (c (lf_rom l)) (fun '(a, r) => Ret (a, l <| lf_rom := r |>)).

(** ** Threads *)

(** Assigning a new thread to an object that has one ends the process. *)
Definition new_thread (get : lf -> thread) (put : thread -> lf -> lf) : M lf unit :=
  l <-- Prelude.get ;;;
  match get l with NoThread => modify (put Running) | _ => undef Terminates end.

(** [join] of an object without a thread throws. *)
Definition join (get : lf -> thread) (put : thread -> lf -> lf) (finish : M lf unit) : M lf unit :=
  l <-- Prelude.get ;;;
  match get l with
  | NoThread => undef Terminates
  | Running => finish ;;; modify (put NoThread)
  | Ended => modify (put NoThread)
  end.

Definition set_emu_handle (t : thread) (l : lf) : lf := l <| emu_thread_handle := t |>.
Definition set_audio_handle (t : thread) (l : lf) : lf := l <| audio_thread_handle := t |>.

(** [core_executing = b; callbacks.core_executing_changed(core_executing);] *)
Definition set_executing (b : bool) : M lf unit :=
  in_vcr (fun v => v <| core_executing := b |>) ;;; lf_note (LCoreExecuting b).

(** [emu_thread] up to where the processor runs. *)
Definition emu_thread_begin : M lf unit :=
  lf_note LPluginsOpened ;;;
  new_thread audio_thread_handle set_audio_handle ;;;
  lf_note (LEmuLaunched true) ;;; lf_note (LEmuStarting false) ;;; lf_note LReset ;;;
  on_ses (on_core (mod_mach (fun m => m <| stop := false |>))) ;;;
  set_executing true.

(** [emu_thread] from where the processor has stopped. *)
Definition emu_thread_end : M lf unit :=
  set_executing false ;;;
  on_ses st_on_core_stop ;;;
  lf_note LPluginsClosed ;;;
  in_vcr (fun v => v <| emu_paused := true |> <| emu_launched := false |>) ;;;
  l <-- Prelude.get ;;;
  when (negb (emu_resetting l)) (lf_note (LEmuLaunched false)).

Definition terminate_emu : M lf unit := on_ses (on_core (mod_mach (fun m => m <| stop := true |>))).

(** ** Save files *)

(** The loop over the controller paks: each is cleared whole, of which 0x800 bytes are
    written. *)
Fixpoint clear_paks (n : nat) (i : Z) : M lf unit :=
  match n with
  | O => ret tt
  | S n =>
      on_devices (fun d => d <| mempack := zero_bytes (Z.to_nat 0x8000) (i * 0x8000) (mempack d) |>) ;;;
      on_devices (fun d => d <| g_mpak_file := fwrite_at (i * 0x800) (Z.to_nat 0x800) (i * 0x8000) (mempack d) (g_mpak_file d) |>) ;;;
      clear_paks n (i + 1)
  end.

(** A save file that cannot be opened leaves NULL, which the file functions refuse. *)
Definition clear_save_data : M lf unit :=
  if negb (streams_open L) then undef InvalidParameter
  else
    on_devices (fun d => d <| sram := zero_bytes (Z.to_nat 0x8000) 0 (sram d) |>) ;;;
    on_devices (fun d => d <| g_sram_file := fwrite_at 0 (Z.to_nat 0x8000) 0 (sram d) (g_sram_file d) |>) ;;;
    on_devices (fun d => d <| eeprom := zero_bytes (Z.to_nat 0x800) 0 (eeprom d) |>) ;;;
    on_devices (fun d => d <| g_eeprom_file := fwrite_at 0 (Z.to_nat 0x800) 0 (eeprom d) (g_eeprom_file d) |>) ;;;
    clear_paks 4 0 ;;;
    modify (fun l => l <| streams := false |>).

(** ** The functions of the front end *)

(** [core_vr_resume_emu_impl(true)] *)
Definition force_resume : M lf unit :=
  in_vcr (fun v => if emu_launched v then v <| emu_paused := false |> else v) ;;;
  l <-- Prelude.get ;;; on_ses (on_vcr (call (CEmuPausedChanged (emu_paused (lf_vcr l))))).

Definition vr_close_rom_impl (stop_vcr : bool) : M lf core_result :=
  l <-- Prelude.get ;;;
  if negb (emu_launched (lf_vcr l)) then ret VR_NotRunning
  else
    force_resume ;;;
    modify (fun l => l <| audio_thread_stop_requested := true |>) ;;;
    join audio_thread_handle set_audio_handle (ret tt) ;;;
    modify (fun l => l <| audio_thread_stop_requested := false |>) ;;;
    when stop_vcr (on_ses (on_vcr (core_vcr_stop_all H)) ;;; ret tt) ;;;
    lf_note LEmuStopping ;;;
    terminate_emu ;;;
    join emu_thread_handle set_emu_handle emu_thread_end ;;;
    l <-- Prelude.get ;;;
    if negb (streams l) then undef InvalidParameter
    else modify (fun l => l <| streams := false |>) ;;; ret Res_Ok.

(** [_strnicmp(a, b, 20) == 0] *)
Definition strnicmp_eq (n : nat) (a b : list Z) : bool :=
  bool_decide (map lower (c_str (take n a)) = map lower (c_str (take n b))).

Definition matching_rom (header : core_vcr_movie_header) : option string :=
  option_map (fun '(path, _, _) => path)
    (List.find (fun '(_, nom, crc1) => (rom_crc1 header =? crc1) && strnicmp_eq 20 (strtrim nom) (rom_name header)) (available_roms L)).

(** The ROM to start: of a movie, the one it was recorded with. *)
Definition find_rom (path : string) : M lf (core_result * string) :=
  if String.eqb (extension path) ".m64" then
    l <-- Prelude.get ;;;
    let '(result, header) := core_vcr_parse_header (fs (lf_vcr l)) path default_hdr in
    if negb (is_ok result) then ret (result, path)
    else match matching_rom header with
         | Some rom => ret (Res_Ok, rom)
         | None => ret (VR_NoMatchingRom, path)
         end
  else ret (Res_Ok, path).

(** Plugins, ROM and save files; what failed, if anything. *)
Definition load_everything (path : string) : M lf core_result :=
  modify (fun l => l <| rom_path := path |>) ;;;
  if negb (load_plugins L) then ret VR_PluginError
  else
    loaded <-- on_rom (rom_load (rom_gunzip L) (rom_md5_of L) (use_summercart L) (rom_cache_size L) path (rom_image L path)) ;;;
    if negb loaded then ret VR_RomInvalid
    else if negb (streams_open L) then ret VR_FileOpenFailed
    else modify (fun l => l <| streams := true |>) ;;; ret Res_Ok.

(** The new thread, until it executes. *)
Definition launch : M lf unit :=
  in_vcr (fun v => v <| emu_paused := false |> <| emu_launched := true |>) ;;;
  new_thread emu_thread_handle set_emu_handle ;;;
  emu_thread_begin.

Definition vr_start_rom_impl (path : string) : M lf core_result :=
  l <-- Prelude.get ;;;
  closed <-- (if emu_launched (lf_vcr l) then vr_close_rom_impl true else ret Res_Ok) ;;;
  if negb (is_ok closed) then ret closed
  else
    lf_note (LEmuStarting true) ;;;
    found <-- find_rom path ;;;
    result <-- (if is_ok found.1 then load_everything found.2 else ret found.1) ;;;
    if negb (is_ok result) then lf_note (LEmuStarting false) ;;; ret result
    else launch ;;; ret Res_Ok.

Definition reset_done (result : core_result) : M lf core_result :=
  modify (fun l => l <| emu_resetting := false |>) ;;; lf_note LResetCompleted ;;; ret result.

Definition vr_reset_rom_impl (reset_save_data stop_vcr skip_reset_recording_check : bool) : M lf core_result :=
  l <-- Prelude.get ;;;
  if negb (emu_launched (lf_vcr l)) then ret VR_NotRunning
  else if is_reset_recording_enabled L && negb skip_reset_recording_check && task_eqb (g_task (lf_vcr l)) task_recording then
    in_vcr (fun v => v <| vcr_reset_requested := true |>) ;;; ret Res_Ok
  else
    in_vcr (fun v => v <| VcrState.frame_advance_outstanding := 0 |>) ;;;
    modify (fun l => l <| emu_resetting := true |>) ;;;
    result <-- vr_close_rom_impl stop_vcr ;;;
    if negb (is_ok result) then reset_done result
    else
      when reset_save_data clear_save_data ;;;
      l <-- Prelude.get ;;;
      result <-- vr_start_rom_impl (rom_path l) ;;;
      reset_done result.

(** The processor stops by itself, for example at an instruction it does not know. *)
Definition core_stops : M lf unit :=
  terminate_emu ;;; emu_thread_end ;;; modify (set_emu_handle Ended).
End Life.
