(* ===== verification/LifeProps.v ===== *)
(** * The life cycle of the emulator

    Whatever the front end calls in whatever order, the threads are created and joined
    in pairs and the process goes on, as long as the processor does not stop by itself;
    when it does, the next start ends the process. *)

From Stdlib Require Import Strings.String.
From S2P Require Import Prelude Hoare Queue Pool PoolRefines Machine Exception DeviceState Core Dma PifLut Pif SummerCart Cop SaveFormat WfProps Rom Path Cheats Movie MovieProps VcrState Vcr VcrProps Savestate SavestateProps SaveExamples Life.

Open Scope prog_scope.
#[local] Open Scope Z_scope.

#[local] Abbreviation survives := (spares Terminates).


(** ** The movie engine does not touch the flags of the life cycle *)







(** ** The flags of the life cycle *)

Section Flags.
Context {Q : Type} `{EventQueue Q, !SavedQueue Q} (H : host) (L : life_host).
#[local] Abbreviation lf := (life Q).
Implicit Types l : lf.

(** Launched, executing, the two threads, the request to the audio thread, whether a
    reset is going on, and whether the save files are open. *)
Definition flags l : bool * bool * thread * thread * bool * bool * bool :=
  (emu_launched (lf_vcr l), core_executing (lf_vcr l), emu_thread_handle l, audio_thread_handle l, audio_thread_stop_requested l,
   emu_resetting l, streams l).

(** Closed and running, with or without a reset going on. *)
Definition off (r : bool) : bool * bool * thread * thread * bool * bool * bool := (false, false, NoThread, NoThread, false, r, false).
Definition on (r : bool) : bool * bool * thread * thread * bool * bool * bool := (true, true, Running, Running, false, r, true).
#[local] Abbreviation at_flags f := (fun l => flags l = f).







Lemma survives_weaken {A} P (m : M lf A) (R R' : A -> lf -> Prop) : survives P m R -> (forall a l, R a l -> R' a l) -> survives P m R'.
Proof. intros Hm HR l Hl. specialize (Hm l Hl). destruct (m l) as [[a l']|e]; [by apply HR|exact Hm]. Qed.







End Flags.

(** ** What the front end can do *)







(** ** Resetting *)

(** What is left of the movie engine's state after a reset that does not stop it. *)
Definition after_reset (cs : list vcr_call) (v : vcr) : vcr :=
  v <| VcrState.frame_advance_outstanding := 0 |> <| emu_paused := false |> <| calls := cs |>.

Section Reset.
Context {Q : Type} `{EventQueue Q, !SavedQueue Q} (H : host) (L : life_host).
#[local] Abbreviation lf := (life Q).
Implicit Types l : lf.

(** Closing a running emulator without stopping the movie. *)
Lemma close_running r l :
  flags l = on r ->
  exists l' cs, vr_close_rom_impl H false l = Ret (Res_Ok, l') /\ flags l' = off r /\ rom_path l' = rom_path l /\ lf_rom l' = lf_rom l /\
    c_dev (ss_core (lf_ses l')) = c_dev (ss_core (lf_ses l)) /\
    lf_vcr l' = (lf_vcr l) <| emu_paused := true |> <| emu_launched := false |> <| core_executing := false |> <| calls := cs |>.
Proof.
  destruct l as [[? [] ? ? ? ?] ? ? ? ? ? ? ? ?]. unfold flags, on. cbn. intros Hl. simplify_eq.
  destruct r; (eexists _, _; split; [cbv; reflexivity|]; split_and!; reflexivity).
Qed.

Lemma launch_ok l :
  emu_thread_handle l = NoThread -> audio_thread_handle l = NoThread ->
  exists l', launch l = Ret (tt, l') /\
    lf_vcr l' = (lf_vcr l) <| emu_paused := false |> <| emu_launched := true |> <| core_executing := true |> /\
    c_dev (ss_core (lf_ses l')) = c_dev (ss_core (lf_ses l)) /\
    (emu_thread_handle l', audio_thread_handle l', audio_thread_stop_requested l', emu_resetting l', streams l') =
      (Running, Running, audio_thread_stop_requested l, emu_resetting l, streams l).
Proof.
  intros He Ha. unfold launch.
  set (l1 := l <| lf_ses := (lf_ses l) <| ss_vcr := (ss_vcr (lf_ses l)) <| emu_paused := false |> <| emu_launched := true |> |> |>).
  assert (in_vcr (fun v => v <| emu_paused := false |> <| emu_launched := true |>) l = Ret (tt, l1)) as E1 by reflexivity.
  rewrite (bind_Ret _ _ _ _ _ E1). set (l2 := set_emu_handle Running l1).
  assert (new_thread emu_thread_handle set_emu_handle l1 = Ret (tt, l2)) as E2.
  { unfold new_thread. rewrite bind_get_l. change (emu_thread_handle l1) with (emu_thread_handle l). by rewrite He. }
  rewrite (bind_Ret _ _ _ _ _ E2). unfold emu_thread_begin, lf_note. rewrite bind_modify_l. set (l3 := l2 <| lf_calls := _ |>).
  assert (new_thread audio_thread_handle set_audio_handle l3 = Ret (tt, set_audio_handle Running l3)) as E3.
  { unfold new_thread. rewrite bind_get_l. change (audio_thread_handle l3) with (audio_thread_handle l). by rewrite Ha. }
  rewrite (bind_Ret _ _ _ _ _ E3), !bind_modify_l. set (l4 := set_audio_handle Running l3).
  eexists. split; [reflexivity|]. split_and!; reflexivity.
Qed.

(** Starting a ROM that loads. *)
Lemma start_closed r l r' :
  flags l = off r -> load_plugins L = true -> streams_open L = true -> String.eqb (extension (rom_path l)) ".m64" = false ->
  rom_load (rom_gunzip L) (rom_md5_of L) (use_summercart L) (rom_cache_size L) (rom_path l) (rom_image L (rom_path l)) (lf_rom l) = Ret (true, r') ->
  exists l', vr_start_rom_impl H L (rom_path l) l = Ret (Res_Ok, l') /\ flags l' = on r /\ c_dev (ss_core (lf_ses l')) = c_dev (ss_core (lf_ses l)) /\
    lf_vcr l' = (lf_vcr l) <| emu_paused := false |> <| emu_launched := true |> <| core_executing := true |>.
Proof.
  intros Hl Hp Hs He Hr. unfold vr_start_rom_impl. rewrite bind_get_l.
  assert (emu_launched (lf_vcr l) = false) as -> by (unfold flags, off in Hl; congruence). rewrite bind_ret_l. cbn [is_ok negb].
  unfold lf_note at 1. rewrite bind_modify_l. unfold find_rom. rewrite He, bind_ret_l. cbn [fst snd is_ok].
  unfold load_everything. rewrite !bind_assoc, bind_modify_l, Hp. cbn [negb]. set (l2 := _ <| rom_path := rom_path l |>).
  assert (on_rom (rom_load (rom_gunzip L) (rom_md5_of L) (use_summercart L) (rom_cache_size L) (rom_path l) (rom_image L (rom_path l))) l2 =
    Ret (true, l2 <| lf_rom := r' |>)) as Er by (unfold on_rom; change (lf_rom l2) with (lf_rom l); by rewrite Hr).
  rewrite bind_assoc, (bind_Ret _ _ _ _ _ Er), Hs. cbn [negb]. rewrite bind_assoc, bind_modify_l, bind_ret_l. cbn [is_ok negb].
  set (l3 := _ <| streams := true |>). unfold flags, off in Hl. injection Hl as _ _ F3 F4 F5 F6 _.
  destruct (launch_ok l3 F3 F4) as (l' & E & Hv & Hd & Hfl). exists l'. rewrite (bind_Ret _ _ _ _ _ E).
  split; [reflexivity|]. split; [|split; [exact Hd|exact Hv]].
  unfold flags, on. rewrite Hv. injection Hfl as -> -> -> -> ->. change (audio_thread_stop_requested l3) with (audio_thread_stop_requested l).
  change (emu_resetting l3) with (emu_resetting l). by rewrite F5, F6.
Qed.

(** *** Clearing the save files *)

Definition dev_of l : devices := c_dev (ss_core (lf_ses l)).
Definition with_dev (d : devices) l : lf := l <| lf_ses := (lf_ses l) <| ss_core := (ss_core (lf_ses l)) <| c_dev := d |> |> |>.

Lemma on_devices_ok f l : on_devices f l = Ret (tt, with_dev (f (dev_of l)) l).
Proof. reflexivity. Qed.
Lemma with_dev_twice d d' l : with_dev d (with_dev d' l) = with_dev d l.
Proof. reflexivity. Qed.

Lemma zeroed_bytes n N off arr : (n <= N)%nat -> load_bytes n off (zero_bytes N off arr) = replicate n 0.
Proof.
  intros Hn. apply list_eq. intros i. destruct (decide (i < n)%nat) as [Hi|Hi].
  - rewrite list_lookup_lookup_total_lt by by rewrite length_load_bytes. rewrite lookup_replicate_2 by done. f_equal.
    unfold zero_bytes. rewrite load_bytes_at, store_bytes_lookup, length_replicate by done.
    destruct (Z.leb_spec off (off + Z.of_nat i)), (Z.ltb_spec (off + Z.of_nat i) (off + Z.of_nat N)); try lia. cbn [andb].
    rewrite lookup_total_replicate_2; [done|lia].
  - rewrite !lookup_ge_None_2; rewrite ?length_load_bytes, ?length_replicate; (lia || done).
Qed.

Lemma written_zeros pos n off arr N f x : (n <= N)%nat ->
  Prelude.byte_at (f_data (fwrite_at pos n off (zero_bytes N off arr) f)) x =
    if (pos <=? x) && (x <? pos + Z.of_nat n) then 0 else Prelude.byte_at (f_data f) x.
Proof.
  intros Hn. unfold fwrite_at. cbn [f_data]. rewrite zeroed_bytes, store_bytes_lookup, length_replicate by done.
  destruct (Z.leb_spec pos x), (Z.ltb_spec x (pos + Z.of_nat n)); try done. cbn [andb]. rewrite lookup_total_replicate_2; [done|lia].
Qed.

(** One controller pak. *)
Definition clear_pak (i : Z) (d : devices) : devices :=
  let d := d <| mempack := zero_bytes (Z.to_nat 0x8000) (i * 0x8000) (mempack d) |> in
  d <| g_mpak_file := fwrite_at (i * 0x800) (Z.to_nat 0x800) (i * 0x8000) (mempack d) (g_mpak_file d) |>.

Fixpoint paks_cleared (n : nat) (i : Z) (d : devices) : devices :=
  match n with O => d | S n => paks_cleared n (i + 1) (clear_pak i d) end.

Lemma clear_paks_ok n i l : clear_paks n i l = Ret (tt, with_dev (paks_cleared n i (dev_of l)) l).
Proof.
  revert i l. induction n as [|n IH]; intros i l; cbn [clear_paks paks_cleared].
  { unfold with_dev, dev_of. by destruct l as [[[] ? ? ? ? ?] ? ? ? ? ? ? ? ?]. }
  rewrite (bind_Ret _ _ _ _ _ (on_devices_ok _ _)), (bind_Ret _ _ _ _ _ (on_devices_ok _ _)), IH. reflexivity.
Qed.

Lemma paks_cleared_bytes n i d x : 0 <= i ->
  Prelude.byte_at (f_data (g_mpak_file (paks_cleared n i d))) x =
    if (i * 0x800 <=? x) && (x <? (i + Z.of_nat n) * 0x800) then 0 else Prelude.byte_at (f_data (g_mpak_file d)) x.
Proof.
  revert i d. induction n as [|n IH]; intros i d Hi; cbn [paks_cleared].
  { rewrite Z.add_0_r. destruct (Z.leb_spec (i * 0x800) x), (Z.ltb_spec x (i * 0x800)); (lia || done). }
  rewrite IH by lia. unfold clear_pak. cbv zeta.
  change (g_mpak_file (_ <| g_mpak_file := ?f |>)) with f. change (mempack (d <| mempack := ?m |>)) with m.
  change (g_mpak_file (d <| mempack := _ |>)) with (g_mpak_file d). rewrite written_zeros by lia. rewrite Z2Nat.id, Nat2Z.inj_succ by lia.
  repeat case_cmp; cbn [andb]; (lia || done).
Qed.

Lemma paks_cleared_rest n i d :
  g_sram_file (paks_cleared n i d) = g_sram_file d /\ g_eeprom_file (paks_cleared n i d) = g_eeprom_file d /\
  g_fram_file (paks_cleared n i d) = g_fram_file d.
Proof. revert i d. induction n as [|n IH]; intros i d; [done|]. cbn [paks_cleared]. exact (IH (i + 1) (clear_pak i d)). Qed.

(** Bytes of the save files after they were cleared. *)
Record cleared (d d' : devices) : Prop := {
  cl_sram x : 0 <= x < 0x8000 -> Prelude.byte_at (f_data (g_sram_file d')) x = 0;
  cl_eeprom x : 0 <= x < 0x800 -> Prelude.byte_at (f_data (g_eeprom_file d')) x = 0;
  cl_paks x : Prelude.byte_at (f_data (g_mpak_file d')) x =
    if (0 <=? x) && (x <? 0x2000) then 0 else Prelude.byte_at (f_data (g_mpak_file d)) x;
  cl_flash : g_fram_file d' = g_fram_file d
}.

Lemma clear_save_data_ok l :
  streams_open L = true ->
  exists d, clear_save_data L l = Ret (tt, (with_dev d l) <| streams := false |>) /\ cleared (dev_of l) d.
Proof.
  intros Hs. unfold clear_save_data. rewrite Hs. cbn [negb].
  do 4 rewrite (bind_Ret _ _ _ _ _ (on_devices_ok _ _)). rewrite (bind_Ret _ _ _ _ _ (clear_paks_ok _ _ _)). rewrite !with_dev_twice.
  set (d4 := dev_of _).
  assert (g_sram_file d4 = fwrite_at 0 (Z.to_nat 0x8000) 0 (zero_bytes (Z.to_nat 0x8000) 0 (sram (dev_of l))) (g_sram_file (dev_of l))) as E1
    by reflexivity.
  assert (g_eeprom_file d4 = fwrite_at 0 (Z.to_nat 0x800) 0 (zero_bytes (Z.to_nat 0x800) 0 (eeprom (dev_of l))) (g_eeprom_file (dev_of l))) as E2
    by reflexivity.
  assert (g_mpak_file d4 = g_mpak_file (dev_of l)) as E3 by reflexivity. assert (g_fram_file d4 = g_fram_file (dev_of l)) as E4 by reflexivity.
  clearbody d4. exists (paks_cleared 4 0 d4). split; [reflexivity|]. destruct (paks_cleared_rest 4 0 d4) as (F1 & F2 & F3). constructor.
  - intros x Hx. rewrite F1, E1, written_zeros, Z2Nat.id by lia. repeat case_cmp; cbn [andb]; (lia || done).
  - intros x Hx. rewrite F2, E2, written_zeros, Z2Nat.id by lia. repeat case_cmp; cbn [andb]; (lia || done).
  - intros x. rewrite paks_cleared_bytes, E3 by lia. reflexivity.
  - by rewrite F3, E4.
Qed.
End Reset.

(** A reset restarts the console and keeps the movie.  When the emulator runs, the
    movie engine does not ask to record the reset, and the ROM loads again, a reset that
    does not stop the movie succeeds: the emulator runs again, not paused, with no frames
    left to advance, and the movie engine is as before in everything else.  With the save
    data cleared the SRAM and EEPROM files are zero and the flash file is kept, but of
    the controller paks only the first 0x2000 bytes of the file are cleared. *)
Theorem reset_restarts {Q} `{EventQueue Q, !SavedQueue Q} H L (l : life Q) save skip r' :
  flags l = on false -> is_reset_recording_enabled L && negb skip && task_eqb (g_task (lf_vcr l)) task_recording = false ->
  load_plugins L = true -> streams_open L = true -> String.eqb (extension (rom_path l)) ".m64" = false ->
  rom_load (rom_gunzip L) (rom_md5_of L) (use_summercart L) (rom_cache_size L) (rom_path l) (rom_image L (rom_path l)) (lf_rom l) = Ret (true, r') ->
  exists l' cs, vr_reset_rom_impl H L save false skip l = Ret (Res_Ok, l') /\ flags l' = on false /\
    lf_vcr l' = after_reset cs (lf_vcr l) /\ (if save then cleared (dev_of l) (dev_of l') else dev_of l' = dev_of l).
Proof.
  intros Hl Hrec Hp Hs He Hr. unfold vr_reset_rom_impl. rewrite bind_get_l.
  assert (emu_launched (lf_vcr l) = true /\ core_executing (lf_vcr l) = true) as [Hla Hex] by (unfold flags, on in Hl; split; congruence).
  rewrite Hla. cbn [negb]. rewrite Hrec.
  set (l1 := l <| lf_ses := (lf_ses l) <| ss_vcr := (ss_vcr (lf_ses l)) <| VcrState.frame_advance_outstanding := 0 |> |> |>).
  assert (in_vcr (fun v => v <| VcrState.frame_advance_outstanding := 0 |>) l = Ret (tt, l1)) as E1 by reflexivity.
  rewrite (bind_Ret _ _ _ _ _ E1), bind_modify_l. set (l2 := l1 <| emu_resetting := true |>).
  assert (flags l2 = on true) as Hl2.
  { unfold flags, on in *. injection Hl as F1 F2 F3 F4 F5 F6 F7. unfold l2, l1, lf_vcr in *. cbn. by rewrite F1, F2, F3, F4, F5, F7. }
  destruct (close_running H true l2 Hl2) as (l3 & cs & E3 & Hl3 & Hpath & Hrom & Hdev & Hv3).
  rewrite (bind_Ret _ _ _ _ _ E3). cbn [is_ok negb].
  assert (exists d, when save (clear_save_data L) l3 = Ret (tt, (with_dev d l3) <| streams := false |>) /\
    (if save then cleared (dev_of l) d else d = dev_of l)) as (d & E4 & Hd).
  { destruct save; cbn [when].
    - destruct (clear_save_data_ok L l3 Hs) as (d & E & Hc). exists d. split; [exact E|].
      assert (dev_of l3 = dev_of l) as Ed by exact Hdev. by rewrite <- Ed.
    - exists (dev_of l). split; [|reflexivity]. assert (dev_of l = dev_of l3) as -> by (symmetry; exact Hdev).
      unfold flags, off in Hl3. injection Hl3 as _ _ _ _ _ _ F7. unfold ret. do 2 f_equal. clear - F7.
      unfold with_dev, dev_of. destruct l3 as [[[] ? ? ? ? ?] ? ? ? ? ? ? ? ?]. cbn in F7. by rewrite F7. }
  rewrite (bind_Ret _ _ _ _ _ E4), bind_get_l. set (l4 := (with_dev d l3) <| streams := false |>).
  assert (flags l4 = off true) as Hl4.
  { unfold flags, off in *. injection Hl3 as F1 F2 F3 F4 F5 F6 F7. unfold l4, with_dev, lf_vcr in *. cbn. by rewrite F1, F2, F3, F4, F5, F6. }
  assert (rom_path l4 = rom_path l) as Hp4 by exact Hpath. assert (lf_rom l4 = lf_rom l) as Hr4 by exact Hrom.
  destruct (start_closed H L true l4 r' Hl4 Hp Hs ltac:(by rewrite Hp4) ltac:(by rewrite Hp4, Hr4)) as (l5 & E5 & Hl5 & Hdev5 & Hv5).
  rewrite (bind_Ret _ _ _ _ _ E5). unfold reset_done, lf_note. rewrite !bind_modify_l.
  eexists _, cs. split; [reflexivity|]. split; [|split].
  - unfold flags, on in *. injection Hl5 as F1 F2 F3 F4 F5 F6 F7. unfold lf_vcr in *. cbn. by rewrite F1, F2, F3, F4, F5, F7.
  - change (lf_vcr l5 = after_reset cs (lf_vcr l)). rewrite Hv5. change (lf_vcr l4) with (lf_vcr l3). rewrite Hv3.
    change (lf_vcr l2) with ((lf_vcr l) <| VcrState.frame_advance_outstanding := 0 |>).
    clear - Hla Hex. unfold after_reset. destruct (lf_vcr l). cbn in *. by subst.
  - change (if save then cleared (dev_of l) (dev_of l5) else dev_of l5 = dev_of l). change (c_dev (ss_core (lf_ses l4))) with d in Hdev5.
    assert (dev_of l5 = d) as -> by exact Hdev5. exact Hd.
Qed.

(** ** Examples *)

(** A movie is being recorded; the ROM is in the cache. *)
Definition cached_rom : rom_state := mk_rom_state None 0 0 [] [] sys_ntsc {[ "game.z64"%string := ([0x80], 1) ]}.
Definition running_life : life irq := mk_life (recording_session irq_init) cached_rom "game.z64" Running Running false false true [].
Definition plain_host : life_host := LifeHost [] true true (fun _ => []) id id false 4 false.



Lemma reset_restarts_witness :
  exists l' cs, vr_reset_rom_impl sample_host plain_host true false false running_life = Ret (Res_Ok, l') /\ flags l' = on false /\
    lf_vcr l' = after_reset cs recording_state.
Proof.
  destruct (reset_restarts sample_host plain_host running_life true false (cached_rom <| rs_rom := Some [0x80] |> <| rs_taille := 1 |>))
    as (l' & cs & E & Hf & Hv & _); [reflexivity|reflexivity|reflexivity|reflexivity|reflexivity|vm_compute; reflexivity|].
  exists l', cs. split; [exact E|]. split; [exact Hf|exact Hv].
Defined.
