(* ===== verification/Translate.v ===== *)
(** * Translating instructions (recomp.cpp)

    The cached interpreter translates an instruction word once, into an entry of a
    code block: the function that executes it and its operands.  The functions are
    the constructors of [Op.t]; the operands are a union, of which a function reads
    the member its translation has filled in.  Integer instructions are those of
    [Alu]; for branches and jumps the translation chooses among three variants by
    where the target lies.  Here [interpcore] and [dynacore] are 0. *)

From S2P Require Import Prelude Machine Alu.

Open Scope prog_scope.
#[local] Open Scope Z_scope.

Module Op.
(** A branch or jump within its block, out of it, or to itself with a NOP behind it. *)
Inductive variant : Set := IN | OUT | IDLE.

Inductive branch : Set :=
  | BLTZ | BGEZ | BLTZL | BGEZL | BLTZAL | BGEZAL | BLTZALL | BGEZALL | BEQ | BNE | BLEZ | BGTZ | BEQL | BNEL
  | BLEZL | BGTZL | BC1F | BC1T | BC1FL | BC1TL.

Inductive float : Set :=
  | ADD_S | SUB_S | MUL_S | DIV_S | SQRT_S | ABS_S | MOV_S | NEG_S | ROUND_L_S | TRUNC_L_S | CEIL_L_S
  | FLOOR_L_S | ROUND_W_S | TRUNC_W_S | CEIL_W_S | FLOOR_W_S | CVT_D_S | CVT_W_S | CVT_L_S | C_F_S | C_UN_S
  | C_EQ_S | C_UEQ_S | C_OLT_S | C_ULT_S | C_OLE_S | C_ULE_S | C_SF_S | C_NGLE_S | C_SEQ_S | C_NGL_S | C_LT_S
  | C_NGE_S | C_LE_S | C_NGT_S | ADD_D | SUB_D | MUL_D | DIV_D | SQRT_D | ABS_D | MOV_D | NEG_D | ROUND_L_D
  | TRUNC_L_D | CEIL_L_D | FLOOR_L_D | ROUND_W_D | TRUNC_W_D | CEIL_W_D | FLOOR_W_D | CVT_S_D | CVT_W_D
  | CVT_L_D | C_F_D | C_UN_D | C_EQ_D | C_UEQ_D | C_OLT_D | C_ULT_D | C_OLE_D | C_ULE_D | C_SF_D | C_NGLE_D
  | C_SEQ_D | C_NGL_D | C_LT_D | C_NGE_D | C_LE_D | C_NGT_D | CVT_S_W | CVT_D_W | CVT_S_L | CVT_D_L.

Inductive memory : Set :=
  | LDL | LDR | LB | LH | LWL | LW | LBU | LHU | LWR | LWU | LL | LD | SC | SB | SH | SWL | SW | SDL | SDR
  | SWR | SD.

Inductive t : Type :=
| NOTCOMPILED | NOTCOMPILED2 | FIN_BLOCK
| INTEGER (fn : instr_fn)
| BRANCH (b : branch) (v : variant) | J (v : variant) | JAL (v : variant) | JR | JALR | SYSCALL | SYNC
| MFC0 | MTC0 | TLBR | TLBWI | TLBWR | TLBP | ERET
| MFC1 | DMFC1 | CFC1 | MTC1 | DMTC1 | CTC1 | FLOAT (o : float)
| MEMORY (o : memory) | CACHE | LWC1 | LDC1 | SWC1 | SDC1.
End Op.

(** The union [f] of a [precomp_instr]: nothing yet, or the member written last. *)
Inductive operands : Set :=
| Unset | FI (f : fields) | FR (f : fields) | FJ (inst_index : Z) | FLF (f : fields) | FCF (ft fs fd : nat).

Record precomp_instr : Type := Instr { ops : Op.t; opnds : operands }.
#[export] Instance precomp_instr_eta : Eta precomp_instr := fun e => Instr (ops e) (opnds e).

(** What a translation looks at: the word, its address, the start of the block, and
    whether the next word is a NOP. *)
Record site : Set := Site { t_src : Z; t_addr : Z; t_start : Z; t_check_nop : bool }.

(** [dst] before and after. *)
Definition translator : Type := site -> precomp_instr -> precomp_instr.

Definition recompile_standard_j_type (src : Z) : operands := FJ (Z.land src 0x3FFFFFF).
(** [base] is kept in [rs], [ft] in [rt] and [offset] in [immediate]. *)
Definition recompile_standard_lf_type (src : Z) : operands :=
  FLF (Fields (field5 src 21) (field5 src 16) 0 0 (s16 (Z.land src 0xFFFF))).
Definition recompile_standard_cf_type (src : Z) : operands :=
  FCF (field5 src 16) (field5 src 11) (field5 src 6).

(** ** Instructions without a choice *)

Definition keeping (o : Op.t) : translator := fun _ e => Instr o (opnds e).
Definition with_i (o : Op.t) : translator := fun c _ => Instr o (FI (recompile_standard_i_type (t_src c))).
Definition with_r (o : Op.t) : translator := fun c _ => Instr o (FR (recompile_standard_r_type (t_src c))).
Definition with_lf (o : Op.t) : translator := fun c _ => Instr o (recompile_standard_lf_type (t_src c)).
Definition with_cf (o : Op.float) : translator := fun c _ => Instr (Op.FLOAT o) (recompile_standard_cf_type (t_src c)).

Definition RNOP : translator := keeping (Op.INTEGER NOP).

(** [if (dst->f.i.rt == reg) RNOP();] and the same for [f.r]. *)
Definition i_unless_zero (o : Op.t) : translator := fun c _ =>
  let f := recompile_standard_i_type (t_src c) in
  Instr (if (rt f =? 0)%nat then Op.INTEGER NOP else o) (FI f).
Definition r_unless_zero (o : Op.t) : translator := fun c _ =>
  let f := recompile_standard_r_type (t_src c) in
  Instr (if (rt f =? 0)%nat then Op.INTEGER NOP else o) (FR f).

Definition RFIN_BLOCK : translator := keeping Op.FIN_BLOCK.
Definition RNOTCOMPILED : translator := keeping Op.NOTCOMPILED.

Definition RJR : translator := with_i Op.JR.
Definition RJALR : translator := with_r Op.JALR.
Definition RSYSCALL : translator := keeping Op.SYSCALL.
Definition RSYNC : translator := keeping Op.SYNC.
Definition reserved : translator := keeping (Op.INTEGER RESERVED).
Definition not_implemented : translator := keeping (Op.INTEGER NI).

Definition RTGEI : translator := not_implemented.
Definition RTGEIU : translator := not_implemented.
Definition RTLTI : translator := not_implemented.
Definition RTLTIU : translator := not_implemented.
Definition RTEQI : translator := not_implemented.
Definition RTNEI : translator := not_implemented.
Definition RTLBR : translator := keeping Op.TLBR.
Definition RTLBWI : translator := keeping Op.TLBWI.
Definition RTLBWR : translator := keeping Op.TLBWR.
Definition RTLBP : translator := keeping Op.TLBP.
Definition RERET : translator := keeping Op.ERET.
Definition RMFC0 : translator := r_unless_zero Op.MFC0.
Definition RMTC0 : translator := with_r Op.MTC0.
Definition RMFC1 : translator := r_unless_zero Op.MFC1.
Definition RDMFC1 : translator := r_unless_zero Op.DMFC1.
Definition RCFC1 : translator := r_unless_zero Op.CFC1.
Definition RMTC1 : translator := with_r Op.MTC1.
Definition RDMTC1 : translator := with_r Op.DMTC1.
Definition RCTC1 : translator := with_r Op.CTC1.
Definition RLDL : translator := i_unless_zero (Op.MEMORY Op.LDL).
Definition RLDR : translator := i_unless_zero (Op.MEMORY Op.LDR).
Definition RLB : translator := i_unless_zero (Op.MEMORY Op.LB).
Definition RLH : translator := i_unless_zero (Op.MEMORY Op.LH).
Definition RLWL : translator := i_unless_zero (Op.MEMORY Op.LWL).
Definition RLW : translator := i_unless_zero (Op.MEMORY Op.LW).
Definition RLBU : translator := i_unless_zero (Op.MEMORY Op.LBU).
Definition RLHU : translator := i_unless_zero (Op.MEMORY Op.LHU).
Definition RLWR : translator := i_unless_zero (Op.MEMORY Op.LWR).
Definition RLWU : translator := i_unless_zero (Op.MEMORY Op.LWU).
Definition RLL : translator := i_unless_zero (Op.MEMORY Op.LL).
Definition RLD : translator := i_unless_zero (Op.MEMORY Op.LD).
Definition RSC : translator := i_unless_zero (Op.MEMORY Op.SC).
Definition RSB : translator := with_i (Op.MEMORY Op.SB).
Definition RSH : translator := with_i (Op.MEMORY Op.SH).
Definition RSWL : translator := with_i (Op.MEMORY Op.SWL).
Definition RSW : translator := with_i (Op.MEMORY Op.SW).
Definition RSDL : translator := with_i (Op.MEMORY Op.SDL).
Definition RSDR : translator := with_i (Op.MEMORY Op.SDR).
Definition RSWR : translator := with_i (Op.MEMORY Op.SWR).
Definition RSD : translator := with_i (Op.MEMORY Op.SD).
Definition RCACHE : translator := keeping Op.CACHE.
Definition RLWC1 : translator := with_lf Op.LWC1.
Definition RLDC1 : translator := with_lf Op.LDC1.
Definition RSWC1 : translator := with_lf Op.SWC1.
Definition RSDC1 : translator := with_lf Op.SDC1.

Definition RADD_S : translator := with_cf Op.ADD_S.
Definition RSUB_S : translator := with_cf Op.SUB_S.
Definition RMUL_S : translator := with_cf Op.MUL_S.
Definition RDIV_S : translator := with_cf Op.DIV_S.
Definition RSQRT_S : translator := with_cf Op.SQRT_S.
Definition RABS_S : translator := with_cf Op.ABS_S.
Definition RMOV_S : translator := with_cf Op.MOV_S.
Definition RNEG_S : translator := with_cf Op.NEG_S.
Definition RROUND_L_S : translator := with_cf Op.ROUND_L_S.
Definition RTRUNC_L_S : translator := with_cf Op.TRUNC_L_S.
Definition RCEIL_L_S : translator := with_cf Op.CEIL_L_S.
Definition RFLOOR_L_S : translator := with_cf Op.FLOOR_L_S.
Definition RROUND_W_S : translator := with_cf Op.ROUND_W_S.
Definition RTRUNC_W_S : translator := with_cf Op.TRUNC_W_S.
Definition RCEIL_W_S : translator := with_cf Op.CEIL_W_S.
Definition RFLOOR_W_S : translator := with_cf Op.FLOOR_W_S.
Definition RCVT_D_S : translator := with_cf Op.CVT_D_S.
Definition RCVT_W_S : translator := with_cf Op.CVT_W_S.
Definition RCVT_L_S : translator := with_cf Op.CVT_L_S.
Definition RC_F_S : translator := with_cf Op.C_F_S.
Definition RC_UN_S : translator := with_cf Op.C_UN_S.
Definition RC_EQ_S : translator := with_cf Op.C_EQ_S.
Definition RC_UEQ_S : translator := with_cf Op.C_UEQ_S.
Definition RC_OLT_S : translator := with_cf Op.C_OLT_S.
Definition RC_ULT_S : translator := with_cf Op.C_ULT_S.
Definition RC_OLE_S : translator := with_cf Op.C_OLE_S.
Definition RC_ULE_S : translator := with_cf Op.C_ULE_S.
Definition RC_SF_S : translator := with_cf Op.C_SF_S.
Definition RC_NGLE_S : translator := with_cf Op.C_NGLE_S.
Definition RC_SEQ_S : translator := with_cf Op.C_SEQ_S.
Definition RC_NGL_S : translator := with_cf Op.C_NGL_S.
Definition RC_LT_S : translator := with_cf Op.C_LT_S.
Definition RC_NGE_S : translator := with_cf Op.C_NGE_S.
Definition RC_LE_S : translator := with_cf Op.C_LE_S.
Definition RC_NGT_S : translator := with_cf Op.C_NGT_S.
Definition RADD_D : translator := with_cf Op.ADD_D.
Definition RSUB_D : translator := with_cf Op.SUB_D.
Definition RMUL_D : translator := with_cf Op.MUL_D.
Definition RDIV_D : translator := with_cf Op.DIV_D.
Definition RSQRT_D : translator := with_cf Op.SQRT_D.
Definition RABS_D : translator := with_cf Op.ABS_D.
Definition RMOV_D : translator := with_cf Op.MOV_D.
Definition RNEG_D : translator := with_cf Op.NEG_D.
Definition RROUND_L_D : translator := with_cf Op.ROUND_L_D.
Definition RTRUNC_L_D : translator := with_cf Op.TRUNC_L_D.
Definition RCEIL_L_D : translator := with_cf Op.CEIL_L_D.
Definition RFLOOR_L_D : translator := with_cf Op.FLOOR_L_D.
Definition RROUND_W_D : translator := with_cf Op.ROUND_W_D.
Definition RTRUNC_W_D : translator := with_cf Op.TRUNC_W_D.
Definition RCEIL_W_D : translator := with_cf Op.CEIL_W_D.
Definition RFLOOR_W_D : translator := with_cf Op.FLOOR_W_D.
Definition RCVT_S_D : translator := with_cf Op.CVT_S_D.
Definition RCVT_W_D : translator := with_cf Op.CVT_W_D.
Definition RCVT_L_D : translator := with_cf Op.CVT_L_D.
Definition RC_F_D : translator := with_cf Op.C_F_D.
Definition RC_UN_D : translator := with_cf Op.C_UN_D.
Definition RC_EQ_D : translator := with_cf Op.C_EQ_D.
Definition RC_UEQ_D : translator := with_cf Op.C_UEQ_D.
Definition RC_OLT_D : translator := with_cf Op.C_OLT_D.
Definition RC_ULT_D : translator := with_cf Op.C_ULT_D.
Definition RC_OLE_D : translator := with_cf Op.C_OLE_D.
Definition RC_ULE_D : translator := with_cf Op.C_ULE_D.
Definition RC_SF_D : translator := with_cf Op.C_SF_D.
Definition RC_NGLE_D : translator := with_cf Op.C_NGLE_D.
Definition RC_SEQ_D : translator := with_cf Op.C_SEQ_D.
Definition RC_NGL_D : translator := with_cf Op.C_NGL_D.
Definition RC_LT_D : translator := with_cf Op.C_LT_D.
Definition RC_NGE_D : translator := with_cf Op.C_NGE_D.
Definition RC_LE_D : translator := with_cf Op.C_LE_D.
Definition RC_NGT_D : translator := with_cf Op.C_NGT_D.
Definition RCVT_S_W : translator := with_cf Op.CVT_S_W.
Definition RCVT_D_W : translator := with_cf Op.CVT_D_W.
Definition RCVT_S_L : translator := with_cf Op.CVT_S_L.
Definition RCVT_D_L : translator := with_cf Op.CVT_D_L.

(** ** Branches and jumps *)

Definition block_end (start : Z) : Z := u32 (start + 0x1000).

(** The target of a branch, and of a jump. *)
Definition branch_target (addr : Z) (f : fields) : Z := u32 (addr + immediate f * 4 + 4).
Definition jump_target_of (addr inst_index : Z) : Z :=
  Z.lor (Z.shiftl inst_index 2) (Z.land addr 0xF0000000).

Definition leaves_block (c : site) (target : Z) : bool :=
  (target <? t_start c) || (block_end (t_start c) <=? target) || (t_addr c =? u32 (block_end (t_start c) - 4)).

Definition translate_branch (b : Op.branch) : translator := fun c _ =>
  let f := recompile_standard_i_type (t_src c) in
  let target := branch_target (t_addr c) f in
  Instr (Op.BRANCH b (if target =? t_addr c then if t_check_nop c then Op.IDLE else Op.IN
                      else if leaves_block c target then Op.OUT else Op.IN)) (FI f).

(** Jumps are [_OUT] wherever they go. *)
Definition translate_jump (o : Op.variant -> Op.t) : translator := fun c _ =>
  let inst_index := Z.land (t_src c) 0x3FFFFFF in
  let target := jump_target_of (t_addr c) inst_index in
  Instr (if target =? t_addr c then if t_check_nop c then o Op.IDLE else o Op.OUT else o Op.OUT)
    (recompile_standard_j_type (t_src c)).

Definition RJ : translator := translate_jump Op.J.
Definition RJAL : translator := translate_jump Op.JAL.
Definition RBLTZ : translator := translate_branch Op.BLTZ.
Definition RBGEZ : translator := translate_branch Op.BGEZ.
Definition RBLTZL : translator := translate_branch Op.BLTZL.
Definition RBGEZL : translator := translate_branch Op.BGEZL.
Definition RBLTZAL : translator := translate_branch Op.BLTZAL.
Definition RBGEZAL : translator := translate_branch Op.BGEZAL.
Definition RBLTZALL : translator := translate_branch Op.BLTZALL.
Definition RBGEZALL : translator := translate_branch Op.BGEZALL.
Definition RBEQ : translator := translate_branch Op.BEQ.
Definition RBNE : translator := translate_branch Op.BNE.
Definition RBLEZ : translator := translate_branch Op.BLEZ.
Definition RBGTZ : translator := translate_branch Op.BGTZ.
Definition RBEQL : translator := translate_branch Op.BEQL.
Definition RBNEL : translator := translate_branch Op.BNEL.
Definition RBLEZL : translator := translate_branch Op.BLEZL.
Definition RBGTZL : translator := translate_branch Op.BGTZL.
Definition RBC1F : translator := translate_branch Op.BC1F.
Definition RBC1T : translator := translate_branch Op.BC1T.
Definition RBC1FL : translator := translate_branch Op.BC1FL.
Definition RBC1TL : translator := translate_branch Op.BC1TL.

(** ** The tables *)

Definition pick (table : list translator) (k : Z) : translator := default reserved (table !! Z.to_nat k).

Definition recomp_regimm : list translator :=
  [RBLTZ; RBGEZ; RBLTZL; RBGEZL; reserved; reserved; reserved; reserved; RTGEI; RTGEIU; RTLTI; RTLTIU; RTEQI;
  reserved; RTNEI; reserved; RBLTZAL; RBGEZAL; RBLTZALL; RBGEZALL; reserved; reserved; reserved; reserved;
  reserved; reserved; reserved; reserved; reserved; reserved; reserved; reserved].

Definition recomp_tlb : list translator :=
  [reserved; RTLBR; RTLBWI; reserved; reserved; reserved; RTLBWR; reserved; RTLBP; reserved; reserved;
  reserved; reserved; reserved; reserved; reserved; reserved; reserved; reserved; reserved; reserved;
  reserved; reserved; reserved; RERET; reserved; reserved; reserved; reserved; reserved; reserved; reserved;
  reserved; reserved; reserved; reserved; reserved; reserved; reserved; reserved; reserved; reserved;
  reserved; reserved; reserved; reserved; reserved; reserved; reserved; reserved; reserved; reserved;
  reserved; reserved; reserved; reserved; reserved; reserved; reserved; reserved; reserved; reserved;
  reserved; reserved].

Definition RTLB : translator := fun c => pick recomp_tlb (Z.land (t_src c) 0x3F) c.

Definition recomp_cop0 : list translator :=
  [RMFC0; reserved; reserved; reserved; RMTC0; reserved; reserved; reserved; reserved; reserved; reserved;
  reserved; reserved; reserved; reserved; reserved; RTLB; reserved; reserved; reserved; reserved; reserved;
  reserved; reserved; reserved; reserved; reserved; reserved; reserved; reserved; reserved; reserved].

Definition recomp_bc : list translator :=
  [RBC1F; RBC1T; RBC1FL; RBC1TL].

Definition recomp_s : list translator :=
  [RADD_S; RSUB_S; RMUL_S; RDIV_S; RSQRT_S; RABS_S; RMOV_S; RNEG_S; RROUND_L_S; RTRUNC_L_S; RCEIL_L_S;
  RFLOOR_L_S; RROUND_W_S; RTRUNC_W_S; RCEIL_W_S; RFLOOR_W_S; reserved; reserved; reserved; reserved;
  reserved; reserved; reserved; reserved; reserved; reserved; reserved; reserved; reserved; reserved;
  reserved; reserved; reserved; RCVT_D_S; reserved; reserved; RCVT_W_S; RCVT_L_S; reserved; reserved;
  reserved; reserved; reserved; reserved; reserved; reserved; reserved; reserved; RC_F_S; RC_UN_S; RC_EQ_S;
  RC_UEQ_S; RC_OLT_S; RC_ULT_S; RC_OLE_S; RC_ULE_S; RC_SF_S; RC_NGLE_S; RC_SEQ_S; RC_NGL_S; RC_LT_S;
  RC_NGE_S; RC_LE_S; RC_NGT_S].

Definition recomp_d : list translator :=
  [RADD_D; RSUB_D; RMUL_D; RDIV_D; RSQRT_D; RABS_D; RMOV_D; RNEG_D; RROUND_L_D; RTRUNC_L_D; RCEIL_L_D;
  RFLOOR_L_D; RROUND_W_D; RTRUNC_W_D; RCEIL_W_D; RFLOOR_W_D; reserved; reserved; reserved; reserved;
  reserved; reserved; reserved; reserved; reserved; reserved; reserved; reserved; reserved; reserved;
  reserved; reserved; RCVT_S_D; reserved; reserved; reserved; RCVT_W_D; RCVT_L_D; reserved; reserved;
  reserved; reserved; reserved; reserved; reserved; reserved; reserved; reserved; RC_F_D; RC_UN_D; RC_EQ_D;
  RC_UEQ_D; RC_OLT_D; RC_ULT_D; RC_OLE_D; RC_ULE_D; RC_SF_D; RC_NGLE_D; RC_SEQ_D; RC_NGL_D; RC_LT_D;
  RC_NGE_D; RC_LE_D; RC_NGT_D].

Definition recomp_w : list translator :=
  [reserved; reserved; reserved; reserved; reserved; reserved; reserved; reserved; reserved; reserved;
  reserved; reserved; reserved; reserved; reserved; reserved; reserved; reserved; reserved; reserved;
  reserved; reserved; reserved; reserved; reserved; reserved; reserved; reserved; reserved; reserved;
  reserved; reserved; RCVT_S_W; RCVT_D_W; reserved; reserved; reserved; reserved; reserved; reserved;
  reserved; reserved; reserved; reserved; reserved; reserved; reserved; reserved; reserved; reserved;
  reserved; reserved; reserved; reserved; reserved; reserved; reserved; reserved; reserved; reserved;
  reserved; reserved; reserved; reserved].

Definition recomp_l : list translator :=
  [reserved; reserved; reserved; reserved; reserved; reserved; reserved; reserved; reserved; reserved;
  reserved; reserved; reserved; reserved; reserved; reserved; reserved; reserved; reserved; reserved;
  reserved; reserved; reserved; reserved; reserved; reserved; reserved; reserved; reserved; reserved;
  reserved; reserved; RCVT_S_L; RCVT_D_L; reserved; reserved; reserved; reserved; reserved; reserved;
  reserved; reserved; reserved; reserved; reserved; reserved; reserved; reserved; reserved; reserved;
  reserved; reserved; reserved; reserved; reserved; reserved; reserved; reserved; reserved; reserved;
  reserved; reserved; reserved; reserved].

Definition RBC : translator := fun c => pick recomp_bc (Z.land (Z.shiftr (t_src c) 16) 3) c.
Definition RS : translator := fun c => pick recomp_s (Z.land (t_src c) 0x3F) c.
Definition RD : translator := fun c => pick recomp_d (Z.land (t_src c) 0x3F) c.
Definition RW : translator := fun c => pick recomp_w (Z.land (t_src c) 0x3F) c.
Definition RL : translator := fun c => pick recomp_l (Z.land (t_src c) 0x3F) c.

Definition recomp_cop1 : list translator :=
  [RMFC1; RDMFC1; RCFC1; reserved; RMTC1; RDMTC1; RCTC1; reserved; RBC; reserved; reserved; reserved;
  reserved; reserved; reserved; reserved; RS; RD; reserved; reserved; RW; RL; reserved; reserved; reserved;
  reserved; reserved; reserved; reserved; reserved; reserved; reserved].

Definition RREGIMM : translator := fun c => pick recomp_regimm (Z.land (Z.shiftr (t_src c) 16) 0x1F) c.
Definition RCOP0 : translator := fun c => pick recomp_cop0 (Z.land (Z.shiftr (t_src c) 21) 0x1F) c.
Definition RCOP1 : translator := fun c => pick recomp_cop1 (Z.land (Z.shiftr (t_src c) 21) 0x1F) c.

(** The entries of [recomp_special] and [recomp_ops] that [Alu] leaves out. *)
Definition control_special_op (k : Z) : translator :=
  match k with 8 => RJR | 9 => RJALR | 12 => RSYSCALL | 15 => RSYNC | _ => reserved end.

Definition RSPECIAL_control : translator := fun c => control_special_op (Z.land (t_src c) 0x3F) c.

Definition control_op (k : Z) : translator :=
  match k with
  | 0 => RSPECIAL_control | 1 => RREGIMM | 2 => RJ | 3 => RJAL | 4 => RBEQ | 5 => RBNE | 6 => RBLEZ | 7 => RBGTZ
  | 16 => RCOP0 | 17 => RCOP1 | 20 => RBEQL | 21 => RBNEL | 22 => RBLEZL | 23 => RBGTZL
  | 26 => RLDL | 27 => RLDR | 32 => RLB | 33 => RLH | 34 => RLWL | 35 => RLW | 36 => RLBU | 37 => RLHU | 38 => RLWR
  | 39 => RLWU | 40 => RSB | 41 => RSH | 42 => RSWL | 43 => RSW | 44 => RSDL | 45 => RSDR | 46 => RSWR | 47 => RCACHE
  | 48 => RLL | 49 => RLWC1 | 53 => RLDC1 | 55 => RLD | 56 => RSC | 57 => RSWC1 | 61 => RSDC1 | 63 => RSD
  | _ => reserved
  end.

(** [recomp_ops[((src >> 26) & 0x3F)]();] *)
Definition recompile_op : translator := fun c e =>
  let opcode := Z.land (Z.shiftr (t_src c) 26) 0x3F in
  match compile (t_src c) with
  | Some (fn, f) => Instr (Op.INTEGER fn) (if opcode =? 0 then FR f else FI f)
  | None => control_op opcode c e
  end.
