(* ===== verification/CodeCache.v ===== *)
(** * The code cache (r4300.cpp, recomp.cpp)

    The cached interpreter keeps translated code in blocks of one page each, 1024
    entries with room for 257 more, because a translation may run past the end of
    its page.  [invalid_code] says of each page whether its block must be thrown
    away before it is entered again.  A page can be seen through the cached and the
    uncached segment and through the TLB, each with a block of its own.

    A pointer to an entry is the page of its block and the address of the
    instruction: every entry's [addr] is the start of the block plus four times its
    index, and [start] and [end] follow from the page. *)

From S2P Require Import Prelude Machine Alu Translate.

Open Scope prog_scope.
#[local] Open Scope Z_scope.

(** [hash] is set by the TLB instructions and by translating; [malloc] leaves it
    undefined. *)
Record precomp_block : Type := Block { entries : option (gmap Z precomp_instr); hash : option Z }.
#[export] Instance precomp_block_eta : Eta precomp_block := fun b => Block (entries b) (hash b).

(** [PC_block] is the page of the block [PC] points into. *)
Record code_cache : Type := Cache {
  blocks : gmap Z precomp_block;
  invalid_code : gmap Z bool;
  actual : Z;
  PC_block : Z;
  jump_target : Z
}.
#[export] Instance code_cache_eta : Eta code_cache := fun c =>
  Cache (blocks c) (invalid_code c) (actual c) (PC_block c) (jump_target c).

Definition page (a : Z) : Z := Z.shiftr a 12.
Definition page_start (p : Z) : Z := p * 0x1000.
Definition in_page (a : Z) : Z := Z.land a 0xFFF.

(** The entries of a block: a page of them, and the size of the array. *)
Definition LENGTH : Z := 1024.
Definition ARRAY : Z := (LENGTH + 1) + LENGTH / 4.

Definition is_invalid (p : Z) (c : code_cache) : bool := default true (invalid_code c !! p).
Definition set_invalid (p : Z) (b : bool) : M code_cache unit :=
  modify (fun c => c <| invalid_code := <[p := b]> (invalid_code c) |>).

Definition direct (a : Z) : bool := (0x80000000 <=? a) && (a <? 0xc0000000).

(** ** Empty blocks *)

(** The loop over a new array, and over one that is used again, whose entries past
    the page stay. *)
Fixpoint fresh_entries (n : nat) : gmap Z precomp_instr :=
  match n with
  | O => ∅
  | S n => <[Z.of_nat n := Instr Op.NOTCOMPILED Unset]> (fresh_entries n)
  end.
Definition cleared (es : gmap Z precomp_instr) : gmap Z precomp_instr :=
  map_imap (fun i e => Some (if i <? LENGTH then e <| ops := Op.NOTCOMPILED |> else e)) es.

Definition new_block : precomp_block := Block None None.
(** [if (!blocks[p]) blocks[p] = malloc(...)] with its fields set. *)
Definition ensure_block (p : Z) : M code_cache unit :=
  modify (fun c => match blocks c !! p with
                   | Some _ => c
                   | None => c <| blocks := <[p := new_block]> (blocks c) |>
                   end).

Definition empty_block (p : Z) : M code_cache unit :=
  c <-- get ;;;
  match blocks c !! p with
  | None => undef NullDeref
  | Some b =>
      modify (fun c => c <| blocks := <[p := b <| entries :=
        Some (match entries b with None => fresh_entries (Z.to_nat LENGTH) | Some es => cleared es end) |>]> (blocks c) |>)
  end.

(** Is the page outside the direct-mapped segments? *)
Definition mapped_block (p : Z) : bool :=
  (block_end (page_start p) <? 0x80000000) || (0xc0000000 <=? page_start p).

(** [init_block]; [v2p] is [virtual_to_physical_address], which finds the page of
    the block because [jump_to] has just translated an address of it.  A block
    brings the block of its physical page with it, and that one its mirror in the
    other segment when that is invalid. *)
Fixpoint init_block (fuel : nat) (v2p : Z -> option Z) (p : Z) : M code_cache unit :=
  match fuel with
  | O => undef Diverges
  | S fuel =>
      let with_block q := ensure_block q ;;; init_block fuel v2p q in
      empty_block p ;;;
      set_invalid p false ;;;
      if mapped_block p then
        match v2p (page_start p) with
        | None => undef NullDeref
        | Some paddr =>
            set_invalid (page paddr) false ;;; with_block (page paddr) ;;;
            let paddr := u32 (paddr + 0x1000 - 4) in
            set_invalid (page paddr) false ;;; with_block (page paddr)
        end
      else
        c <-- get ;;;
        when ((0x80000000 <=? page_start p) && (block_end (page_start p) <? 0xa0000000) &&
              is_invalid (page (page_start p + 0x20000000)) c) (with_block (page (page_start p + 0x20000000))) ;;;
        c <-- get ;;;
        when ((0xa0000000 <=? page_start p) && (block_end (page_start p) <? 0xc0000000) &&
              is_invalid (page (page_start p - 0x20000000)) c) (with_block (page (page_start p - 0x20000000)))
  end.

(** The block itself, its physical page, and that page's mirror. *)
Definition block_depth : nat := 3.

(** ** Entering a block *)

Definition invalid_together (p q : Z) : M code_cache unit :=
  c <-- get ;;; when (is_invalid p c) (set_invalid q true) ;;;
  c <-- get ;;; when (is_invalid q c) (set_invalid p true).

(** [update_invalid_addr] in the direct-mapped segments. *)
Definition update_invalid_direct (a : Z) : M code_cache unit :=
  if (0x80000000 <=? a) && (a <? 0xa0000000) then invalid_together (page a) (page (a + 0x20000000))
  else when ((0xa0000000 <=? a) && (a <? 0xc0000000)) (invalid_together (page a) (page (a - 0x20000000))).

Definition update_invalid_addr (a paddr : Z) : M code_cache unit :=
  if direct a then update_invalid_direct a
  else
    let beg_paddr := u32 (paddr - in_page a) in
    let last_page := page (u32 (beg_paddr + 0xFFC)) in
    update_invalid_direct paddr ;;;
    c <-- get ;;; when (is_invalid (page beg_paddr) c) (set_invalid (page a) true) ;;;
    c <-- get ;;; when (is_invalid last_page c) (set_invalid (page a) true) ;;;
    c <-- get ;;; when (is_invalid (page a) c) (set_invalid (page beg_paddr) true) ;;;
    c <-- get ;;; when (is_invalid (page a) c) (set_invalid last_page true).

(** The rest of [jump_to_func] once the address has been translated to [paddr]. *)
Definition enter_block (v2p : Z -> option Z) (a paddr : Z) : M code_cache unit :=
  update_invalid_addr a paddr ;;;
  c <-- get ;;;
  (if is_invalid (page a) c then ensure_block (page a) ;;; init_block block_depth v2p (page a) else ret tt) ;;;
  c <-- get ;;;
  match blocks c !! page a with
  | Some b =>
      match entries b with
      | Some _ => modify (fun c => c <| actual := page a |> <| PC_block := page a |>)
      | None => undef NullDeref
      end
  | None => undef NullDeref
  end.

(** ** Writes to code *)

Definition is_not_compiled (o : Op.t) : bool := match o with Op.NOTCOMPILED => true | _ => false end.

Definition entry (p i : Z) (c : code_cache) : outcome precomp_instr :=
  match blocks c !! p with
  | None => Undef NullDeref
  | Some b =>
      match entries b with
      | None => Undef NullDeref
      | Some es => match es !! i with Some e => Ret e | None => Undef OutOfBounds end
      end
  end.

(** Run a read of the cache. *)
Definition lift {S A} (o : outcome A) : M S A := fun s => match o with Ret a => Ret (a, s) | Undef f => Undef f end.

(** [check_memory] *)
Definition check_memory (address : Z) : M code_cache unit :=
  c <-- get ;;;
  when (negb (is_invalid (page address) c))
    (e <-- lift (entry (page address) (in_page address / 4) c) ;;;
     when (negb (is_not_compiled (ops e))) (set_invalid (page address) true)).

(** The same for each byte a transfer has written, in both segments. *)
Fixpoint code_written (n : nat) (a : Z) : M code_cache unit :=
  match n with
  | O => ret tt
  | S n =>
      check_memory (u32 (a + 0x80000000)) ;;;
      check_memory (u32 (a + 0xa0000000)) ;;;
      code_written n (a + 1)
  end.

(** ** Translating a block *)

(** Outside the array is undefined. *)
Definition set_entry (p i : Z) (g : precomp_instr -> precomp_instr) : M code_cache unit :=
  c <-- get ;;;
  match blocks c !! p with
  | None => undef NullDeref
  | Some b =>
      match entries b with
      | None => undef NullDeref
      | Some es =>
          if (0 <=? i) && (i <? ARRAY) then
            modify (fun c => c <| blocks := <[p := b <| entries :=
              Some (<[i := g (default (Instr Op.NOTCOMPILED Unset) (es !! i))]> es) |>]> (blocks c) |>)
          else undef OutOfBounds
      end
  end.

(** The entry of the physical page, so that writes to it are noticed. *)
Definition mark_physical (paddr : Z) : M code_cache unit :=
  c <-- get ;;;
  e <-- lift (entry (page paddr) (in_page paddr / 4) c) ;;;
  when (is_not_compiled (ops e))
    (set_entry (page paddr) (in_page paddr / 4) (fun e => e <| ops := Op.NOTCOMPILED2 |>)).

Definition ends_block (o : Op.t) : bool :=
  match o with Op.J Op.IN | Op.J Op.OUT | Op.JR => true | _ => false end.
Definition is_ERET (o : Op.t) : bool := match o with Op.ERET => true | _ => false end.

(** [finished] after entry [i]. *)
Definition finished_after (p i : Z) (o : Op.t) (finished : Z) : Z :=
  let finished := if LENGTH - 2 + LENGTH / 4 <=? i then 2 else finished in
  let finished := if (LENGTH - 1 <=? i) && ((page_start p =? 0xa4000000) || mapped_block p) then 2 else finished in
  let finished := if is_ERET o || (finished =? 1) then 2 else finished in
  if ends_block o && negb ((LENGTH - 1 <=? i) && mapped_block p) then 1 else finished.

(** What entry [i] of page [p] becomes; [source] reads the page's words. *)
Definition translate_at (p i src next : Z) : precomp_instr -> precomp_instr :=
  recompile_op (Site src (u32 (page_start p + i * 4)) (page_start p) (next =? 0)).

Fixpoint recompile_loop (fuel : nat) (v2p : Z -> option Z) (source : Z -> outcome Z) (p i finished : Z) : M code_cache Z :=
  match fuel with
  | O => undef Diverges
  | S fuel =>
      if finished =? 2 then ret i
      else
        (if (page_start p <? 0x80000000) || (0xc0000000 <=? page_start p) then
           match v2p (u32 (page_start p + i * 4)) with
           | None => undef NullDeref
           | Some address2 => mark_physical address2
           end
         else ret tt) ;;;
        src <-- lift (source i) ;;;
        next <-- lift (source (i + 1)) ;;;
        set_entry p i (translate_at p i src next) ;;;
        c <-- get ;;;
        e <-- lift (entry p i c) ;;;
        recompile_loop fuel v2p source p (i + 1) (finished_after p i (ops e) finished)
  end.

(** Every round but the last writes an entry. *)
Definition loop_fuel : nat := Z.to_nat (ARRAY + 2).

Definition fin_entry (p i : Z) : M code_cache unit :=
  set_entry p i (RFIN_BLOCK (Site 0 (u32 (page_start p + i * 4)) (page_start p) false)).

(** The trace log, which replaces the functions of all entries, is off. *)
Definition recompile_block (v2p : Z -> option Z) (source : Z -> outcome Z) (p func : Z) : M code_cache unit :=
  modify (fun c => c <| blocks := alter (fun b => b <| hash := Some 0 |>) p (blocks c) |>) ;;;
  i <-- recompile_loop loop_fuel v2p source p (in_page func / 4) 0 ;;;
  when (LENGTH <=? i)
    (fin_entry p i ;;;
     when (i + 1 <? LENGTH - 1 + LENGTH / 4) (fin_entry p (i + 1))).

(** ** The start *)

Definition BOOT_PAGE : Z := 0xa4000.

(** [init_blocks]: all pages invalid and no blocks but that of the boot code. *)
Definition init_blocks (v2p : Z -> option Z) : M code_cache unit :=
  modify (fun c => c <| invalid_code := ∅ |> <| blocks := ∅ |>) ;;;
  ensure_block BOOT_PAGE ;;;
  modify (fun c => c <| actual := BOOT_PAGE |>) ;;;
  init_block block_depth v2p BOOT_PAGE ;;;
  modify (fun c => c <| PC_block := BOOT_PAGE |>).

(** The end of [core_start] frees everything. *)
Definition free_blocks : M code_cache unit := modify (fun c => c <| blocks := ∅ |>).
