(* ===== verification/Cached.v ===== *)
(** * The cached interpreter (r4300.cpp, special.cpp, regimm.cpp, bc.cpp, cop0.cpp, cop1.cpp, tlb.cpp)

    The instructions that are not integer arithmetic, as they run on the entries of
    a code block, and the loop.  [PC->addr] is [PC_addr]; the block [PC] points into
    and the blocks themselves are the [code_cache].  Code shared with the pure
    interpreter works on the processor ([core]); what it asks of the code cache is
    read off [host_calls] afterwards, which nothing in between depends on.

    A branch calls the function of the next entry, so execution is recursive:
    [exec n] allows [n] nested calls. *)

From S2P Require Import Prelude Queue Machine Exception Alu Tlb DeviceState Core Bus LoadStore Cop Translate CodeCache.

Open Scope prog_scope.
#[local] Open Scope Z_scope.

(** The arithmetic of coprocessor 1, and the hash of a page of RDRAM (xxHash). *)
Class CachedFpu (Q : Type) := { float_op : Op.float -> nat -> nat -> nat -> M (core Q) unit }.
Class PageHash := { xxh64 : list Z -> Z }.

Record cached (Q : Type) : Type := Cached { k_core : core Q; k_code : code_cache }.
Arguments Cached {Q}.
Arguments k_core {Q} _.
Arguments k_code {Q} _.
#[export] Instance cached_eta Q : Eta (cached Q) := fun s => Cached (k_core s) (k_code s).

Section Cached.
Context {Q : Type} `{EventQueue Q} `{Devices Q} `{CachedFpu Q} `{PageHash}.
#[local] Abbreviation st := (cached Q).

(** ** The parts of the state *)

Definition mach (s : st) : machine Q := c_mach (k_core s).
Definition pc_now (s : st) : Z := PC_addr (mach s).

Definition on_code {A} (m : M code_cache A) : M st A := fun s =>
  match m (k_code s) with
  | Ret (a, c) => Ret (a, s <| k_code := c |>)
  | Undef f => Undef f
  end.

(** [virtual_to_physical_address] for reading, where it finds the address. *)
Definition translation (m : machine Q) (a : Z) : option Z :=
  match (if (0x7f000000 <=? a) && (a <? 0x80000000) then goldeneye_base (rom_CRC1 m) else None) with
  | Some base => Some (u32 (base + Z.land a 0xFFFFFF))
  | None => let e := lut_lookup (tlb_LUT_r m) a in if c_true e then Some (page_address e a) else None
  end.

(** What the rest of the emulator has asked of the code cache. *)
Definition code_call (m : machine Q) (h : host_call) : M code_cache unit :=
  match h with
  | HJumpTo a paddr => enter_block (translation m) a paddr
  | HCodeWritten a n => code_written (Z.to_nat n) a
  | HInvalidateCode => modify (fun c => c <| invalid_code := ∅ |>)
  | _ => ret tt
  end.
Fixpoint code_calls (m : machine Q) (hs : list host_call) : M code_cache unit :=
  match hs with
  | [] => ret tt
  | h :: hs => code_call m h ;;; code_calls m hs
  end.

Definition on_core {A} (c : M (core Q) A) : M st A := fun s =>
  match c (k_core s) with
  | Ret (a, k) =>
      match code_calls (c_mach k) (drop (length (host_calls (mach s))) (host_calls (c_mach k))) (k_code s) with
      | Ret (_, code) => Ret (a, Cached k code)
      | Undef f => Undef f
      end
  | Undef f => Undef f
  end.
Definition ctl {A} (c : M (machine Q) A) : M st A := on_core (on_mach c).

(** Changes that ask nothing of the code cache. *)
Definition set_core (g : core Q -> core Q) : M st unit := modify (fun s => s <| k_core := g (k_core s) |>).
Definition set_mach (g : machine Q -> machine Q) : M st unit := set_core (fun k => k <| c_mach := g (c_mach k) |>).

(** Integer instructions, [PC++] being their [next]. *)
Definition regs (s : st) : cpu :=
  Cpu (c_reg (k_core s)) (c_hi (k_core s)) (c_lo (k_core s)) (PC_addr (mach s)) (stop (mach s)).
Definition set_regs (c : cpu) (s : st) : st :=
  s <| k_core := (k_core s) <| c_reg := reg c |> <| c_hi := hi c |> <| c_lo := lo c |>
                   <| c_mach := (mach s) <| PC_addr := pc c |> <| stop := c_stop c |> |> |>.
Definition on_regs {A} (m : M cpu A) : M st A := fun s =>
  match m (regs s) with
  | Ret (a, c) => Ret (a, set_regs c s)
  | Undef f => Undef f
  end.

(** ** The program counter *)

Definition pc_add (k : Z) : M st unit := set_mach (fun m => m <| PC_addr := u32 (PC_addr m + 4 * k) |>).

(** [(PC + k)->], the entry as a whole. *)
Definition at_pc (k : Z) : M st precomp_instr :=
  s <-- get ;;;
  let c := k_code s in
  lift (entry (PC_block c) ((pc_now s - page_start (PC_block c)) / 4 + k) c).

(** The members of the union. *)
Definition as_i (e : precomp_instr) : M st fields := match opnds e with FI f => ret f | _ => undef DanglingPointer end.
Definition as_r (e : precomp_instr) : M st fields := match opnds e with FR f => ret f | _ => undef DanglingPointer end.
Definition as_j (e : precomp_instr) : M st Z := match opnds e with FJ x => ret x | _ => undef DanglingPointer end.
Definition as_lf (e : precomp_instr) : M st fields := match opnds e with FLF f => ret f | _ => undef DanglingPointer end.
(** [rt] is at the same place in [f.i] and [f.r]. *)
Definition as_rt (e : precomp_instr) : M st nat :=
  match opnds e with FI f | FR f => ret (rt f) | _ => undef DanglingPointer end.

Definition i_operands : M st fields := e <-- at_pc 0 ;;; as_i e.
Definition r_operands : M st fields := e <-- at_pc 0 ;;; as_r e.
Definition lf_operands : M st fields := e <-- at_pc 0 ;;; as_lf e.

Definition no_skip (s : st) : bool := skip_jump (mach s) =? 0.
Definition jump (a : Z) : M st unit := ctl (jump_to (u32 a)).

Definition finish : M st unit :=
  ctl (modify (fun m => m <| last_addr := PC_addr m |>) ;;; interrupt_if_due).

Definition usable (k : M st unit) : M st unit :=
  bad <-- ctl check_cop1_unusable ;;; if bad : bool then ret tt else k.

(** ** Jumps and branches *)

Section Branches.
(** [PC->ops()] *)
Variable slot : M st unit.

Definition delay : M st unit :=
  pc_add 1 ;;;
  set_mach (fun m => m <| delay_slot := 1 |>) ;;;
  slot ;;;
  ctl update_count ;;;
  set_mach (fun m => m <| delay_slot := 0 |>).

(** [PC += (PC - 2)->f.i.immediate - 1;] *)
Definition jump_in : M st unit := e <-- at_pc (-2) ;;; f <-- as_i e ;;; pc_add (immediate f - 1).
(** [jump_to(PC->addr + ((jump_target - 1) << 2));] *)
Definition jump_out : M st unit :=
  s <-- get ;;; jump (pc_now s + Z.shiftl (jump_target (k_code s) - 1) 2).
Definition set_jump_target (v : Z) : M st unit := on_code (modify (fun c => c <| jump_target := u32 v |>)).

(** Skip an idle loop, or go on with [k]. *)
Definition idle (taken : bool) (k : M st unit) : M st unit :=
  if taken then
    ctl update_count ;;;
    s <-- get ;;;
    let skip := s32 (next_interrupt_of (mach s) - Count (mach s)) in
    if 3 <? skip then set_mach (fun m => set_Count (u32 (Count m + Z.land skip 0xFFFFFFFC)) m) else k
  else k.

Definition save_rs (f : fields) : M st unit :=
  s <-- get ;;; set_core (fun k => k <| local_rs := irs f (regs s) |>).
Definition save_rt (f : fields) : M st unit :=
  s <-- get ;;; set_core (fun k => k <| local_rt := rrt f (regs s) |>).

Definition saved_ltz (s : st) : bool := local_rs (k_core s) <? 0.
Definition saved_gez (s : st) : bool := 0 <=? local_rs (k_core s).
Definition saved_lez (s : st) : bool := local_rs (k_core s) <=? 0.
Definition saved_gtz (s : st) : bool := 0 <? local_rs (k_core s).
Definition saved_eq (s : st) : bool := local_rs (k_core s) =? local_rt (k_core s).
Definition saved_ne (s : st) : bool := negb (saved_eq s).

(** A branch that tests what it has saved, within its block and out of it. *)
Definition branch_in (taken : st -> bool) : M st unit :=
  delay ;;; s <-- get ;;; when (taken s && no_skip s) jump_in ;;; finish.
Definition branch_out (f : fields) (taken : st -> bool) : M st unit :=
  set_jump_target (immediate f) ;;;
  delay ;;; s <-- get ;;; when (no_skip s && taken s) jump_out ;;; finish.

(** A likely branch, which skips its delay slot when not [taken]. *)
Definition likely_in (taken counts : bool) : M st unit :=
  (if taken then delay ;;; s <-- get ;;; when (no_skip s) jump_in
   else pc_add 2 ;;; when counts (ctl update_count)) ;;;
  finish.
Definition likely_out (f : fields) (taken counts : bool) : M st unit :=
  (if taken then set_jump_target (immediate f) ;;; delay ;;; s <-- get ;;; when (no_skip s) jump_out
   else pc_add 2 ;;; when counts (ctl update_count)) ;;;
  finish.

(** [reg[31] = PC->addr + 8;] and nothing more when the branch tests register 31. *)
Definition link (f : fields) (k : M st unit) : M st unit :=
  s <-- get ;;;
  on_regs (set_reg 31 (u32 (pc_now s + 8))) ;;;
  if (rs f =? 31)%nat then finish else k.

(** *** r4300.cpp *)

Definition BEQ : M st unit :=
  f <-- i_operands ;;; save_rs f ;;; save_rt f ;;;
  delay ;;; s <-- get ;;; when (saved_eq s && no_skip s && negb (g_vr_beq_ignore_jmp (k_core s))) jump_in ;;; finish.
Definition BEQ_OUT : M st unit := f <-- i_operands ;;; save_rs f ;;; save_rt f ;;; branch_out f saved_eq.
Definition BNE : M st unit := f <-- i_operands ;;; save_rs f ;;; save_rt f ;;; branch_in saved_ne.
Definition BNE_OUT : M st unit := f <-- i_operands ;;; save_rs f ;;; save_rt f ;;; branch_out f saved_ne.
Definition BLEZ : M st unit := f <-- i_operands ;;; save_rs f ;;; branch_in saved_lez.
Definition BLEZ_OUT : M st unit := f <-- i_operands ;;; save_rs f ;;; branch_out f saved_lez.
Definition BGTZ : M st unit := f <-- i_operands ;;; save_rs f ;;; branch_in saved_gtz.
Definition BGTZ_OUT : M st unit := f <-- i_operands ;;; save_rs f ;;; branch_out f saved_gtz.

Definition now_eq (f : fields) (s : st) : bool := irs f (regs s) =? rrt f (regs s).
Definition now_ne (f : fields) (s : st) : bool := negb (now_eq f s).
Definition now_le (f : fields) (s : st) : bool := irs f (regs s) <=? rrt f (regs s).
Definition now_gt (f : fields) (s : st) : bool := rrt f (regs s) <? irs f (regs s).
Definition now_lez (f : fields) (s : st) : bool := irs f (regs s) <=? 0.
Definition now_gtz (f : fields) (s : st) : bool := 0 <? irs f (regs s).
Definition now_ltz (f : fields) (s : st) : bool := irs f (regs s) <? 0.
Definition now_gez (f : fields) (s : st) : bool := 0 <=? irs f (regs s).

(** An idle variant with the test it makes. *)
Definition idle_if (test : fields -> st -> bool) (k : M st unit) : M st unit :=
  f <-- i_operands ;;; s <-- get ;;; idle (test f s) k.

Definition BEQ_IDLE : M st unit := idle_if now_eq BEQ.
Definition BNE_IDLE : M st unit := idle_if now_ne BNE.
(** These compare the two registers instead of the first with 0. *)
Definition BLEZ_IDLE : M st unit := idle_if now_le BLEZ.
Definition BGTZ_IDLE : M st unit := idle_if now_gt BGTZ.

Definition now_in (test : fields -> st -> bool) (counts : bool) : M st unit :=
  f <-- i_operands ;;; s <-- get ;;; likely_in (test f s) counts.
Definition now_out (test : fields -> st -> bool) (counts : bool) : M st unit :=
  f <-- i_operands ;;; s <-- get ;;; likely_out f (test f s) counts.

Definition BEQL : M st unit := now_in now_eq true.
Definition BEQL_OUT : M st unit := now_out now_eq true.
Definition BEQL_IDLE : M st unit := idle_if now_eq BEQL.
Definition BNEL : M st unit := now_in now_ne true.
Definition BNEL_OUT : M st unit := now_out now_ne true.
Definition BNEL_IDLE : M st unit := idle_if now_ne BNEL.
Definition BLEZL : M st unit := now_in now_lez true.
Definition BLEZL_OUT : M st unit := now_out now_lez true.
Definition BLEZL_IDLE : M st unit := idle_if now_le BLEZL.
Definition BGTZL : M st unit := now_in now_gtz true.
Definition BGTZL_OUT : M st unit := now_out now_gtz true.
Definition BGTZL_IDLE : M st unit := idle_if now_gt BGTZL.

(** [PC = actual->block + ((target - actual->start) >> 2)], the target taken from the
    jump two entries back. *)
Definition jump_actual : M st unit :=
  e <-- at_pc (-2) ;;; inst_index <-- as_j e ;;;
  s <-- get ;;;
  let target := jump_target_of (u32 (pc_now s - 4)) inst_index in
  on_code (modify (fun c => c <| PC_block := actual c |>)) ;;;
  set_mach (fun m => m <| PC_addr := u32 target |>).

Definition link_31 : M st unit :=
  s <-- get ;;; on_regs (set_reg 31 (pc_now s) ;;; sign_extended 31).

Definition J : M st unit := delay ;;; s <-- get ;;; when (no_skip s) jump_actual ;;; finish.
Definition JAL : M st unit := delay ;;; s <-- get ;;; when (no_skip s) (link_31 ;;; jump_actual) ;;; finish.

Definition save_target : M st unit :=
  e <-- at_pc 0 ;;; inst_index <-- as_j e ;;; s <-- get ;;;
  set_jump_target (jump_target_of (pc_now s) inst_index).
Definition to_target : M st unit := s <-- get ;;; jump (jump_target (k_code s)).

Definition J_OUT : M st unit := save_target ;;; delay ;;; s <-- get ;;; when (no_skip s) to_target ;;; finish.
Definition JAL_OUT : M st unit :=
  save_target ;;; delay ;;; s <-- get ;;; when (no_skip s) (link_31 ;;; to_target) ;;; finish.
Definition J_IDLE : M st unit := idle true J.
Definition JAL_IDLE : M st unit := idle true JAL.

(** *** special.cpp *)

Definition JR : M st unit :=
  f <-- i_operands ;;; s <-- get ;;;
  set_core (fun k => k <| local_rs32 := irs32 f (regs s) |>) ;;;
  delay ;;; s <-- get ;;; jump (local_rs32 (k_core s)) ;;; finish.

Definition JALR : M st unit :=
  f <-- r_operands ;;; s <-- get ;;;
  set_core (fun k => k <| local_rs32 := rrs32 f (regs s) |>) ;;;
  delay ;;; s <-- get ;;;
  when (no_skip s)
    (on_regs (set_reg (rd f) (pc_now s) ;;; sign_extended (rd f)) ;;;
     s <-- get ;;; jump (local_rs32 (k_core s))) ;;;
  finish.

(** *** regimm.cpp *)

Definition BLTZ : M st unit := f <-- i_operands ;;; save_rs f ;;; branch_in saved_ltz.
Definition BLTZ_OUT : M st unit := f <-- i_operands ;;; save_rs f ;;; branch_out f saved_ltz.
Definition BLTZ_IDLE : M st unit := idle_if now_ltz BLTZ.
Definition BGEZ : M st unit := f <-- i_operands ;;; save_rs f ;;; branch_in saved_gez.
Definition BGEZ_OUT : M st unit := f <-- i_operands ;;; save_rs f ;;; branch_out f saved_gez.
Definition BGEZ_IDLE : M st unit := idle_if now_gez BGEZ.
Definition BLTZL : M st unit := now_in now_ltz false.
Definition BLTZL_OUT : M st unit := now_out now_ltz false.
Definition BLTZL_IDLE : M st unit := idle_if now_ltz BLTZL.
Definition BGEZL : M st unit := now_in now_gez false.
Definition BGEZL_OUT : M st unit := now_out now_gez false.
Definition BGEZL_IDLE : M st unit := idle_if now_gez BGEZL.

Definition BLTZAL : M st unit := f <-- i_operands ;;; save_rs f ;;; link f (branch_in saved_ltz).
Definition BLTZAL_OUT : M st unit := f <-- i_operands ;;; save_rs f ;;; link f (branch_out f saved_ltz).
Definition BLTZAL_IDLE : M st unit := idle_if now_ltz BLTZAL.
Definition BGEZAL : M st unit := f <-- i_operands ;;; save_rs f ;;; link f (branch_in saved_gez).
Definition BGEZAL_OUT : M st unit := f <-- i_operands ;;; save_rs f ;;; link f (branch_out f saved_gez).
Definition BGEZAL_IDLE : M st unit := idle_if now_gez BGEZAL.

(** The likely ones that link test what they have saved. *)
Definition saved_in (test : st -> bool) (f : fields) : M st unit :=
  save_rs f ;;; link f (s <-- get ;;; likely_in (test s) false).
Definition saved_out (test : st -> bool) (f : fields) : M st unit :=
  save_rs f ;;; link f (s <-- get ;;; likely_out f (test s) false).

Definition BLTZALL : M st unit := f <-- i_operands ;;; saved_in saved_ltz f.
Definition BLTZALL_OUT : M st unit := f <-- i_operands ;;; saved_out saved_ltz f.
Definition BLTZALL_IDLE : M st unit := idle_if now_ltz BLTZALL.
Definition BGEZALL : M st unit := f <-- i_operands ;;; saved_in saved_gez f.
Definition BGEZALL_OUT : M st unit := f <-- i_operands ;;; saved_out saved_gez f.
Definition BGEZALL_IDLE : M st unit := idle_if now_gez BGEZALL.

(** *** bc.cpp *)

Definition condition (s : st) : bool := has_bits (FCR31 (c_cop1 (k_core s))) 0x800000.
Definition no_condition (s : st) : bool := negb (condition s).

Definition bc_in (test : st -> bool) : M st unit := usable (branch_in test).
Definition bc_out (test : st -> bool) : M st unit := usable (f <-- i_operands ;;; branch_out f test).
Definition bcl_in (test : st -> bool) : M st unit := usable (s <-- get ;;; likely_in (test s) false).
Definition bcl_out (test : st -> bool) : M st unit :=
  usable (f <-- i_operands ;;; s <-- get ;;; likely_out f (test s) false).
(** The idle variants test the condition before they look whether the unit is usable. *)
Definition bc_idle (test : st -> bool) (k : M st unit) : M st unit := s <-- get ;;; idle (test s) k.

Definition BC1F : M st unit := bc_in no_condition.
Definition BC1F_OUT : M st unit := bc_out no_condition.
Definition BC1F_IDLE : M st unit := bc_idle no_condition BC1F.
Definition BC1T : M st unit := bc_in condition.
Definition BC1T_OUT : M st unit := bc_out condition.
Definition BC1T_IDLE : M st unit := bc_idle condition BC1T.
Definition BC1FL : M st unit := bcl_in no_condition.
Definition BC1FL_OUT : M st unit := bcl_out no_condition.
Definition BC1FL_IDLE : M st unit := bc_idle no_condition BC1FL.
Definition BC1TL : M st unit := bcl_in condition.
Definition BC1TL_OUT : M st unit := bcl_out condition.
Definition BC1TL_IDLE : M st unit := bc_idle condition BC1TL.

Definition run_branch (b : Op.branch) (v : Op.variant) : M st unit :=
  match b, v with
  | Op.BLTZ, Op.IN => BLTZ | Op.BLTZ, Op.OUT => BLTZ_OUT | Op.BLTZ, Op.IDLE => BLTZ_IDLE
  | Op.BGEZ, Op.IN => BGEZ | Op.BGEZ, Op.OUT => BGEZ_OUT | Op.BGEZ, Op.IDLE => BGEZ_IDLE
  | Op.BLTZL, Op.IN => BLTZL | Op.BLTZL, Op.OUT => BLTZL_OUT | Op.BLTZL, Op.IDLE => BLTZL_IDLE
  | Op.BGEZL, Op.IN => BGEZL | Op.BGEZL, Op.OUT => BGEZL_OUT | Op.BGEZL, Op.IDLE => BGEZL_IDLE
  | Op.BLTZAL, Op.IN => BLTZAL | Op.BLTZAL, Op.OUT => BLTZAL_OUT | Op.BLTZAL, Op.IDLE => BLTZAL_IDLE
  | Op.BGEZAL, Op.IN => BGEZAL | Op.BGEZAL, Op.OUT => BGEZAL_OUT | Op.BGEZAL, Op.IDLE => BGEZAL_IDLE
  | Op.BLTZALL, Op.IN => BLTZALL | Op.BLTZALL, Op.OUT => BLTZALL_OUT | Op.BLTZALL, Op.IDLE => BLTZALL_IDLE
  | Op.BGEZALL, Op.IN => BGEZALL | Op.BGEZALL, Op.OUT => BGEZALL_OUT | Op.BGEZALL, Op.IDLE => BGEZALL_IDLE
  | Op.BEQ, Op.IN => BEQ | Op.BEQ, Op.OUT => BEQ_OUT | Op.BEQ, Op.IDLE => BEQ_IDLE
  | Op.BNE, Op.IN => BNE | Op.BNE, Op.OUT => BNE_OUT | Op.BNE, Op.IDLE => BNE_IDLE
  | Op.BLEZ, Op.IN => BLEZ | Op.BLEZ, Op.OUT => BLEZ_OUT | Op.BLEZ, Op.IDLE => BLEZ_IDLE
  | Op.BGTZ, Op.IN => BGTZ | Op.BGTZ, Op.OUT => BGTZ_OUT | Op.BGTZ, Op.IDLE => BGTZ_IDLE
  | Op.BEQL, Op.IN => BEQL | Op.BEQL, Op.OUT => BEQL_OUT | Op.BEQL, Op.IDLE => BEQL_IDLE
  | Op.BNEL, Op.IN => BNEL | Op.BNEL, Op.OUT => BNEL_OUT | Op.BNEL, Op.IDLE => BNEL_IDLE
  | Op.BLEZL, Op.IN => BLEZL | Op.BLEZL, Op.OUT => BLEZL_OUT | Op.BLEZL, Op.IDLE => BLEZL_IDLE
  | Op.BGTZL, Op.IN => BGTZL | Op.BGTZL, Op.OUT => BGTZL_OUT | Op.BGTZL, Op.IDLE => BGTZL_IDLE
  | Op.BC1F, Op.IN => BC1F | Op.BC1F, Op.OUT => BC1F_OUT | Op.BC1F, Op.IDLE => BC1F_IDLE
  | Op.BC1T, Op.IN => BC1T | Op.BC1T, Op.OUT => BC1T_OUT | Op.BC1T, Op.IDLE => BC1T_IDLE
  | Op.BC1FL, Op.IN => BC1FL | Op.BC1FL, Op.OUT => BC1FL_OUT | Op.BC1FL, Op.IDLE => BC1FL_IDLE
  | Op.BC1TL, Op.IN => BC1TL | Op.BC1TL, Op.OUT => BC1TL_OUT | Op.BC1TL, Op.IDLE => BC1TL_IDLE
  end.
Definition run_J (v : Op.variant) : M st unit := match v with Op.IN => J | Op.OUT => J_OUT | Op.IDLE => J_IDLE end.
Definition run_JAL (v : Op.variant) : M st unit := match v with Op.IN => JAL | Op.OUT => JAL_OUT | Op.IDLE => JAL_IDLE end.
End Branches.
End Cached.
