(* ===== verification/CachedOps.v ===== *)
(** * The cached interpreter: memory, coprocessors, the TLB and the loop

    The rest of the cached interpreter: the memory instructions of r4300.cpp, which
    after each store look whether it hit translated code, the coprocessor
    instructions, the TLB instructions with what they do to the blocks of the pages
    they map, translation on demand, and the loop of [core_start]. *)

From S2P Require Import Prelude Queue Machine Exception Alu Tlb DeviceState Core Bus LoadStore Cop Translate CodeCache Cached.

Open Scope prog_scope.
#[local] Open Scope Z_scope.

Section CachedOps.
Context {Q : Type} `{EventQueue Q} `{Devices Q} `{CachedFpu Q} `{PageHash}.
#[local] Abbreviation st := (cached Q).

(** ** Memory instructions *)

(** [core_lsaddr] after [PC++]. *)
Definition lsaddr (f : fields) (s : st) : Z := u32 (immediate f + irs f (regs s)).
Definition with_lsaddr (k : fields -> Z -> M st unit) : M st unit :=
  f <-- i_operands ;;; pc_add 1 ;;; s <-- get ;;; k f (lsaddr f s).

(** A read into the register, and into a temporary that starts as 0; [address]
    afterwards is 0 when the translation failed. *)
Definition read_into_reg (r : nat) (sz : size) (a : Z) : M st Z :=
  x <-- on_core (bus_read sz a) ;;;
  (match x.2 with Some v => on_regs (set_reg r (s64 v)) | None => ret tt end) ;;; ret x.1.
Definition read_word (sz : size) (a : Z) : M st (Z * Z) :=
  x <-- on_core (bus_read sz a) ;;; ret (x.1, default 0 x.2).

(** [if (address) ...] *)
Definition if_address (address : Z) (k : M st unit) : M st unit := when (c_true address) k.

(** Does an access of [a] go through the TLB? *)
Definition through_tlb (h : handler) (a : Z) : bool :=
  match h with Nomem => true | RspMem => negb (address_low a <? 0x2000) | _ => false end.

(** [address] after a write: its translation, or 0. *)
Definition address_after (s : st) (sz : size) (a : Z) : Z :=
  if through_tlb (write_handler sz (k_core s) a) a then
    match (if (0x7f000000 <=? a) && (a <? 0x80000000) then goldeneye_base (rom_CRC1 (mach s)) else None) with
    | Some base => u32 (base + Z.land a 0xFFFFFF)
    | None => let e := lut_lookup (tlb_LUT_w (mach s)) a in if c_true e then page_address e a else 0
    end
  else a.

(** [write_nomem] and its kin look at the untranslated address, too;
    [write_rsp_memd] does not end up there. *)
Definition checks_first (h : handler) (sz : size) (a : Z) : bool :=
  match h, sz with RspMem, D => false | _, _ => through_tlb h a end.

(** A write and [check_memory]. *)
Definition store (sz : size) (a v : Z) : M st unit :=
  s <-- get ;;;
  when (checks_first (write_handler sz (k_core s) a) sz a) (on_code (check_memory a)) ;;;
  on_core (bus_write sz a v) ;;;
  on_code (check_memory (address_after s sz a)).

Definition LB : M st unit :=
  with_lsaddr (fun f a => a <-- read_into_reg (rt f) B a ;;; if_address a (on_regs (sign_extendedb (rt f)))).
Definition LH : M st unit :=
  with_lsaddr (fun f a => a <-- read_into_reg (rt f) H a ;;; if_address a (on_regs (sign_extendedh (rt f)))).
Definition LW : M st unit :=
  with_lsaddr (fun f a => a <-- read_into_reg (rt f) W a ;;; if_address a (on_regs (sign_extended (rt f)))).
Definition LBU : M st unit := with_lsaddr (fun f a => read_into_reg (rt f) B a ;;; ret tt).
Definition LHU : M st unit := with_lsaddr (fun f a => read_into_reg (rt f) H a ;;; ret tt).
Definition LWU : M st unit := with_lsaddr (fun f a => read_into_reg (rt f) W a ;;; ret tt).
Definition LD : M st unit := with_lsaddr (fun f a => read_into_reg (rt f) D a ;;; ret tt).
Definition LL : M st unit :=
  with_lsaddr (fun f a =>
    a <-- read_into_reg (rt f) W a ;;;
    if_address a (on_regs (sign_extended (rt f)) ;;; set_mach (fun m => m <| llbit := 1 |>))).

(** [core_lsrt = (core_lsrt & keep) | part(word);] *)
Definition merge (f : fields) (keep : Z) (part : Z -> Z) (word : Z) : M st unit :=
  s <-- get ;;; on_regs (set_reg (rt f) (s64 (Z.lor (Z.land (rrt f (regs s)) keep) (part word)))).
Definition merge_read (f : fields) (sz : size) (a keep : Z) (part : Z -> Z) : M st Z :=
  x <-- read_word sz a ;;; if_address x.1 (merge f keep part x.2) ;;; ret x.1.

Definition LWL : M st unit :=
  with_lsaddr (fun f a =>
    a <-- (match Z.land a 3 with
           | 0 => read_into_reg (rt f) W a
           | 1 => merge_read f W (word_at a) 0xFF (up 8)
           | 2 => merge_read f W (word_at a) 0xFFFF (up 16)
           | _ => merge_read f W (word_at a) 0xFFFFFF (up 24)
           end) ;;;
    if_address a (on_regs (sign_extended (rt f)))).

Definition LWR : M st unit :=
  with_lsaddr (fun f a =>
    match Z.land a 3 with
    | 0 => merge_read f W (word_at a) 0xFFFFFFFFFFFFFF00 (fun word => Z.land (down 24 word) 0xFF) ;;; ret tt
    | 1 => merge_read f W (word_at a) 0xFFFFFFFFFFFF0000 (fun word => Z.land (down 16 word) 0xFFFF) ;;; ret tt
    | 2 => merge_read f W (word_at a) 0xFFFFFFFFFF000000 (fun word => Z.land (down 8 word) 0xFFFFFF) ;;; ret tt
    | _ => a <-- read_into_reg (rt f) W (word_at a) ;;; if_address a (on_regs (sign_extended (rt f)))
    end).

Definition LDL : M st unit :=
  with_lsaddr (fun f a =>
    (match Z.land a 7 with
     | 0 => read_into_reg (rt f) D a
     | 1 => merge_read f D (dword_at a) 0xFF (up 8)
     | 2 => merge_read f D (dword_at a) 0xFFFF (up 16)
     | 3 => merge_read f D (dword_at a) 0xFFFFFF (up 24)
     | 4 => merge_read f D (dword_at a) 0xFFFFFFFF (up 32)
     | 5 => merge_read f D (dword_at a) 0xFFFFFFFFFF (up 40)
     | 6 => merge_read f D (dword_at a) 0xFFFFFFFFFFFF (up 48)
     | _ => merge_read f D (dword_at a) 0xFFFFFFFFFFFFFF (up 56)
     end) ;;; ret tt).

Definition LDR : M st unit :=
  with_lsaddr (fun f a =>
    (match Z.land a 7 with
     | 0 => merge_read f D (dword_at a) 0xFFFFFFFFFFFFFF00 (down 56)
     | 1 => merge_read f D (dword_at a) 0xFFFFFFFFFFFF0000 (down 48)
     | 2 => merge_read f D (dword_at a) 0xFFFFFFFFFF000000 (down 40)
     | 3 => merge_read f D (dword_at a) 0xFFFFFFFF00000000 (down 32)
     | 4 => merge_read f D (dword_at a) 0xFFFFFF0000000000 (down 24)
     | 5 => merge_read f D (dword_at a) 0xFFFF000000000000 (down 16)
     | 6 => merge_read f D (dword_at a) 0xFF00000000000000 (down 8)
     | _ => read_into_reg (rt f) D (dword_at a)
     end) ;;; ret tt).

(** [core_lsrt] *)
Definition lsrt (f : fields) (s : st) : Z := rrt f (regs s).

Definition SB : M st unit := with_lsaddr (fun f a => s <-- get ;;; store B a (u8 (Z.land (lsrt f s) 0xFF))).
Definition SH : M st unit := with_lsaddr (fun f a => s <-- get ;;; store H a (u16 (Z.land (lsrt f s) 0xFFFF))).
Definition SW : M st unit := with_lsaddr (fun f a => s <-- get ;;; store W a (u32 (Z.land (lsrt f s) 0xFFFFFFFF))).
Definition SD : M st unit := with_lsaddr (fun f a => s <-- get ;;; store D a (u64 (lsrt f s))).

(** Read the old contents and write [part(core_lsrt) | (old & keep)] back, to where
    the read has left [address]. *)
Definition merge_store (f : fields) (sz : size) (a : Z) (part : Z -> Z) (keep : Z) : M st unit :=
  x <-- read_word sz a ;;;
  if_address x.1 (s <-- get ;;; store sz x.1 (Z.lor (part (lsrt f s)) (Z.land x.2 keep))).

Definition SWL : M st unit :=
  with_lsaddr (fun f a =>
    match Z.land a 3 with
    | 0 => s <-- get ;;; store W (word_at a) (u32 (lsrt f s))
    | 1 => merge_store f W (word_at a) (fun v => Z.shiftr (u32 v) 8) 0xFF000000
    | 2 => merge_store f W (word_at a) (fun v => Z.shiftr (u32 v) 16) 0xFFFF0000
    | _ => s <-- get ;;; store B a (u8 (Z.shiftr (lsrt f s) 24))
    end).

Definition SWR : M st unit :=
  with_lsaddr (fun f a =>
    match Z.land a 3 with
    | 0 => merge_store f W a (fun v => u32 (Z.shiftl (u32 v) 24)) 0x00FFFFFF
    | 1 => merge_store f W (word_at a) (fun v => u32 (Z.shiftl (u32 v) 16)) 0x0000FFFF
    | 2 => merge_store f W (word_at a) (fun v => u32 (Z.shiftl (u32 v) 8)) 0x000000FF
    | _ => s <-- get ;;; store W (word_at a) (u32 (lsrt f s))
    end).

Definition SDL : M st unit :=
  with_lsaddr (fun f a =>
    match Z.land a 7 with
    | 0 => s <-- get ;;; store D (dword_at a) (u64 (lsrt f s))
    | 1 => merge_store f D (dword_at a) (fun v => Z.shiftr (u64 v) 8) 0xFF00000000000000
    | 2 => merge_store f D (dword_at a) (fun v => Z.shiftr (u64 v) 16) 0xFFFF000000000000
    | 3 => merge_store f D (dword_at a) (fun v => Z.shiftr (u64 v) 24) 0xFFFFFF0000000000
    | 4 => merge_store f D (dword_at a) (fun v => Z.shiftr (u64 v) 32) 0xFFFFFFFF00000000
    | 5 => merge_store f D (dword_at a) (fun v => Z.shiftr (u64 v) 40) 0xFFFFFFFFFF000000
    | 6 => merge_store f D (dword_at a) (fun v => Z.shiftr (u64 v) 48) 0xFFFFFFFFFFFF0000
    | _ => merge_store f D (dword_at a) (fun v => Z.shiftr (u64 v) 56) 0xFFFFFFFFFFFFFF00
    end).

Definition SDR : M st unit :=
  with_lsaddr (fun f a =>
    match Z.land a 7 with
    | 0 => merge_store f D a (fun v => u64 (Z.shiftl v 56)) 0x00FFFFFFFFFFFFFF
    | 1 => merge_store f D (dword_at a) (fun v => u64 (Z.shiftl v 48)) 0x0000FFFFFFFFFFFF
    | 2 => merge_store f D (dword_at a) (fun v => u64 (Z.shiftl v 40)) 0x000000FFFFFFFFFF
    | 3 => merge_store f D (dword_at a) (fun v => u64 (Z.shiftl v 32)) 0x00000000FFFFFFFF
    | 4 => merge_store f D (dword_at a) (fun v => u64 (Z.shiftl v 24)) 0x0000000000FFFFFF
    | 5 => merge_store f D (dword_at a) (fun v => u64 (Z.shiftl v 16)) 0x000000000000FFFF
    | 6 => merge_store f D (dword_at a) (fun v => u64 (Z.shiftl v 8)) 0x00000000000000FF
    | _ => s <-- get ;;; store D (dword_at a) (u64 (lsrt f s))
    end).

(** The register is looked up again, through [PC - 1], after the write, which may
    have raised an exception and moved [PC]. *)
Definition SC : M st unit :=
  with_lsaddr (fun f a =>
    s <-- get ;;;
    if c_true (llbit (mach s)) then
      store W a (u32 (Z.land (lsrt f s) 0xFFFFFFFF)) ;;;
      set_mach (fun m => m <| llbit := 0 |>) ;;;
      e <-- at_pc (-1) ;;; r <-- as_rt e ;;; on_regs (set_reg r 1)
    else on_regs (set_reg (rt f) 0)).

Definition CACHE : M st unit := pc_add 1.

Definition on_fpu (g : cop1 -> cop1) : M st unit := set_core (fun k => k <| c_cop1 := g (c_cop1 k) |>).

(** [core_lslfaddr] *)
Definition with_lslfaddr (k : fields -> Z -> M st unit) : M st unit :=
  usable (f <-- lf_operands ;;; pc_add 1 ;;; s <-- get ;;; k f (u32 (immediate f + reg (regs s) !!! rs f))).

(** [temp] is not initialised. *)
Definition LWC1 : M st unit :=
  with_lslfaddr (fun f a =>
    x <-- on_core (bus_read W a) ;;;
    if_address x.1 (match x.2 with Some v => on_fpu (write_simple (rt f) v) | None => undef Uninitialized end)).
Definition LDC1 : M st unit :=
  with_lslfaddr (fun f a =>
    x <-- on_core (bus_read D a) ;;;
    match x.2 with Some v => on_fpu (write_double (rt f) v) | None => ret tt end).
Definition SWC1 : M st unit :=
  with_lslfaddr (fun f a => s <-- get ;;; store W a (u32 (read_simple (rt f) (c_cop1 (k_core s))))).
Definition SDC1 : M st unit :=
  with_lslfaddr (fun f a => s <-- get ;;; store D a (u64 (read_double (rt f) (c_cop1 (k_core s))))).

Definition run_memory (o : Op.memory) : M st unit :=
  match o with
  | Op.LDL => LDL | Op.LDR => LDR | Op.LB => LB | Op.LH => LH | Op.LWL => LWL | Op.LW => LW | Op.LBU => LBU
  | Op.LHU => LHU | Op.LWR => LWR | Op.LWU => LWU | Op.LL => LL | Op.LD => LD | Op.SC => SC | Op.SB => SB | Op.SH => SH
  | Op.SWL => SWL | Op.SW => SW | Op.SDL => SDL | Op.SDR => SDR | Op.SWR => SWR | Op.SD => SD
  end.

(** ** Coprocessor 0 *)

Definition halt_emu : M st unit := set_mach (fun m => m <| stop := true |>).
Definition set_c0 (g : cop0 -> cop0) : M st unit := set_mach (on_cop0 g).
Definition c0 (s : st) : cop0 := m_cop0 (mach s).

Definition MFC0 : M st unit :=
  f <-- r_operands ;;;
  when (rd f =? 1)%nat halt_emu ;;;
  s <-- get ;;;
  on_regs (set32 (rt f) (reg_cop0 (c0 s) (Z.of_nat (rd f))) ;;; sign_extended (rt f)) ;;; pc_add 1.

(** [core_rrt], through [PC] as it is now. *)
Definition rrt_now : M st Z := e <-- at_pc 0 ;;; r <-- as_rt e ;;; s <-- get ;;; ret (reg (regs s) !!! r).

(** The interrupt may move [PC] before the register is read. *)
Definition MTC0_Count : M st unit :=
  ctl (update_count ;;; interrupt_if_due) ;;;
  set_mach (fun m => m <| debug_count := u64 (debug_count m + Count m) |>) ;;;
  v <-- rrt_now ;;; s <-- get ;;;
  ctl (on_queue (q_translate (Count (mach s)) (core_Compare (c0 s)) (Z.land v 0xFFFFFFFF))) ;;;
  set_mach (set_Count (Z.land v 0xFFFFFFFF)) ;;;
  set_mach (fun m => m <| debug_count := u64 (debug_count m - Count m) |>).

Definition MTC0_Status (v : Z) : M st unit :=
  s <-- get ;;;
  when (negb (Z.land v 0x04000000 =? Z.land (Status (mach s)) 0x04000000))
    (on_fpu (if has_bits v 0x04000000 then full_registers else paired_registers)) ;;;
  set_mach (set_Status (u32 v)) ;;;
  pc_add 1 ;;;
  ctl (check_interrupt ;;; update_count ;;; interrupt_if_due) ;;;
  pc_add (-1).

Definition MTC0_Compare (v : Z) : M st unit :=
  ctl (update_count ;;; on_queue (q_remove COMPARE_INT) ;;;
       m <-- get ;;; on_queue (q_add_count (Count m) COMPARE_INT (u32 v))) ;;;
  set_c0 (fun c => c <| core_Compare := u32 v |>) ;;;
  set_mach (fun m => set_Cause (Z.land (Cause m) 0xFFFF7FFF) m).

Definition MTC0 : M st unit :=
  f <-- r_operands ;;; s <-- get ;;;
  let v := rrt f (regs s) in
  (match Z.of_nat (rd f) with
   | 0 => set_c0 (fun c => c <| core_Index := Z.land v 0x8000003F |>) ;;;
          s <-- get ;;; when (31 <? Z.land (core_Index (c0 s)) 0x3F) halt_emu
   | 1 => ret tt
   | 2 => set_c0 (fun c => c <| core_EntryLo0 := Z.land v 0x3FFFFFFF |>)
   | 3 => set_c0 (fun c => c <| core_EntryLo1 := Z.land v 0x3FFFFFFF |>)
   | 4 => set_c0 (fun c => c <| core_Context := Z.lor (Z.land v 0xFF800000) (Z.land (core_Context c) 0x007FFFF0) |>)
   | 5 => set_c0 (fun c => c <| core_PageMask := Z.land v 0x01FFE000 |>)
   | 6 => set_c0 (fun c => c <| core_Wired := u32 v |> <| core_Random := 31 |>)
   | 8 => ret tt
   | 9 => MTC0_Count
   | 10 => set_c0 (fun c => c <| core_EntryHi := Z.land v 0xFFFFE0FF |>)
   | 11 => MTC0_Compare v
   | 12 => MTC0_Status v
   | 13 => if c_true v then halt_emu else set_c0 (fun c => c <| core_Cause := u32 v |>)
   | 14 => set_c0 (fun c => c <| core_EPC := u32 v |>)
   | 15 => ret tt
   | 16 => set_c0 (fun c => c <| core_Config_cop0 := u32 v |>)
   | 18 => set_c0 (fun c => c <| core_WatchLo := Z.land v 0xFFFFFFFF |>)
   | 19 => set_c0 (fun c => c <| core_WatchHi := Z.land v 0xFFFFFFFF |>)
   | 27 => ret tt
   | 28 => set_c0 (fun c => c <| core_TagLo := Z.land v 0x0FFFFFC0 |>)
   | 29 => set_c0 (fun c => c <| core_TagHi := 0 |>)
   | _ => halt_emu
   end) ;;;
  pc_add 1.

Definition SYSCALL : M st unit := ctl (modify (set_Cause (Z.shiftl 8 2)) ;;; exception_general).
Definition SYNC : M st unit := pc_add 1.

(** ** Coprocessor 1 *)

Definition MFC1 : M st unit :=
  usable (f <-- r_operands ;;; s <-- get ;;;
    on_regs (set32 (rt f) (read_simple (rd f) (c_cop1 (k_core s))) ;;; sign_extended (rt f)) ;;; pc_add 1).
Definition DMFC1 : M st unit :=
  usable (f <-- r_operands ;;; s <-- get ;;; on_regs (set_reg (rt f) (read_double (rd f) (c_cop1 (k_core s)))) ;;; pc_add 1).
Definition CFC1 : M st unit :=
  usable (f <-- r_operands ;;; s <-- get ;;;
    when (rd f =? 31)%nat (on_regs (set32 (rt f) (FCR31 (c_cop1 (k_core s))) ;;; sign_extended (rt f))) ;;;
    when (rd f =? 0)%nat (on_regs (set32 (rt f) (FCR0 (c_cop1 (k_core s))) ;;; sign_extended (rt f))) ;;;
    pc_add 1).
Definition MTC1 : M st unit :=
  usable (f <-- r_operands ;;; s <-- get ;;; on_fpu (write_simple (rd f) (rrt32 f (regs s))) ;;; pc_add 1).
Definition DMTC1 : M st unit :=
  usable (f <-- r_operands ;;; s <-- get ;;; on_fpu (write_double (rd f) (rrt f (regs s))) ;;; pc_add 1).
Definition CTC1 : M st unit :=
  usable (f <-- r_operands ;;; s <-- get ;;;
    when (rd f =? 31)%nat (on_fpu (fun p => p <| FCR31 := rrt32 f (regs s) |>)) ;;;
    on_fpu (fun p => p <| rounding_mode := rounding_of (FCR31 p) |>) ;;; pc_add 1).

Definition run_float (o : Op.float) : M st unit :=
  usable (e <-- at_pc 0 ;;;
    match opnds e with
    | FCF ft fs fd => on_core (float_op o ft fs fd) ;;; pc_add 1
    | _ => undef DanglingPointer
    end).

(** ** The TLB (tlb.cpp) *)

Definition TLBR : M st unit := ctl tlb_read ;;; pc_add 1.
Definition TLBP : M st unit := ctl tlb_probe ;;; pc_add 1.

(** [xxh64::hash] of the page of RDRAM that page [i] is mapped to. *)
Definition page_hash (i : Z) (s : st) : Z :=
  xxh64 (load_bytes 4096 (Z.land (default 0 (tlb_LUT_r (mach s) !! i)) 0x7FF000) (rdram (k_core s))).
Definition set_hash (i v : Z) : M code_cache unit :=
  modify (fun c => c <| blocks := alter (fun b => b <| hash := Some v |>) i (blocks c) |>).

(** [for (i = first; i < first + n; i++) body(i);] *)
Fixpoint for_pages (n : nat) (first : Z) (body : Z -> M st unit) : M st unit :=
  match n with
  | O => ret tt
  | S n => body first ;;; for_pages n (first + 1) body
  end.
Definition pages_of (start end_ : Z) (body : Z -> M st unit) : M st unit :=
  for_pages (Z.to_nat (page end_ - page start + 1)) (page start) body.

(** A page loses its mapping: its code is not valid any more, but the hash of what it
    was translated from is kept. *)
Definition forget_page (i : Z) : M st unit :=
  s <-- get ;;;
  let phys := page (default 0 (tlb_LUT_r (mach s) !! i)) in
  let c := k_code s in
  on_code (when (negb (is_invalid i c) && (is_invalid phys c || is_invalid (phys + 0x20000) c)) (set_invalid i true)) ;;;
  s <-- get ;;;
  (if negb (is_invalid i (k_code s)) then
     (match blocks (k_code s) !! i with
      | None => undef NullDeref
      | Some _ => on_code (set_hash i (page_hash i s)) ;;; on_code (set_invalid i true)
      end)
   else on_code (set_hash i 0)) ;;;
  set_mach (fun m => m <| tlb_LUT_r := <[i := 0]> (tlb_LUT_r m) |>).

(** A page gains a mapping: code translated from the same contents is valid again. *)
Definition revive_page (i : Z) : M st unit :=
  s <-- get ;;;
  match blocks (k_code s) !! i with
  | None => ret tt
  | Some b =>
      match hash b with
      | None => undef Uninitialized
      | Some h => on_code (when (c_true h && (h =? page_hash i s)) (set_invalid i false))
      end
  end.

Definition unmap_pages (v d start end_ : Z) : M st unit :=
  when (c_true v)
    (pages_of start end_ forget_page ;;;
     when (c_true d) (pages_of start end_ (fun i => set_mach (fun m => m <| tlb_LUT_w := <[i := 0]> (tlb_LUT_w m) |>)))).
Definition map_pages (v d start end_ phys : Z) : M st unit :=
  when (c_true v) (ctl (map_range v d start end_ phys) ;;; pages_of start end_ revive_page).

Definition write_entry (k : nat) : M st unit :=
  e <-- ctl (read_tlb k) ;;;
  unmap_pages (v_even e) (d_even e) (start_even e) (end_even e) ;;;
  unmap_pages (v_odd e) (d_odd e) (start_odd e) (end_odd e) ;;;
  s <-- get ;;;
  ctl (change_tlb k (load_entry (c0 s)) ;;; change_tlb k set_even_range) ;;;
  e <-- ctl (read_tlb k) ;;;
  map_pages (v_even e) (d_even e) (start_even e) (end_even e) (phys_even e) ;;;
  ctl (change_tlb k set_odd_range) ;;;
  e <-- ctl (read_tlb k) ;;;
  map_pages (v_odd e) (d_odd e) (start_odd e) (end_odd e) (phys_odd e).

Definition TLBWI : M st unit := s <-- get ;;; write_entry (Z.to_nat (Z.land (core_Index (c0 s)) 0x3F)) ;;; pc_add 1.
Definition TLBWR : M st unit :=
  ctl update_count ;;;
  s <-- get ;;;
  let n := u32 (32 - core_Wired (c0 s)) in
  if n =? 0 then undef DivideByZero
  else
    let random := u32 ((core_Count (c0 s) / 2) mod n + core_Wired (c0 s)) in
    set_c0 (fun c => c <| core_Random := random |>) ;;;
    write_entry (Z.to_nat random) ;;; pc_add 1.

Definition ERET : M st unit :=
  ctl (update_count ;;;
       m <-- get ;;;
       (if has_bits (Status m) 0x4 then modify (fun m => m <| stop := true |>)
        else
          modify (fun m => set_Status (Z.land (Status m) 0xFFFFFFFD) m) ;;;
          m <-- get ;;; jump_to (EPC m)) ;;;
       modify (fun m => m <| llbit := 0 |>) ;;;
       check_interrupt ;;;
       modify (fun m => m <| last_addr := PC_addr m |>) ;;;
       interrupt_if_due).

(** ** Translation on demand *)

(** [source[i]] in an array of words; reading outside it is undefined. *)
Definition words_of (arr : gmap Z Z) (len base i : Z) : outcome Z :=
  let off := base + 4 * i in
  if (0 <=? off) && (off + 4 <=? len) then Ret (le_combine (load_bytes 4 off arr)) else Undef OutOfBounds.

(** The block of [a] is translated from [a] on; [paddr] is its physical address. *)
Definition recompile_from (a paddr : Z) : M st unit :=
  s <-- get ;;;
  let k := k_core s in
  let base := Z.land (u32 (paddr - in_page a)) 0x1FFFFFFF in
  if 0x10000000 <=? Z.land paddr 0x1FFFFFFF
  then on_code (recompile_block (translation (mach s)) (words_of (rom k) (rom_size k) ((base - 0x10000000) / 4 * 4)) (page a) a)
  else on_code (recompile_block (translation (mach s)) (words_of (rdram k) 0x800000 (base / 4 * 4)) (page a) a).

(** Addresses from 0xa4000000 to 0xa400ffff are translated from the start of DMEM
    into the block of the boot code. *)
Definition recompile_boot (a : Z) : M st unit :=
  s <-- get ;;; on_code (recompile_block (translation (mach s)) (words_of (SP_MEM (k_core s)) 0x2000 0) BOOT_PAGE a).

Definition translate_here : M st unit :=
  s <-- get ;;;
  let a := pc_now s in
  if Z.shiftr a 16 =? 0xa400 then recompile_boot a
  else
    paddr <-- (if direct a then ret a else ctl (virtual_to_physical_address a 2)) ;;;
    when (c_true paddr) (recompile_from a paddr).

Definition core_vr_recompile (a : Z) : M st unit :=
  if a =? 0xFFFFFFFF then on_code (modify (fun c => c <| invalid_code := ∅ |>))
  else if Z.shiftr a 16 =? 0xa400 then recompile_boot a
  else
    paddr <-- (if direct a then ret a else ctl (virtual_to_physical_address a 2)) ;;;
    when (c_true paddr) (recompile_from a paddr).

Section Calls.
(** [PC->ops()] *)
Variable call : M st unit.

Definition NOTCOMPILED : M st unit := translate_here ;;; call.

Definition FIN_BLOCK : M st unit :=
  s <-- get ;;;
  if c_true (delay_slot (mach s)) then
    let blk := actual (k_code s) in
    jump (pc_now s) ;;;
    s' <-- get ;;;
    if no_skip s' then
      call ;;;
      on_code (modify (fun c => c <| actual := blk |> <| PC_block := PC_block (k_code s) |>)) ;;;
      set_mach (fun m => m <| PC_addr := u32 (pc_now s + 4) |>)
    else call
  else jump (pc_now s) ;;; call.

Definition run_entry (e : precomp_instr) : M st unit :=
  match ops e with
  | Op.NOTCOMPILED | Op.NOTCOMPILED2 => NOTCOMPILED
  | Op.FIN_BLOCK => FIN_BLOCK
  | Op.INTEGER fn => on_regs (fn (match opnds e with FI f | FR f => f | _ => no_fields end))
  | Op.BRANCH b v => run_branch call b v
  | Op.J v => run_J call v
  | Op.JAL v => run_JAL call v
  | Op.JR => JR call
  | Op.JALR => JALR call
  | Op.SYSCALL => SYSCALL
  | Op.SYNC => SYNC
  | Op.MFC0 => MFC0 | Op.MTC0 => MTC0
  | Op.TLBR => TLBR | Op.TLBWI => TLBWI | Op.TLBWR => TLBWR | Op.TLBP => TLBP | Op.ERET => ERET
  | Op.MFC1 => MFC1 | Op.DMFC1 => DMFC1 | Op.CFC1 => CFC1 | Op.MTC1 => MTC1 | Op.DMTC1 => DMTC1 | Op.CTC1 => CTC1
  | Op.FLOAT o => run_float o
  | Op.MEMORY o => run_memory o
  | Op.CACHE => CACHE
  | Op.LWC1 => LWC1 | Op.LDC1 => LDC1 | Op.SWC1 => SWC1 | Op.SDC1 => SDC1
  end.
End Calls.

(** ** The loop *)

Fixpoint exec (fuel : nat) : M st unit :=
  match fuel with
  | O => undef Diverges
  | S fuel => e <-- at_pc 0 ;;; run_entry (exec fuel) e
  end.

Definition step (fuel : nat) : M st unit :=
  exec fuel ;;; set_core (fun k => k <| g_vr_beq_ignore_jmp := false |>).

Definition running (s : st) : bool := negb (stop (mach s)).

Fixpoint run_steps (fuel n : nat) : M st unit :=
  match n with
  | O => ret tt
  | S n => s <-- get ;;; when (running s) (step fuel ;;; run_steps fuel n)
  end.

(** The interpreter's part of [core_start], for [n] rounds or until stopped. *)
Definition cached_interpreter (fuel n : nat) : M st unit :=
  set_mach (fun m => m <| interpcore := false |>) ;;;
  s <-- get ;;; on_code (init_blocks (translation (mach s))) ;;;
  set_mach (fun m => m <| PC_addr := 0xa4000040 |>) ;;;
  set_mach (fun m => m <| last_addr := PC_addr m |>) ;;;
  run_steps fuel n ;;;
  s <-- get ;;;
  when (negb (running s))
    (set_mach (fun m => m <| debug_count := u64 (debug_count m + Count m) |>) ;;; on_code free_blocks).
End CachedOps.
