(* ===== verification/CodeProps.v ===== *)
(** * What the code cache guarantees

    The blocks of valid pages exist and have an entry for every instruction of their
    page, so that nothing the cache is asked to do goes through a null pointer. *)

From S2P Require Import Prelude Hoare Machine Alu Translate CodeCache.

Open Scope prog_scope.
#[local] Open Scope Z_scope.

(** ** Pages *)

Definition is_page (p : Z) : Prop := 0 <= p < 0x100000.

Lemma page_div a : page a = a / 0x1000.
Proof. unfold page. rewrite Z.shiftr_div_pow2 by lia. reflexivity. Qed.
Lemma in_page_mod a : in_page a = a mod 0x1000.
Proof. unfold in_page. change 0xFFF with (Z.ones 12). rewrite Z.land_ones by lia. reflexivity. Qed.

Ltac page_lia := rewrite ?page_div, ?in_page_mod in *; unfold page_start, block_end, is_page, is_u32, u32 in *; Z.div_mod_to_equations; lia.

Lemma page_range a : is_u32 a -> is_page (page a).
Proof. intros Ha. page_lia. Qed.
Lemma page_of_start p : page (page_start p) = p.
Proof. page_lia. Qed.

(** The page in the other direct-mapped segment. *)
Definition opposite (p : Z) : option Z :=
  if (0x80000 <=? p) && (p <? 0x9ffff) then Some (p + 0x20000)
  else if (0xa0000 <=? p) && (p <? 0xbffff) then Some (p - 0x20000)
  else None.

Lemma opposite_cases p : 0x7ffff <= p < 0xc0000 ->
  ((0x80000000 <=? page_start p) && (block_end (page_start p) <? 0xa0000000) = (0x80000 <=? p) && (p <? 0x9ffff)) /\
  ((0xa0000000 <=? page_start p) && (block_end (page_start p) <? 0xc0000000) = (0xa0000 <=? p) && (p <? 0xbffff)) /\
  page (page_start p + 0x20000000) = p + 0x20000 /\ page (page_start p - 0x20000000) = p - 0x20000.
Proof. intros Hp. split_and!; [apply eq_true_iff_eq; rewrite !andb_true_iff, ?Z.leb_le, ?Z.ltb_lt; page_lia..|page_lia|page_lia]. Qed.

Lemma opposite_back p q : opposite p = Some q -> opposite q = Some p.
Proof. unfold opposite. repeat case_cmp; cbn [andb]; intros E; simplify_eq; repeat case_cmp; cbn [andb]; try lia; f_equal; lia. Qed.

(** The pages [init_block] treats as direct-mapped; their opposites are, too. *)
Lemma direct_block p : is_page p -> mapped_block p = false <-> 0x7ffff <= p < 0xc0000.
Proof. intros Hp. unfold mapped_block. rewrite orb_false_iff, Z.ltb_ge, Z.leb_gt. page_lia. Qed.
Lemma opposite_direct p q : opposite p = Some q -> is_page q /\ mapped_block q = false /\ q <> p.
Proof.
  unfold opposite. repeat case_cmp; cbn [andb]; intros E; simplify_eq; split_and!; try (unfold is_page; lia); apply direct_block; unfold is_page; lia.
Qed.

(** ** Blocks *)

Definition has_entries (p : Z) (c : code_cache) : Prop :=
  exists b es, blocks c !! p = Some b /\ entries b = Some es.

(** Every instruction of the page has an entry, and there is none outside the array. *)
Definition full (es : gmap Z precomp_instr) : Prop :=
  (forall i, 0 <= i < LENGTH -> is_Some (es !! i)) /\ (forall i, is_Some (es !! i) -> 0 <= i < ARRAY).

Definition all_full (c : code_cache) : Prop :=
  forall p b es, blocks c !! p = Some b -> entries b = Some es -> full es.

(** Pages that are valid, but for [q], have their entries. *)
Definition ok_but (q : option Z) (c : code_cache) : Prop :=
  all_full c /\ forall p, is_invalid p c = false -> q <> Some p -> has_entries p c.
Definition cache_ok (c : code_cache) : Prop := ok_but None c.

(** The page is valid and none of its instructions is translated. *)
Definition untranslated (p : Z) (c : code_cache) : Prop :=
  is_invalid p c = false /\
  forall i, 0 <= i < LENGTH -> exists e, entry p i c = Ret e /\ ops e = Op.NOTCOMPILED.

(** Nothing but the pages in [ps] differs. *)
Definition same_pages (ps : list Z) (c c' : code_cache) : Prop :=
  (forall p, p ∉ ps -> blocks c' !! p = blocks c !! p /\ is_invalid p c' = is_invalid p c) /\
  actual c' = actual c /\ PC_block c' = PC_block c /\ jump_target c' = jump_target c.

Lemma same_pages_trans ps qs c1 c2 c3 : same_pages ps c1 c2 -> same_pages qs c2 c3 -> same_pages (ps ++ qs) c1 c3.
Proof.
  intros (H1 & A1 & B1 & C1) (H2 & A2 & B2 & C2). split; [|by rewrite A2, B2, C2].
  intros p Hp. rewrite elem_of_app in Hp. destruct (H1 p) as [E1 F1]; [tauto|]. destruct (H2 p) as [E2 F2]; [tauto|].
  by rewrite E2, F2, E1, F1.
Qed.
Lemma same_pages_mono ps qs c c' : (forall p, p ∈ ps -> p ∈ qs) -> same_pages ps c c' -> same_pages qs c c'.
Proof. intros Hs (H1 & H2). split; [|exact H2]. intros p Hp. apply H1. intros Hi. by apply Hp, Hs. Qed.

Lemma is_invalid_set p b q c : is_invalid q (c <| invalid_code := <[p := b]> (invalid_code c) |>) = if decide (p = q) then b else is_invalid q c.
Proof.
  unfold is_invalid, upd_field. cbn. destruct (decide (p = q)) as [->|Hne]; [by rewrite lookup_insert_eq|by rewrite lookup_insert_ne].
Qed.

Lemma fresh_lookup n i : fresh_entries n !! i = if (0 <=? i) && (i <? Z.of_nat n) then Some (Instr Op.NOTCOMPILED Unset) else None.
Proof.
  induction n as [|n IH]; cbn [fresh_entries].
  - rewrite lookup_empty. repeat case_cmp; cbn [andb]; (done || lia).
  - rewrite Nat2Z.inj_succ. destruct (decide (i = Z.of_nat n)) as [->|Hne].
    + rewrite lookup_insert_eq. repeat case_cmp; cbn [andb]; (done || lia).
    + rewrite lookup_insert_ne, IH by lia. repeat case_cmp; cbn [andb]; (done || lia).
Qed.
Lemma cleared_lookup es i :
  cleared es !! i = (fun e : precomp_instr => if i <? LENGTH then e <| ops := Op.NOTCOMPILED |> else e) <$> (es !! i).
Proof. unfold cleared. rewrite map_lookup_imap. by destruct (es !! i). Qed.

Definition reset_entries (o : option (gmap Z precomp_instr)) : gmap Z precomp_instr :=
  match o with None => fresh_entries (Z.to_nat LENGTH) | Some es => cleared es end.

Lemma reset_full o : (forall es, o = Some es -> full es) -> full (reset_entries o).
Proof.
  intros Ho. destruct o as [es|]; cbn [reset_entries].
  - destruct (Ho es eq_refl) as [H1 H2]. split; intros i; rewrite cleared_lookup, fmap_is_Some; [apply H1|apply H2].
  - unfold full. change LENGTH with 1024. change ARRAY with 1281.
    split; intros i; rewrite fresh_lookup, Z2Nat.id by lia; repeat case_cmp; cbn [andb]; intros Hi;
      first [by eexists | by destruct Hi | lia].
Qed.
Lemma reset_not_compiled o i : (forall es, o = Some es -> full es) -> 0 <= i < LENGTH ->
  exists e, reset_entries o !! i = Some e /\ ops e = Op.NOTCOMPILED.
Proof.
  intros Ho Hi. destruct o as [es|]; cbn [reset_entries].
  - destruct (Ho es eq_refl) as [H1 _]. destruct (H1 i Hi) as [e He]. rewrite cleared_lookup, He. cbn [fmap option_fmap option_map].
    destruct (Z.ltb_spec i LENGTH); [|lia]. by eexists.
  - rewrite fresh_lookup, Z2Nat.id by done. repeat case_cmp; cbn [andb]; try lia. by eexists.
Qed.

(** [empty_block] and marking the page valid. *)
Definition emptied (p : Z) (b : precomp_block) (c : code_cache) : code_cache :=
  c <| blocks := <[p := b <| entries := Some (reset_entries (entries b)) |>]> (blocks c) |>
    <| invalid_code := <[p := false]> (invalid_code c) |>.

Lemma empty_valid {B} p b c (k : unit -> M code_cache B) :
  blocks c !! p = Some b -> (empty_block p ;;; x <-- set_invalid p false ;;; k x) c = k tt (emptied p b c).
Proof. intros Eb. unfold empty_block. rewrite bind_assoc, bind_get_l, Eb. reflexivity. Qed.

Lemma emptied_facts p b c :
  blocks c !! p = Some b -> ok_but (Some p) c ->
  cache_ok (emptied p b c) /\ untranslated p (emptied p b c) /\ same_pages [p] c (emptied p b c).
Proof.
  intros Eb [Hf Hv].
  assert (forall es, entries b = Some es -> full es) as Hb by (intros es; by apply (Hf p b es Eb)).
  assert (forall q, q <> p -> blocks (emptied p b c) !! q = blocks c !! q) as Eo
    by (intros q Hq; unfold emptied, upd_field; cbn; by rewrite lookup_insert_ne).
  assert (blocks (emptied p b c) !! p = Some (b <| entries := Some (reset_entries (entries b)) |>)) as Ep
    by (unfold emptied, upd_field; cbn; by rewrite lookup_insert_eq).
  assert (forall q, is_invalid q (emptied p b c) = if decide (p = q) then false else is_invalid q c) as Ei
    by (intros q; exact (is_invalid_set p false q c)).
  split_and!.
  - split.
    + intros q b' es Eq Ee. destruct (decide (q = p)) as [->|Hne].
      * rewrite Ep in Eq. apply (inj Some) in Eq. subst b'. apply (inj Some) in Ee. subst es. by apply reset_full.
      * rewrite Eo in Eq by done. by eapply Hf.
    + intros q Hq _. destruct (decide (q = p)) as [->|Hne]; [by do 2 eexists|].
      rewrite Ei in Hq. destruct (decide (p = q)) as [->|_]; [done|].
      destruct (Hv q Hq) as (b' & es & Eb' & Ee); [congruence|]. exists b', es. by rewrite Eo.
  - split; [rewrite Ei; by destruct (decide (p = p))|]. intros i Hi.
    destruct (reset_not_compiled (entries b) i Hb Hi) as (e & Ee & Eo'). exists e. unfold entry. rewrite Ep. cbn. by rewrite Ee.
  - split; [|done]. intros q [Hq _]%not_elem_of_cons. rewrite (Eo q Hq), Ei. by destruct (decide (p = q)) as [->|].
Qed.

(** A page that [init_block] finds free of an opposite that needs it. *)
Definition todo (p : Z) (c : code_cache) : option Z := q ← opposite p; if is_invalid q c then Some q else None.

Lemma init_direct n v2p p b c :
  0x7ffff <= p < 0xc0000 -> blocks c !! p = Some b ->
  init_block (S n) v2p p c =
    match todo p (emptied p b c) with
    | Some q => (ensure_block q ;;; init_block n v2p q) (emptied p b c)
    | None => Ret (tt, emptied p b c)
    end.
Proof.
  intros Hp Eb. destruct (opposite_cases p Hp) as (E1 & E2 & E3 & E4).
  assert (mapped_block p = false) as Em by (apply direct_block; unfold is_page; lia).
  cbn [init_block]. rewrite (empty_valid _ _ _ _ Eb), Em, E1, E2, E3, E4. clear E1 E2 E3 E4.
  rewrite bind_get_l. generalize (emptied p b c). intros c1. unfold todo, opposite.
  destruct ((0x80000 <=? p) && (p <? 0x9ffff)) eqn:A.
  - assert ((0xa0000 <=? p) && (p <? 0xbffff) = false) as -> by (apply not_true_iff_false; rewrite andb_true_iff; lia).
    cbn [mbind option_bind andb]. destruct (is_invalid (p + 0x20000) c1); [|reflexivity].
    unfold when. generalize (ensure_block (p + 0x20000) ;;; init_block n v2p (p + 0x20000)). intros m.
    unfold bind at 1. by destruct (m c1) as [[[] c2]|].
  - cbn [mbind option_bind andb]. destruct ((0xa0000 <=? p) && (p <? 0xbffff)) eqn:B; [|reflexivity].
    cbn [mbind option_bind andb]. unfold when at 1. rewrite bind_ret_l, bind_get_l.
    destruct (is_invalid (p - 0x20000) c1); reflexivity.
Qed.

Definition ensured (q : Z) (c : code_cache) : code_cache :=
  match blocks c !! q with Some _ => c | None => c <| blocks := <[q := new_block]> (blocks c) |> end.

Lemma ensure_ok q c : ensure_block q c = Ret (tt, ensured q c).
Proof. reflexivity. Qed.

Lemma ensured_facts q c x :
  ok_but x c -> ok_but x (ensured q c) /\ (exists b, blocks (ensured q c) !! q = Some b) /\ same_pages [q] c (ensured q c) /\
  (forall p, is_invalid p (ensured q c) = is_invalid p c).
Proof.
  intros [Hf Hv]. unfold ensured. destruct (blocks c !! q) as [b|] eqn:Eb; [split_and!; [done|by eexists|done|done]|].
  set (c1 := c <| blocks := <[q := new_block]> (blocks c) |>).
  assert (forall p, p <> q -> blocks c1 !! p = blocks c !! p) as Eo by (intros p Hp; unfold c1, upd_field; cbn; by rewrite lookup_insert_ne).
  assert (blocks c1 !! q = Some new_block) as Eq by (unfold c1, upd_field; cbn; by rewrite lookup_insert_eq).
  split_and!; [split| |split; [|done]|done].
  - intros p b es Ep Ee. destruct (decide (p = q)) as [->|Hne]; [|rewrite Eo in Ep by done; by eapply Hf].
    rewrite Eq in Ep. apply (inj Some) in Ep. by subst b.
  - intros p Hp Hx. destruct (Hv p Hp Hx) as (b & es & Ep & Ee). exists b, es. split; [|done]. rewrite Eo; [done|]. intros ->. congruence.
  - by eexists.
  - intros p [Hp _]%not_elem_of_cons. by rewrite Eo.
Qed.

(** [init_block] on a direct-mapped page ends, with the page and, if it needed it, its
    opposite untranslated. *)
Lemma init_direct_ok n v2p p c :
  0x7ffff <= p < 0xc0000 -> (exists b, blocks c !! p = Some b) -> ok_but (Some p) c ->
  wp (init_block (2 + n) v2p p)
    (fun _ c' => cache_ok c' /\ untranslated p c' /\ same_pages (p :: option_list (opposite p)) c c' /\
       (forall q, opposite p = Some q -> is_invalid q c = true -> untranslated q c') /\
       (forall q, opposite p = Some q -> is_invalid q c = false -> same_pages [p] c c')) c.
Proof.
  intros Hp [b Eb] Hok. destruct (emptied_facts p b c Eb Hok) as (Hok1 & Hu1 & Hs1).
  unfold wp. change (2 + n)%nat with (S (S n)). rewrite (init_direct _ _ _ _ _ Hp Eb). unfold todo.
  destruct (opposite p) as [q|] eqn:Eq; cbn [mbind option_bind option_list]; [|by split_and!].
  destruct (opposite_direct p q Eq) as (Hpq & Hdq & Hne). apply direct_block in Hdq; [|done].
  assert (is_invalid q (emptied p b c) = is_invalid q c) as Ei by (apply Hs1; rewrite list_elem_of_singleton; done).
  rewrite Ei. destruct (is_invalid q c) eqn:Eiq.
  - destruct (ensured_facts q (emptied p b c) None Hok1) as (Hok2 & [b2 Eb2] & Hs2 & Hi2).
    rewrite (bind_Ret _ _ _ _ _ (ensure_ok q (emptied p b c))), (init_direct _ _ _ _ _ Hdq Eb2).
    set (c2 := ensured q (emptied p b c)) in *.
    assert (ok_but (Some q) c2) as Hok2' by (destruct Hok2 as [? Hv]; split; [done|]; intros; by apply Hv).
    destruct (emptied_facts q b2 c2 Eb2 Hok2') as (Hok3 & Hu3 & Hs3).
    assert (untranslated p (emptied q b2 c2)) as Hu.
    { destruct Hu1 as [Hv Hn]. assert (p ∉ [q]) as Hn' by (rewrite list_elem_of_singleton; done).
      destruct (proj1 Hs3 p Hn') as [E3 F3]. destruct (proj1 Hs2 p Hn') as [E2 F2]. split; [by rewrite F3, F2|].
      intros i Hi. destruct (Hn i Hi) as (e & Ee & Eo). exists e. split; [|done]. unfold entry in *. by rewrite E3, E2. }
    assert (todo q (emptied q b2 c2) = None) as ->.
    { unfold todo. rewrite (opposite_back _ _ Eq). cbn [mbind option_bind]. by rewrite (proj1 Hu). }
    split_and!; [done|done| |intros ? [= <-] _; exact Hu3|intros ? [= <-] ?; congruence].
    eapply same_pages_mono; [|exact (same_pages_trans _ _ _ _ _ (same_pages_trans _ _ _ _ _ Hs1 Hs2) Hs3)].
    set_solver.
  - split_and!; [done|done| |intros ? [= <-] ?; congruence|intros ? [= <-] _; exact Hs1]. eapply same_pages_mono; [|exact Hs1]. set_solver.
Qed.

(** *** Mapped pages *)

Lemma set_valid_ok q c : cache_ok c -> ok_but (Some q) (c <| invalid_code := <[q := false]> (invalid_code c) |>).
Proof.
  intros [Hf Hv]. split; [exact Hf|]. intros p Hp Hq. rewrite is_invalid_set in Hp.
  destruct (decide (q = p)) as [->|_]; [done|]. destruct (Hv p Hp) as (b & es & Hb & He); [done|]. by exists b, es.
Qed.

Lemma untranslated_frame ps p c c' : untranslated p c -> same_pages ps c c' -> p ∉ ps -> untranslated p c'.
Proof.
  intros [Hv Hn] [Hs _] Hp. destruct (Hs p Hp) as [E F]. split; [by rewrite F|].
  intros i Hi. destruct (Hn i Hi) as (e & Ee & Eo). exists e. split; [|done]. unfold entry in *. by rewrite E.
Qed.

Definition same_place (c c' : code_cache) : Prop :=
  actual c' = actual c /\ PC_block c' = PC_block c /\ jump_target c' = jump_target c.

(** A physical page and its opposite, brought along. *)
Lemma bring_ok n v2p p q c :
  mapped_block p = true -> is_page p -> 0x80000 <= q < 0xc0000 -> cache_ok c -> untranslated p c ->
  wp (set_invalid q false ;;; ensure_block q ;;; init_block (2 + n) v2p q)
    (fun _ c' => cache_ok c' /\ untranslated p c' /\ same_place c c') c.
Proof.
  intros Hm Hp Hq Hok Hu. assert (p < 0x7ffff \/ 0xc0000 <= p) as Hpd.
  { destruct (Z_lt_dec p 0x7ffff); [tauto|]. destruct (Z_le_dec 0xc0000 p); [tauto|]. exfalso.
    assert (mapped_block p = false) by (apply direct_block; [done|lia]). congruence. }
  unfold wp, set_invalid. rewrite bind_modify_l.
  set (c1 := c <| invalid_code := <[q := false]> (invalid_code c) |>).
  assert (same_pages [q] c c1) as Hs1.
  { split; [|done]. intros x [Hx _]%not_elem_of_cons. split; [done|]. unfold c1. rewrite is_invalid_set. by destruct (decide (q = x)) as [->|]. }
  destruct (ensured_facts q c1 (Some q) (set_valid_ok q c Hok)) as (Hok2 & Hb & Hs2 & _).
  rewrite (bind_Ret _ _ _ _ _ (ensure_ok q c1)).
  pose proof (init_direct_ok n v2p q (ensured q c1) ltac:(lia) Hb Hok2) as W. unfold wp in W.
  destruct (init_block (2 + n) v2p q (ensured q c1)) as [[[] c3]|]; [|done]. destruct W as (Hok3 & _ & Hs3 & _). 
  pose proof (same_pages_trans _ _ _ _ _ (same_pages_trans _ _ _ _ _ Hs1 Hs2) Hs3) as Hs. split; [done|]. split; [|exact (proj2 Hs)].
  apply (untranslated_frame _ _ _ _ Hu Hs). assert (p <> q) by lia.
  destruct (opposite q) as [o|] eqn:Eo; cbn [option_list]; [|set_solver].
  assert (p <> o); [|set_solver]. destruct (opposite_direct q o Eo) as (Ho & Hd & _). apply direct_block in Hd; [lia|done].
Qed.

Definition direct_page (q : Z) : Prop := 0x80000 <= q < 0xc0000.

Lemma init_mapped_ok n v2p p pa c :
  mapped_block p = true -> is_page p -> v2p (page_start p) = Some pa ->
  direct_page (page pa) -> direct_page (page (u32 (pa + 0x1000 - 4))) ->
  (exists b, blocks c !! p = Some b) -> ok_but (Some p) c ->
  wp (init_block (3 + n) v2p p) (fun _ c' => cache_ok c' /\ untranslated p c' /\ same_place c c') c.
Proof.
  intros Hm Hp Hv Hd1 Hd2 [b Eb] Hok. destruct (emptied_facts p b c Eb Hok) as (Hok1 & Hu1 & Hs1).
  assert (init_block (3 + n) v2p p c =
    ((set_invalid (page pa) false ;;; ensure_block (page pa) ;;; init_block (2 + n) v2p (page pa)) ;;;
     (let q := page (u32 (pa + 0x1000 - 4)) in set_invalid q false ;;; ensure_block q ;;; init_block (2 + n) v2p q))
      (emptied p b c)) as E.
  { change (3 + n)%nat with (S (2 + n)). cbn [init_block]. by rewrite (empty_valid _ _ _ _ Eb), Hm, Hv, bind_assoc. }
  unfold wp. rewrite E. apply wp_bind. eapply wp_mono; [exact (bring_ok n v2p p (page pa) _ Hm Hp Hd1 Hok1 Hu1)|].
  intros [] c2 (Hok2 & Hu2 & Hp2). cbv zeta. eapply wp_mono; [exact (bring_ok n v2p p _ c2 Hm Hp Hd2 Hok2 Hu2)|].
  intros [] c3 (Hok3 & Hu3 & Hp3). split_and!; [done|done|]. destruct Hs1 as [_ Hp1]. unfold same_place in *. intuition congruence.
Qed.

(** ** Entering a block *)

(** Only more pages are invalid. *)
Definition more_invalid (c c' : code_cache) : Prop :=
  blocks c' = blocks c /\ same_place c c' /\ forall p, is_invalid p c = true -> is_invalid p c' = true.

Lemma more_invalid_refl c : more_invalid c c.
Proof. by split_and!. Qed.
Lemma more_invalid_trans c1 c2 c3 : more_invalid c1 c2 -> more_invalid c2 c3 -> more_invalid c1 c3.
Proof. unfold more_invalid, same_place. intros (B1 & (? & ? & ?) & I1) (B2 & (? & ? & ?) & I2). split_and!; try congruence. auto. Qed.
Lemma set_invalid_more q c : more_invalid c (c <| invalid_code := <[q := true]> (invalid_code c) |>).
Proof. split_and!; [done..|]. intros p Hp. rewrite is_invalid_set. by destruct (decide (q = p)). Qed.

Lemma more_invalid_ok c c' : more_invalid c c' -> cache_ok c -> cache_ok c'.
Proof.
  intros (Eb & _ & Hi) [Hf Hv]. split.
  - intros p b es Hb He. rewrite Eb in Hb. by eapply Hf.
  - intros p Hp _. unfold has_entries. rewrite Eb. apply Hv; [|done]. apply not_true_iff_false. intros Ht. apply Hi in Ht. congruence.
Qed.

(** [if (invalid_code[p]) invalid_code[q] = 1;] *)
Definition spread (p q : Z) (c : code_cache) : code_cache :=
  if is_invalid p c then c <| invalid_code := <[q := true]> (invalid_code c) |> else c.

Lemma spread_more p q c : more_invalid c (spread p q c).
Proof. unfold spread. destruct (is_invalid p c); [apply set_invalid_more|apply more_invalid_refl]. Qed.
Lemma spread_invalid p q x c :
  is_invalid x (spread p q c) = is_invalid x c || (bool_decide (x = q) && is_invalid p c).
Proof.
  unfold spread. destruct (is_invalid p c); [|by rewrite andb_false_r, orb_false_r].
  rewrite is_invalid_set. destruct (decide (q = x)) as [->|Hne]; [by rewrite bool_decide_true, orb_true_r|].
  rewrite bool_decide_false by congruence. by rewrite orb_false_r.
Qed.
Lemma spread_run {B} p q (k : M code_cache B) c :
  (c0 <-- get ;;; when (is_invalid p c0) (set_invalid q true) ;;; k) c = k (spread p q c).
Proof. rewrite bind_get_l. unfold spread. by destruct (is_invalid p c). Qed.

Definition together (p q : Z) (c : code_cache) : code_cache := spread q p (spread p q c).
Lemma together_run p q c : invalid_together p q c = Ret (tt, together p q c).
Proof.
  unfold invalid_together. rewrite spread_run, bind_get_l. unfold together. generalize (spread p q c). intros c1. unfold spread.
  by destruct (is_invalid q c1).
Qed.
Lemma together_more p q c : more_invalid c (together p q c).
Proof. eapply more_invalid_trans; apply spread_more. Qed.
Lemma together_invalid p q c :
  p <> q -> is_invalid p (together p q c) = is_invalid p c || is_invalid q c /\ forall x, x <> p -> x <> q -> is_invalid x (together p q c) = is_invalid x c.
Proof.
  intros Hne. unfold together. split.
  - rewrite !spread_invalid, (bool_decide_true (p = p)), (bool_decide_true (q = q)), (bool_decide_false (p = q)) by done. destruct (is_invalid p c), (is_invalid q c); done.
  - intros x Hp Hq. rewrite !spread_invalid, (bool_decide_false (x = p)), (bool_decide_false (x = q)) by done. by rewrite !orb_false_r.
Qed.

(** The page of a direct-mapped address in the other segment. *)
Definition mirror_page (p : Z) : Z := if p <? 0xa0000 then p + 0x20000 else p - 0x20000.

Lemma update_direct_run a c :
  direct a = true -> update_invalid_direct a c = Ret (tt, together (page a) (mirror_page (page a)) c).
Proof.
  intros Hd. unfold direct in Hd. apply andb_prop in Hd as [H1%Z.leb_le H2%Z.ltb_lt].
  unfold update_invalid_direct, mirror_page. rewrite <- together_run.
  assert (page (a + 0x20000000) = page a + 0x20000) as -> by page_lia.
  assert (page (a - 0x20000000) = page a - 0x20000) as -> by page_lia.
  assert ((page a <? 0xa0000) = (a <? 0xa0000000)) as -> by (apply eq_true_iff_eq; rewrite !Z.ltb_lt; page_lia).
  destruct (Z.ltb_spec a 0xa0000000); repeat case_cmp; try lia; reflexivity.
Qed.

Lemma direct_page_of a : direct a = true -> direct_page (page a).
Proof. unfold direct, direct_page. intros [H1%Z.leb_le H2%Z.ltb_lt]%andb_prop. page_lia. Qed.

(** The last lines of [enter_block]. *)
Definition placed (p : Z) (c : code_cache) : code_cache := c <| actual := p |> <| PC_block := p |>.

Lemma placed_ok p c : cache_ok c -> cache_ok (placed p c).
Proof. intros Hok. exact Hok. Qed.

Lemma place_run p c :
  has_entries p c ->
  (c0 <-- get ;;;
   match blocks c0 !! p with
   | Some b => match entries b with Some _ => modify (placed p) | None => undef NullDeref end
   | None => undef NullDeref
   end) c = Ret (tt, placed p c).
Proof. intros (b & es & Eb & Ee). by rewrite bind_get_l, Eb, Ee. Qed.

Lemma untranslated_entries p c : untranslated p c -> has_entries p c.
Proof.
  intros [_ Hn]. destruct (Hn 0 ltac:(done)) as (e & Ee & _). unfold entry in Ee. unfold has_entries.
  destruct (blocks c !! p) as [b|]; [|done]. destruct (entries b) as [es|] eqn:E; [|done]. by exists b, es.
Qed.

(** Entering the block of a direct-mapped address: a page that was invalid, or whose
    mirror was, is translated anew; otherwise the blocks stay as they are. *)
Lemma enter_direct_ok v2p a c :
  is_u32 a -> direct a = true -> cache_ok c ->
  wp (enter_block v2p a a)
    (fun _ c' => cache_ok c' /\ PC_block c' = page a /\ actual c' = page a /\ is_invalid (page a) c' = false /\
       if is_invalid (page a) c || is_invalid (mirror_page (page a)) c then untranslated (page a) c'
       else blocks c' = blocks c) c.
Proof.
  intros Ha Hd Hok. pose proof (direct_page_of a Hd) as Hp. unfold direct_page in Hp.
  unfold wp, enter_block, update_invalid_addr. rewrite Hd, (bind_Ret _ _ _ _ _ (update_direct_run a c Hd)), bind_get_l.
  assert (mirror_page (page a) <> page a) as Hne by (unfold mirror_page; case_cmp; lia).
  pose proof (together_more (page a) (mirror_page (page a)) c) as Hm.
  destruct (together_invalid (page a) (mirror_page (page a)) c ltac:(congruence)) as [Ei _]. rewrite Ei.
  revert Hm Ei. generalize (together (page a) (mirror_page (page a)) c). intros c1 Hm Ei.
  pose proof (more_invalid_ok _ _ Hm Hok) as Hok1.
  destruct (is_invalid (page a) c || is_invalid (mirror_page (page a)) c) eqn:E.
  - destruct (ensured_facts (page a) c1 None Hok1) as (Hok2 & Hb & _ & _).
    rewrite bind_assoc, (bind_Ret _ _ _ _ _ (ensure_ok (page a) c1)).
    assert (ok_but (Some (page a)) (ensured (page a) c1)) as Hok2' by (destruct Hok2 as [? Hv]; split; [done|]; intros; by apply Hv).
    pose proof (init_direct_ok 1 v2p (page a) _ ltac:(lia) Hb Hok2') as W. apply wp_exists in W as ([] & c3 & Hrun & Hok3 & Hu & _).
    rewrite (bind_Ret _ _ _ _ _ Hrun). fold (placed (page a)). rewrite (place_run _ _ (untranslated_entries _ _ Hu)).
    split_and!; [done|done|done|exact (proj1 Hu)|exact Hu].
  - rewrite bind_ret_l. destruct Hok1 as [_ Hv]. pose proof (Hv (page a) Ei ltac:(done)) as He.
    fold (placed (page a)). rewrite (place_run _ _ He). split_and!; [|done|done|exact Ei|exact (proj1 Hm)].
    by apply placed_ok, (more_invalid_ok c).
Qed.

(** What address translation must give for a page with code in it: the addresses of
    the page have the physical addresses of one or two direct-mapped pages. *)
Definition translates_page (v2p : Z -> option Z) (a paddr : Z) : Prop :=
  let pa := u32 (paddr - in_page a) in
  v2p (page_start (page a)) = Some pa /\ direct paddr = true /\
  direct_page (page pa) /\ direct_page (page (u32 (pa + 0x1000 - 4))).

Lemma update_mapped_ok a paddr c :
  direct a = false -> direct paddr = true -> wp (update_invalid_addr a paddr) (fun _ c' => more_invalid c c') c.
Proof.
  intros Hd Hpd. unfold wp, update_invalid_addr. rewrite Hd. cbv zeta.
  rewrite (bind_Ret _ _ _ _ _ (update_direct_run paddr c Hpd)), !spread_run, bind_get_l.
  set (q := page (u32 (u32 (paddr - in_page a) + 0xFFC))). set (p := page (u32 (paddr - in_page a))).
  set (c1 := together _ _ c). set (c2 := spread p (page a) c1). set (c3 := spread q (page a) c2). set (c4 := spread (page a) p c3).
  assert (more_invalid c c4) as M4 by (do 3 (eapply more_invalid_trans; [|apply spread_more]); apply together_more).
  pose proof (spread_more (page a) q c4) as M5. unfold spread in M5. destruct (is_invalid (page a) c4); exact (more_invalid_trans _ _ _ M4 M5).
Qed.

Lemma enter_mapped_ok v2p a paddr c :
  is_u32 a -> direct a = false -> translates_page v2p a paddr -> cache_ok c ->
  wp (enter_block v2p a paddr)
    (fun _ c' => cache_ok c' /\ PC_block c' = page a /\ actual c' = page a /\ is_invalid (page a) c' = false) c.
Proof.
  intros Ha Hd (Hv & Hpd & Hd1 & Hd2) Hok. pose proof (page_range a Ha) as Hp.
  apply wp_bind. eapply wp_mono; [exact (update_mapped_ok a paddr c Hd Hpd)|]. intros [] c1 M1.
  pose proof (more_invalid_ok _ _ M1 Hok) as Hok1. unfold wp. rewrite bind_get_l. fold (placed (page a)).
  destruct (is_invalid (page a) c1) eqn:Ei.
  - destruct (ensured_facts (page a) c1 None Hok1) as (Hok2 & Hb & _ & _).
    rewrite bind_assoc, (bind_Ret _ _ _ _ _ (ensure_ok (page a) c1)).
    assert (ok_but (Some (page a)) (ensured (page a) c1)) as Hok2' by (destruct Hok2 as [? H2]; split; [done|]; intros; by apply H2).
    assert (exists c3, init_block block_depth v2p (page a) (ensured (page a) c1) = Ret (tt, c3) /\ cache_ok c3 /\ untranslated (page a) c3)
      as (c3 & Hrun & Hok3 & Hu).
    { destruct (mapped_block (page a)) eqn:Em.
      - pose proof (init_mapped_ok 0 v2p (page a) _ _ Em Hp Hv Hd1 Hd2 Hb Hok2') as W.
        apply wp_exists in W as ([] & c3 & Hrun & Hok3 & Hu & _). by exists c3.
      - apply direct_block in Em; [|done]. pose proof (init_direct_ok 1 v2p (page a) _ Em Hb Hok2') as W.
        apply wp_exists in W as ([] & c3 & Hrun & Hok3 & Hu & _). by exists c3. }
    rewrite (bind_Ret _ _ _ _ _ Hrun), (place_run _ _ (untranslated_entries _ _ Hu)). split_and!; [done..|exact (proj1 Hu)].
  - rewrite bind_ret_l. rewrite (place_run _ _ (proj2 Hok1 (page a) Ei ltac:(done))). by split_and!.
Qed.

(** ** Writes to code *)

Lemma in_page_index a : 0 <= in_page a / 4 < LENGTH.
Proof. rewrite in_page_mod. unfold LENGTH. Z.div_mod_to_equations. lia. Qed.

Lemma entry_exists p i c : cache_ok c -> has_entries p c -> 0 <= i < LENGTH -> exists e, entry p i c = Ret e.
Proof.
  intros [Hf _] (b & es & Eb & Ee) Hi. destruct (Hf p b es Eb Ee) as [H1 _]. destruct (H1 i Hi) as [e He].
  exists e. unfold entry. by rewrite Eb, Ee, He.
Qed.

(** [check_memory] makes the page invalid exactly when the entry is translated. *)
Definition checked (a : Z) (c : code_cache) : code_cache :=
  match entry (page a) (in_page a / 4) c with
  | Ret e => if negb (is_invalid (page a) c) && negb (is_not_compiled (ops e))
             then c <| invalid_code := <[page a := true]> (invalid_code c) |> else c
  | Undef _ => c
  end.

Lemma check_memory_run a c : cache_ok c -> check_memory a c = Ret (tt, checked a c).
Proof.
  intros Hok. unfold check_memory, checked. rewrite bind_get_l. destruct (is_invalid (page a) c) eqn:Ei; cbn [negb andb].
  - by destruct (entry _ _ c).
  - destruct (entry_exists (page a) _ c Hok (proj2 Hok (page a) Ei ltac:(done)) (in_page_index a)) as [e Ee].
    unfold when at 1. rewrite Ee. unfold lift, bind at 1. cbn [obind]. by destruct (is_not_compiled (ops e)).
Qed.
Lemma checked_more a c : more_invalid c (checked a c).
Proof.
  unfold checked. destruct (entry _ _ c); [|apply more_invalid_refl]. destruct (_ && _); [apply set_invalid_more|apply more_invalid_refl].
Qed.

Lemma code_written_ok n a c : cache_ok c -> wp (code_written n a) (fun _ c' => cache_ok c' /\ more_invalid c c') c.
Proof.
  revert a c. induction n as [|n IH]; intros a c Hok; [by split; [|apply more_invalid_refl]|].
  unfold wp. cbn [code_written]. pose proof (checked_more (u32 (a + 0x80000000)) c) as M1. pose proof (more_invalid_ok _ _ M1 Hok) as Hok1.
  rewrite (bind_Ret _ _ _ _ _ (check_memory_run _ _ Hok)), (bind_Ret _ _ _ _ _ (check_memory_run _ _ Hok1)).
  set (c1 := checked _ c) in *. pose proof (checked_more (u32 (a + 0xa0000000)) c1) as M2. pose proof (more_invalid_ok _ _ M2 Hok1) as Hok2.
  eapply wp_mono; [exact (IH (a + 1) _ Hok2)|]. intros [] c3 [Hok3 M3]. split; [done|].
  exact (more_invalid_trans _ _ _ M1 (more_invalid_trans _ _ _ M2 M3)).
Qed.
