(* ===== verification/BlockProps.v ===== *)
(** * Translating a block: what it produces and where it ends

    [recompile_block] on a page of the direct-mapped segments: the entries it fills,
    that control cannot run from them into entries it has not filled, that it ends,
    and when it leaves the array. *)

From S2P Require Import Prelude Hoare Machine Alu Translate CodeCache CodeProps.

Open Scope prog_scope.
#[local] Open Scope Z_scope.

(** ** Entries *)

(** The function chosen for a word does not depend on what the entry held before. *)
Definition independent (t : translator) : Prop := forall c e e', ops (t c e) = ops (t c e').

Lemma pick_independent table k : Forall independent table -> independent (pick table k).
Proof.
  intros Ht. unfold pick. destruct (table !! Z.to_nat k) as [t|] eqn:E; [|by intros c e e'].
  exact (Forall_lookup_1 _ _ _ _ Ht E).
Qed.

Ltac independent_table := repeat (apply Forall_cons; split; [by intros ? ? ?|]); apply Forall_nil; exact I.

Lemma regimm_independent : Forall independent recomp_regimm.
Proof. unfold recomp_regimm. independent_table. Qed.
Lemma tlb_independent : Forall independent recomp_tlb.
Proof. unfold recomp_tlb. independent_table. Qed.
Lemma float_independent :
  Forall independent recomp_s /\ Forall independent recomp_d /\ Forall independent recomp_w /\ Forall independent recomp_l.
Proof. unfold recomp_s, recomp_d, recomp_w, recomp_l. split_and!; independent_table. Qed.
Lemma bc_independent : Forall independent recomp_bc.
Proof. unfold recomp_bc. independent_table. Qed.
Lemma cop0_independent : Forall independent recomp_cop0.
Proof.
  unfold recomp_cop0. repeat (apply Forall_cons; split; [first [by intros ? ? ? | intros c; exact (pick_independent _ _ tlb_independent c)]|]).
  by apply Forall_nil.
Qed.
Lemma cop1_independent : Forall independent recomp_cop1.
Proof.
  destruct float_independent as (Hs & Hd & Hw & Hl). pose proof bc_independent as Hb.
  unfold recomp_cop1. repeat (apply Forall_cons; split;
    [first [by intros ? ? ? | intros c; first [exact (pick_independent _ _ Hs c)|exact (pick_independent _ _ Hd c)|
       exact (pick_independent _ _ Hw c)|exact (pick_independent _ _ Hl c)|exact (pick_independent _ _ Hb c)]]|]).
  by apply Forall_nil.
Qed.

Lemma special_independent k : independent (control_special_op k).
Proof. unfold control_special_op. repeat case_match; by intros ? ? ?. Qed.

Lemma control_independent k : independent (control_op k).
Proof.
  assert (independent RSPECIAL_control) by (intros c; exact (special_independent _ c)).
  assert (independent RREGIMM) by (intros c; exact (pick_independent _ _ regimm_independent c)).
  assert (independent RCOP0) by (intros c; exact (pick_independent _ _ cop0_independent c)).
  assert (independent RCOP1) by (intros c; exact (pick_independent _ _ cop1_independent c)).
  unfold control_op. repeat (case_match; try done).
Qed.

Lemma recompile_independent : independent recompile_op.
Proof.
  intros c e e'. unfold recompile_op. destruct (compile (t_src c)) as [[fn f]|]; [done|]. apply control_independent.
Qed.

(** What an entry becomes, and what is left of the entries that are not it. *)
Definition with_entry (p i : Z) (b : precomp_block) (es : gmap Z precomp_instr) (e : precomp_instr) (c : code_cache) : code_cache :=
  c <| blocks := <[p := b <| entries := Some (<[i := e]> es) |>]> (blocks c) |>.
Definition old_entry (es : gmap Z precomp_instr) (i : Z) : precomp_instr := default (Instr Op.NOTCOMPILED Unset) (es !! i).

Lemma set_entry_run p i g b es c :
  blocks c !! p = Some b -> entries b = Some es -> 0 <= i < ARRAY ->
  set_entry p i g c = Ret (tt, with_entry p i b es (g (old_entry es i)) c).
Proof.
  intros Eb Ee Hi. unfold set_entry. rewrite bind_get_l, Eb, Ee.
  destruct ((0 <=? i) && (i <? ARRAY)) eqn:E; [reflexivity|]. apply not_true_iff_false in E. rewrite andb_true_iff in E. lia.
Qed.
Lemma set_entry_out p i g c : has_entries p c -> ~ 0 <= i < ARRAY -> set_entry p i g c = Undef OutOfBounds.
Proof.
  intros (b & es & Eb & Ee) Hi. unfold set_entry. rewrite bind_get_l, Eb, Ee.
  destruct ((0 <=? i) && (i <? ARRAY)) eqn:E; [|reflexivity]. apply andb_prop in E. lia.
Qed.

Lemma with_entry_blocks p i b es e c :
  blocks (with_entry p i b es e c) !! p = Some (b <| entries := Some (<[i := e]> es) |>) /\
  forall q, q <> p -> blocks (with_entry p i b es e c) !! q = blocks c !! q.
Proof.
  unfold with_entry, upd_field. cbn. split; [by rewrite lookup_insert_eq|]. intros q Hq. by rewrite lookup_insert_ne.
Qed.
Lemma with_entry_at p i b es e c : entry p i (with_entry p i b es e c) = Ret e.
Proof.
  unfold entry. rewrite (proj1 (with_entry_blocks p i b es e c)). cbn. by rewrite lookup_insert_eq.
Qed.
Lemma with_entry_other p i b es e c q j :
  blocks c !! p = Some b -> entries b = Some es -> (q, j) <> (p, i) -> entry q j (with_entry p i b es e c) = entry q j c.
Proof.
  intros Eb Ee Hne. unfold entry. destruct (with_entry_blocks p i b es e c) as [E1 E2]. destruct (decide (q = p)) as [->|Hq].
  - rewrite E1, Eb, Ee. cbn. rewrite lookup_insert_ne; [done|congruence].
  - by rewrite E2.
Qed.
Lemma with_entry_ok p i b es e c :
  blocks c !! p = Some b -> entries b = Some es -> 0 <= i < ARRAY -> cache_ok c -> cache_ok (with_entry p i b es e c).
Proof.
  intros Eb Ee Hi [Hf Hv]. destruct (with_entry_blocks p i b es e c) as [E1 E2]. destruct (Hf p b es Eb Ee) as [F1 F2]. split.
  - intros q b' es' Eb' Ee'. destruct (decide (q = p)) as [->|Hq]; [|rewrite E2 in Eb' by done; by eapply Hf].
    rewrite E1 in Eb'. apply (inj Some) in Eb'. subst b'. apply (inj Some) in Ee'. subst es'. split.
    + intros j Hj. destruct (decide (i = j)) as [->|Hne]; [rewrite lookup_insert_eq|rewrite lookup_insert_ne by done]; eauto.
    + intros j. destruct (decide (i = j)) as [->|Hne]; [done|]. rewrite lookup_insert_ne by done. apply F2.
  - intros q Hq _. destruct (decide (q = p)) as [->|Hne]; [by do 2 eexists|].
    destruct (Hv q Hq ltac:(done)) as (b' & es' & Eb' & Ee'). exists b', es'. by rewrite E2.
Qed.

(** The cache but for the entries of page [p]. *)
Definition same_but (p : Z) (c c' : code_cache) : Prop :=
  invalid_code c' = invalid_code c /\ same_place c c' /\ (forall q, q <> p -> blocks c' !! q = blocks c !! q) /\
  (cache_ok c -> cache_ok c') /\ (has_entries p c -> has_entries p c').

Lemma with_entry_same p i b es e c :
  blocks c !! p = Some b -> entries b = Some es -> 0 <= i < ARRAY -> same_but p c (with_entry p i b es e c).
Proof.
  intros Eb Ee Hi. split; [done|]. split; [done|]. split; [|split].
  - apply with_entry_blocks.
  - by apply with_entry_ok.
  - intros _. destruct (with_entry_blocks p i b es e c) as [E1 _]. by do 2 eexists.
Qed.
Lemma same_but_refl p c : same_but p c c.
Proof. by split_and!. Qed.
Lemma same_but_trans p c1 c2 c3 : same_but p c1 c2 -> same_but p c2 c3 -> same_but p c1 c3.
Proof.
  intros (I1 & (A1 & B1 & C1) & Q1 & O1 & H1) (I2 & (A2 & B2 & C2) & Q2 & O2 & H2).
  split; [congruence|]. split; [split_and!; congruence|]. split; [|split]; [|auto..]. intros q Hq. by rewrite Q2, Q1.
Qed.

(** ** The loop *)

Section Loop.
Variables (v2p : Z -> option Z) (source : Z -> outcome Z) (p : Z).
Hypothesis direct_p : 0x80000 <= p < 0xc0000.

Lemma not_mapped : mapped_block p = false /\ (page_start p <? 0x80000000) || (0xc0000000 <=? page_start p) = false.
Proof.
  split; [apply direct_block; unfold is_page; lia|]. apply not_true_iff_false. rewrite orb_true_iff, Z.ltb_lt, Z.leb_le.
  unfold page_start. lia.
Qed.

(** The translation of word [j]. *)
Definition translated (j : Z) (c : code_cache) : Prop :=
  exists src next e0, source j = Ret src /\ source (j + 1) = Ret next /\ entry p j c = Ret (translate_at p j src next e0).

(** Control does not run on past the entries before [i]. *)
Definition closed (i : Z) (c : code_cache) : Prop :=
  LENGTH <= i \/
  (exists e, entry p (i - 1) c = Ret e /\ is_ERET (ops e) = true) \/
  (exists e, entry p (i - 2) c = Ret e /\ ends_block (ops e) = true).

(** One round of the loop. *)
Lemma loop_step fuel i fin c :
  fin <> 2 ->
  recompile_loop (S fuel) v2p source p i fin c =
    match source i, source (i + 1) with
    | Ret src, Ret next =>
        (set_entry p i (translate_at p i src next) ;;;
         c <-- get ;;; e <-- lift (entry p i c) ;;;
         recompile_loop fuel v2p source p (i + 1) (finished_after p i (ops e) fin)) c
    | Ret _, Undef f => Undef f
    | Undef f, _ => Undef f
    end.
Proof.
  intros Hf. cbn [recompile_loop]. destruct (Z.eqb_spec fin 2); [done|]. destruct not_mapped as [_ ->]. rewrite bind_ret_l.
  unfold bind at 1. unfold lift at 1. destruct (source i); [|done]. cbn [obind]. unfold bind at 1. unfold lift at 1.
  by destruct (source (i + 1)).
Qed.

Lemma finished_cases i o fin :
  0 <= i -> fin = 0 \/ fin = 1 ->
  finished_after p i o fin = 0 \/ (finished_after p i o fin = 1 /\ ends_block o = true) \/
  (finished_after p i o fin = 2 /\ (LENGTH <= i + 1 \/ is_ERET o = true \/ fin = 1)).
Proof.
  intros Hi Hf. unfold finished_after. destruct not_mapped as [-> _]. rewrite andb_false_r. cbn [negb]. rewrite andb_true_r.
  destruct (ends_block o); [by right; left|].
  change (LENGTH - 2 + LENGTH / 4) with 1278. change (LENGTH - 1) with 1023. change LENGTH with 1024.
  destruct (is_ERET o) eqn:Er; cbn [orb]; [right; right; tauto|].
  destruct (Z.leb_spec 1278 i); [destruct ((1023 <=? i) && _); right; right; split; try done; lia|].
  destruct (Z.leb_spec 1023 i); cbn [andb]; [|destruct Hf as [-> | ->]; [by left|right; right; tauto]].
  destruct ((page_start p =? 0xa4000000) || false); [right; right; split; try done; lia|].
  destruct Hf as [-> | ->]; [by left|right; right; tauto].
Qed.
(** What a run from [i] to [iend] has done. *)
Definition ran (i iend : Z) (c c' : code_cache) : Prop :=
  i <= iend /\ (forall j, i <= j < iend -> translated j c') /\
  (forall j, ~ i <= j < iend -> entry p j c' = entry p j c) /\ same_but p c c'.

Lemma ran_step i iend c c1 c' :
  ran (i + 1) iend c1 c' -> translated i c1 -> (forall j, j <> i -> entry p j c1 = entry p j c) -> same_but p c c1 ->
  ran i iend c c'.
Proof.
  intros (Hle & Ht & Ho & Hs) Hi Ho1 Hs1. split_and!; [lia| | |exact (same_but_trans _ _ _ _ Hs1 Hs)].
  - intros j Hj. destruct (decide (j = i)) as [->|Hne]; [|apply Ht; lia].
    destruct Hi as (src & next & e0 & E1 & E2 & E3). exists src, next, e0. split_and!; [done|done|]. rewrite Ho by lia. exact E3.
  - intros j Hj. rewrite Ho by lia. apply Ho1. lia.
Qed.

Lemma loop_ran fuel i fin c iend c' :
  0 <= i -> has_entries p c -> fin = 0 \/ fin = 1 \/ fin = 2 ->
  (fin = 1 -> exists e, entry p (i - 1) c = Ret e /\ ends_block (ops e) = true) -> (fin = 2 -> closed i c) ->
  recompile_loop fuel v2p source p i fin c = Ret (iend, c') ->
  ran i iend c c' /\ closed iend c' /\ (fin <> 2 -> i < iend).
Proof.
  revert i fin c. induction fuel as [|fuel IH]; intros i fin c Hi He Hf H1 H2 Hrun; [done|].
  destruct (decide (fin = 2)) as [->|Hn2].
  - cbn in Hrun. injection Hrun as <- <-. split; [|split; [auto|lia]]. split_and!; [lia|lia|done|apply same_but_refl].
  - rewrite loop_step in Hrun by done. destruct (source i) as [src|] eqn:Es; [|done]. destruct (source (i + 1)) as [next|] eqn:En; [|done].
    destruct (decide (0 <= i < ARRAY)) as [Hin|Hout].
    2: { unfold bind at 1 in Hrun. rewrite (set_entry_out _ _ _ _ He Hout) in Hrun. done. }
    destruct He as (b & es & Eb & Ee). rewrite (bind_Ret _ _ _ _ _ (set_entry_run _ _ _ _ _ _ Eb Ee Hin)), bind_get_l in Hrun.
    set (e := translate_at p i src next (old_entry es i)) in *. set (c1 := with_entry p i b es e c) in *.
    pose proof (with_entry_at p i b es e c : entry p i c1 = Ret e) as E1. rewrite E1 in Hrun. unfold bind, lift in Hrun. cbn [obind] in Hrun.
    pose proof (with_entry_same p i b es e c Eb Ee Hin : same_but p c c1) as Hs1.
    assert (forall j, j <> i -> entry p j c1 = entry p j c) as Ho by (intros j Hj; apply (with_entry_other p i b es e c p j Eb Ee); congruence).
    apply IH in Hrun as (Hr & Hc & _).
    + split; [|split; [exact Hc|intros _; destruct Hr; lia]]. apply (ran_step i iend c c1 c' Hr); [|exact Ho|exact Hs1]. by exists src, next, (old_entry es i).
    + lia.
    + apply Hs1. by exists b, es.
    + destruct (finished_cases i (ops e) fin Hi ltac:(tauto)) as [->|[[-> _]|[-> _]]]; tauto.
    + intros Ef. destruct (finished_cases i (ops e) fin Hi ltac:(tauto)) as [E|[[_ E]|[E _]]]; [lia| |lia].
      exists e. by replace (i + 1 - 1) with i by lia.
    + intros Ef. destruct (finished_cases i (ops e) fin Hi ltac:(tauto)) as [E|[[E _]|[_ E]]]; [lia|lia|].
      unfold closed. destruct E as [E|[E|E]]; [by left|right; left; exists e; by replace (i + 1 - 1) with i by lia|].
      right; right. destruct (H1 E) as (e' & Ee' & Hb). exists e'. replace (i + 1 - 2) with (i - 1) by lia. by rewrite Ho by lia.
Qed.

(** *** The whole block *)

Lemma hash_same c : same_but p c (c <| blocks := alter (fun b => b <| hash := Some 0 |>) p (blocks c) |>).
Proof.
  set (c1 := c <| blocks := _ |>).
  assert (forall q, q <> p -> blocks c1 !! q = blocks c !! q) as Eo by (intros q Hq; unfold c1, upd_field; cbn; by rewrite lookup_alter_ne).
  assert (blocks c1 !! p = (fun b : precomp_block => b <| hash := Some 0 |>) <$> blocks c !! p) as Ep
    by (unfold c1, upd_field; cbn; by rewrite lookup_alter_eq).
  assert (forall q, has_entries q c -> has_entries q c1) as Hh.
  { intros q (b & es & Eb & Ee). destruct (decide (q = p)) as [->|Hq]; [|exists b, es; by rewrite Eo].
    exists (b <| hash := Some 0 |>), es. by rewrite Ep, Eb. }
  split; [done|]. split; [done|]. split; [exact Eo|]. split; [|apply Hh].
  intros [Hf Hv]. split; [|intros q Hq Hx; apply Hh, Hv; done].
  intros q b es Eb Ee. destruct (decide (q = p)) as [->|Hq]; [|rewrite Eo in Eb by done; by eapply Hf].
  rewrite Ep in Eb. destruct (blocks c !! p) as [b0|] eqn:E0; [|done]. apply (inj Some) in Eb. subst b. by eapply Hf.
Qed.
Lemma hash_entry j c : entry p j (c <| blocks := alter (fun b => b <| hash := Some 0 |>) p (blocks c) |>) = entry p j c.
Proof. unfold entry, upd_field at 1. cbn. rewrite lookup_alter_eq. by destruct (blocks c !! p). Qed.

Definition is_FIN (o : Op.t) : bool := match o with Op.FIN_BLOCK => true | _ => false end.

Lemma fin_entry_run i c :
  has_entries p c -> 0 <= i < ARRAY ->
  exists c' e, fin_entry p i c = Ret (tt, c') /\ entry p i c' = Ret e /\ is_FIN (ops e) = true /\
    (forall j, j <> i -> entry p j c' = entry p j c) /\ same_but p c c'.
Proof.
  intros (b & es & Eb & Ee) Hi. do 2 eexists. split; [exact (set_entry_run _ _ _ _ _ _ Eb Ee Hi)|].
  split; [apply with_entry_at|]. split; [done|]. split; [|by apply with_entry_same].
  intros j Hj. apply with_entry_other; [done|done|congruence].
Qed.

(** The entries behind the last one. *)
Definition fin_entries (iend : Z) : M code_cache unit :=
  when (LENGTH <=? iend) (fin_entry p iend ;;; when (iend + 1 <? LENGTH - 1 + LENGTH / 4) (fin_entry p (iend + 1))).

Lemma fin_entries_ran iend c c' :
  0 <= iend -> has_entries p c -> fin_entries iend c = Ret (tt, c') ->
  same_but p c c' /\ (forall j, j < iend \/ (iend < LENGTH) -> entry p j c' = entry p j c) /\
  (LENGTH <= iend -> exists e, entry p iend c' = Ret e /\ is_FIN (ops e) = true).
Proof.
  intros Hi He. unfold fin_entries, when. destruct (Z.leb_spec LENGTH iend) as [Hl|Hl].
  2: { intros [= <-]. split_and!; [apply same_but_refl|done|lia]. }
  destruct (decide (0 <= iend < ARRAY)) as [Ha|Ha].
  2: { unfold bind at 1, fin_entry at 1. by rewrite (set_entry_out _ _ _ _ He Ha). }
  destruct (fin_entry_run iend c He Ha) as (c1 & e1 & R1 & E1 & F1 & O1 & S1). rewrite (bind_Ret _ _ _ _ _ R1).
  destruct (Z.ltb_spec (iend + 1) (LENGTH - 1 + LENGTH / 4)) as [Hn|Hn].
  - change (LENGTH - 1 + LENGTH / 4) with 1279 in Hn.
    destruct (fin_entry_run (iend + 1) c1 (proj2 (proj2 (proj2 (proj2 S1))) He)) as (c2 & e2 & R2 & E2 & F2 & O2 & S2); [change ARRAY with 1281; lia|].
    rewrite R2. intros [= <-]. split_and!; [by eapply same_but_trans| |].
    + intros j Hj. rewrite O2, O1; [done|lia|lia].
    + intros _. exists e1. by rewrite O2 by lia.
  - intros [= <-]. split_and!; [done| |].
    + intros j Hj. apply O1. lia.
    + intros _. by exists e1.
Qed.

Lemma recompile_ran func c c' :
  has_entries p c -> recompile_block v2p source p func c = Ret (tt, c') ->
  exists iend, in_page func / 4 < iend /\
    (forall j, in_page func / 4 <= j < iend -> translated j c') /\ closed iend c' /\
    (LENGTH <= iend -> exists e, entry p iend c' = Ret e /\ is_FIN (ops e) = true) /\
    (forall j, j < in_page func / 4 \/ (iend <= j < LENGTH) -> entry p j c' = entry p j c) /\ same_but p c c'.
Proof.
  intros He Hrun. unfold recompile_block in Hrun. rewrite bind_modify_l in Hrun. set (c1 := c <| blocks := _ |>) in Hrun.
  pose proof (hash_same c : same_but p c c1) as S1. assert (forall j, entry p j c1 = entry p j c) as E1 by (intros; apply hash_entry).
  pose proof (proj2 (proj2 (proj2 (proj2 S1))) He) as He1. unfold bind in Hrun.
  destruct (recompile_loop loop_fuel v2p source p (in_page func / 4) 0 c1) as [[iend c2]|] eqn:El; [|done]. cbn [obind] in Hrun.
  pose proof (in_page_index func) as Hi.
  apply loop_ran in El as ((Hle & Ht & Ho & S2) & Hc & Hlt); [|lia|done|lia|lia|lia].
  specialize (Hlt ltac:(done)). pose proof (proj2 (proj2 (proj2 (proj2 S2))) He1) as He2.
  apply (fin_entries_ran iend c2 c') in Hrun as (S3 & O3 & F3); [|lia|done].
  exists iend. split_and!; [done| | |exact F3| |exact (same_but_trans _ _ _ _ S1 (same_but_trans _ _ _ _ S2 S3))].
  - intros j Hj. destruct (Ht j Hj) as (src & next & e0 & A & B & D). exists src, next, e0. by rewrite O3 by lia.
  - destruct Hc as [Hc|[(e & A & B)|(e & A & B)]]; [by left|right; left|right; right]; exists e; by rewrite O3 by lia.
  - intros j Hj. rewrite O3, Ho, E1; [done|lia|lia].
Qed.

(** *** Where it ends *)

Variable word : Z -> Z.
Definition op_at (j : Z) : Op.t := ops (translate_at p j (word j) (word (j + 1)) (Instr Op.NOTCOMPILED Unset)).

Lemma finished_late i o fin : 1278 <= i -> finished_after p i o fin = if ends_block o then 1 else 2.
Proof.
  intros Hi. unfold finished_after. destruct not_mapped as [-> _]. rewrite andb_false_r. cbn [negb]. rewrite andb_true_r.
  change (LENGTH - 2 + LENGTH / 4) with 1278. destruct (Z.leb_spec 1278 i); [|lia]. destruct (ends_block o); [done|].
  destruct ((_ <=? i) && _); by destruct (is_ERET o).
Qed.

(** One round with the word there and room in the array. *)
Lemma loop_go fuel i fin c :
  fin <> 2 -> source i = Ret (word i) -> source (i + 1) = Ret (word (i + 1)) -> has_entries p c -> 0 <= i < ARRAY ->
  exists c1, has_entries p c1 /\
    recompile_loop (S fuel) v2p source p i fin c = recompile_loop fuel v2p source p (i + 1) (finished_after p i (op_at i) fin) c1.
Proof.
  intros Hf Es En (b & es & Eb & Ee) Hi. rewrite loop_step, Es, En by done.
  rewrite (bind_Ret _ _ _ _ _ (set_entry_run _ _ _ _ _ _ Eb Ee Hi)), bind_get_l.
  set (e := translate_at p i (word i) (word (i + 1)) (old_entry es i)). exists (with_entry p i b es e c).
  split; [apply (with_entry_same p i b es e c Eb Ee Hi); by exists b, es|].
  rewrite (with_entry_at p i b es e c). unfold bind, lift. cbn [obind].
  by replace (ops e) with (op_at i) by apply recompile_independent.
Qed.

(** The state of the loop before entry [i]. *)
Definition on_the_way (i fin : Z) : Prop :=
  (i <= 1278 /\ (fin = 0 \/ fin = 1 \/ fin = 2)) \/ (i = 1279 /\ (fin = 2 \/ (fin = 1 /\ ends_block (op_at 1278) = true))) \/ (i = 1280 /\ fin = 2).

Lemma loop_ends fuel i fin c :
  (forall j, i <= j <= 1281 -> source j = Ret (word j)) ->
  ends_block (op_at 1278) && ends_block (op_at 1279) = false ->
  0 <= i -> on_the_way i fin -> (Z.to_nat (1281 - i) < fuel)%nat -> has_entries p c ->
  exists iend c', recompile_loop fuel v2p source p i fin c = Ret (iend, c') /\ 0 <= iend <= 1280 /\ has_entries p c'.
Proof.
  revert i fin c. induction fuel as [|fuel IH]; intros i fin c Hw Hsafe Hi Hway Hfuel He; [lia|].
  destruct (decide (fin = 2)) as [->|Hn2].
  { exists i, c. split; [done|]. split; [|done]. unfold on_the_way in Hway. lia. }
  assert (i <= 1279) as Hle by (unfold on_the_way in Hway; lia).
  destruct (loop_go fuel i fin c Hn2 (Hw i ltac:(lia)) (Hw (i + 1) ltac:(lia)) He) as (c1 & He1 & ->); [change ARRAY with 1281; lia|].
  apply IH; [intros j Hj; apply Hw; lia|done|lia| |lia|done].
  destruct (decide (i < 1278)) as [Hlt|Hge].
  - left. split; [lia|]. destruct (finished_cases i (op_at i) fin Hi) as [->|[[-> _]|[-> _]]]; [unfold on_the_way in Hway; lia|tauto..].
  - rewrite finished_late by lia. unfold on_the_way in *. destruct (decide (i = 1278)) as [->|Hne].
    + destruct (ends_block (op_at 1278)); [right; left; split; [lia|tauto]|right; left; split; [lia|tauto]].
    + assert (i = 1279) as -> by lia. destruct Hway as [?|[(_ & Hfin)|?]]; [lia| |lia].
      destruct Hfin as [?|[_ E]]; [done|]. rewrite E in Hsafe. cbn [andb] in Hsafe. rewrite Hsafe. right; right. lia.
Qed.

(** A translation ends, and stays within the array, unless entries 1278 and 1279 both
    are jumps. *)
Lemma recompile_ends func c :
  (forall j, in_page func / 4 <= j <= 1281 -> source j = Ret (word j)) ->
  ends_block (op_at 1278) && ends_block (op_at 1279) = false -> has_entries p c ->
  exists c', recompile_block v2p source p func c = Ret (tt, c').
Proof.
  intros Hw Hsafe He. unfold recompile_block. rewrite bind_modify_l. set (c1 := c <| blocks := _ |>).
  pose proof (proj2 (proj2 (proj2 (proj2 (hash_same c : same_but p c c1)))) He) as He1. pose proof (in_page_index func) as Hi.
  change LENGTH with 1024 in Hi.
  destruct (loop_ends loop_fuel (in_page func / 4) 0 c1 Hw Hsafe) as (iend & c2 & R & Hb & He2);
    [lia|left; split; [lia|tauto]|unfold loop_fuel; change ARRAY with 1281; lia|done|].
  rewrite (bind_Ret _ _ _ _ _ R). change (when (LENGTH <=? iend) _) with (fin_entries iend).
  unfold fin_entries, when. destruct (Z.leb_spec LENGTH iend); [|by eexists].
  destruct (fin_entry_run iend c2 He2) as (c3 & e3 & R3 & _ & _ & _ & S3); [change ARRAY with 1281; lia|].
  rewrite (bind_Ret _ _ _ _ _ R3). change (LENGTH - 1 + LENGTH / 4) with 1279.
  destruct (Z.ltb_spec (iend + 1) 1279); [|by eexists].
  destruct (fin_entry_run (iend + 1) c3 (proj2 (proj2 (proj2 (proj2 S3))) He2)) as (c4 & _ & R4 & _); [change ARRAY with 1281; lia|].
  by exists c4.
Qed.

(** Two jumps there make it write behind the array. *)
Lemma loop_reaches k fuel i c :
  i + Z.of_nat k = 1278 -> 0 <= i -> page_start p <> 0xa4000000 ->
  (forall j, i <= j <= 1282 -> source j = Ret (word j)) ->
  (forall j, i <= j < 1278 -> ends_block (op_at j) = false /\ is_ERET (op_at j) = false) -> has_entries p c ->
  exists c1, has_entries p c1 /\
    recompile_loop (k + fuel) v2p source p i 0 c = recompile_loop fuel v2p source p 1278 0 c1.
Proof.
  intros Hk Hi Hb. revert i c Hk Hi. induction k as [|k IH]; intros i c Hk Hi Hw Hn He.
  { exists c. split; [done|]. by replace i with 1278 by lia. }
  rewrite Nat2Z.inj_succ in Hk. cbn [Nat.add].
  destruct (loop_go (k + fuel) i 0 c ltac:(done) (Hw i ltac:(lia)) (Hw (i + 1) ltac:(lia)) He) as (c1 & He1 & ->); [change ARRAY with 1281; lia|].
  assert (finished_after p i (op_at i) 0 = 0) as ->.
  { destruct (Hn i ltac:(lia)) as [E1 E2]. unfold finished_after. rewrite E1, E2. destruct not_mapped as [-> _].
    change (LENGTH - 2 + LENGTH / 4) with 1278. destruct (Z.leb_spec 1278 i); [lia|]. destruct (Z.eqb_spec (page_start p) 0xa4000000); [done|].
    cbn [orb]. rewrite andb_false_r. reflexivity. }
  apply IH; [lia|lia|intros; apply Hw; lia|intros; apply Hn; lia|done].
Qed.

Lemma recompile_overruns func c :
  page_start p <> 0xa4000000 ->
  (forall j, in_page func / 4 <= j <= 1282 -> source j = Ret (word j)) ->
  (forall j, in_page func / 4 <= j < 1278 -> ends_block (op_at j) = false /\ is_ERET (op_at j) = false) ->
  ends_block (op_at 1278) = true -> ends_block (op_at 1279) = true -> has_entries p c ->
  recompile_block v2p source p func c = Undef OutOfBounds.
Proof.
  intros Hb Hw Hn E1 E2 He. unfold recompile_block. rewrite bind_modify_l. set (c1 := c <| blocks := _ |>).
  pose proof (proj2 (proj2 (proj2 (proj2 (hash_same c : same_but p c c1)))) He) as He1. pose proof (in_page_index func) as Hi.
  change LENGTH with 1024 in Hi. set (i0 := in_page func / 4) in *.
  assert (exists f, loop_fuel = (Z.to_nat (1278 - i0) + (4 + f))%nat) as [f Ef].
  { exists (Z.to_nat (i0 + 1)). unfold loop_fuel. change ARRAY with 1281. lia. }
  destruct (loop_reaches (Z.to_nat (1278 - i0)) (4 + f) i0 c1) as (c2 & He2 & Er); [lia|lia|done|done|done|done|].
  rewrite <- Ef in Er. unfold bind at 1. rewrite Er. change (4 + f)%nat with (S (S (S (S f)))). clear Er.
  destruct (loop_go (S (S (S f))) 1278 0 c2 ltac:(done) (Hw 1278 ltac:(lia)) (Hw 1279 ltac:(lia)) He2) as (c3 & He3 & ->); [change ARRAY with 1281; lia|].
  rewrite finished_late, E1 by lia. change (1278 + 1) with 1279.
  destruct (loop_go (S (S f)) 1279 1 c3 ltac:(done) (Hw 1279 ltac:(lia)) (Hw 1280 ltac:(lia)) He3) as (c4 & He4 & ->); [change ARRAY with 1281; lia|].
  rewrite finished_late, E2 by lia. change (1279 + 1) with 1280.
  destruct (loop_go (S f) 1280 1 c4 ltac:(done) (Hw 1280 ltac:(lia)) (Hw 1281 ltac:(lia)) He4) as (c5 & He5 & ->); [change ARRAY with 1281; lia|].
  rewrite finished_late by lia. change (1280 + 1) with 1281. destruct (ends_block (op_at 1280)).
  - rewrite loop_step, (Hw 1281), (Hw (1281 + 1)) by (done || lia). unfold bind at 1.
    by rewrite (set_entry_out p 1281 _ c5 He5) by (change ARRAY with 1281; lia).
  - change (recompile_loop (S f) v2p source p 1281 2 c5) with (Ret (1281, c5)). cbn [obind]. change (LENGTH <=? 1281) with true.
    unfold when at 1. unfold bind at 1. unfold fin_entry at 1.
    by rewrite (set_entry_out p 1281 _ c5 He5) by (change ARRAY with 1281; lia).
Qed.
End Loop.
