(* ===== verification/CachedProps.v ===== *)
(** * What the cached interpreter guarantees

    Branches and jumps with an integer instruction in the delay slot, run on
    translated entries, do what the instruction set says, and so the same as in the
    pure interpreter. *)

From S2P Require Import Prelude Queue Machine Exception Alu AluProps Tlb DeviceState Core Bus LoadStore Cop Interp InterpProps Translate CodeCache Cached CachedOps CodeProps BlockProps.

Open Scope prog_scope.
#[local] Open Scope Z_scope.

Section Steps.
Context {Q : Type} `{EventQueue Q} `{Devices Q} `{CachedFpu Q} `{PageHash}.
#[local] Abbreviation st := (cached Q).
Implicit Types s : st.

(** ** Control code that asks nothing of the code cache *)

Lemma on_core_quiet {A} (c : M (core Q) A) s a k :
  c (k_core s) = Ret (a, k) -> host_calls (c_mach k) = host_calls (mach s) -> on_core c s = Ret (a, s <| k_core := k |>).
Proof. intros E Hh. unfold on_core. rewrite E, Hh, drop_all. by destruct s. Qed.

Lemma ctl_quiet {A} (c : M (machine Q) A) s a m :
  c (mach s) = Ret (a, m) -> host_calls m = host_calls (mach s) ->
  ctl c s = Ret (a, s <| k_core := (k_core s) <| c_mach := m |> |>).
Proof. intros E Hh. apply on_core_quiet; [|exact Hh]. unfold on_mach. fold (mach s). by rewrite E. Qed.

Definition with_mach (g : machine Q -> machine Q) s : st := s <| k_core := (k_core s) <| c_mach := g (mach s) |> |>.

(** [update_count] outside the pure interpreter. *)
Definition counted (m : machine Q) : machine Q :=
  set_Count (u32 (Count m + u32 (PC_addr m - last_addr m) / 2)) m <| last_addr := PC_addr m |>.

Lemma count_ok s : interpcore (mach s) = false -> ctl update_count s = Ret (tt, with_mach counted s).
Proof. intros Hi. apply ctl_quiet; [|done]. unfold update_count, modify. by rewrite Hi. Qed.

Definition calm s : Prop := Count (mach s) < next_interrupt_of (mach s).
Definition settled : st -> st := with_mach (fun m => m <| last_addr := PC_addr m |>).

Lemma k_finish_calm s : calm s -> Cached.finish s = Ret (tt, settled s).
Proof.
  intros Hc. unfold Cached.finish. apply (ctl_quiet _ s tt ((mach s) <| last_addr := PC_addr (mach s) |>)); [|done].
  rewrite bind_modify_l. unfold interrupt_if_due. rewrite bind_get_l.
  unfold calm in Hc. revert Hc. generalize (mach s). intros m Hc.
  change (Count (m <| last_addr := PC_addr m |>)) with (Count m).
  change (next_interrupt_of (m <| last_addr := PC_addr m |>)) with (next_interrupt_of m).
  by destruct (Z.leb_spec (next_interrupt_of m) (Count m)); [lia|].
Qed.

(** ** The delay slot *)

Definition at_slot : st -> st := with_mach (fun m => m <| PC_addr := u32 (PC_addr m + 4) |> <| delay_slot := 1 |>).
Definition leave_slot : st -> st := with_mach (fun m => counted m <| delay_slot := 0 |>).

Lemma k_delay_ok slot s s1 :
  slot (at_slot s) = Ret (tt, s1) -> interpcore (mach s1) = false -> Cached.delay slot s = Ret (tt, leave_slot s1).
Proof.
  intros E Hi. unfold Cached.delay. erewrite bind_Ret by reflexivity. erewrite bind_Ret by reflexivity.
  erewrite bind_Ret by exact E. erewrite bind_Ret by exact (count_ok _ Hi). reflexivity.
Qed.

(** The entry [k] behind [PC]. *)
Definition entry_at s (k : Z) (e : precomp_instr) : Prop :=
  entry (PC_block (k_code s)) ((pc_now s - page_start (PC_block (k_code s))) / 4 + k) (k_code s) = Ret e.

Lemma at_pc_ok s k e : entry_at s k e -> at_pc k s = Ret (e, s).
Proof. intros E. unfold at_pc. rewrite bind_get_l. unfold entry_at in E. by rewrite E. Qed.

(** An integer instruction as an entry. *)
Lemma exec_integer n s e fn f c :
  entry_at s 0 e -> e = Instr (Op.INTEGER fn) (FI f) \/ e = Instr (Op.INTEGER fn) (FR f) -> fn f (regs s) = Ret (tt, c) ->
  CachedOps.exec (S n) s = Ret (tt, set_regs c s).
Proof.
  intros He Hf Hr. cbn [CachedOps.exec]. rewrite (bind_Ret _ _ _ _ _ (at_pc_ok _ _ _ He)).
  unfold run_entry. destruct Hf as [-> | ->]; cbn [ops opnds]; unfold on_regs; by rewrite Hr.
Qed.

(** ** Jumps *)

Definition pc_moved (a : Z) : st -> st := with_mach (fun m => m <| PC_addr := a |>).

(** A jump out of the block, to a direct-mapped address: the block is found or made,
    and execution continues at the target. *)
Lemma jump_ok s t :
  skip_jump (mach s) = 0 -> direct (u32 t) = true -> cache_ok (k_code s) ->
  exists m c, jump t s = Ret (tt, Cached ((k_core s) <| c_mach := m |>) c) /\
    m = host (HJumpTo (u32 t) (u32 t)) ((mach s) <| PC_addr := u32 t |>) /\
    cache_ok c /\ PC_block c = page (u32 t) /\ is_invalid (page (u32 t)) c = false.
Proof.
  intros Hs Hd Hok. set (m := host (HJumpTo (u32 t) (u32 t)) ((mach s) <| PC_addr := u32 t |>)).
  assert (on_mach (jump_to (u32 t)) (k_core s) = Ret (tt, (k_core s) <| c_mach := m |>)) as E.
  { unfold on_mach, jump_to. fold (mach s). rewrite bind_get_l, Hs. change (negb (0 =? 0)) with false. cbv iota. unfold direct in Hd.
    rewrite Hd. unfold jump_to_mapped. rewrite bind_get_l, Hs. reflexivity. }
  pose proof (enter_direct_ok (translation m) (u32 t) (k_code s) (u32_range t) Hd Hok) as W.
  apply wp_exists in W as ([] & c & Hr & Hok' & Hp & _ & Hi & _). exists m, c. split; [|done].
  unfold jump, ctl, on_core. rewrite E.
  change (c_mach ((k_core s) <| c_mach := m |>)) with m. change (host_calls m) with (host_calls (mach s) ++ [HJumpTo (u32 t) (u32 t)]).
  rewrite drop_app_length. cbn [code_calls code_call]. by rewrite (bind_Ret _ _ _ _ _ Hr).
Qed.

(** ** A branch with an integer instruction behind it *)

(** The branch is entry [i] of the block of page [p], translated from [w]; the entry
    behind it is an integer instruction that leaves the registers [c1]. *)
Record k_slotted s (w : Z) (c1 : cpu) : Prop := {
  ks_core : interpcore (mach s) = false;
  ks_skip : skip_jump (mach s) = 0;
  ks_ok : cache_ok (k_code s);
  ks_here : in_ram (pc_now s);
  ks_next : in_ram (pc_now s + 4);
  ks_block : page_start (PC_block (k_code s)) <= pc_now s;
  ks_page : 0x80000 <= PC_block (k_code s) < 0xc0000;
  ks_entry : exists next e0, entry_at s 0 (translate_at (PC_block (k_code s)) ((pc_now s - page_start (PC_block (k_code s))) / 4) w next e0);
  ks_slot : exists e fn f, entry_at s 1 e /\ (e = Instr (Op.INTEGER fn) (FI f) \/ e = Instr (Op.INTEGER fn) (FR f)) /\
              fn f ((regs s) <| pc := pc_now s + 4 |>) = Ret (tt, c1);
  ks_pc : pc c1 = pc_now s + 8;
  ks_regs : length (reg c1) = 32%nat;
  ks_calm : calm s;
  ks_calm' : u32 (Count (mach s) + u32 (pc_now s + 8 - last_addr (mach s)) / 2) < next_interrupt_of (mach s);
}.

(** Only what branches keep for themselves differs. *)
Definition k_same s s1 : Prop :=
  c_reg (k_core s1) = c_reg (k_core s) /\ c_hi (k_core s1) = c_hi (k_core s) /\ c_lo (k_core s1) = c_lo (k_core s) /\
  mach s1 = mach s /\ rdram (k_core s1) = rdram (k_core s) /\ SP_MEM (k_core s1) = SP_MEM (k_core s) /\
  c_cop1 (k_core s1) = c_cop1 (k_core s) /\ blocks (k_code s1) = blocks (k_code s) /\
  invalid_code (k_code s1) = invalid_code (k_code s) /\ PC_block (k_code s1) = PC_block (k_code s).

Definition k_after_slot s (c1 : cpu) : st := leave_slot (set_regs c1 (at_slot s)).

Lemma entry_blocks p i c c' : blocks c' = blocks c -> entry p i c' = entry p i c.
Proof. intros E. unfold entry. by rewrite E. Qed.

Lemma slot_run n s w c1 s1 :
  k_slotted s w c1 -> k_same s s1 -> Cached.delay (CachedOps.exec (S n)) s1 = Ret (tt, k_after_slot s1 c1).
Proof.
  intros Hs (E1 & E2 & E3 & E4 & _ & _ & _ & E5 & _ & E6). destruct (ks_slot _ _ _ Hs) as (e & fn & f & He & Hf & Hr).
  assert (mach s1 = mach s) as Em by exact E4.
  assert (u32 (pc_now s + 4) = pc_now s + 4) as Eu.
  { apply u32_id. destruct (ks_next _ _ _ Hs) as (Hlo & Hhi & _). unfold is_u32. lia. }
  assert (pc_now (at_slot s1) = pc_now s + 4) as Epc.
  { change (u32 (pc_now s1 + 4) = pc_now s + 4). unfold pc_now in *. by rewrite Em. }
  apply k_delay_ok.
  - apply (exec_integer n (at_slot s1) e fn f c1); [|exact Hf|].
    + unfold entry_at in *. rewrite Epc. change (k_code (at_slot s1)) with (k_code s1).
      rewrite E6, (entry_blocks _ _ (k_code s)) by done. rewrite <- He. f_equal.
      replace (pc_now s + 4 - page_start (PC_block (k_code s))) with (pc_now s - page_start (PC_block (k_code s)) + 1 * 4) by lia.
      rewrite Z.div_add by lia. lia.
    + rewrite <- Hr. f_equal. change (Cpu (c_reg (k_core s1)) (c_hi (k_core s1)) (c_lo (k_core s1)) (pc_now (at_slot s1)) (stop (mach s1)) =
        Cpu (c_reg (k_core s)) (c_hi (k_core s)) (c_lo (k_core s)) (pc_now s + 4) (stop (mach s))).
      by rewrite Epc, E1, E2, E3, Em.
  - change (interpcore (mach s1) = false). rewrite Em. exact (ks_core _ _ _ Hs).
Qed.

(** What does not change. *)
Definition k_devices s s' : Prop :=
  rdram (k_core s') = rdram (k_core s) /\ SP_MEM (k_core s') = SP_MEM (k_core s) /\ c_cop1 (k_core s') = c_cop1 (k_core s) /\
  irq_queue (mach s') = irq_queue (mach s) /\ skip_jump (mach s') = skip_jump (mach s) /\ interpcore (mach s') = interpcore (mach s).

(** [PC] points into a block that exists, and the cache is sound. *)
Definition well_placed s : Prop :=
  cache_ok (k_code s) /\ has_entries (PC_block (k_code s)) (k_code s) /\ page_start (PC_block (k_code s)) <= pc_now s.

(** From [s], the interpreter goes on with the registers [c], and has counted or not. *)
Definition k_continues s (r : outcome (unit * st)) (c : cpu) (counts : bool) : Prop :=
  exists s', r = Ret (tt, s') /\ regs s' = c /\ last_addr (mach s') = pc c /\
    Count (mach s') = count_behind (mach s) (pc_now s) counts /\ k_devices s s' /\ well_placed s'.

Lemma k_continues_finish s s2 c counts :
  calm s2 -> regs s2 = c -> Count (mach s2) = count_behind (mach s) (pc_now s) counts -> k_devices s s2 -> well_placed s2 ->
  k_continues s (Cached.finish s2) c counts.
Proof.
  intros Hc <- Hn Hd Hw. exists (settled s2). split; [by apply k_finish_calm|]. split; [done|]. split; [done|].
  split; [exact Hn|]. split; [exact Hd|exact Hw].
Qed.

(** The state behind the slot. *)
Record behind s (w : Z) (c1 : cpu) s2 : Prop := {
  be_regs : regs s2 = c1;
  be_calm : calm s2;
  be_count : Count (mach s2) = count_behind (mach s) (pc_now s) true;
  be_core : interpcore (mach s2) = false;
  be_skip : skip_jump (mach s2) = 0;
  be_devices : k_devices s s2;
  be_placed : well_placed s2;
  be_block : PC_block (k_code s2) = PC_block (k_code s);
  be_entry : exists next e0, entry_at s2 (-2) (translate_at (PC_block (k_code s)) ((pc_now s - page_start (PC_block (k_code s))) / 4) w next e0);
}.

Lemma entry_has p i c e : entry p i c = Ret e -> has_entries p c.
Proof.
  unfold entry, has_entries. destruct (blocks c !! p) as [b|]; [|done]. destruct (entries b) as [es|] eqn:E; [|done]. intros _. by exists b, es.
Qed.

Lemma cache_ok_ext c c' : blocks c' = blocks c -> invalid_code c' = invalid_code c -> cache_ok c -> cache_ok c'.
Proof.
  intros Eb Ei [Hf Hv]. split.
  - intros p b es Hb He. rewrite Eb in Hb. by eapply Hf.
  - intros p Hp Hn. unfold is_invalid in Hp. rewrite Ei in Hp. destruct (Hv p Hp Hn) as (b & es & Hb & He). exists b, es. by rewrite Eb.
Qed.

Lemma behind_slot s w c1 s1 : k_slotted s w c1 -> k_same s s1 -> behind s w c1 (k_after_slot s1 c1).
Proof.
  intros Hs (E1 & E2 & E3 & E4 & E5 & E6 & E7 & E8 & E9 & E10). pose proof (ks_pc _ _ _ Hs) as Hpc.
  assert (pc_now (k_after_slot s1 c1) = pc c1) as Ep by reflexivity.
  assert (k_code (k_after_slot s1 c1) = k_code s1) as Ec by reflexivity.
  destruct (ks_entry _ _ _ Hs) as (next & e0 & He).
  constructor.
  - by destruct c1.
  - unfold calm. change (u32 (Count (mach s1) + u32 (pc c1 - last_addr (mach s1)) / 2) < next_interrupt_of (mach s1)).
    rewrite E4, Hpc. exact (ks_calm' _ _ _ Hs).
  - change (u32 (Count (mach s1) + u32 (pc c1 - last_addr (mach s1)) / 2) = count_behind (mach s) (pc_now s) true). by rewrite E4, Hpc.
  - change (interpcore (mach s1) = false). rewrite E4. exact (ks_core _ _ _ Hs).
  - change (skip_jump (mach s1) = 0). rewrite E4. exact (ks_skip _ _ _ Hs).
  - split; [exact E5|]. split; [exact E6|]. split; [exact E7|].
    change (irq_queue (mach s1) = irq_queue (mach s) /\ skip_jump (mach s1) = skip_jump (mach s) /\ interpcore (mach s1) = interpcore (mach s)).
    by rewrite E4.
  - unfold well_placed. rewrite Ep, Ec, E10, Hpc. split_and!.
    + exact (cache_ok_ext _ _ E8 E9 (ks_ok _ _ _ Hs)).
    + destruct (entry_has _ _ _ _ He) as (b & es & Eb & Ee). exists b, es. by rewrite E8.
    + pose proof (ks_block _ _ _ Hs). lia.
  - by rewrite Ec, E10.
  - exists next, e0. unfold entry_at in *. rewrite Ep, Ec, E10, Hpc, (entry_blocks _ _ (k_code s)) by done. rewrite <- He. f_equal.
    replace (pc_now s + 8 - page_start (PC_block (k_code s))) with (pc_now s - page_start (PC_block (k_code s)) + 2 * 4) by lia.
    rewrite Z.div_add by lia. lia.
Qed.

Lemma pc_moved_facts a s s2 :
  calm s2 -> k_devices s s2 -> well_placed s2 -> page_start (PC_block (k_code s2)) <= a ->
  calm (pc_moved a s2) /\ k_devices s (pc_moved a s2) /\ well_placed (pc_moved a s2) /\ regs (pc_moved a s2) = (regs s2) <| pc := a |> /\
  Count (mach (pc_moved a s2)) = Count (mach s2).
Proof.
  intros Hc Hd (Hok & He & _) Ha. split; [exact Hc|]. split; [exact Hd|]. split; [exact (conj Hok (conj He Ha))|]. split; reflexivity.
Qed.

(** *** Where it goes *)

Lemma pc_add_ok s k : pc_add k s = Ret (tt, pc_moved (u32 (pc_now s + 4 * k)) s).
Proof. reflexivity. Qed.

(** [PC += immediate - 1] behind the slot of a branch at [PC - 2]. *)
Lemma jump_in_ok s w c1 s2 f :
  behind s w c1 s2 -> (forall p i next e0, exists o, translate_at p i w next e0 = Instr o (FI f)) ->
  jump_in s2 = Ret (tt, pc_moved (u32 (pc_now s2 + 4 * (immediate f - 1))) s2).
Proof.
  intros Hb Hf. destruct (be_entry _ _ _ _ Hb) as (next & e0 & He). destruct (Hf (PC_block (k_code s)) ((pc_now s - page_start (PC_block (k_code s))) / 4) next e0) as [o Eo].
  rewrite Eo in He. unfold jump_in. by rewrite (bind_Ret _ _ _ _ _ (at_pc_ok _ _ _ He)).
Qed.

(** A jump out of the block. *)
Lemma jump_out_continues s s2 t :
  calm s2 -> Count (mach s2) = count_behind (mach s) (pc_now s) true -> skip_jump (mach s2) = 0 -> k_devices s s2 -> cache_ok (k_code s2) -> direct (u32 t) = true ->
  k_continues s ((jump t ;;; Cached.finish) s2) ((regs s2) <| pc := u32 t |>) true.
Proof.
  intros Hc Hn Hs Hd Hok Ht. destruct (jump_ok s2 t Hs Ht Hok) as (m & c & Hr & -> & Hok' & Hp & Hi). rewrite (bind_Ret _ _ _ _ _ Hr).
  apply k_continues_finish; [exact Hc|reflexivity|exact Hn|exact Hd|]. split; [exact Hok'|]. cbn [k_code]. rewrite Hp. split.
  - exact (proj2 Hok' _ Hi ltac:(done)).
  - change (page_start (page (u32 t)) <= u32 t). pose proof (u32_range t). page_lia.
Qed.

Lemma in_target a imm : u32 (a + 8 + 4 * (imm - 1)) = u32 (a + 4 + 4 * imm).
Proof. f_equal. lia. Qed.
Lemma out_target a imm : u32 (a + 8 + Z.shiftl (u32 imm - 1) 2) = u32 (a + 4 + 4 * imm).
Proof. rewrite Z.shiftl_mul_pow2 by lia. change (2 ^ 2) with 4. unfold u32. Z.div_mod_to_equations. lia. Qed.

(** A branch that has been decided, within its block. *)
Lemma in_continues s w c1 s2 f (b : bool) :
  behind s w c1 s2 -> pc c1 = pc_now s + 8 -> (forall p i next e0, exists o, translate_at p i w next e0 = Instr o (FI f)) ->
  (b = true -> page_start (PC_block (k_code s)) <= u32 (pc_now s + 4 + 4 * immediate f)) ->
  k_continues s ((when b jump_in ;;; Cached.finish) s2)
    (if b then moved_cpu (u32 (pc_now s + 4 + 4 * immediate f)) c1 else c1) true.
Proof.
  intros Hb Hpc Hf Ht. assert (pc_now s2 = pc_now s + 8) as Ep by (rewrite <- Hpc, <- (be_regs _ _ _ _ Hb); reflexivity).
  destruct b; unfold when.
  - rewrite (bind_Ret _ _ _ _ _ (jump_in_ok _ _ _ _ _ Hb Hf)), Ep, in_target.
    destruct (pc_moved_facts (u32 (pc_now s + 4 + 4 * immediate f)) s s2 (be_calm _ _ _ _ Hb) (be_devices _ _ _ _ Hb) (be_placed _ _ _ _ Hb))
      as (Hc & Hd & Hw & Hr & Hn); [rewrite (be_block _ _ _ _ Hb); auto|].
    apply k_continues_finish; [exact Hc| |exact (eq_trans Hn (be_count _ _ _ _ Hb))|exact Hd|exact Hw]. by rewrite Hr, (be_regs _ _ _ _ Hb).
  - rewrite bind_ret_l. apply k_continues_finish; [exact (be_calm _ _ _ _ Hb)|exact (be_regs _ _ _ _ Hb)|exact (be_count _ _ _ _ Hb)|exact (be_devices _ _ _ _ Hb)|exact (be_placed _ _ _ _ Hb)].
Qed.

(** ... and out of it. *)
Lemma out_continues s w c1 s2 f (b : bool) :
  behind s w c1 s2 -> pc c1 = pc_now s + 8 -> jump_target (k_code s2) = u32 (immediate f) ->
  (b = true -> direct (u32 (pc_now s + 4 + 4 * immediate f)) = true) ->
  k_continues s ((when b jump_out ;;; Cached.finish) s2)
    (if b then moved_cpu (u32 (pc_now s + 4 + 4 * immediate f)) c1 else c1) true.
Proof.
  intros Hb Hpc Hj Ht. assert (pc_now s2 = pc_now s + 8) as Ep by (rewrite <- Hpc, <- (be_regs _ _ _ _ Hb); reflexivity).
  destruct b; unfold when.
  - unfold jump_out. rewrite bind_assoc, bind_get_l, Hj, Ep.
    pose proof (jump_out_continues s s2 (pc_now s + 8 + Z.shiftl (u32 (immediate f) - 1) 2) (be_calm _ _ _ _ Hb) (be_count _ _ _ _ Hb) (be_skip _ _ _ _ Hb)
      (be_devices _ _ _ _ Hb) (proj1 (be_placed _ _ _ _ Hb))) as R. rewrite out_target in R. specialize (R (Ht eq_refl)).
    rewrite (be_regs _ _ _ _ Hb) in R. exact R.
  - rewrite bind_ret_l. apply k_continues_finish; [exact (be_calm _ _ _ _ Hb)|exact (be_regs _ _ _ _ Hb)|exact (be_count _ _ _ _ Hb)|exact (be_devices _ _ _ _ Hb)|exact (be_placed _ _ _ _ Hb)].
Qed.

(** ** The branches *)

Section Branch.
Variables (n : nat) (s : st) (w : Z) (c1 : cpu) (f : fields).
Hypothesis slotted_s : k_slotted s w c1.
Hypothesis operands_w : forall p i next e0, exists o, translate_at p i w next e0 = Instr o (FI f).

#[local] Abbreviation slot := (CachedOps.exec (S n)).
#[local] Abbreviation target := (u32 (pc_now s + 4 + 4 * immediate f)).

Lemma i_operands_ok : i_operands s = Ret (f, s).
Proof.
  destruct (ks_entry _ _ _ slotted_s) as (next & e0 & He). destruct (operands_w (PC_block (k_code s)) ((pc_now s - page_start (PC_block (k_code s))) / 4) next e0) as [o Eo].
  rewrite Eo in He. unfold i_operands. by rewrite (bind_Ret _ _ _ _ _ (at_pc_ok _ _ _ He)).
Qed.

Lemma no_skip_behind s2 : behind s w c1 s2 -> no_skip s2 = true.
Proof. intros Hb. unfold no_skip. by rewrite (be_skip _ _ _ _ Hb). Qed.

Lemma branch_in_continues s1 taken b :
  k_same s s1 -> taken (k_after_slot s1 c1) = b -> (b = true -> page_start (PC_block (k_code s)) <= target) ->
  k_continues s (branch_in slot taken s1) (if b then moved_cpu target c1 else c1) true.
Proof.
  intros Hs1 Hb Ht. pose proof (behind_slot s w c1 s1 slotted_s Hs1) as Hbe. unfold branch_in.
  rewrite (bind_Ret _ _ _ _ _ (slot_run n s w c1 s1 slotted_s Hs1)), bind_get_l, Hb, (no_skip_behind _ Hbe), andb_true_r.
  by apply (in_continues s w c1 _ f b Hbe (ks_pc _ _ _ slotted_s)).
Qed.

Definition targeted s1 : st := s1 <| k_code := (k_code s1) <| jump_target := u32 (immediate f) |> |>.
Lemma set_jump_target_ok s1 : set_jump_target (immediate f) s1 = Ret (tt, targeted s1).
Proof. reflexivity. Qed.
Lemma targeted_same s1 : k_same s s1 -> k_same s (targeted s1).
Proof. intros Hs1. exact Hs1. Qed.

Lemma branch_out_continues s1 taken b :
  k_same s s1 -> taken (k_after_slot (targeted s1) c1) = b -> (b = true -> direct target = true) ->
  k_continues s (branch_out slot f taken s1) (if b then moved_cpu target c1 else c1) true.
Proof.
  intros Hs1 Hb Ht. pose proof (targeted_same s1 Hs1) as Hs2. pose proof (behind_slot s w c1 _ slotted_s Hs2) as Hbe. unfold branch_out.
  rewrite (bind_Ret _ _ _ _ _ (set_jump_target_ok s1)).
  rewrite (bind_Ret _ _ _ _ _ (slot_run n s w c1 _ slotted_s Hs2)), bind_get_l, Hb, (no_skip_behind _ Hbe). cbn [andb].
  by apply (out_continues s w c1 _ f b Hbe (ks_pc _ _ _ slotted_s)).
Qed.

(** A likely branch that is not taken. *)
Lemma skipped_continues (counts : bool) :
  k_continues s ((pc_add 2 ;;; when counts (ctl update_count) ;;; Cached.finish) s) (moved_cpu (pc_now s + 8) (regs s)) counts.
Proof.
  assert (u32 (pc_now s + 4 * 2) = pc_now s + 8) as E8.
  { rewrite u32_id; [lia|]. destruct (ks_next _ _ _ slotted_s) as (Hlo & Hhi & _). unfold is_u32. lia. }
  rewrite (bind_Ret _ _ _ _ _ (pc_add_ok s 2)), E8.
  destruct (ks_entry _ _ _ slotted_s) as (next & e0 & He).
  assert (well_placed s) as Hw by exact (conj (ks_ok _ _ _ slotted_s) (conj (entry_has _ _ _ _ He) (ks_block _ _ _ slotted_s))).
  destruct (pc_moved_facts (pc_now s + 8) s s (ks_calm _ _ _ slotted_s) ltac:(done) Hw) as (Hc & Hd & Hw' & Hr & Hn);
    [pose proof (ks_block _ _ _ slotted_s); lia|].
  destruct counts; unfold when; [|rewrite bind_ret_l; by apply k_continues_finish].
  assert (interpcore (mach (pc_moved (pc_now s + 8) s)) = false) as Hi by exact (ks_core _ _ _ slotted_s).
  rewrite (bind_Ret _ _ _ _ _ (count_ok _ Hi)). apply k_continues_finish; [exact (ks_calm' _ _ _ slotted_s)|exact Hr|reflexivity|exact Hd|exact Hw'].
Qed.

Lemma likely_in_continues (b counts : bool) :
  (b = true -> page_start (PC_block (k_code s)) <= target) ->
  k_continues s (likely_in slot b counts s) (if b then moved_cpu target c1 else moved_cpu (pc_now s + 8) (regs s)) (b || counts).
Proof.
  intros Ht. unfold likely_in. assert (k_same s s) as Hss by (by split_and!). pose proof (behind_slot s w c1 s slotted_s Hss) as Hbe. destruct b.
  - rewrite bind_assoc, (bind_Ret _ _ _ _ _ (slot_run n s w c1 s slotted_s Hss)), bind_assoc, bind_get_l, (no_skip_behind _ Hbe).
    by apply (in_continues s w c1 _ f true Hbe (ks_pc _ _ _ slotted_s)).
  - rewrite bind_assoc. apply skipped_continues.
Qed.

Lemma likely_out_continues (b counts : bool) :
  (b = true -> direct target = true) ->
  k_continues s (likely_out slot f b counts s) (if b then moved_cpu target c1 else moved_cpu (pc_now s + 8) (regs s)) (b || counts).
Proof.
  intros Ht. unfold likely_out. assert (k_same s s) as Hss by (by split_and!). pose proof (targeted_same s Hss) as Hs2.
  pose proof (behind_slot s w c1 _ slotted_s Hs2) as Hbe. destruct b.
  - rewrite bind_assoc, (bind_Ret _ _ _ _ _ (set_jump_target_ok s)).
    rewrite bind_assoc, (bind_Ret _ _ _ _ _ (slot_run n s w c1 _ slotted_s Hs2)), bind_assoc, bind_get_l, (no_skip_behind _ Hbe).
    by apply (out_continues s w c1 _ f true Hbe (ks_pc _ _ _ slotted_s)).
  - rewrite bind_assoc. apply skipped_continues.
Qed.

(** *** One branch at a time *)

Lemma here_addr : u32 (page_start (PC_block (k_code s)) + (pc_now s - page_start (PC_block (k_code s))) / 4 * 4) = pc_now s.
Proof.
  destruct (ks_here _ _ _ slotted_s) as (Hlo & Hhi & Hal). pose proof (ks_block _ _ _ slotted_s) as Hblk. pose proof (ks_page _ _ _ slotted_s) as Hpg.
  revert Hal Hblk Hpg Hlo Hhi. unfold page_start. generalize (pc_now s). intros a.
  intros. rewrite u32_id; unfold is_u32; Z.div_mod_to_equations; lia.
Qed.

Definition k_with_rs : st := s <| k_core := (k_core s) <| local_rs := irs f (regs s) |> |>.
Definition k_with_both : st := s <| k_core := (k_core s) <| local_rs := irs f (regs s) |> <| local_rt := rrt f (regs s) |> |>.

Lemma same_k_with_rs : k_same s k_with_rs.
Proof. by split_and!. Qed.
Lemma same_k_with_both : k_same s k_with_both.
Proof. by split_and!. Qed.

(** The instruction at [PC] is a branch that is not to itself: it runs in its block if
    the target is there. *)
Lemma relative_runs X c counts :
  (forall p i next e0, translate_at p i w next e0 = translate_branch X (Site w (u32 (page_start p + i * 4)) (page_start p) (next =? 0)) e0) ->
  f = i_type w -> target <> pc_now s ->
  (page_start (PC_block (k_code s)) <= target -> k_continues s (run_branch slot X Op.IN s) c counts) ->
  k_continues s (run_branch slot X Op.OUT s) c counts ->
  k_continues s (CachedOps.exec (S (S n)) s) c counts.
Proof.
  intros Ht Hf Hne Hin Hout. destruct (ks_entry _ _ _ slotted_s) as (next & e0 & He).
  assert (branch_target (pc_now s) (recompile_standard_i_type w) = target) as Et.
  { unfold branch_target. rewrite Hf. unfold i_type. f_equal. lia. }
  cbn [CachedOps.exec]. rewrite (bind_Ret _ _ _ _ _ (at_pc_ok _ _ _ He)), Ht. unfold translate_branch. cbn [t_src t_addr t_check_nop].
  rewrite here_addr, Et. destruct (Z.eqb_spec target (pc_now s)) as [|_]; [done|].
  unfold run_entry. cbn [ops opnds]. destruct (leaves_block _ _) eqn:El; [exact Hout|apply Hin].
  unfold leaves_block in El. cbn [t_start] in El. apply orb_false_iff in El as [El _]. apply orb_false_iff in El as [El _].
  apply Z.ltb_ge in El. exact El.
Qed.

Definition decided (b likely : bool) : cpu := after_branch (Branching b target likely None) (regs s) c1.

(** The functions that save [rs], or both registers, first. *)
Lemma saving_rs (k : M st unit) : (f <-- i_operands ;;; save_rs f ;;; k) s = k k_with_rs.
Proof. by rewrite (bind_Ret _ _ _ _ _ i_operands_ok). Qed.
Lemma saving_both (k : M st unit) : (f <-- i_operands ;;; save_rs f ;;; save_rt f ;;; k) s = k k_with_both.
Proof. by rewrite (bind_Ret _ _ _ _ _ i_operands_ok). Qed.
Lemma saving_rs_out (k : fields -> M st unit) : (f <-- i_operands ;;; save_rs f ;;; k f) s = k f k_with_rs.
Proof. by rewrite (bind_Ret _ _ _ _ _ i_operands_ok). Qed.
Lemma saving_both_out (k : fields -> M st unit) : (f <-- i_operands ;;; save_rs f ;;; save_rt f ;;; k f) s = k f k_with_both.
Proof. by rewrite (bind_Ret _ _ _ _ _ i_operands_ok). Qed.

Lemma rs_in_continues test b :
  test (k_after_slot k_with_rs c1) = b -> page_start (PC_block (k_code s)) <= target ->
  k_continues s ((f <-- i_operands ;;; save_rs f ;;; branch_in slot test) s) (decided b false) true.
Proof. intros Hb Ht. rewrite saving_rs. by apply branch_in_continues; [exact same_k_with_rs|..]. Qed.
Lemma both_in_continues test b :
  test (k_after_slot k_with_both c1) = b -> page_start (PC_block (k_code s)) <= target ->
  k_continues s ((f <-- i_operands ;;; save_rs f ;;; save_rt f ;;; branch_in slot test) s) (decided b false) true.
Proof. intros Hb Ht. rewrite saving_both. by apply branch_in_continues; [exact same_k_with_both|..]. Qed.
Lemma rs_out_continues test b :
  test (k_after_slot (targeted k_with_rs) c1) = b -> (b = true -> direct target = true) ->
  k_continues s ((f <-- i_operands ;;; save_rs f ;;; branch_out slot f test) s) (decided b false) true.
Proof. intros Hb Ht. rewrite (saving_rs_out (fun f => branch_out slot f test)). by apply branch_out_continues; [exact same_k_with_rs|..]. Qed.
Lemma both_out_continues test b :
  test (k_after_slot (targeted k_with_both) c1) = b -> (b = true -> direct target = true) ->
  k_continues s ((f <-- i_operands ;;; save_rs f ;;; save_rt f ;;; branch_out slot f test) s) (decided b false) true.
Proof. intros Hb Ht. rewrite (saving_both_out (fun f => branch_out slot f test)). by apply branch_out_continues; [exact same_k_with_both|..]. Qed.

Lemma k_beq_continues :
  g_vr_beq_ignore_jmp (k_core s) = false -> page_start (PC_block (k_code s)) <= target ->
  k_continues s (BEQ slot s) (decided (irs f (regs s) =? rrt f (regs s)) false) true.
Proof.
  intros Hg Ht. unfold BEQ. rewrite (bind_Ret _ _ _ _ _ i_operands_ok).
  pose proof (behind_slot s w c1 _ slotted_s same_k_with_both) as Hbe. pose proof (slot_run n s w c1 _ slotted_s same_k_with_both) as Hrun.
  pose proof (in_continues s w c1 _ f (irs f (regs s) =? rrt f (regs s)) Hbe (ks_pc _ _ _ slotted_s) operands_w (fun _ => Ht)) as R.
  change (k_continues s ((Cached.delay slot ;;; s <-- get ;;;
    when (saved_eq s && no_skip s && negb (g_vr_beq_ignore_jmp (k_core s))) jump_in ;;; Cached.finish) k_with_both)
    (decided (irs f (regs s) =? rrt f (regs s)) false) true).
  rewrite (bind_Ret _ _ _ _ _ Hrun), bind_get_l, (no_skip_behind _ Hbe), andb_true_r.
  change (g_vr_beq_ignore_jmp (k_core (k_after_slot k_with_both c1))) with (g_vr_beq_ignore_jmp (k_core s)). rewrite Hg, andb_true_r.
  change (saved_eq (k_after_slot k_with_both c1)) with (irs f (regs s) =? rrt f (regs s)). exact R.
Qed.
Lemma now_in_continues test (counts : bool) b :
  test f s = b -> page_start (PC_block (k_code s)) <= target -> k_continues s (now_in slot test counts s) (decided b true) (b || counts).
Proof.
  intros Hb Ht. unfold now_in. rewrite (bind_Ret _ _ _ _ _ i_operands_ok), bind_get_l, Hb. by apply likely_in_continues.
Qed.
Lemma now_out_continues test (counts : bool) b :
  test f s = b -> (b = true -> direct target = true) -> k_continues s (now_out slot test counts s) (decided b true) (b || counts).
Proof.
  intros Hb Ht. unfold now_out. rewrite (bind_Ret _ _ _ _ _ i_operands_ok), bind_get_l, Hb. by apply likely_out_continues.
Qed.
End Branch.

(** The branches relative to [PC] that do not link. *)
Definition relative_op (w : Z) : option Op.branch :=
  match Z.land (Z.shiftr w 26) 0x3F with
  | 1 => match Z.land (Z.shiftr w 16) 0x1F with
         | 0 => Some Op.BLTZ | 1 => Some Op.BGEZ | 2 => Some Op.BLTZL | 3 => Some Op.BGEZL | _ => None
         end
  | 4 => Some Op.BEQ | 5 => Some Op.BNE | 6 => Some Op.BLEZ | 7 => Some Op.BGTZ
  | 20 => Some Op.BEQL | 21 => Some Op.BNEL | 22 => Some Op.BLEZL | 23 => Some Op.BGTZL
  | _ => None
  end.

Lemma not_in_table w k :
  Z.land (Z.shiftr w 26) 0x3F = k -> (k =? 0) = false -> mjoin (recomp_ops !! Z.to_nat k) = None -> compile w = None.
Proof.
  intros E Hk Hn. unfold compile. cbv zeta. rewrite E, Hk. exact (f_equal (fun o => o ≫= fun c => Some (c w)) Hn).
Qed.

Lemma relative_translated w X p i next e0 :
  relative_op w = Some X ->
  translate_at p i w next e0 = translate_branch X (Site w (u32 (page_start p + i * 4)) (page_start p) (next =? 0)) e0.
Proof.
  intros Hx. unfold translate_at, recompile_op. cbn [t_src]. unfold relative_op in Hx.
  remember (Z.land (Z.shiftr w 26) 0x3F) as k eqn:Ek. symmetry in Ek.
  assert (compile w = None) as ->.
  { destruct k as [|q|]; [|do 5 (try destruct q as [q|q|])|]; try discriminate Hx; by apply (not_in_table w _ Ek). }
  destruct k as [|q|]; [|do 5 (try destruct q as [q|q|])|]; try discriminate Hx; try (apply (inj Some) in Hx; subst X; reflexivity).
  unfold control_op, RREGIMM. cbn [t_src].
  destruct (Z.land (Z.shiftr w 16) 0x1F) as [|q|]; [|do 3 (try destruct q as [q|q|])|]; try discriminate Hx; apply (inj Some) in Hx; subst X; reflexivity.
Qed.

Definition test_of (X : Op.branch) (v v' : Z) : bool :=
  match X with
  | Op.BLTZ | Op.BLTZL => v <? 0
  | Op.BGEZ | Op.BGEZL => 0 <=? v
  | Op.BEQ | Op.BEQL => v =? v'
  | Op.BNE | Op.BNEL => negb (v =? v')
  | Op.BLEZ | Op.BLEZL => v <=? 0
  | _ => 0 <? v
  end.
Definition likely_op (X : Op.branch) : bool :=
  match X with Op.BLTZL | Op.BGEZL | Op.BEQL | Op.BNEL | Op.BLEZL | Op.BGTZL => true | _ => false end.

(** The opcodes one by one. *)
Ltac relative_cases w X Hx :=
  let q := fresh in
  destruct (Z.land (Z.shiftr w 26) 0x3F) as [|q|]; [|do 5 (try destruct q as [q|q|])|]; try discriminate Hx;
  try (apply (inj Some) in Hx; subst X; reflexivity);
  destruct (Z.land (Z.shiftr w 16) 0x1F) as [|q|]; [|do 3 (try destruct q as [q|q|])|]; try discriminate Hx;
  apply (inj Some) in Hx; subst X; reflexivity.

Definition relates (X : Op.branch) : bool :=
  match X with
  | Op.BLTZ | Op.BGEZ | Op.BEQ | Op.BNE | Op.BLEZ | Op.BGTZ | Op.BLTZL | Op.BGEZL | Op.BEQL | Op.BNEL | Op.BLEZL | Op.BGTZL => true
  | _ => false
  end.
Lemma relative_relates w X : relative_op w = Some X -> relates X = true.
Proof. unfold relative_op. intros Hx. relative_cases w X Hx. Qed.

Lemma relative_counts w X : relative_op w = Some X ->
  negb (Z.land (Z.shiftr w 26) 0x3F =? 1) = match X with Op.BLTZ | Op.BGEZ | Op.BLTZL | Op.BGEZL => false | _ => true end.
Proof. unfold relative_op. intros Hx. relative_cases w X Hx. Qed.

Lemma relative_branch_of w X c :
  relative_op w = Some X ->
  branch_of w c = Some (Branching (test_of X (irs (i_type w) c) (irt (i_type w) c)) (u32 (pc c + 4 + 4 * immediate (i_type w))) (likely_op X) None).
Proof. unfold relative_op, branch_of. cbv zeta. intros Hx. relative_cases w X Hx. Qed.

Lemma k_relative_continues n s w c1 X b :
  k_slotted s w c1 -> g_vr_beq_ignore_jmp (k_core s) = false -> relative_op w = Some X -> branch_of w (regs s) = Some b ->
  b_target b <> pc_now s -> (b_taken b = true -> direct (b_target b) = true) ->
  k_continues s (CachedOps.exec (S (S n)) s) (after_branch b (regs s) c1) (counts_branch w b).
Proof.
  intros Hs Hg Hx Hb Hne Hd. rewrite (relative_branch_of w X _ Hx) in Hb. apply (inj Some) in Hb. subst b. cbn [b_target b_taken] in Hne, Hd.
  pose proof (fun p i next e0 => relative_translated w X p i next e0 Hx) as Ht.
  assert (forall p i next e0, exists o, translate_at p i w next e0 = Instr o (FI (i_type w))) as Ho.
  { intros p i next e0. rewrite Ht. unfold translate_branch. cbn [t_src]. by eexists. }
  unfold counts_branch. cbn [b_likely b_taken]. rewrite (relative_counts w X Hx).
  apply (relative_runs n s w c1 (i_type w) Hs X _ _ Ht eq_refl Hne); clear Ht; [intros Hin|].
  - pose proof (relative_relates w X Hx) as Hr. destruct X; try discriminate Hr; cbn [run_branch test_of likely_op] in *.
    + exact (rs_in_continues n s w c1 _ Hs Ho saved_ltz _ eq_refl Hin).
    + exact (rs_in_continues n s w c1 _ Hs Ho saved_gez _ eq_refl Hin).
    + exact (now_in_continues n s w c1 _ Hs Ho now_ltz _ _ eq_refl Hin).
    + exact (now_in_continues n s w c1 _ Hs Ho now_gez _ _ eq_refl Hin).
    + exact (k_beq_continues n s w c1 _ Hs Ho Hg Hin).
    + exact (both_in_continues n s w c1 _ Hs Ho saved_ne _ eq_refl Hin).
    + exact (rs_in_continues n s w c1 _ Hs Ho saved_lez _ eq_refl Hin).
    + exact (rs_in_continues n s w c1 _ Hs Ho saved_gtz _ eq_refl Hin).
    + exact (now_in_continues n s w c1 _ Hs Ho now_eq _ _ eq_refl Hin).
    + exact (now_in_continues n s w c1 _ Hs Ho now_ne _ _ eq_refl Hin).
    + exact (now_in_continues n s w c1 _ Hs Ho now_lez _ _ eq_refl Hin).
    + exact (now_in_continues n s w c1 _ Hs Ho now_gtz _ _ eq_refl Hin).
  - pose proof (relative_relates w X Hx) as Hr. destruct X; try discriminate Hr; cbn [run_branch test_of likely_op] in *.
    + exact (rs_out_continues n s w c1 _ Hs Ho saved_ltz _ eq_refl Hd).
    + exact (rs_out_continues n s w c1 _ Hs Ho saved_gez _ eq_refl Hd).
    + exact (now_out_continues n s w c1 _ Hs Ho now_ltz _ _ eq_refl Hd).
    + exact (now_out_continues n s w c1 _ Hs Ho now_gez _ _ eq_refl Hd).
    + exact (both_out_continues n s w c1 _ Hs Ho saved_eq _ eq_refl Hd).
    + exact (both_out_continues n s w c1 _ Hs Ho saved_ne _ eq_refl Hd).
    + exact (rs_out_continues n s w c1 _ Hs Ho saved_lez _ eq_refl Hd).
    + exact (rs_out_continues n s w c1 _ Hs Ho saved_gtz _ eq_refl Hd).
    + exact (now_out_continues n s w c1 _ Hs Ho now_eq _ _ eq_refl Hd).
    + exact (now_out_continues n s w c1 _ Hs Ho now_ne _ _ eq_refl Hd).
    + exact (now_out_continues n s w c1 _ Hs Ho now_lez _ _ eq_refl Hd).
    + exact (now_out_continues n s w c1 _ Hs Ho now_gtz _ _ eq_refl Hd).
Qed.

(** ** The jumps *)

Section Jumps.
Variables (n : nat) (s : st) (w : Z) (c1 : cpu).
Hypothesis slotted_s : k_slotted s w c1.
#[local] Abbreviation slot := (CachedOps.exec (S n)).

Lemma bind_same {A B} (m m' : M st A) (k : A -> M st B) s0 s1 : m s0 = m' s1 -> bind m k s0 = bind m' k s1.
Proof. unfold bind. by intros ->. Qed.

Lemma k_same_refl : k_same s s.
Proof. by split_and!. Qed.

Lemma k_link_ok dest a s2 :
  (dest < length (reg (regs s2)))%nat ->
  on_regs (set_reg dest a ;;; sign_extended dest) s2 = Ret (tt, set_regs (linked dest a (regs s2)) s2).
Proof.
  intros Hl. unfold on_regs, sign_extended, set_reg. rewrite bind_modify_l. unfold modify, linked, upd_field. cbn [reg hi lo pc c_stop].
  by rewrite list_lookup_total_insert_eq, list_insert_insert_eq.
Qed.

(** The delay slot, a link, and a jump to the address kept in the meantime. *)
Lemma jump_slot_continues s1 t (k : st -> M st unit) :
  k_same s s1 -> direct (u32 t) = true -> k (k_after_slot s1 c1) (k_after_slot s1 c1) = jump t (k_after_slot s1 c1) ->
  k_continues s ((Cached.delay slot ;;; s <-- get ;;; k s ;;; Cached.finish) s1) (moved_cpu (u32 t) c1) true.
Proof.
  intros Hs1 Hd Hk. pose proof (behind_slot s w c1 s1 slotted_s Hs1) as Hb.
  rewrite (bind_Ret _ _ _ _ _ (slot_run n s w c1 s1 slotted_s Hs1)), bind_get_l, (bind_same _ _ (fun _ => Cached.finish) _ _ Hk).
  revert Hb. clear Hk. generalize (k_after_slot s1 c1). intros s2 Hb. rewrite <- (be_regs _ _ _ _ Hb).
  exact (jump_out_continues s s2 t (be_calm _ _ _ _ Hb) (be_count _ _ _ _ Hb) (be_skip _ _ _ _ Hb) (be_devices _ _ _ _ Hb) (proj1 (be_placed _ _ _ _ Hb)) Hd).
Qed.

Lemma link_slot_continues s1 t dest (k : st -> M st unit) :
  k_same s s1 -> direct (u32 t) = true -> (dest < 32)%nat ->
  k (k_after_slot s1 c1) (k_after_slot s1 c1) =
    (on_regs (set_reg dest (pc_now s + 8) ;;; sign_extended dest) ;;; jump t) (k_after_slot s1 c1) ->
  k_continues s ((Cached.delay slot ;;; s <-- get ;;; k s ;;; Cached.finish) s1) (moved_cpu (u32 t) (linked dest (pc_now s + 8) c1)) true.
Proof.
  intros Hs1 Hd Hl Hk. pose proof (behind_slot s w c1 s1 slotted_s Hs1) as Hb. pose proof (be_regs _ _ _ _ Hb) as Hr.
  rewrite (bind_Ret _ _ _ _ _ (slot_run n s w c1 s1 slotted_s Hs1)), bind_get_l. revert Hk Hb Hr. generalize (k_after_slot s1 c1). intros s2 Hk Hb Hr.
  pose proof (k_link_ok dest (pc_now s + 8) s2 ltac:(rewrite Hr, (ks_regs _ _ _ slotted_s); exact Hl)) as Ek.
  rewrite (bind_Ret _ _ _ _ _ Ek), Hr in Hk.
  pose proof (jump_out_continues s (set_regs (linked dest (pc_now s + 8) c1) s2) t) as R.
  assert (k_continues s ((jump t ;;; Cached.finish) (set_regs (linked dest (pc_now s + 8) c1) s2))
    (moved_cpu (u32 t) (linked dest (pc_now s + 8) c1)) true) as R'.
  { apply R; [exact (be_calm _ _ _ _ Hb)|exact (be_count _ _ _ _ Hb)|exact (be_skip _ _ _ _ Hb)|exact (be_devices _ _ _ _ Hb)|exact (proj1 (be_placed _ _ _ _ Hb))|exact Hd]. }
  rewrite (bind_same _ _ (fun _ => Cached.finish) _ _ Hk). exact R'.
Qed.

Lemma slot_link s2 dest :
  regs s2 = c1 -> (dest < 32)%nat ->
  on_regs (set_reg dest (pc_now s + 8) ;;; sign_extended dest) s2 = Ret (tt, set_regs (linked dest (pc_now s + 8) (regs s2)) s2).
Proof. intros Hr Hl. apply k_link_ok. by rewrite Hr, (ks_regs _ _ _ slotted_s). Qed.

(** *** J and JAL *)

Lemma jump_entry (o : Op.variant -> Op.t) :
  (forall p i next e0, translate_at p i w next e0 = translate_jump o (Site w (u32 (page_start p + i * 4)) (page_start p) (next =? 0)) e0) ->
  jump_target_of (pc_now s) (Z.land w 0x3FFFFFF) <> pc_now s ->
  entry_at s 0 (Instr (o Op.OUT) (FJ (Z.land w 0x3FFFFFF))).
Proof.
  intros Ht Hne. destruct (ks_entry _ _ _ slotted_s) as (next & e0 & He). rewrite Ht, (here_addr s w c1 slotted_s) in He.
  unfold translate_jump in He. cbn [t_src t_addr t_check_nop] in He.
  destruct (Z.eqb_spec (jump_target_of (pc_now s) (Z.land w 0x3FFFFFF)) (pc_now s)); [done|exact He].
Qed.

Definition aimed (t : Z) : st := s <| k_code := (k_code s) <| jump_target := u32 t |> |>.

Lemma save_target_ok o : entry_at s 0 (Instr o (FJ (Z.land w 0x3FFFFFF))) ->
  save_target s = Ret (tt, aimed (jump_target_of (pc_now s) (Z.land w 0x3FFFFFF))).
Proof. intros He. unfold save_target. by rewrite (bind_Ret _ _ _ _ _ (at_pc_ok _ _ _ He)). Qed.

Lemma j_continues o t :
  entry_at s 0 (Instr o (FJ (Z.land w 0x3FFFFFF))) -> t = jump_target_of (pc_now s) (Z.land w 0x3FFFFFF) -> direct (u32 t) = true ->
  k_continues s (J_OUT slot s) (moved_cpu (u32 t) c1) true.
Proof.
  intros He -> Hd. set (t := jump_target_of _ _) in *. unfold J_OUT. rewrite (bind_Ret _ _ _ _ _ (save_target_ok o He)). fold t.
  rewrite <- (u32_id (u32 t) (u32_range t)) in Hd |- *. pose proof (behind_slot s w c1 (aimed t) slotted_s k_same_refl) as Hb.
  apply jump_slot_continues; [exact k_same_refl|exact Hd|]. by rewrite (no_skip_behind s w c1 _ Hb).
Qed.

Lemma jal_continues o t :
  entry_at s 0 (Instr o (FJ (Z.land w 0x3FFFFFF))) -> t = jump_target_of (pc_now s) (Z.land w 0x3FFFFFF) -> direct (u32 t) = true ->
  k_continues s (JAL_OUT slot s) (moved_cpu (u32 t) (linked 31 (pc_now s + 8) c1)) true.
Proof.
  intros He -> Hd. set (t := jump_target_of _ _) in *. unfold JAL_OUT. rewrite (bind_Ret _ _ _ _ _ (save_target_ok o He)). fold t.
  rewrite <- (u32_id (u32 t) (u32_range t)) in Hd |- *. pose proof (behind_slot s w c1 (aimed t) slotted_s k_same_refl) as Hb.
  apply link_slot_continues; [exact k_same_refl|exact Hd|lia|]. rewrite (no_skip_behind s w c1 _ Hb).
  assert (pc_now (k_after_slot (aimed t) c1) = pc_now s + 8) as E8 by exact (ks_pc _ _ _ slotted_s).
  assert (jump_target (k_code (k_after_slot (aimed t) c1)) = u32 t) as Et by reflexivity.
  pose proof (slot_link (k_after_slot (aimed t) c1) 31 (be_regs _ _ _ _ Hb) ltac:(lia)) as El.
  revert E8 Et El. generalize (k_after_slot (aimed t) c1). intros s2 E8 Et El. unfold when, link_31.
  rewrite bind_assoc, bind_get_l, E8, !(bind_Ret _ _ _ _ _ El). unfold to_target. rewrite bind_get_l. by rewrite <- Et.
Qed.

(** *** JR and JALR *)

Definition kept (t : Z) : st := s <| k_core := (k_core s) <| local_rs32 := t |> |>.

Lemma jr_continues o f :
  entry_at s 0 (Instr o (FI f)) -> direct (u32 (irs f (regs s))) = true ->
  k_continues s (JR slot s) (moved_cpu (u32 (irs f (regs s))) c1) true.
Proof.
  intros He Hd. assert (i_operands s = Ret (f, s)) as Eo by (unfold i_operands; by rewrite (bind_Ret _ _ _ _ _ (at_pc_ok _ _ _ He))).
  unfold JR. rewrite (bind_Ret _ _ _ _ _ Eo). rewrite <- u32_s32 in Hd |- *.
  pose proof (jump_slot_continues (kept (irs32 f (regs s))) (irs32 f (regs s)) (fun s => jump (local_rs32 (k_core s))) k_same_refl Hd eq_refl) as R.
  exact R.
Qed.

Lemma jalr_continues o f :
  entry_at s 0 (Instr o (FR f)) -> (rd f < 32)%nat -> direct (u32 (irs f (regs s))) = true ->
  k_continues s (JALR slot s) (moved_cpu (u32 (irs f (regs s))) (linked (rd f) (pc_now s + 8) c1)) true.
Proof.
  intros He Hrd Hd. assert (r_operands s = Ret (f, s)) as Eo by (unfold r_operands; by rewrite (bind_Ret _ _ _ _ _ (at_pc_ok _ _ _ He))).
  unfold JALR. rewrite (bind_Ret _ _ _ _ _ Eo). rewrite <- u32_s32 in Hd |- *.
  pose proof (behind_slot s w c1 (kept (rrs32 f (regs s))) slotted_s k_same_refl) as Hb.
  apply (link_slot_continues (kept (rrs32 f (regs s))) (rrs32 f (regs s)) (rd f)); [exact k_same_refl|exact Hd|exact Hrd|].
  rewrite (no_skip_behind s w c1 _ Hb).
  assert (pc_now (k_after_slot (kept (rrs32 f (regs s))) c1) = pc_now s + 8) as E8 by exact (ks_pc _ _ _ slotted_s).
  assert (local_rs32 (k_core (k_after_slot (kept (rrs32 f (regs s))) c1)) = rrs32 f (regs s)) as Et by reflexivity.
  pose proof (slot_link (k_after_slot (kept (rrs32 f (regs s))) c1) (rd f) (be_regs _ _ _ _ Hb) Hrd) as El.
  revert E8 Et El. generalize (k_after_slot (kept (rrs32 f (regs s))) c1). intros s2 E8 Et El. unfold when.
  rewrite E8, !(bind_Ret _ _ _ _ _ El), bind_get_l. by rewrite <- Et.
Qed.
End Jumps.

Lemma branch_kinds w c b :
  branch_of w c = Some b ->
  (exists X, relative_op w = Some X) \/ Z.land (Z.shiftr w 26) 0x3F = 2 \/ Z.land (Z.shiftr w 26) 0x3F = 3 \/
  (Z.land (Z.shiftr w 26) 0x3F = 0 /\ (Z.land w 0x3F = 8 \/ Z.land w 0x3F = 9)).
Proof.
  unfold branch_of, relative_op. cbv zeta.
  destruct (Z.land (Z.shiftr w 26) 0x3F) as [|q|]; [|do 5 (try destruct q as [q|q|])|]; intros Hb; try discriminate Hb; eauto 7.
  - destruct (Z.land w 0x3F) as [|q|]; [|do 4 (try destruct q as [q|q|])|]; try discriminate Hb; eauto 7.
  - destruct (Z.land (Z.shiftr w 16) 0x1F) as [|q|]; [|do 3 (try destruct q as [q|q|])|]; try discriminate Hb; eauto.
Qed.

Lemma jump_translated w o :
  Z.land (Z.shiftr w 26) 0x3F = 2 /\ o = Op.J \/ Z.land (Z.shiftr w 26) 0x3F = 3 /\ o = Op.JAL ->
  forall p i next e0, translate_at p i w next e0 = translate_jump o (Site w (u32 (page_start p + i * 4)) (page_start p) (next =? 0)) e0.
Proof.
  intros [[Ek ->]|[Ek ->]] p i next e0; unfold translate_at, recompile_op; cbn [t_src]; rewrite Ek, (not_in_table w _ Ek) by done; reflexivity.
Qed.

Lemma register_jump_translated w :
  Z.land (Z.shiftr w 26) 0x3F = 0 -> forall p i next e0,
  (Z.land w 0x3F = 8 -> translate_at p i w next e0 = Instr Op.JR (FI (i_type w))) /\
  (Z.land w 0x3F = 9 -> translate_at p i w next e0 = Instr Op.JALR (FR (r_type w))).
Proof.
  intros Ek p i next e0. split; intros Ej; unfold translate_at, recompile_op; cbn [t_src]; rewrite Ek.
  all: assert (compile w = None) as -> by (unfold compile; cbv zeta; rewrite Ek, Ej; reflexivity).
  all: cbn [control_op]; unfold RSPECIAL_control; cbn [t_src]; rewrite Ej; reflexivity.
Qed.

Lemma j_target s w c1 :
  k_slotted s w c1 ->
  u32 (jump_target_of (pc_now s) (Z.land w 0x3FFFFFF)) = (pc_now s + 4) / 2 ^ 28 * 2 ^ 28 + 4 * (w mod 2 ^ 26).
Proof. intros Hs. exact (region_target w _ (ks_here _ _ _ Hs) (ks_next _ _ _ Hs)). Qed.

Lemma j_elsewhere s w c1 :
  k_slotted s w c1 -> u32 (jump_target_of (pc_now s) (Z.land w 0x3FFFFFF)) <> pc_now s ->
  jump_target_of (pc_now s) (Z.land w 0x3FFFFFF) <> pc_now s.
Proof.
  intros Hs Hne E. apply Hne. rewrite E. apply u32_id. destruct (ks_here _ _ _ Hs) as (Hlo & Hhi & _). unfold is_u32. lia.
Qed.

Lemma exec_entry n s e : entry_at s 0 e -> CachedOps.exec (S n) s = run_entry (CachedOps.exec n) e s.
Proof. intros He. cbn [CachedOps.exec]. by rewrite (bind_Ret _ _ _ _ _ (at_pc_ok _ _ _ He)). Qed.

Lemma k_jumps_continue n s w c1 b :
  k_slotted s w c1 -> branch_of w (regs s) = Some b -> b_target b <> pc_now s -> direct (b_target b) = true ->
  Z.land (Z.shiftr w 26) 0x3F = 2 \/ Z.land (Z.shiftr w 26) 0x3F = 3 ->
  k_continues s (CachedOps.exec (S (S n)) s) (after_branch b (regs s) c1) (counts_branch w b).
Proof.
  intros Hs Hb Hne Hd Hk. unfold branch_of in Hb. cbv zeta in Hb. change (pc (regs s)) with (pc_now s) in Hb. rewrite <- (j_target s w c1 Hs) in Hb.
  destruct Hk as [Ek|Ek]; rewrite Ek in Hb; apply (inj Some) in Hb; subst b; cbn [b_target] in Hne, Hd; apply (j_elsewhere s w c1 Hs) in Hne.
  - pose proof (jump_entry s w c1 Hs Op.J (jump_translated w _ (or_introl (conj Ek eq_refl))) Hne) as He.
    rewrite (exec_entry _ _ _ He). exact (j_continues n s w c1 Hs _ _ He eq_refl Hd).
  - pose proof (jump_entry s w c1 Hs Op.JAL (jump_translated w _ (or_intror (conj Ek eq_refl))) Hne) as He.
    rewrite (exec_entry _ _ _ He). exact (jal_continues n s w c1 Hs _ _ He eq_refl Hd).
Qed.

Lemma k_register_jumps_continue n s w c1 b :
  k_slotted s w c1 -> branch_of w (regs s) = Some b -> direct (b_target b) = true ->
  Z.land (Z.shiftr w 26) 0x3F = 0 -> Z.land w 0x3F = 8 \/ Z.land w 0x3F = 9 ->
  k_continues s (CachedOps.exec (S (S n)) s) (after_branch b (regs s) c1) (counts_branch w b).
Proof.
  intros Hs Hb Hd Ek Hj. destruct (ks_entry _ _ _ Hs) as (next & e0 & He).
  destruct (register_jump_translated w Ek (PC_block (k_code s)) ((pc_now s - page_start (PC_block (k_code s))) / 4) next e0) as [T8 T9].
  unfold branch_of in Hb. cbv zeta in Hb. rewrite Ek in Hb.
  destruct Hj as [Ej|Ej]; rewrite Ej in Hb; apply (inj Some) in Hb; subst b; cbn [b_target] in Hd.
  - rewrite (T8 Ej) in He. rewrite (exec_entry _ _ _ He). exact (jr_continues n s w c1 Hs _ _ He Hd).
  - rewrite (T9 Ej) in He. rewrite (exec_entry _ _ _ He). exact (jalr_continues n s w c1 Hs _ _ He (rd_small w) Hd).
Qed.

(** Every branch and jump, one step of the interpreter. *)
Lemma k_branches_continue n s w c1 b :
  k_slotted s w c1 -> g_vr_beq_ignore_jmp (k_core s) = false -> branch_of w (regs s) = Some b ->
  b_target b <> pc_now s -> (b_taken b = true -> direct (b_target b) = true) ->
  exists s', CachedOps.step (2 + n) s = Ret (tt, s') /\ regs s' = after_branch b (regs s) c1 /\ last_addr (mach s') = pc (regs s') /\
    Count (mach s') = count_behind (mach s) (pc_now s) (counts_branch w b) /\ g_vr_beq_ignore_jmp (k_core s') = false /\
    k_devices s s' /\ well_placed s'.
Proof.
  intros Hs Hg Hb Hne Hd.
  assert (k_continues s (CachedOps.exec (2 + n) s) (after_branch b (regs s) c1) (counts_branch w b)) as (s' & Hr & Hc & Hl & Hn & Hv & Hw).
  { pose proof Hb as Hb'. destruct (branch_kinds w _ b Hb) as [[X Hx]|Hk]; [by eapply k_relative_continues|].
    assert (b_taken b = true) as Ht.
    { unfold branch_of in Hb'. cbv zeta in Hb'.
      destruct Hk as [Ek|[Ek|(Ek & [Ej|Ej])]]; rewrite Ek, ?Ej in Hb'; apply (inj Some) in Hb'; subst b; reflexivity. }
    destruct Hk as [Ek|[Ek|(Ek & Hj)]]; [by apply (k_jumps_continue n s w c1 b); auto..|by apply (k_register_jumps_continue n s w c1 b); auto]. }
  exists (s' <| k_core := (k_core s') <| g_vr_beq_ignore_jmp := false |> |>). rewrite <- Hc in Hl.
  split; [|split; [exact Hc|split; [exact Hl|split; [exact Hn|split; [reflexivity|split; [exact Hv|exact Hw]]]]]].
  unfold CachedOps.step. by rewrite (bind_Ret _ _ _ _ _ Hr).
Qed.
End Steps.
