(* ===== verification/CoresProps.v ===== *)
(** * The two interpreters agree

    The pure and the cached interpreter, started in states that correspond, run
    integer instructions, branches and jumps alike and stay in states that
    correspond, [Count] included. *)

From S2P Require Import Prelude Queue Pool Machine Exception Alu AluProps Tlb DeviceState Core Bus BusProps LoadStore LoadStoreProps Cop Interp InterpProps Translate CodeCache Cached CachedOps CodeProps BlockProps CachedProps.

Open Scope prog_scope.
#[local] Open Scope Z_scope.

Section Cores.
Context {Q : Type} `{EventQueue Q} `{Devices Q} `{Fpu Q} `{CachedFpu Q} `{PageHash}.
Implicit Types (sp : core Q) (sk : cached Q).

(** What the two interpreters keep in common. *)
Record in_step sp sk : Prop := {
  is_pure : interpcore (c_mach sp) = true;
  is_cached : interpcore (mach sk) = false;
  is_regs : regs sk = get_cpu sp;
  is_ram : rdram (k_core sk) = rdram sp;
  is_last : last_addr (mach sk) = last_addr (c_mach sp);
  is_count : Count (mach sk) = Count (c_mach sp);
  is_queue : irq_queue (mach sk) = irq_queue (c_mach sp);
  is_skip : skip_jump (c_mach sp) = 0 /\ skip_jump (mach sk) = 0;
  is_flag : g_vr_beq_ignore_jmp sp = false /\ g_vr_beq_ignore_jmp (k_core sk) = false;
  is_placed : well_placed sk;
}.

(** Entry [k] behind [PC] is the translation of [w]. *)
Definition translated_here sk (k w : Z) : Prop :=
  let p := PC_block (k_code sk) in
  exists next e0, entry_at sk k (translate_at p ((pc_now sk - page_start p) / 4 + k) w next e0).

(** The word [w], executed in [c] with the result [c1], may name register 0 as its
    destination only when it changes nothing but the program counter, as a NOP does: the
    pure interpreter writes register 0, the cached one does not. *)
Definition spares_zero (w : Z) (c c1 : cpu) : Prop :=
  destination w = Some 0%nat -> c1 = c <| pc := u32 (pc c + 4) |>.

(** The instruction at the program counter is an integer instruction, or one of the
    branches and jumps of [branch_of] with an integer instruction behind it; the cached
    interpreter has it translated.  Changing register 0 is left out, and so are branches
    to themselves. *)
Variant runs_alike sp sk : Prop :=
  | Straight m c :
      in_ram (pc_of sp) -> translated_here sk 0 (ram_word sp (pc_of sp)) ->
      pure_step (ram_word sp (pc_of sp)) = Some m -> m (get_cpu sp) = Ret (tt, c) ->
      spares_zero (ram_word sp (pc_of sp)) (get_cpu sp) c -> pc c = pc_of sp + 4 ->
      runs_alike sp sk
  | Branches b c1 :
      slotted sp c1 -> 0x80000 <= PC_block (k_code sk) < 0xc0000 ->
      translated_here sk 0 (ram_word sp (pc_of sp)) -> translated_here sk 1 (ram_word sp (pc_of sp + 4)) ->
      spares_zero (ram_word sp (pc_of sp + 4)) ((get_cpu sp) <| pc := pc_of sp + 4 |>) c1 ->
      branch_of (ram_word sp (pc_of sp)) (get_cpu sp) = Some b -> b_target b <> pc_of sp ->
      (b_taken b = true -> direct (b_target b) = true) ->
      runs_alike sp sk.

Lemma in_step_pc sp sk : in_step sp sk -> pc_now sk = pc_of sp.
Proof. intros Hi. exact (f_equal pc (is_regs _ _ Hi)). Qed.

(** An integer instruction as the cached interpreter keeps it. *)
Lemma integer_entry p i w next e0 m c c1 :
  pure_step w = Some m -> m c = Ret (tt, c1) -> spares_zero w c c1 ->
  exists fn f, (translate_at p i w next e0 = Instr (Op.INTEGER fn) (FI f) \/ translate_at p i w next e0 = Instr (Op.INTEGER fn) (FR f)) /\
    fn f c = Ret (tt, c1).
Proof.
  intros Hm Hr Hz. pose proof (steps_agree w c) as Ha. rewrite Hm in Ha. unfold cached_step in Ha.
  destruct (compile w) as [[fn f]|] eqn:Ec; [|done]. cbn [mbind option_bind] in Ha. exists fn, f. split.
  - unfold translate_at, recompile_op. cbn [t_src]. rewrite Ec. clear. destruct (_ =? 0); auto.
  - case_bool_decide as Hd; rewrite Ha; [by rewrite (Hz Hd)|exact Hr].
Qed.

(** ** Integer instructions *)

Lemma straight_pure n sp m c :
  in_ram (pc_of sp) -> pure_step (ram_word sp (pc_of sp)) = Some m -> m (get_cpu sp) = Ret (tt, c) ->
  Interp.step (S n) sp = Ret (tt, put_cpu c (sp <| vr_op := ram_word sp (pc_of sp) |>) <| g_vr_beq_ignore_jmp := false |>).
Proof.
  intros Ha Hm Hr. unfold Interp.step. rewrite (bind_Ret _ _ _ _ _ (prefetch_ram 1 sp Ha)), bind_get_l.
  change (vr_op (sp <| vr_op := ram_word sp (pc_of sp) |>)) with (ram_word sp (pc_of sp)).
  rewrite InterpProps.exec_unfold. unfold dispatch. rewrite Hm.
  eapply eq_trans; [eapply bind_Ret, on_cpu_ok, Hr|]. reflexivity.
Qed.

Lemma straight_cached n sk w m c :
  translated_here sk 0 w -> pure_step w = Some m -> m (regs sk) = Ret (tt, c) -> spares_zero w (regs sk) c ->
  CachedOps.step (S n) sk = Ret (tt, (set_regs c sk) <| k_core := (k_core (set_regs c sk)) <| g_vr_beq_ignore_jmp := false |> |>).
Proof.
  intros (next & e0 & He) Hm Hr Hz.
  destruct (integer_entry (PC_block (k_code sk)) ((pc_now sk - page_start (PC_block (k_code sk))) / 4 + 0) w next e0 m _ c Hm Hr Hz) as (fn & f & Hf & Ef).
  unfold CachedOps.step. by rewrite (bind_Ret _ _ _ _ _ (exec_integer n sk _ fn f c He Hf Ef)).
Qed.

Lemma straight_agrees n sp sk m c :
  in_step sp sk -> in_ram (pc_of sp) -> translated_here sk 0 (ram_word sp (pc_of sp)) ->
  pure_step (ram_word sp (pc_of sp)) = Some m -> m (get_cpu sp) = Ret (tt, c) ->
  spares_zero (ram_word sp (pc_of sp)) (get_cpu sp) c -> pc c = pc_of sp + 4 ->
  exists sp' sk', Interp.step (S n) sp = Ret (tt, sp') /\ CachedOps.step (S n) sk = Ret (tt, sk') /\ in_step sp' sk'.
Proof.
  intros Hi Ha Ht Hm Hr Hz Hpc. pose proof Hr as Hr'. rewrite <- (is_regs _ _ Hi) in Hr', Hz.
  eexists _, _. split; [by eapply straight_pure|]. split; [by eapply straight_cached|].
  destruct Hi as [Hp Hk Hg Hram Hl Hn Hq [Hs1 Hs2] _ (Hok & He & Hb)]. pose proof (f_equal pc Hg) as Epc.
  change (pc_now sk = pc_of sp) in Epc.
  constructor; [exact Hp|exact Hk|by destruct c|exact Hram|exact Hl|exact Hn|exact Hq|exact (conj Hs1 Hs2)|done|].
  split; [exact Hok|]. split; [exact He|]. change (page_start (PC_block (k_code sk)) <= pc c). lia.
Qed.

(** ** Branches and jumps *)

Lemma in_step_slotted sp sk c1 :
  in_step sp sk -> slotted sp c1 -> 0x80000 <= PC_block (k_code sk) < 0xc0000 ->
  translated_here sk 0 (ram_word sp (pc_of sp)) -> translated_here sk 1 (ram_word sp (pc_of sp + 4)) ->
  spares_zero (ram_word sp (pc_of sp + 4)) ((get_cpu sp) <| pc := pc_of sp + 4 |>) c1 ->
  k_slotted sk (ram_word sp (pc_of sp)) c1.
Proof.
  intros Hi [_ Hh Hn (m & Hm & Hr) Hpc Hl Hc Hc'] Hp (nx0 & e0 & He0) (nx1 & e1 & He1) Hz. pose proof (in_step_pc _ _ Hi) as Epc.
  destruct Hi as [_ Hk Hg _ Hlast Hcount Hq [_ Hs2] _ (Hok & _ & Hb)].
  assert (next_interrupt_of (mach sk) = next_interrupt_of (c_mach sp)) as En by (unfold next_interrupt_of; by rewrite Hq).
  constructor; [exact Hk|exact Hs2|exact Hok|by rewrite Epc|by rewrite Epc|exact Hb|exact Hp| | |by rewrite Epc|exact Hl| |].
  - exists nx0, e0. unfold entry_at in *. rewrite Z.add_0_r in *. exact He0.
  - destruct (integer_entry (PC_block (k_code sk)) ((pc_now sk - page_start (PC_block (k_code sk))) / 4 + 1) _ nx1 e1 m _ c1 Hm Hr Hz) as (fn & f & Hf & Ef).
    eexists _, fn, f. split; [exact He1|]. split; [exact Hf|]. rewrite Hg, Epc. exact Ef.
  - unfold CachedProps.calm. rewrite En, Hcount. exact Hc.
  - by rewrite En, Hcount, Hlast, Epc.
Qed.

Lemma branches_agree n sp sk b c1 :
  in_step sp sk -> slotted sp c1 -> k_slotted sk (ram_word sp (pc_of sp)) c1 ->
  branch_of (ram_word sp (pc_of sp)) (get_cpu sp) = Some b -> b_target b <> pc_of sp ->
  (b_taken b = true -> direct (b_target b) = true) ->
  exists sp' sk', Interp.step (2 + n) sp = Ret (tt, sp') /\ CachedOps.step (2 + n) sk = Ret (tt, sk') /\ in_step sp' sk'.
Proof.
  intros Hi Hs Hks Hb Hne Hd. pose proof (in_step_pc _ _ Hi) as Epc.
  destruct Hi as [Hp Hk Hg Hram Hlast Hcount Hq [Hs1 Hs2] [Hf1 Hf2] _].
  destruct (branches_continue n sp c1 b Hs Hs1 Hf1 Hb Hne) as (sp' & Hr1 & Hc1 & Hl1 & Hn1 & Hx1 & (D1 & _ & _ & D4 & D5 & D6)).
  rewrite <- Hg in Hb. rewrite <- Epc in Hne.
  destruct (k_branches_continue n sk _ c1 b Hks Hf2 Hb Hne Hd) as (sk' & Hr2 & Hc2 & Hl2 & Hn2 & Hx2 & (E1 & _ & _ & E4 & E5 & E6) & Hw).
  exists sp', sk'. split; [exact Hr1|]. split; [exact Hr2|]. rewrite Hg in Hc2.
  assert (regs sk' = get_cpu sp') as Eg by congruence.
  constructor; [congruence|congruence|exact Eg|congruence| | |congruence|split; congruence|split; assumption|exact Hw].
  - by rewrite Hl2, Hl1, Eg.
  - rewrite Hn2, Hn1. unfold count_behind. by rewrite Hcount, Hlast, Epc.
Qed.

(** C24.  The cached interpreter is a correct replacement for the pure one on integer
    code: in states that correspond (the same registers, program counter, memory, Count,
    last counted address and pending interrupts), with the code at the program counter
    translated and no interrupt due, both execute an integer instruction, or one of BEQ,
    BNE, BLEZ, BGTZ, BLTZ, BGEZ and their likely forms, J, JAL, JR and JALR with an
    integer instruction or a NOP in its delay slot, in one step, without a fault, and end
    in states that correspond.  Left out are instructions that would change register 0
    (on which the two differ), branches to themselves, taken branches that leave the
    direct-mapped segments, the linking branches and those on coprocessor 1. *)
Theorem cores_agree n sp sk :
  in_step sp sk -> runs_alike sp sk ->
  exists sp' sk', Interp.step (2 + n) sp = Ret (tt, sp') /\ CachedOps.step (2 + n) sk = Ret (tt, sk') /\ in_step sp' sk'.
Proof.
  intros Hi [m c Ha Ht Hm Hr Hz Hpc|b c1 Hs Hp Ht Ht1 Hz Hb Hne Hdir].
  - by apply (straight_agrees (S n) sp sk m c).
  - apply (branches_agree n sp sk b c1); try done. by apply in_step_slotted.
Qed.
End Cores.

(** ** Examples *)

(** A cache with the block of one page. *)
Definition one_block (p : Z) (es : gmap Z precomp_instr) : code_cache :=
  Cache {[p := Block (Some es) None]} {[p := false]} p p 0.

Lemma one_block_ok p es : full es -> cache_ok (one_block p es).
Proof.
  intros Hf. split.
  - intros q b es' Eb Ee. cbn in Eb. apply lookup_singleton_Some in Eb as [_ <-]. apply (inj Some) in Ee. by subst es'.
  - intros q Hq _. unfold is_invalid in Hq. cbn in Hq. destruct (decide (q = p)) as [->|Hne].
    + exists (Block (Some es) None), es. cbn. by rewrite lookup_singleton_eq.
    + by rewrite lookup_singleton_ne in Hq.
Qed.

Lemma one_block_entry p es i e : es !! i = Some e -> entry p i (one_block p es) = Ret e.
Proof. intros E. unfold entry, one_block. cbn [blocks]. rewrite lookup_singleton_eq. cbn [entries]. by rewrite E. Qed.

Lemma full_insert i e es : 0 <= i < ARRAY -> full es -> full (<[i := e]> es).
Proof.
  intros Hi [H1 H2]. split; intros j; (destruct (decide (i = j)) as [->|Hne];
    [rewrite lookup_insert_eq|rewrite lookup_insert_ne by done]); eauto.
Qed.

(** The entries of a page whose first instructions are [ws]. *)
Fixpoint with_words (p i : Z) (ws : list Z) (es : gmap Z precomp_instr) : gmap Z precomp_instr :=
  match ws with
  | [] => es
  | w :: ws => <[i := translate_at p i w (default 0 (head ws)) (Instr Op.NOTCOMPILED Unset)]> (with_words p (i + 1) ws es)
  end.

#[local] Existing Instance silent_devices.
#[local] Instance no_float : Fpu irq := { fpu_op _ := ret tt }.
#[local] Instance no_cached_float : CachedFpu irq := { float_op _ _ _ _ := ret tt }.
#[local] Instance no_hash : PageHash := { xxh64 _ := 0 }.

(** The state of the cached interpreter that corresponds to [program_core]. *)
Definition program_cached (op1 op2 : Z) : cached irq :=
  let s := program_core op1 op2 in
  Cached (s <| c_mach := (c_mach s) <| interpcore := false |> <| PC_addr := 0x80001000 |> |>)
    (one_block 0x80001 (with_words 0x80001 0 [op1; op2] (fresh_entries 1024))).

Lemma program_in_step op1 op2 : in_step (program_core op1 op2) (program_cached op1 op2).
Proof.
  constructor; [reflexivity|reflexivity|reflexivity|reflexivity|reflexivity|reflexivity|reflexivity|done|done|].
  split; [|split; [|done]].
  - apply one_block_ok. cbn [with_words]. apply full_insert; [done|]. apply full_insert; [done|]. exact (reset_full None ltac:(done)).
  - by do 2 eexists.
Qed.

Lemma program_translated op1 op2 :
  translated_here (program_cached op1 op2) 0 op1 /\ translated_here (program_cached op1 op2) 1 op2.
Proof.
  split.
  - exists op2, (Instr Op.NOTCOMPILED Unset). apply (one_block_entry 0x80001 _ 0). cbn [with_words]. apply lookup_insert_eq.
  - exists 0, (Instr Op.NOTCOMPILED Unset). apply (one_block_entry 0x80001 _ 1). cbn [with_words].
    rewrite lookup_insert_ne by done. apply lookup_insert_eq.
Qed.

(** BNE $4, $0, +5 with a NOP behind it. *)
Lemma cores_agree_witness :
  exists sp' sk', Interp.step 2 (program_core 0x14800005 0) = Ret (tt, sp') /\
    CachedOps.step 2 (program_cached 0x14800005 0) = Ret (tt, sk') /\ in_step sp' sk'.
Proof.
  apply (cores_agree 0 (program_core 0x14800005 0) (program_cached 0x14800005 0)); [apply program_in_step|].
  apply (Branches _ _ (Branching true 0x80001018 false None)
    (Cpu (<[4%nat := 7]> (replicate 32 0)) 0 0 0x80001008 false)); [|done|..|done|done].
  - constructor; [reflexivity|by vm_compute|by vm_compute|eexists; split; reflexivity|reflexivity..].
  - exact (proj1 (program_translated 0x14800005 0)).
  - exact (proj2 (program_translated 0x14800005 0)).
  - intros _. by vm_compute.
  - reflexivity.
Defined.
