(* ===== verification/CoherenceProps.v ===== *)
(** * The code cache stays sound, and follows memory

    From [init_blocks] on, nothing the emulator does with the code cache faults, and
    the pages it believes to be valid have their entries; a block translation gives
    the instructions of memory; a store through the segment the code runs in is
    noticed.  The cases in which the array overflows or a store is not noticed are
    stated as well. *)

From S2P Require Import Prelude Hoare Queue Pool Machine Exception Alu AluProps Tlb DeviceState Core Bus BusProps LoadStore Cop Interp InterpProps Translate CodeCache Cached CachedOps CodeProps BlockProps CachedProps CoresProps.

Open Scope prog_scope.
#[local] Open Scope Z_scope.

(** ** What happens to the cache *)

Variant cache_call : Type :=
  | Enter (v2p : Z -> option Z) (a paddr : Z)
  | Stored (a : Z)
  | Transferred (n : nat) (a : Z)
  | Invalidated
  | Translated (v2p : Z -> option Z) (word : Z -> Z) (p func : Z).

Definition run_call (k : cache_call) : M code_cache unit :=
  match k with
  | Enter v2p a paddr => enter_block v2p a paddr
  | Stored a => check_memory a
  | Transferred n a => code_written n a
  | Invalidated => modify (fun c => c <| invalid_code := ∅ |>)
  | Translated v2p word p func => recompile_block v2p (fun i => Ret (word i)) p func
  end.

(** Jumps go to direct-mapped addresses or to pages the TLB maps into these; a page is
    translated when it is valid, and not if it overflows the array. *)
Definition call_ok (k : cache_call) (c : code_cache) : Prop :=
  match k with
  | Enter v2p a paddr => is_u32 a /\ if direct a then paddr = a else translates_page v2p a paddr
  | Translated _ word p _ =>
      direct_page p /\ is_invalid p c = false /\ ends_block (op_at p word 1278) && ends_block (op_at p word 1279) = false
  | _ => True
  end.

(** The caches that come about. *)
Inductive reachable : code_cache -> Prop :=
  | Started v2p c c' : init_blocks v2p c = Ret (tt, c') -> reachable c'
  | Called k c c' : reachable c -> call_ok k c -> run_call k c = Ret (tt, c') -> reachable c'.

Lemma init_blocks_ok v2p c :
  exists c', init_blocks v2p c = Ret (tt, c') /\ cache_ok c' /\ untranslated BOOT_PAGE c' /\ PC_block c' = BOOT_PAGE.
Proof.
  unfold init_blocks. rewrite bind_modify_l. set (c0 := c <| invalid_code := ∅ |> <| blocks := ∅ |>).
  assert (ok_but None c0) as H0 by (split; [intros p b es E; cbn in E; by rewrite lookup_empty in E|intros p Hp; cbn in Hp; done]).
  destruct (ensured_facts BOOT_PAGE c0 None H0) as (H1 & Hb & _ & _).
  rewrite (bind_Ret _ _ _ _ _ (ensure_ok BOOT_PAGE c0)), bind_modify_l. set (c1 := ensured BOOT_PAGE c0) in *.
  assert (ok_but (Some BOOT_PAGE) (c1 <| actual := BOOT_PAGE |>)) as H1'.
  { destruct H1 as [Hf Hv]. split; [exact Hf|]. intros p Hp _. exact (Hv p Hp ltac:(done)). }
  pose proof (init_direct_ok 1 v2p BOOT_PAGE (c1 <| actual := BOOT_PAGE |>) ltac:(done) Hb H1') as W.
  apply wp_exists in W as ([] & c2 & Hrun & Hok & Hu & _).
  rewrite (bind_Ret _ _ _ _ _ Hrun). eexists. split; [reflexivity|]. split; [exact Hok|]. split; [exact Hu|reflexivity].
Qed.

Lemma call_runs k c : cache_ok c -> call_ok k c -> exists c', run_call k c = Ret (tt, c') /\ cache_ok c'.
Proof.
  intros Hok Hk. destruct k as [v2p a paddr|a|n a| |v2p word p func]; cbn [run_call call_ok] in *.
  - destruct Hk as [Ha Hp]. destruct (direct a) eqn:Hd.
    + subst paddr. pose proof (enter_direct_ok v2p a c Ha Hd Hok) as W. apply wp_exists in W as ([] & c' & Hr & Hok' & _). by exists c'.
    + pose proof (enter_mapped_ok v2p a paddr c Ha Hd Hp Hok) as W. apply wp_exists in W as ([] & c' & Hr & Hok' & _). by exists c'.
  - exists (checked a c). split; [by apply check_memory_run|]. exact (more_invalid_ok _ _ (checked_more a c) Hok).
  - pose proof (code_written_ok n a c Hok) as W. apply wp_exists in W as ([] & c' & Hr & Hok' & _). by exists c'.
  - eexists. split; [reflexivity|]. destruct Hok as [Hf Hv]. split; [exact Hf|]. intros p Hp. cbn in Hp. done.
  - destruct Hk as (Hp & Hi & Hs). pose proof (proj2 Hok p Hi ltac:(done)) as He.
    destruct (recompile_ends v2p (fun i => Ret (word i)) p Hp word func c ltac:(done) Hs He) as [c' Hr]. exists c'. split; [done|].
    destruct (recompile_ran v2p (fun i => Ret (word i)) p Hp func c c' He Hr) as (iend & _ & _ & _ & _ & _ & Hsame). by apply Hsame.
Qed.

Lemma reachable_ok c : reachable c -> cache_ok c.
Proof.
  induction 1 as [v2p c0 c Hr|k c0 c _ IH Hk Hr].
  - destruct (init_blocks_ok v2p c0) as (c' & Hr' & Hok & _). rewrite Hr in Hr'. by simplify_eq.
  - destruct (call_runs k c0 IH Hk) as (c' & Hr' & Hok). rewrite Hr in Hr'. by simplify_eq.
Qed.

(** C26.  The code cache stays sound: whatever sequence of jumps (to direct-mapped
    addresses or to pages the TLB maps into these), stores, transfers into RDRAM,
    invalidations and translations of blocks has happened since the blocks were
    initialised, every page that counts as valid has a block with an entry for each of
    its 1024 instructions and none outside its array, and the next such operation
    finishes without a null or out-of-bounds access.  The translations are those of
    blocks of valid, direct-mapped pages that do not have two jumps 254 and 255 words
    into the next page, where translation overruns the array, as shown below;
    translations of pages mapped by the TLB are not covered. *)
Theorem code_cache_safe c :
  reachable c ->
  (forall p, is_invalid p c = false -> exists b es, blocks c !! p = Some b /\ entries b = Some es /\
     (forall i, 0 <= i < 1024 -> is_Some (es !! i)) /\ (forall i, is_Some (es !! i) -> 0 <= i < 1281)) /\
  (forall k, call_ok k c -> exists c', run_call k c = Ret (tt, c') /\ reachable c').
Proof.
  intros Hr. pose proof (reachable_ok c Hr) as Hok. split.
  - intros p Hp. destruct (proj2 Hok p Hp ltac:(done)) as (b & es & Eb & Ee). exists b, es.
    destruct (proj1 Hok p b es Eb Ee) as [F1 F2]. by split_and!.
  - intros k Hk. destruct (call_runs k c Hok Hk) as (c' & Hrun & _). exists c'. split; [done|]. by apply (Called k c).
Qed.

(** ** What a translation gives *)

(** C27.  Translating a block of a valid, direct-mapped page that does not have two jumps
    254 and 255 words into the next page is correct and ends: from the entry it is asked
    for, the entries of the page become the translations of the words of memory, up to an
    instruction control does not run past (the delay slot of a jump, or ERET) or past
    the end of the page, where an entry is placed that leads into the next block; the
    other instructions of the page, and other pages, keep theirs. *)
Theorem translation_correct v2p word p func c :
  cache_ok c -> call_ok (Translated v2p word p func) c ->
  exists c' iend, run_call (Translated v2p word p func) c = Ret (tt, c') /\ in_page func / 4 < iend /\
    (forall j, in_page func / 4 <= j < iend -> exists e0, entry p j c' = Ret (translate_at p j (word j) (word (j + 1)) e0)) /\
    (iend < 1024 -> (exists e, entry p (iend - 1) c' = Ret e /\ ops e = Op.ERET) \/
                    (exists e, entry p (iend - 2) c' = Ret e /\ ends_block (ops e) = true)) /\
    (1024 <= iend -> exists e, entry p iend c' = Ret e /\ ops e = Op.FIN_BLOCK) /\
    (forall j, j < in_page func / 4 \/ (iend <= j < 1024) -> entry p j c' = entry p j c) /\
    (forall q, q <> p -> blocks c' !! q = blocks c !! q) /\ invalid_code c' = invalid_code c.
Proof.
  intros Hok (Hp & Hi & Hs). cbn [run_call]. pose proof (proj2 Hok p Hi ltac:(done)) as He.
  destruct (recompile_ends v2p (fun i => Ret (word i)) p Hp word func c ltac:(done) Hs He) as [c' Hr].
  destruct (recompile_ran v2p (fun i => Ret (word i)) p Hp func c c' He Hr) as (iend & Hlt & Ht & Hc & Hf & Ho & (Hinv & _ & Hb & _)).
  exists c', iend. split; [done|]. split; [done|]. split; [|split; [|split; [|split; [exact Ho|split; [exact Hb|exact Hinv]]]]].
  - intros j Hj. destruct (Ht j Hj) as (src & next & e0 & E1 & E2 & E3). simplify_eq. by exists e0.
  - intros Hl. destruct Hc as [Hc|[(e & E1 & E2)|Hc]]; [change LENGTH with 1024 in Hc; lia|left|by right].
    exists e. split; [done|]. by destruct (ops e).
  - intros Hl. destruct (Hf Hl) as (e & E1 & E2). exists e. split; [done|]. by destruct (ops e).
Qed.

(** C37.  A translation can write behind its array: if control runs through the page
    and 255 instructions of the next one, and the two instructions after these are
    both jumps, the loop is told to go on after it was told to stop, and writes an
    entry past the 1281 that were allocated. *)
Theorem translation_overruns v2p word p func c :
  direct_page p -> p <> BOOT_PAGE -> has_entries p c ->
  (forall j, in_page func / 4 <= j < 1278 -> ends_block (op_at p word j) = false /\ is_ERET (op_at p word j) = false) ->
  ends_block (op_at p word 1278) = true -> ends_block (op_at p word 1279) = true ->
  recompile_block v2p (fun i => Ret (word i)) p func c = Undef OutOfBounds.
Proof.
  intros Hp Hb He Hn E1 E2. apply (recompile_overruns v2p (fun i => Ret (word i)) p Hp word func c); try done.
  intros E. apply Hb. unfold page_start in E. unfold BOOT_PAGE. lia.
Qed.

(** ** Code follows memory *)

Definition is_translation (o : Op.t) : bool :=
  match o with Op.NOTCOMPILED | Op.NOTCOMPILED2 | Op.FIN_BLOCK => false | _ => true end.
Definition is_idle (o : Op.t) : bool :=
  match o with Op.BRANCH _ Op.IDLE | Op.J Op.IDLE | Op.JAL Op.IDLE => true | _ => false end.
Definition jump_word (w : Z) : bool :=
  (Z.land (Z.shiftr w 26) 0x3F =? 2) || ((Z.land (Z.shiftr w 26) 0x3F =? 0) && (Z.land w 0x3F =? 8)).

(** Translations that do not end a block. *)
Definition plain (t : translator) : Prop := forall c e, is_translation (ops (t c e)) = true /\ ends_block (ops (t c e)) = false.

Lemma pick_plain table k : Forall plain table -> plain (pick table k).
Proof.
  intros Ht. unfold pick. destruct (table !! Z.to_nat k) as [t|] eqn:E; [exact (Forall_lookup_1 _ _ _ _ Ht E)|by intros c e].
Qed.

Ltac plain_op := intros ? ?; cbn; unfold i_unless_zero, r_unless_zero, translate_branch; cbn; repeat case_match; by split.
Ltac plain_table := repeat (apply Forall_cons; split; [plain_op|]); apply Forall_nil; exact I.

Lemma small_tables_plain : Forall plain recomp_regimm /\ Forall plain recomp_tlb /\ Forall plain recomp_bc.
Proof. unfold recomp_regimm, recomp_tlb, recomp_bc. split_and!; plain_table. Qed.
Lemma float_tables_plain : Forall plain recomp_s /\ Forall plain recomp_d /\ Forall plain recomp_w /\ Forall plain recomp_l.
Proof. unfold recomp_s, recomp_d, recomp_w, recomp_l. split_and!; plain_table. Qed.
Lemma cop_tables_plain : Forall plain recomp_cop0 /\ Forall plain recomp_cop1.
Proof.
  destruct small_tables_plain as (_ & Ht & Hb). destruct float_tables_plain as (Hs & Hd & Hw & Hl).
  unfold recomp_cop0, recomp_cop1. split; repeat (apply Forall_cons; split;
    [first [plain_op | intros c; first [exact (pick_plain _ _ Ht c)|exact (pick_plain _ _ Hb c)|exact (pick_plain _ _ Hs c)|
       exact (pick_plain _ _ Hd c)|exact (pick_plain _ _ Hw c)|exact (pick_plain _ _ Hl c)]]|]); by apply Forall_nil.
Qed.

Lemma control_plain k : k <> 0 -> k <> 2 -> plain (control_op k).
Proof.
  intros H0 H2. assert (plain RREGIMM) by (intros c; exact (pick_plain _ _ (proj1 small_tables_plain) c)).
  assert (plain RCOP0) by (intros c; exact (pick_plain _ _ (proj1 cop_tables_plain) c)).
  assert (plain RCOP1) by (intros c; exact (pick_plain _ _ (proj2 cop_tables_plain) c)).
  unfold control_op. repeat (case_match; try done; try plain_op).
Qed.

(** Every word becomes an instruction, and only J and JR end a block. *)
Lemma recompile_kind c e :
  is_translation (ops (recompile_op c e)) = true /\ (ends_block (ops (recompile_op c e)) = true -> jump_word (t_src c) = true).
Proof.
  unfold recompile_op, jump_word. destruct (compile (t_src c)) as [[fn f]|]; [done|].
  destruct (decide (Z.land (Z.shiftr (t_src c) 26) 0x3F = 2)) as [->|H2].
  - split; [|done]. cbn. unfold translate_jump. cbn. by repeat case_match.
  - destruct (decide (Z.land (Z.shiftr (t_src c) 26) 0x3F = 0)) as [->|H0].
    + cbn [control_op]. unfold RSPECIAL_control, control_special_op.
      split; [by repeat case_match|]. destruct (Z.eqb_spec (Z.land (t_src c) 0x3F) 8) as [E|E]; [done|]. repeat (case_match; try done).
    + destruct (control_plain _ H0 H2 c e) as [E1 E2]. split; [done|]. by rewrite E2.
Qed.

(** The entry holds something a store would be noticed for. *)
Definition compiled (p i : Z) (c : code_cache) : Prop := exists e, entry p i c = Ret e /\ is_not_compiled (ops e) = false.

(** The words of page [p] are [word]: if the page is valid, what is translated of it is
    translated from them.  An idle loop has been recognised by its delay slot, which is
    translated, too, unless it is itself in the delay slot of a jump or at the end of
    the page. *)
Definition coherent (p : Z) (word : Z -> Z) (c : code_cache) : Prop :=
  is_invalid p c = false -> forall i e, 0 <= i < LENGTH -> entry p i c = Ret e -> is_translation (ops e) = true ->
  exists next e0, e = translate_at p i (word i) next e0 /\
    (is_idle (ops e) = true -> i + 1 < LENGTH ->
     (next = word (i + 1) /\ compiled p (i + 1) c) \/ (jump_word (word (i - 1)) = true /\ compiled p (i - 1) c)).

#[local] Instance Ret_inj A : Inj (=) (=) (@Ret A).
Proof. by intros x y [= ->]. Qed.

Lemma untranslated_coherent p word c : untranslated p c -> coherent p word c.
Proof. intros [_ Hn] _ i e Hi He Ht. destruct (Hn i Hi) as (e' & Ee & Eo). rewrite Ee in He. simplify_eq. by rewrite Eo in Ht. Qed.

Lemma same_block_coherent p word c c' :
  blocks c' = blocks c -> is_invalid p c = false -> coherent p word c -> coherent p word c'.
Proof.
  intros Eb Hi Hc _ i e Hr He Ht. rewrite (entry_blocks _ _ c c' Eb) in He. destruct (Hc Hi i e Hr He Ht) as (next & e0 & E & Hidle).
  exists next, e0. split; [done|]. unfold compiled in *. intros H1 H2. rewrite !(entry_blocks _ _ c c' Eb). auto.
Qed.

(** *** A store *)

Definition stored (i v : Z) (word : Z -> Z) : Z -> Z := fun j => if j =? i then v else word j.

Lemma word_address p i : 0 <= p -> 0 <= i < 1024 -> page (page_start p + 4 * i) = p /\ in_page (page_start p + 4 * i) / 4 = i.
Proof. intros Hp Hi. rewrite page_div, in_page_mod. unfold page_start. Z.div_mod_to_equations. lia. Qed.

Lemma store_coherent p word i v c :
  0 <= p -> 0 <= i < LENGTH -> cache_ok c -> coherent p word c -> coherent p (stored i v word) (checked (page_start p + 4 * i) c).
Proof.
  intros Hp Hi Hok Hc. unfold checked. destruct (word_address p i Hp Hi) as [-> ->].
  destruct (is_invalid p c) eqn:Ei.
  { destruct (entry p i c); cbn [negb andb]; intros Hn; congruence. }
  destruct (entry_exists p i c Hok (proj2 Hok p Ei ltac:(done)) Hi) as [e Ee]. rewrite Ee. cbn [negb andb].
  destruct (is_not_compiled (ops e)) eqn:En; cbn [negb].
  - intros _ j e' Hj He' Ht. destruct (Hc Ei j e' Hj He' Ht) as (next & e0 & E & Hidle).
    assert (j <> i) as Hji by (intros ->; rewrite Ee in He'; apply (inj Ret) in He'; subst e'; by destruct (ops e)).
    assert (forall k, compiled p k c -> k <> i) as Hk by (intros k (ek & E1 & E2) ->; rewrite Ee in E1; apply (inj Ret) in E1; subst ek; congruence).
    exists next, e0. unfold stored. destruct (Z.eqb_spec j i); [done|]. split; [done|]. intros H1 H2. destruct (Hidle H1 H2) as [[Ew Hcm]|[Hj' Hcm]].
    + left. specialize (Hk _ Hcm). destruct (Z.eqb_spec (j + 1) i); [done|]. done.
    + right. specialize (Hk _ Hcm). destruct (Z.eqb_spec (j - 1) i); [done|]. done.
  - intros Hn. rewrite is_invalid_set in Hn. by destruct (decide (p = p)).
Qed.

(** *** A translation *)

Section Follows.
Variables (word : Z -> Z) (p f : Z) (c c' : code_cache) (iend : Z).
Hypothesis ok_c : cache_ok c.
Hypothesis valid_c : is_invalid p c = false.
Hypothesis coherent_c : coherent p word c.
Hypothesis translated_c' : forall j, f <= j < iend -> exists e0, entry p j c' = Ret (translate_at p j (word j) (word (j + 1)) e0).
Hypothesis closed_c' : closed p iend c'.
Hypothesis others_c' : forall j, j < f \/ (iend <= j < LENGTH) -> entry p j c' = entry p j c.

Lemma translation_compiled j : f <= j < iend -> compiled p j c'.
Proof.
  intros Hj. destruct (translated_c' j Hj) as [e0 E]. eexists. split; [exact E|].
  destruct (recompile_kind (Site (word j) (u32 (page_start p + j * 4)) (page_start p) (word (j + 1) =? 0)) e0) as [Ht _].
  unfold translate_at. destruct (ops (recompile_op _ e0)); done.
Qed.

Lemma compiled_kept j : j < LENGTH -> compiled p j c -> compiled p j c'.
Proof.
  intros Hj Hc. destruct (decide (f <= j < iend)) as [Hin|Hout]; [by apply translation_compiled|].
  destruct Hc as (e & E & H1). exists e. split; [|done]. rewrite others_c'; [done|lia].
Qed.

(** The jump in front of the last entry. *)
Lemma closing_jump e :
  iend < LENGTH -> entry p (iend - 2) c' = Ret e -> ends_block (ops e) = true ->
  jump_word (word (iend - 2)) = true /\ compiled p (iend - 2) c'.
Proof.
  intros Hl He Hb. split; [|exists e; split; [done|]; by destruct (ops e)].
  destruct (decide (f <= iend - 2)) as [Hin|Hout].
  - destruct (translated_c' (iend - 2) ltac:(lia)) as [e0 E]. rewrite He in E. apply (inj Ret) in E. rewrite E in Hb.
    unfold translate_at in Hb. by apply recompile_kind in Hb.
  - rewrite others_c' in He by lia. assert (0 <= iend - 2) as H0.
    { destruct (proj2 ok_c p valid_c ltac:(done)) as (b & es & Eb & Ee). destruct (proj1 ok_c p b es Eb Ee) as [_ F].
      unfold entry in He. rewrite Eb, Ee in He. destruct (es !! (iend - 2)) eqn:El; [|done]. destruct (F (iend - 2)); [by eexists|lia]. }
    destruct (coherent_c valid_c (iend - 2) e ltac:(lia) He) as (next & e0 & E & _); [by destruct (ops e)|].
    rewrite E in Hb. unfold translate_at in Hb. by apply recompile_kind in Hb.
Qed.

Lemma translation_coherent : coherent p word c'.
Proof.
  intros _ i e Hi He Ht. destruct (decide (f <= i < iend)) as [Hin|Hout].
  - destruct (translated_c' i Hin) as [e0 E]. rewrite He in E. apply (inj Ret) in E. exists (word (i + 1)), e0. split; [done|].
    intros Hidle Hl. destruct (decide (i + 1 < iend)) as [Hlt|Hge]; [left; split; [done|apply translation_compiled; lia]|].
    assert (i = iend - 1) as -> by lia. destruct closed_c' as [Hc|[(e' & E1 & E2)|(e' & E1 & E2)]]; [lia| |].
    + rewrite He in E1. apply (inj Ret) in E1. subst e'. by destruct (ops e).
    + right. destruct (closing_jump e' ltac:(lia) E1 E2) as [Hj Hcm]. by replace (iend - 1 - 1) with (iend - 2) by lia.
  - rewrite others_c' in He by lia. destruct (coherent_c valid_c i e Hi He Ht) as (next & e0 & E & Hidle). exists next, e0. split; [done|].
    intros H1 H2. destruct (Hidle H1 H2) as [[Ew Hcm]|[Hj Hcm]]; [left|right]; (split; [done|]); (apply compiled_kept; [lia|done]).
Qed.
End Follows.

Lemma translated_follows v2p word p func c :
  cache_ok c -> coherent p word c -> call_ok (Translated v2p word p func) c ->
  exists c', run_call (Translated v2p word p func) c = Ret (tt, c') /\ cache_ok c' /\ coherent p word c'.
Proof.
  intros Hok Hc (Hp & Hi & Hs). cbn [run_call]. pose proof (proj2 Hok p Hi ltac:(done)) as He.
  destruct (recompile_ends v2p (fun i => Ret (word i)) p Hp word func c ltac:(done) Hs He) as [c' Hr].
  destruct (recompile_ran v2p (fun i => Ret (word i)) p Hp func c c' He Hr) as (iend & Hlt & Ht & Hcl & _ & Ho & Hsame).
  exists c'. split; [done|]. split; [by apply Hsame|].
  apply (translation_coherent word p (in_page func / 4) c c' iend Hok Hi Hc); [|exact Hcl|exact Ho].
  intros j Hj. destruct (Ht j Hj) as (src & next & e0 & E1 & E2 & E3). apply (inj Ret) in E1, E2. subst src next. by exists e0.
Qed.

Lemma entered_follows v2p word p a c :
  cache_ok c -> coherent p word c -> is_u32 a -> direct a = true -> page a = p ->
  exists c', enter_block v2p a a c = Ret (tt, c') /\ cache_ok c' /\ PC_block c' = p /\ is_invalid p c' = false /\ coherent p word c'.
Proof.
  intros Hok Hc Ha Hd <-. pose proof (enter_direct_ok v2p a c Ha Hd Hok) as W.
  apply wp_exists in W as ([] & c' & Hr & Hok' & Hp & _ & Hv & Hcase). exists c'. split; [done|]. split; [done|]. split; [done|]. split; [done|].
  destruct (is_invalid (page a) c || is_invalid (mirror_page (page a)) c) eqn:E; [by apply untranslated_coherent|].
  apply orb_false_iff in E as [Ei _]. by apply (same_block_coherent _ _ c).
Qed.

(** C25.  Translated code follows memory: as long as every store to a page is checked
    through the segment the code runs in, no instruction of the page runs that was
    translated from an earlier content: a store of any word keeps the valid
    translations equal to those of the memory after it, and so do the translation of
    a block and a jump into the page, which ends in a valid block. *)
Theorem code_follows_memory word p c :
  cache_ok c -> direct_page p -> coherent p word c ->
  (forall i v, 0 <= i < 1024 -> exists c', check_memory (page_start p + 4 * i) c = Ret (tt, c') /\
     cache_ok c' /\ coherent p (stored i v word) c') /\
  (forall v2p func, call_ok (Translated v2p word p func) c -> exists c',
     run_call (Translated v2p word p func) c = Ret (tt, c') /\ cache_ok c' /\ coherent p word c') /\
  (forall v2p a, is_u32 a -> direct a = true -> page a = p -> exists c',
     enter_block v2p a a c = Ret (tt, c') /\ cache_ok c' /\ PC_block c' = p /\ is_invalid p c' = false /\ coherent p word c').
Proof.
  intros Hok Hp Hc. split; [|split].
  - intros i v Hi. exists (checked (page_start p + 4 * i) c). split; [by apply check_memory_run|].
    split; [exact (more_invalid_ok _ _ (checked_more _ c) Hok)|]. unfold direct_page in Hp. by apply store_coherent; [lia|..].
  - intros v2p func Hk. by apply translated_follows.
  - intros v2p a Ha Hd Hpa. by apply entered_follows.
Qed.

(** *** Stores that go unnoticed *)

Lemma checked_elsewhere a c q : page a <> q \/ (exists e, entry (page a) (in_page a / 4) c = Ret e /\ is_not_compiled (ops e) = true) ->
  is_invalid q (checked a c) = is_invalid q c /\ blocks (checked a c) = blocks c.
Proof.
  intros Hq. split; [|exact (proj1 (checked_more a c))]. unfold checked. destruct (entry (page a) (in_page a / 4) c) as [e|] eqn:E; [|done].
  destruct Hq as [Hne|(e' & [= <-] & En)]; [|by rewrite En, andb_false_r].
  destruct (_ && _); [|done]. rewrite is_invalid_set. by destruct (decide (page a = q)).
Qed.

(** C38.  Some stores are not noticed, and the old instructions run on: a store to the
    word that entry [i] of a valid block was translated from, made through an address
    of another page, leaves the entry in place, also after a jump back into the block.
    That is the case for the entries past the end of a page, which come from the next
    one, and for stores through the uncached segment while that page has nothing
    translated there. *)
Theorem stale_code_survives v2p c p i e a t :
  cache_ok c -> direct_page p -> is_invalid p c = false -> is_invalid (mirror_page p) c = false -> entry p i c = Ret e ->
  (a - (page_start p + 4 * i)) mod 0x20000000 = 0 -> page a <> p ->
  (page a = mirror_page p -> exists e', entry (page a) (in_page a / 4) c = Ret e' /\ ops e' = Op.NOTCOMPILED) ->
  is_u32 t -> page t = p ->
  exists c', (check_memory a ;;; enter_block v2p t t) c = Ret (tt, c') /\ PC_block c' = p /\ is_invalid p c' = false /\ entry p i c' = Ret e.
Proof.
  intros Hok Hp Hv Hvm He _ Hne Hm Ht Hpt. rewrite (bind_Ret _ _ _ _ _ (check_memory_run a c Hok)).
  pose proof (more_invalid_ok _ _ (checked_more a c) Hok) as Hok1.
  destruct (checked_elsewhere a c p ltac:(by left)) as [E1 Eb].
  assert (is_invalid (mirror_page p) (checked a c) = false) as E2.
  { destruct (decide (page a = mirror_page p)) as [E|E].
    - destruct (Hm E) as (e' & Ee & Eo). destruct (checked_elsewhere a c (mirror_page p)) as [-> _]; [|done]. right. exists e'. by rewrite Eo.
    - destruct (checked_elsewhere a c (mirror_page p)) as [-> _]; [by left|done]. }
  assert (direct t = true) as Hd.
  { unfold direct. rewrite page_div in Hpt. unfold direct_page in Hp. apply andb_true_iff. rewrite Z.leb_le, Z.ltb_lt. Z.div_mod_to_equations. lia. }
  pose proof (enter_direct_ok v2p t (checked a c) Ht Hd Hok1) as W. apply wp_exists in W as ([] & c' & Hr & _ & Hpc & _ & Hi & Hcase).
  rewrite Hpt in *. rewrite E1, E2, Hv in Hcase. cbn [orb] in Hcase. exists c'. split; [done|]. split; [done|]. split; [done|].
  rewrite (entry_blocks _ _ c c'); [done|]. by rewrite Hcase, Eb.
Qed.

(** ** Examples *)

(** Address translation that finds nothing. *)
Definition no_tlb : Z -> option Z := fun _ => None.
Definition nothing : code_cache := Cache ∅ ∅ 0 0 0.

(** [init_blocks], and a jump to 0x80001000. *)
Definition entered : code_cache :=
  match (init_blocks no_tlb ;;; run_call (Enter no_tlb 0x80001000 0x80001000)) nothing with Ret (_, c) => c | Undef _ => nothing end.

(** ADDIU $2, $2, 1; JR $31; NOP ... *)
Definition a_page (j : Z) : Z := match j with 0 => 0x24420001 | 1 => 0x03e00008 | _ => 0 end.

Lemma entered_reachable : reachable entered.
Proof.
  destruct (init_blocks_ok no_tlb nothing) as (c1 & R1 & Hok & _). pose proof (Started _ _ _ R1) as H1.
  pose proof (conj (ltac:(done) : is_u32 0x80001000) eq_refl : call_ok (Enter no_tlb 0x80001000 0x80001000) c1) as Hk.
  destruct (call_runs _ _ Hok Hk) as (c2 & R2 & _). unfold entered.
  rewrite (bind_Ret _ _ _ _ _ R1). rewrite R2. exact (Called _ _ _ H1 Hk R2).
Qed.

Lemma entered_valid : is_invalid 0x80001 entered = false /\ is_invalid 0xa0001 entered = false.
Proof. split; vm_compute; reflexivity. Qed.
Lemma translatable_here : call_ok (Translated no_tlb a_page 0x80001 0x80001000) entered.
Proof. split; [done|]. split; [exact (proj1 entered_valid)|]. vm_compute. reflexivity. Qed.

Lemma entered_coherent word : coherent 0x80001 word entered.
Proof.
  destruct (init_blocks_ok no_tlb nothing) as (c1 & R1 & Hok & _).
  assert (is_invalid 0x80001 c1 = true) as Hi.
  { assert (is_invalid 0x80001 (match init_blocks no_tlb nothing with Ret (_, c) => c | Undef _ => nothing end) = true) as E by (vm_compute; reflexivity).
    by rewrite R1 in E. }
  pose proof (enter_direct_ok no_tlb 0x80001000 c1 (ltac:(done) : is_u32 0x80001000) eq_refl Hok) as W.
  apply wp_exists in W as ([] & c2 & R2 & _ & _ & _ & _ & Hu). change (page 0x80001000) with 0x80001 in Hu. rewrite Hi in Hu. cbn [orb] in Hu.
  assert (entered = c2) as ->.
  { unfold entered. rewrite (bind_Ret _ _ _ _ _ R1). cbn [run_call]. by rewrite R2. }
  by apply untranslated_coherent.
Qed.

Lemma start_u32 : is_u32 0x80001000.
Proof. done. Qed.

Lemma entered_mirror : exists e, entry 0xa0001 0 entered = Ret e /\ ops e = Op.NOTCOMPILED.
Proof. eexists. split; vm_compute; reflexivity. Qed.

#[local] Opaque entered.

Lemma code_cache_safe_witness :
  exists c', run_call (Translated no_tlb a_page 0x80001 0x80001000) entered = Ret (tt, c') /\ reachable c'.
Proof. exact (proj2 (code_cache_safe entered entered_reachable) _ translatable_here). Defined.

Lemma translation_correct_witness :
  exists c' e0, run_call (Translated no_tlb a_page 0x80001 0x80001000) entered = Ret (tt, c') /\
    entry 0x80001 0 c' = Ret (translate_at 0x80001 0 0x24420001 0x03e00008 e0).
Proof.
  destruct (translation_correct no_tlb a_page 0x80001 0x80001000 entered (reachable_ok _ entered_reachable) translatable_here)
    as (c' & iend & Hr & Hl & Ht & _). destruct (Ht 0 (conj (Z.le_refl 0) Hl)) as [e0 He].
  exists c', e0. exact (conj Hr He).
Defined.

(** NOPs, and JR $31 twice at the end of the array. *)
Definition overlong (j : Z) : Z := if (j =? 1278) || (j =? 1279) then 0x03e00008 else 0.

Lemma translation_overruns_witness :
  recompile_block no_tlb (fun i => Ret (overlong i)) 0x80001 0x80001000 entered = Undef OutOfBounds.
Proof.
  apply (translation_overruns no_tlb overlong 0x80001 0x80001000 entered).
  - split; done.
  - done.
  - exact (proj2 (reachable_ok _ entered_reachable) 0x80001 (proj1 entered_valid) ltac:(done)).
  - intros j Hj. assert (overlong j = 0) as E.
    { unfold overlong. destruct (Z.eqb_spec j 1278); [lia|]. destruct (Z.eqb_spec j 1279); [lia|]. reflexivity. }
    unfold op_at, translate_at. rewrite E. split; reflexivity.
  - reflexivity.
  - reflexivity.
Defined.

Lemma code_follows_memory_witness :
  exists c', check_memory 0x80001004 entered = Ret (tt, c') /\ cache_ok c' /\ coherent 0x80001 (stored 1 0 a_page) c'.
Proof.
  destruct (code_follows_memory a_page 0x80001 entered (reachable_ok _ entered_reachable)) as [Hs _].
  - split; done.
  - exact (entered_coherent a_page).
  - exact (Hs 1 0 ltac:(lia)).
Defined.

(** A store to the translated ADDIU through the uncached segment. *)
Lemma stale_code_survives_witness :
  exists c e c', entry 0x80001 0 c = Ret e /\ is_translation (ops e) = true /\
    (check_memory 0xa0001000 ;;; enter_block no_tlb 0x80001000 0x80001000) c = Ret (tt, c') /\ entry 0x80001 0 c' = Ret e.
Proof.
  destruct (call_runs _ _ (reachable_ok _ entered_reachable) translatable_here) as (c & Hr & Hok).
  destruct (recompile_ran no_tlb (fun i => Ret (a_page i)) 0x80001 (proj1 translatable_here) 0x80001000 entered c
    (proj2 (reachable_ok _ entered_reachable) 0x80001 (proj1 entered_valid) ltac:(done)) Hr) as (iend & Hl & Ht & _ & _ & _ & (Hi & _ & Hb & _)).
  destruct (Ht 0 (conj (Z.le_refl 0) Hl)) as (src & next & e0 & _ & _ & He).
  assert (forall p, is_invalid p c = is_invalid p entered) as Ei by (intros p; unfold is_invalid; by rewrite Hi).
  destruct (stale_code_survives no_tlb c 0x80001 0 (translate_at 0x80001 0 src next e0) 0xa0001000 0x80001000 Hok) as (c' & Hr' & _ & _ & He').
  - exact (proj1 translatable_here).
  - rewrite Ei. exact (proj1 entered_valid).
  - rewrite Ei. exact (proj2 entered_valid).
  - exact He.
  - reflexivity.
  - discriminate.
  - intros _. destruct entered_mirror as (e' & Ee & Eo). exists e'. split; [|exact Eo]. unfold entry in *.
    rewrite (Hb (page 0xa0001000)) by discriminate. exact Ee.
  - exact start_u32.
  - reflexivity.
  - exists c, (translate_at 0x80001 0 src next e0), c'. split; [exact He|]. split; [apply recompile_kind|]. split; [exact Hr'|exact He'].
Defined.
